(* ===== verification/_CoqProject ===== *)
-Q . S2P
Prelude.v
Common.v
RlpEnc.v
RlpDec.v
Shuffle.v
Chain.v
Era.v
GoMap.v
DelegRules.v
ValOps.v
World.v
StateDB.v
StateRefine.v
Hex.v
TxLog.v
Validator.v
ValStorage.v
ValCache.v
DepositSig.v
ValProcessor.v
ValProcFacts.v
ValInv.v
ValLife.v
ValPay.v
Fees.v
Evm.v
Analysis.v
Machine.v
Instr.v
GasTable.v
JumpTable.v
Interp.v
InterpGas.v
InterpRel.v
EvmCtx.v
InterpFacts.v
InterpType.v
Transition.v
TransFacts.v
InterpTx.v
Supply.v
TokenOps.v
TokenStream.v
TokenSig.v
TokenStorage.v
Token.v
TokenFacts.v
TokenMem.v
Wrc20.v
Wrc20Life.v
TokenEnds.v
TokenTx.v
ValTx.v
