(* ===== verification/Prelude.v ===== *)
(** * Verification of Gwat

    Gwat is the node of the Waterfall network. It descends from go-ethereum: accounts live in a
    state database and transactions run on the virtual machine of Ethereum. Blocks form a graph
    that is ordered by a coordinating network, whose validators are registered by transactions of
    this one, and tokens are a built-in kind of transaction. The development models the part of
    the node that computes states: from the message of a transaction to the accounts that it
    leaves, with the encodings, the validators and the schedule of block creators that this rests
    on. Paths of sources are below src/.

    ** How the parts interact

    A message enters at [ApplyMessage] (Transition.v). The transition checks the nonce and the fees,
    buys gas, finds the type of the transaction from the receiver and the data, and hands it to the
    virtual machine ([Call], [Create], Evm.v), to the validator processor ([ValProcessor.Call]) or
    to the token processor ([TokenProcessor_Call], Token.v); then it refunds gas and pays the
    creator. The three of them work on one world (World.v), the interface vm.StateDB. The virtual
    machine runs byte code with the interpreter (Interp.v), which calls the virtual machine again.
    The validator processor keeps records in the codes of accounts (ValStorage.v), in a binary form
    built on RLP. The creators of a slot are computed from these records, the eras (Era.v) and the
    shuffle (Shuffle.v), through a cache (ValCache.v). The token processor keeps its tokens in the
    slots of accounts, through a stream with a self-describing layout.

    ** Conventions

    - A Go call that may fail gives a [go_res]: [Ok], [Err] with the error value, [Panic] for a
      run-time panic, or [NoFuel] where a loop of the model has run out of fuel. A handler that
      changes state is a computation [stM S A], a function from a state to a result and a state, so
      that the state at an error or a panic is kept. Both are monads, with the do-notation of
      stdpp.
    - [uint64] is [Z] with the wrap-around written out ([u64]), [big.Int] is [Z], a byte array of
      fixed size is [fixed n], a nil pointer is [None] of an option, a Go map is a [gmap] with an
      open order of iteration ([MapRange]).
    - Code that is not part of the sources is a class, with a class of laws where something is
      relied on: hash functions and signatures ([Crypto], [SigScheme]), the bit lists of
      go-bitfield ([Bitlist]), uint256 ([Uint256], [BigConv]), the order of equal elements in
      [sort.Slice] ([SortSlice]), the precompiled contracts ([Precompiles]). Components meet in
      classes too: [Interpreter], [TokenProcessor], [Blockchain], [StorageChain], [Database]; the
      theorems of a client are proved against the laws, and the implementation proves the laws.
    - A theorem with hypotheses is followed by an instance of it on concrete data, and a class by an
      instance that satisfies its laws.

    ** Files

    Data and encodings:
    - Prelude.v (this file): results, the state monad, frames of computations, machine integers,
      byte strings, tactics and hint databases.
    - Common.v, Hex.v: common/types.go, bytes.go, big.go, hexutil.
    - RlpEnc.v, RlpDec.v: rlp/encode.go and rlp/decode.go.
    - GoMap.v: maps, sorting and bit lists as the code uses them.
    - Chain.v: params/config.go, core/types/block_dag.go and dag.go: forks, slots and epochs.

    Validators:
    - Shuffle.v: validator/shuffle. Era.v: validator/era, the database of eras and the era
      methods of core/blockchain.go.
    - DelegRules.v, ValOps.v, DepositSig.v: validator/operation. TxLog.v: validator/txlog.
    - Validator.v, ValStorage.v, ValCache.v: validator/storage (the record, the records in the
      state, the cache and the creators).
    - ValProcessor.v: validator/processor.go. Theorems: ValProcFacts.v, ValInv.v, ValLife.v and
      ValPay.v.

    State and virtual machine:
    - World.v: the interface vm.StateDB as a value of accounts, logs, refund and access list.
      StateDB.v: core/state with its journal. StateRefine.v: the one implements the other.
    - Fees.v: consensus/misc, with big.Float. Evm.v, EvmCtx.v: core/vm/evm.go and core/evm.go.
    - Analysis.v, Machine.v, Instr.v, GasTable.v, JumpTable.v, Interp.v: the interpreter of core/vm.
      Theorems: InterpGas.v, InterpRel.v, InterpFacts.v and InterpType.v.
    - Transition.v: core/state_transition.go and gaspool.go. Theorems: TransFacts.v; InterpTx.v and
      Supply.v for contracts.

    Tokens:
    - TokenOps.v: token/operation. TokenStream.v, TokenSig.v, TokenStorage.v: token/storage.
    - Token.v: token/processor.go. Theorems: TokenFacts.v (what a call keeps), TokenEnds.v (it
      returns), TokenMem.v (fields as ranges of the storage), Wrc20.v and Wrc20Life.v (fungible
      tokens). TokenTx.v puts the processor into the transitions, and ValTx.v has the theorems on
      validator transactions, with that processor deciding what is a token.

    ** What the theorems show

    - Encodings. The RLP encoder with its two buffers computes the recursive definition of RLP; the
      decoder returns on every input, inverts the encoder and accepts nothing else. Operations of
      validators and of tokens and the records of validators are read back from their binary forms,
      with the differences that are stated.
    - Validators. Every reachable state is well formed. A call implements a step of an abstract life
      cycle of one validator and leaves the others alone; the era of an exit never changes again, nor,
      after the fork that tracks operations, the era of an activation. A failing call only counts the nonce. Deposits and payments have the
      effects that are stated; requests need authority and, after the fork, are made one at a time; the
      payouts of a delegated stake stay within the amount, for valid rules and a balance up to the
      effective balance. The theorems are about at most 2^24 calls and operations that are not for
      the state address.
    - Creators. The whole-list shuffle is the swap-or-not shuffle by index. The eras form a chain
      that follows the finalized epoch. The cached queries give what the definition without caches
      gives, and every slot gets its number of distinct active creators.
    - State database. The journal implements worlds with snapshots, for every sequence of operations.
    - Virtual machine. Every execution ends, within its gas; every frame is well formed, with a
      memory that is paid for, and accesses nothing outside of its stack, memory and code: the
      remaining causes of a panic are listed; a jump lands only on instructions; a static call
      changes nothing; codes are never changed or removed.
    - Transactions. The gas of a message and of the pool is accounted for; transfers, deposits and
      failing validator operations have exactly the effects that are stated; in a world
      of contracts without SELFDESTRUCT and creations no message to the virtual machine or to a token
      makes money apart from the reward. A token operation keeps all that the virtual
      machine keeps.
    - Tokens. A call on a WRC-20 token implements a step of an abstract token with balances and
      allowances, and from the creation on the balances add up to the supply. The maps of a token
      are addressed by hashes; the theorems are about lists of addresses whose entries do not
      collide. For WRC-721 tokens there is the model of all operations, and the theorems on all
      calls.
    - Where the code goes wrong. Theorems that end in a panic, an endless loop or money from nothing
      describe the code as it is.

    ** Fuel

    Recursion that is not structural has fuel, and the theorems show that the fuel is enough: the
    gas for the loop of the interpreter and 1025 levels for its calls ([execution_terminates]), the
    length of the data for RLP and for slices of a token's storage, the bytes of the storage that
    are not zero for the signature of a token ([token_calls_return]), the distance of epochs for the
    search of eras. The endless loop of the creators is the exception: no fuel is enough
    ([creators_loop]).

    ** What is not modelled

    The tries and the flat snapshot below the state database, the precompiled contracts and other
    cryptography, insertion of blocks, the block DAG with its creator and finalizer, the pool of
    transactions, the network, RPC and the command line: they are I/O, concurrency or third-party
    functions. Log lines, metrics, tracers and JSON are left out of the parts that are modelled.
    Mutexes are left out: an operation runs at a time. *)

From Stdlib Require Import ZArith Lia Strings.Byte.
From stdpp Require Import base tactics option numbers list gmap strings countable.

Open Scope Z_scope.

(** ** Go results *)

(** An error value of the program: a sentinel, named as the source names it, or a
    sentinel wrapped by [fmt.Errorf] with some context. *)
Inductive error :=
| Error (name : string)
| Wrapped (ctx : string) (e : error).

(** The outcome of a Go call: a value, an error value, a run-time panic (an index or a
    slice out of range, a nil dereference), or a loop of the model that ran out of fuel. *)
Inductive go_res (A : Type) :=
| Ok (a : A)
| Err (e : error)
| Panic
| NoFuel.
Arguments Ok {A} _.
Arguments Err {A} _.
Arguments Panic {A}.
Arguments NoFuel {A}.

#[export] Instance error_eq_dec : EqDecision error.
Proof. solve_decision. Defined.

#[export] Instance go_res_ret : MRet go_res := λ A a, Ok a.

#[export] Instance go_res_bind : MBind go_res := λ A B f m,
  match m with
  | Ok a => f a
  | Err e => Err e
  | Panic => Panic
  | NoFuel => NoFuel
  end.

#[export] Instance go_res_fmap : FMap go_res := λ A B f m, m ≫= λ a, Ok (f a).

(** [if cond { return err }] *)
Definition fail_if (b : bool) (e : error) : go_res unit :=
  if b then Err e else Ok tt.

(** A pointer dereference. *)
Definition deref {A} (p : option A) : go_res A :=
  match p with
  | Some a => Ok a
  | None => Panic
  end.

(** A computation that may change a state and may fail; the state at the point of the
    failure is kept, since the Go code does not undo what it did before it returned. *)
Definition stM (S A : Type) : Type := S → go_res A * S.

#[export] Instance stM_ret {S} : MRet (stM S) := λ A a s, (Ok a, s).

#[export] Instance stM_bind {S} : MBind (stM S) := λ A B f m s,
  match m s with
  | (Ok a, s') => f a s'
  | (Err e, s') => (Err e, s')
  | (Panic, s') => (Panic, s')
  | (NoFuel, s') => (NoFuel, s')
  end.

Definition liftR {S A} (r : go_res A) : stM S A := λ s, (r, s).
Definition getS {S} : stM S S := λ s, (Ok s, s).
Definition gets {S A} (f : S → A) : stM S A := λ s, (Ok (f s), s).
Definition modify {S} (f : S → S) : stM S unit := λ s, (Ok tt, f s).

(** ** Machine integers *)

Definition two64 : Z := 18446744073709551616.
Definition MaxUint64 : Z := 18446744073709551615.

(** A value of type [uint64] after an operation that may wrap around. *)
Definition u64 (z : Z) : Z := z mod two64.
Definition is_u64 (z : Z) : Prop := 0 ≤ z < two64.

(** The conversion to [int64]. *)
Definition i64 (z : Z) : Z := (z + two64 / 2) mod two64 - two64 / 2.

#[export] Instance is_u64_dec z : Decision (is_u64 z).
Proof. unfold is_u64. apply _. Defined.

(** ** Bytes *)

Abbreviation bytes := (list byte).

Definition b2z (b : byte) : Z := Z.of_N (Byte.to_N b).

(** The conversion [byte(z)]: the low eight bits of [z]. *)
Definition z2b (z : Z) : byte :=
  default x00 (Byte.of_N (Z.to_N (z mod 256))).

#[export] Instance byte_eq_dec : EqDecision byte := Byte.byte_eq_dec.

(** The number a big-endian byte string spells, and the [n] low bytes of a number. *)
Definition be_val (l : bytes) : Z := foldl (λ acc b, acc * 256 + b2z b) 0 l.

Fixpoint be_bytes (n : nat) (z : Z) : bytes :=
  match n with
  | O => []
  | S n' => z2b (Z.shiftr z (8 * Z.of_nat n')) :: be_bytes n' z
  end.

(** The little-endian ones. *)
Fixpoint le_val (l : bytes) : Z :=
  match l with
  | [] => 0
  | b :: t => b2z b + 256 * le_val t
  end.

Fixpoint le_bytes (n : nat) (z : Z) : bytes :=
  match n with
  | O => []
  | S n' => z2b z :: le_bytes n' (Z.shiftr z 8)
  end.

(** The least number of bytes that hold [z], and [big.Int.Bytes], which drops the sign. *)
Definition nbytes (z : Z) : nat :=
  if z <=? 0 then O else Z.to_nat (Z.log2 z / 8 + 1).

Definition big_bytes (z : Z) : bytes := be_bytes (nbytes (Z.abs z)) (Z.abs z).

(** [s[lo:hi]] and [s[i]]. Go allows [hi] up to the capacity of a slice. The bound here is the length:
    the model has no spare capacity, as in slices that are copied or read from a database. *)
Definition go_slice {A} (lo hi : nat) (s : list A) : go_res (list A) :=
  if (Nat.leb lo hi) && (Nat.leb hi (length s))
  then Ok (take (hi - lo) (drop lo s)) else Panic.

Definition go_index {A} (s : list A) (i : nat) : go_res A := deref (s !! i).

(** Linear arithmetic with divisions by constants. *)
Ltac dlia := Z.to_euclidean_division_equations; lia.

(** ** Lemmas on results *)

Create HintDb gwat.

Lemma bind_Ok {A B} (m : go_res A) (f : A → go_res B) b :
  m ≫= f = Ok b ↔ ∃ a, m = Ok a ∧ f a = Ok b.
Proof.
  split.
  - destruct m as [a| | |]; simpl; intros H; [by exists a|discriminate..].
  - by intros (a & -> & H).
Qed.

Lemma Ok_bind {A B} (a : A) (f : A → go_res B) : Ok a ≫= f = f a.
Proof. done. Qed.

(** Running a computation with a state, one step at a time. *)
Lemma getS_bind {S A} (f : S → stM S A) s : (getS ≫= f) s = f s s.
Proof. done. Qed.

Lemma liftR_Ok_bind {S A B} (a : A) (f : A → stM S B) s : (liftR (Ok a) ≫= f) s = f a s.
Proof. done. Qed.

Lemma liftR_Err_bind {S A B} e (f : A → stM S B) s : (liftR (Err e) ≫= f) s = (Err e, s).
Proof. done. Qed.

Lemma liftR_Panic_bind {S A B} (f : A → stM S B) s : (liftR Panic ≫= f) s = (Panic, s).
Proof. done. Qed.

Lemma modify_bind {S A} g (f : unit → stM S A) s : (modify g ≫= f) s = f tt (g s).
Proof. done. Qed.

Lemma stM_Ok_bind {S A B} (m : stM S A) (f : A → stM S B) s a s' :
  m s = (Ok a, s') → (m ≫= f) s = f a s'.
Proof. intros H. unfold mbind, stM_bind. by rewrite H. Qed.

Lemma stM_bind_inv {S A B} (m : stM S A) (f : A → stM S B) s b s' :
  (m ≫= f) s = (Ok b, s') → ∃ a s1, m s = (Ok a, s1) ∧ f a s1 = (Ok b, s').
Proof.
  unfold mbind, stM_bind. destruct (m s) as [[a| | |] s1]; intros H; simplify_eq. by exists a, s1.
Qed.

Lemma liftR_inv {S A} (r : go_res A) (s : S) a s' : liftR r s = (Ok a, s') → r = Ok a ∧ s' = s.
Proof. unfold liftR. intros H. by simplify_eq. Qed.

Lemma getS_inv {S} (s a s' : S) : getS s = (Ok a, s') → a = s ∧ s' = s.
Proof. unfold getS. intros H. by simplify_eq. Qed.

Lemma modify_inv {S} (g : S → S) s u s' : modify g s = (Ok u, s') → s' = g s.
Proof. unfold modify. intros H. by simplify_eq. Qed.

Lemma mret_inv {S A} (a b : A) (s s' : S) : (mret a : stM S A) s = (Ok b, s') → b = a ∧ s' = s.
Proof. unfold mret, stM_ret. intros H. by simplify_eq. Qed.

Ltac st_step :=
  first [rewrite getS_bind|rewrite liftR_Ok_bind|rewrite liftR_Err_bind|rewrite liftR_Panic_bind
        |rewrite modify_bind]; cbv beta.

(** ** What a computation leaves alone *)

(** Whatever a computation returns, the states before and after it are related by [R]. *)
Definition frame {S A} (R : S → S → Prop) (m : stM S A) : Prop :=
  ∀ s r s', m s = (r, s') → R s s'.

Section frame.
Context {S : Type} (R : S → S → Prop) `{!Reflexive R, !Transitive R}.

Lemma frame_bind {A B} (m : stM S A) (f : A → stM S B) :
  frame R m → (∀ a, frame R (f a)) → frame R (m ≫= f).
Proof.
  intros Hm Hf s r s'. unfold mbind, stM_bind.
  destruct (m s) as [[a| | |] s1] eqn:H1; intros H2; simplify_eq; [|by eapply Hm..].
  etrans; [by eapply Hm|by eapply Hf].
Qed.

Lemma frame_liftR {A} (r : go_res A) : frame R (liftR r).
Proof. intros s r' s' [= <- <-]. done. Qed.

Lemma frame_getS : frame R getS.
Proof. intros s r' s' [= <- <-]. done. Qed.

Lemma frame_mret {A} (a : A) : frame R (mret a).
Proof. intros s r' s' [= <- <-]. done. Qed.

Lemma frame_modify g : (∀ s, R s (g s)) → frame R (modify g).
Proof. intros Hg s r' s' [= <- <-]. apply Hg. Qed.
End frame.

Create HintDb frame.
#[export] Hint Resolve frame_liftR frame_getS frame_mret : frame.

(** Follows the structure of a computation; what is left are the changes it makes. *)
Ltac frame_step :=
  match goal with
  | |- frame _ (mbind _ _) => apply frame_bind; [apply _| |intros ?]
  | |- frame _ (let '(_, _) := ?x in _) => destruct x
  | |- frame _ (if ?b then _ else _) => destruct b
  | |- frame _ (match ?x with _ => _ end) => destruct x
  | |- frame _ _ => solve [auto with frame typeclass_instances]
  | |- frame _ (modify _) => apply frame_modify; intros ?
  end.

Lemma fail_if_Ok b e u : fail_if b e = Ok u ↔ b = false.
Proof. destruct b, u; simpl; naive_solver. Qed.

(** Inverts a hypothesis that a computation with a state succeeded, one step. *)
Ltac st_inv_step H :=
  let a := fresh "x" in let s1 := fresh "s" in let Hm := fresh "Hm" in
  apply stM_bind_inv in H as (a & s1 & Hm & H);
  lazymatch type of Hm with
  | getS _ = _ => apply getS_inv in Hm as [-> ->]
  | modify _ _ = _ => apply modify_inv in Hm as ->
  | mret _ _ = _ => apply mret_inv in Hm as [-> ->]
  | _ => first [apply liftR_inv in Hm as [Hm ->]; try apply fail_if_Ok in Hm | idtac]
  end;
  cbv beta in H.
Ltac st_inv H := repeat (st_inv_step H).

Lemma deref_Ok {A} (p : option A) a : deref p = Ok a ↔ p = Some a.
Proof. destruct p; simpl; naive_solver. Qed.

(** Invert a hypothesis that a sequence of calls succeeded. *)
Ltac go_inv_step :=
  match goal with
  | H : mbind _ _ = Ok _ |- _ =>
      apply bind_Ok in H; let a := fresh "a" in let Ha := fresh "H" in
      destruct H as (a & Ha & H)
  | H : fail_if _ _ = Ok _ |- _ => apply fail_if_Ok in H
  | H : deref _ = Ok _ |- _ => apply deref_Ok in H
  | H : Ok _ = Ok _ |- _ => injection H as H
  | H : mret _ = Ok _ |- _ => injection H as H
  | H : Err _ = Ok _ |- _ => discriminate H
  | H : Panic = Ok _ |- _ => discriminate H
  | H : NoFuel = Ok _ |- _ => discriminate H
  end.
Ltac go_inv := repeat (go_inv_step; simpl in *; subst).

(** ** Lemmas on bytes *)

Lemma b2z_range b : 0 ≤ b2z b < 256.
Proof.
  unfold b2z. pose proof (Byte.to_N_bounded b). lia.
Qed.

Lemma b2z_z2b z : b2z (z2b z) = z mod 256.
Proof.
  unfold b2z, z2b. pose proof (Z.mod_pos_bound z 256 ltac:(lia)).
  destruct (Byte.of_N _) as [b|] eqn:Hb; simpl.
  - apply Byte.to_of_N in Hb. lia.
  - apply Byte.of_N_None_iff in Hb. lia.
Qed.

Lemma b2z_inj b c : b2z b = b2z c → b = c.
Proof.
  unfold b2z. intros H. apply N2Z.inj in H.
  pose proof (Byte.of_to_N b). pose proof (Byte.of_to_N c). congruence.
Qed.

Lemma z2b_b2z b : z2b (b2z b) = b.
Proof.
  apply b2z_inj. rewrite b2z_z2b. apply Z.mod_small, b2z_range.
Qed.

#[export] Instance byte_countable : Countable byte.
Proof.
  refine (inj_countable' b2z z2b _). exact z2b_b2z.
Defined.

Lemma pow256 n : 256 ^ Z.of_nat n = 2 ^ (8 * Z.of_nat n).
Proof. rewrite Z.pow_mul_r by lia. reflexivity. Qed.

Lemma pow256_pos n : 0 < 256 ^ Z.of_nat n.
Proof. apply Z.pow_pos_nonneg; lia. Qed.

Lemma pow256_S n : 256 ^ Z.of_nat (S n) = 256 * 256 ^ Z.of_nat n.
Proof. rewrite Nat2Z.inj_succ, Z.pow_succ_r; lia. Qed.

Lemma be_val_snoc l b : be_val (l ++ [b]) = be_val l * 256 + b2z b.
Proof. unfold be_val. by rewrite foldl_app. Qed.

Lemma be_val_app l k : be_val (l ++ k) = be_val l * 256 ^ Z.of_nat (length k) + be_val k.
Proof.
  induction k as [|b k IH] using rev_ind.
  - rewrite app_nil_r. simpl. unfold be_val at 3. simpl. lia.
  - rewrite app_assoc, !be_val_snoc, IH, length_app. simpl.
    replace (length k + 1)%nat with (S (length k)) by lia. rewrite pow256_S. lia.
Qed.

Lemma be_val_cons b l : be_val (b :: l) = b2z b * 256 ^ Z.of_nat (length l) + be_val l.
Proof. apply (be_val_app [b] l). Qed.

Lemma be_val_range l : 0 ≤ be_val l < 256 ^ Z.of_nat (length l).
Proof.
  induction l as [|b l IH]; [unfold be_val; simpl; lia|].
  rewrite be_val_cons. simpl length. rewrite pow256_S.
  pose proof (b2z_range b). nia.
Qed.

Lemma length_be_bytes n z : length (be_bytes n z) = n.
Proof. induction n; simpl; auto. Qed.

Lemma be_val_be_bytes n z : be_val (be_bytes n z) = z mod 256 ^ Z.of_nat n.
Proof.
  induction n as [|n IH]; [simpl; by rewrite Z.mod_1_r|].
  cbn [be_bytes]. rewrite be_val_cons, IH, length_be_bytes, b2z_z2b, pow256_S.
  rewrite Z.shiftr_div_pow2, <- pow256 by lia.
  pose proof (pow256_pos n). rewrite (Z.mul_comm 256).
  rewrite Z.rem_mul_r by lia. lia.
Qed.

Lemma be_val_inj l k : length l = length k → be_val l = be_val k → l = k.
Proof.
  revert k. induction l as [|b l IH]; intros [|c k] Hl; simpl in Hl; try lia; [done|].
  rewrite !be_val_cons. replace (length k) with (length l) by lia. intros Hv.
  pose proof (be_val_range l) as Hrl. pose proof (be_val_range k) as Hrk.
  replace (length k) with (length l) in Hrk by lia.
  assert (b2z b = b2z c) as Hbc by nia.
  rewrite (b2z_inj b c Hbc). f_equal. apply IH; nia.
Qed.

Lemma be_bytes_be_val n l : length l = n → be_bytes n (be_val l) = l.
Proof.
  intros Hl. apply be_val_inj; [by rewrite length_be_bytes|].
  rewrite be_val_be_bytes. apply Z.mod_small. rewrite <- Hl. apply be_val_range.
Qed.

Lemma be_val_be_bytes_small n z :
  0 ≤ z < 256 ^ Z.of_nat n → be_val (be_bytes n z) = z.
Proof. intros. rewrite be_val_be_bytes. by apply Z.mod_small. Qed.

Lemma length_le_bytes n z : length (le_bytes n z) = n.
Proof. revert z; induction n; simpl; auto. Qed.

Lemma le_val_le_bytes n z : le_val (le_bytes n z) = z mod 256 ^ Z.of_nat n.
Proof.
  revert z. induction n as [|n IH]; intros z; [simpl; by rewrite Z.mod_1_r|].
  cbn [le_bytes le_val]. rewrite IH, b2z_z2b, pow256_S, Z.shiftr_div_pow2 by lia.
  pose proof (pow256_pos n). rewrite Z.rem_mul_r by lia. reflexivity.
Qed.

Lemma le_val_range l : 0 ≤ le_val l < 256 ^ Z.of_nat (length l).
Proof.
  induction l as [|b l IH]; [simpl; lia|].
  cbn [le_val length]. rewrite pow256_S. pose proof (b2z_range b). nia.
Qed.

(** [nbytes z] is the least length that holds [z]. *)
Lemma nbytes_upper z : z < 256 ^ Z.of_nat (nbytes z).
Proof.
  unfold nbytes. destruct (Z.leb_spec z 0); [change (256 ^ Z.of_nat 0) with 1; lia|].
  pose proof (Z.log2_spec z ltac:(lia)) as [_ Hu].
  pose proof (Z.log2_nonneg z). rewrite pow256, Z2Nat.id by dlia.
  eapply Z.lt_le_trans; [exact Hu|]. apply Z.pow_le_mono_r; dlia.
Qed.

Lemma nbytes_lower z : 0 < z → 256 ^ (Z.of_nat (nbytes z) - 1) ≤ z.
Proof.
  intros Hz. unfold nbytes. destruct (Z.leb_spec z 0); [lia|].
  pose proof (Z.log2_spec z ltac:(lia)) as [Hl _].
  pose proof (Z.log2_nonneg z). rewrite Z2Nat.id by dlia.
  replace (Z.log2 z / 8 + 1 - 1) with (Z.log2 z / 8) by lia.
  replace 256 with (2 ^ 8) by lia. rewrite <- Z.pow_mul_r by dlia.
  eapply Z.le_trans; [|exact Hl]. apply Z.pow_le_mono_r; dlia.
Qed.

Lemma nbytes_pos z : 0 < z → (0 < nbytes z)%nat.
Proof.
  intros Hz. pose proof (nbytes_upper z) as Hu. destruct (nbytes z); simpl in *; lia.
Qed.

Lemma nbytes_unique z n :
  0 < z → 256 ^ (Z.of_nat n - 1) ≤ z < 256 ^ Z.of_nat n → nbytes z = n.
Proof.
  intros Hz [Hl Hu]. pose proof (nbytes_lower z Hz). pose proof (nbytes_upper z).
  destruct n as [|n]; [simpl in *; lia|]. pose proof (nbytes_pos z Hz).
  destruct (lt_eq_lt_dec (nbytes z) (S n)) as [[Hn|]|Hn]; [exfalso| done |exfalso].
  - assert (256 ^ Z.of_nat (nbytes z) ≤ 256 ^ (Z.of_nat (S n) - 1)) by
      (apply Z.pow_le_mono_r; lia). lia.
  - assert (256 ^ Z.of_nat (S n) ≤ 256 ^ (Z.of_nat (nbytes z) - 1)) by
      (apply Z.pow_le_mono_r; lia). lia.
Qed.

Lemma nbytes_le z k : 0 ≤ k → 0 ≤ z < 256 ^ k → Z.of_nat (nbytes z) ≤ k.
Proof.
  intros Hk Hz. destruct (decide (z = 0)) as [->|]; [exact Hk|].
  destruct (Z.le_gt_cases (Z.of_nat (nbytes z)) k); [done|].
  pose proof (nbytes_lower z ltac:(lia)).
  assert (256 ^ k ≤ 256 ^ (Z.of_nat (nbytes z) - 1)) by (apply Z.pow_le_mono_r; lia). lia.
Qed.

Lemma length_big_bytes z : 0 ≤ z → length (big_bytes z) = nbytes z.
Proof. intros. unfold big_bytes. by rewrite length_be_bytes, Z.abs_eq. Qed.

Lemma be_val_big_bytes z : be_val (big_bytes z) = Z.abs z.
Proof.
  unfold big_bytes. apply be_val_be_bytes_small. split; [lia|apply nbytes_upper].
Qed.

(** A byte string without a leading zero is the minimal spelling of its value. *)
Lemma big_bytes_be_val l :
  (∀ b t, l = b :: t → b ≠ x00) → big_bytes (be_val l) = l.
Proof.
  intros Hnz. pose proof (be_val_range l). unfold big_bytes. rewrite Z.abs_eq by lia.
  enough (nbytes (be_val l) = length l) as -> by by apply be_bytes_be_val.
  destruct l as [|b t]; [done|]. specialize (Hnz b t eq_refl).
  assert (b2z b ≠ 0) as Hb by (intros Hb; apply Hnz, b2z_inj; done).
  pose proof (b2z_range b). pose proof (be_val_range t). pose proof (pow256_pos (length t)).
  apply nbytes_unique; [rewrite be_val_cons; nia|]. split; [|lia].
  rewrite be_val_cons. simpl length.
  replace (Z.of_nat (S (length t)) - 1) with (Z.of_nat (length t)) by lia. nia.
Qed.

Lemma big_bytes_head z b t : big_bytes z = b :: t → b ≠ x00.
Proof.
  intros Hz ->. pose proof (be_val_big_bytes z) as Hv. rewrite Hz, be_val_cons in Hv.
  assert (length (big_bytes z) = nbytes (Z.abs z)) as Hlen by apply length_be_bytes.
  rewrite Hz in Hlen. simpl length in Hlen.
  change (b2z x00) with 0 in Hv. pose proof (be_val_range t).
  destruct (decide (Z.abs z = 0)) as [H0|H0].
  - rewrite H0 in Hlen. done.
  - pose proof (nbytes_lower (Z.abs z) ltac:(lia)). rewrite <- Hlen in *.
    replace (Z.of_nat (S (length t)) - 1) with (Z.of_nat (length t)) in * by lia. lia.
Qed.

(** ** Lemmas on slices *)

Lemma go_slice_app {A} (a b c : list A) lo hi :
  lo = length a → hi = (length a + length b)%nat →
  go_slice lo hi (a ++ b ++ c) = Ok b.
Proof.
  intros -> ->. unfold go_slice. rewrite !length_app.
  destruct (Nat.leb_spec (length a) (length a + length b)); [|lia].
  destruct (Nat.leb_spec (length a + length b) (length a + (length b + length c))); [|lia].
  simpl. rewrite drop_app_length. replace (_ - _)%nat with (length b) by lia.
  by rewrite take_app_length.
Qed.

Lemma go_slice_Ok {A} lo hi (s r : list A) :
  go_slice lo hi s = Ok r →
  (lo ≤ hi ≤ length s)%nat ∧ r = take (hi - lo) (drop lo s).
Proof.
  unfold go_slice. destruct (Nat.leb_spec lo hi), (Nat.leb_spec hi (length s));
    simpl; naive_solver lia.
Qed.

Lemma go_slice_prefix {A} (a b : list A) hi : hi = length a → go_slice 0 hi (a ++ b) = Ok a.
Proof. intros ->. by apply (go_slice_app []). Qed.

Lemma go_slice_suffix {A} (a b : list A) lo hi :
  lo = length a → hi = (length a + length b)%nat → go_slice lo hi (a ++ b) = Ok b.
Proof. intros. rewrite <- (app_nil_r b) at 1. by apply go_slice_app. Qed.

(** Slicing behind a prefix; with the lengths of the parts known, a slice of a concatenation
    is found by repeated use. *)
Lemma go_slice_skip {A} (a s : list A) lo hi n :
  length a = n → (n ≤ lo ≤ hi)%nat → go_slice lo hi (a ++ s) = go_slice (lo - n) (hi - n) s.
Proof.
  intros <- Hlo. unfold go_slice. rewrite length_app, drop_app_ge by lia.
  replace (hi - length a - (lo - length a))%nat with (hi - lo)%nat by lia.
  destruct (Nat.leb_spec lo hi), (Nat.leb_spec hi (length a + length s)),
    (Nat.leb_spec (lo - length a) (hi - length a)), (Nat.leb_spec (hi - length a) (length s));
    simpl; done || lia.
Qed.

Lemma go_slice_Panic {A} (s : list A) lo hi : (length s < hi)%nat → go_slice lo hi s = Panic.
Proof. intros H. unfold go_slice. destruct (Nat.leb_spec hi (length s)); [lia|]. by rewrite andb_false_r. Qed.

Lemma u64_small z : is_u64 z → u64 z = z.
Proof. intros H. by apply Z.mod_small. Qed.

(** ** Lemmas on lists *)

Lemma filter_Forall {A} (P : A → Prop) `{!∀ x, Decision (P x)} l : Forall P l → filter P l = l.
Proof. induction 1; [done|]. rewrite filter_cons_True by done. by f_equal. Qed.

Lemma Forall_filter_self {A} (P : A → Prop) `{!∀ x, Decision (P x)} l : Forall P (filter P l).
Proof. induction l as [|x l IH]; [done|]. rewrite filter_cons. case_decide; auto. Qed.
