(* ===== verification/Common.v ===== *)
(** * Package common

    Fixed-size byte arrays ([common.Hash], [common.Address], [common.BlsPubKey],
    [common.BlsSignature]), their conversions from byte slices, the little-endian
    [uint64] codec and the [HashArray] helpers of src/common/types.go, types_bls.go,
    bytes.go and big.go.

    A Go array [[n]byte] is a byte list of length [n] ([fixed n]); equality of arrays is
    equality of the lists. *)

From Stdlib Require Import ZArith Lia Strings.Byte Bool Eqdep_dec.
From stdpp Require Import base tactics option numbers list gmap strings countable sorting.
From S2P Require Import Prelude.

(** ** Byte arrays *)

Record fixed (n : nat) := Fixed {
  fb : bytes;
  fb_len : Nat.eqb (length fb) n = true
}.
Arguments Fixed {n} _ _.
Arguments fb {n} _.
Arguments fb_len {n} _.

(** [SetBytes] on a zero array: a longer slice is cropped from the left, a shorter one
    is padded with zeros on the left. *)
Definition fit (n : nat) (b : bytes) : bytes :=
  let b' := if Nat.ltb n (length b) then drop (length b - n) b else b in
  replicate (n - length b') x00 ++ b'.

Lemma length_fit n b : length (fit n b) = n.
Proof.
  unfold fit. destruct (Nat.ltb_spec n (length b));
    rewrite length_app, length_replicate, ?length_drop; lia.
Qed.

Lemma fit_id n b : length b = n → fit n b = b.
Proof.
  intros <-. unfold fit. rewrite Nat.ltb_irrefl, Nat.sub_diag. done.
Qed.

Lemma zeros_len n : Nat.eqb (length (replicate n x00)) n = true.
Proof. rewrite length_replicate. apply Nat.eqb_refl. Qed.

(** [BytesToHash], [BytesToAddress], [BytesToBlsPubKey] and [BytesToBlsSig]. *)
Definition BytesToFixed (n : nat) (b : bytes) : fixed n :=
  match Bool.bool_dec (Nat.eqb (length (fit n b)) n) true with
  | left H => Fixed (fit n b) H
  | right _ => Fixed (replicate n x00) (zeros_len n)
  end.

Lemma fb_BytesToFixed n b : fb (BytesToFixed n b) = fit n b.
Proof.
  unfold BytesToFixed. destruct (Bool.bool_dec _ _) as [H|H]; [done|].
  by rewrite length_fit, Nat.eqb_refl in H.
Qed.

Lemma length_fb {n} (x : fixed n) : length (fb x) = n.
Proof. apply Nat.eqb_eq, fb_len. Qed.

Lemma fixed_eq {n} (x y : fixed n) : fb x = fb y → x = y.
Proof.
  destruct x as [bx Hx], y as [b Hy]; simpl; intros ->. f_equal.
  apply UIP_dec, Bool.bool_dec.
Qed.

(** The conversion gives back the array whose bytes are given. *)
Lemma BytesToFixed_fb {n} (x : fixed n) : BytesToFixed n (fb x) = x.
Proof. apply fixed_eq. rewrite fb_BytesToFixed. apply fit_id, length_fb. Qed.

#[export] Instance fixed_eq_dec n : EqDecision (fixed n) := λ x y,
  match decide (fb x = fb y) with
  | left H => left (fixed_eq x y H)
  | right H => right (λ E, H (f_equal fb E))
  end.

#[export] Instance fixed_countable n : Countable (fixed n).
Proof. refine (inj_countable' fb (BytesToFixed n) _). exact BytesToFixed_fb. Defined.

(** The zero value of an array type. *)
Definition zero_fixed (n : nat) : fixed n := BytesToFixed n [].

Definition HashLength : nat := 32.
Definition AddressLength : nat := 20.
Definition BlsPubKeyLength : nat := 48.
Definition BlsSigLength : nat := 96.
Definition Uint64Size : nat := 8.
Definition Uint32Size : nat := 4.
Definition Uint16Size : nat := 2.

Abbreviation Hash := (fixed 32).
Abbreviation Address := (fixed 20).
Abbreviation BlsPubKey := (fixed 48).
Abbreviation BlsSignature := (fixed 96).

Abbreviation BytesToHash := (BytesToFixed 32).
Abbreviation BytesToAddress := (BytesToFixed 20).
Abbreviation BytesToBlsPubKey := (BytesToFixed 48).
Abbreviation BytesToBlsSig := (BytesToFixed 96).

(** [Address.Hash]. *)
Definition AddressHash (a : Address) : Hash := BytesToHash (fb a).

(** ** Integers *)

(** [Uint64ToBytes] and [BytesToUint64] of package common: little-endian. *)
Definition Uint64ToBytes (u : Z) : bytes := le_bytes 8 u.

Definition BytesToUint64 (b : bytes) : go_res Z :=
  if Nat.ltb (length b) 8 then Panic else Ok (le_val (take 8 b)).

(** [binary.BigEndian] *)
Definition PutUint64BE (u : Z) : bytes := be_bytes 8 u.
Definition PutUint32BE (u : Z) : bytes := be_bytes 4 u.
Definition PutUint16BE (u : Z) : bytes := be_bytes 2 u.

Definition UintBE (n : nat) (b : bytes) : go_res Z :=
  if Nat.ltb (length b) n then Panic else Ok (be_val (take n b)).

Definition Uint64BE (b : bytes) : go_res Z := UintBE 8 b.
Definition Uint32BE (b : bytes) : go_res Z := UintBE 4 b.
Definition Uint16BE (b : bytes) : go_res Z := UintBE 2 b.

Definition BigGwei : Z := 1000000000.
Definition BigWat : Z := 1000000000000000000.

(** [BnCanCastToUint64]; a nil pointer is [None]. *)
Definition BnCanCastToUint64 (bn : option Z) : bool :=
  match bn with
  | None => false
  | Some z => (0 <=? z) && (z <=? MaxUint64)
  end.

(** [big.Int.FillBytes] into a buffer of [n] bytes: it panics when the value does not fit. *)
Definition FillBytes (n : nat) (z : Z) : go_res bytes :=
  if Z.abs z <? 256 ^ Z.of_nat n then Ok (be_bytes n (Z.abs z)) else Panic.

(** ** HashArray *)

Abbreviation HashArray := (list Hash).

(** [HashArray.Uniq]: one pass with a set of the hashes seen so far. *)
Fixpoint uniq_go (seen : gset Hash) (c l : HashArray) : HashArray :=
  match l with
  | [] => c
  | item :: l' =>
      if decide (item ∈ seen) then uniq_go seen c l'
      else uniq_go ({[item]} ∪ seen) (c ++ [item]) l'
  end.

Definition Uniq (ha : HashArray) : HashArray := uniq_go ∅ [] ha.

(** [HashArray.Deduplicate] works in place: the loop reads position [i], may write
    position [j], and the array is cut at [j] in the end. *)
Fixpoint dedup_go (fuel i j : nat) (seen : gset Hash) (a : HashArray) : nat * HashArray :=
  match fuel with
  | O => (j, a)
  | S fuel' =>
      match a !! i with
      | None => (j, a)
      | Some item =>
          if decide (item ∈ seen) then dedup_go fuel' (S i) j seen a
          else dedup_go fuel' (S i) (S j) ({[item]} ∪ seen) (<[j:=item]> a)
      end
  end.

Definition Deduplicate (ha : HashArray) : HashArray :=
  let '(j, a) := dedup_go (length ha) 0 0 ∅ ha in take j a.

Definition IsUniq (ha : HashArray) : bool :=
  Nat.eqb (length ha) (length (Uniq ha)).

(** [Intersection]: the elements of the argument that occur in the receiver. *)
Definition Intersection (ha hashArray : HashArray) : HashArray :=
  let m : gset Hash := list_to_set ha in
  filter (λ item, item ∈ m) hashArray.

(** [Difference]: the elements of the receiver that do not occur in the argument. *)
Definition Difference (ha hashArray : HashArray) : HashArray :=
  let mb : gset Hash := list_to_set hashArray in
  filter (λ x, x ∉ mb) ha.

Definition Has (ha : HashArray) (h : Hash) : bool := bool_decide (h ∈ ha).

(** [IndexOf]: [-1] when the hash does not occur. *)
Fixpoint IndexOf_go (i : Z) (ha : HashArray) (h : Hash) : Z :=
  match ha with
  | [] => -1
  | x :: l => if decide (x = h) then i else IndexOf_go (i + 1) l h
  end.
Definition IndexOf (ha : HashArray) (h : Hash) : Z := IndexOf_go 0 ha h.

(** [SequenceIntersection]: the longest run of the receiver, from its first element that
    occurs in the argument, whose elements follow one another in the argument. *)
Fixpoint seqint_go (hashArray : HashArray) (index : Z) (c ha : HashArray) : HashArray :=
  match ha with
  | [] => c
  | item :: ha' =>
      let i := IndexOf hashArray item in
      if (index =? -1) && (0 <=? i) then seqint_go hashArray (i + 1) (c ++ [item]) ha'
      else if (0 <=? index) && (index =? i)
      then seqint_go hashArray (i + 1) (c ++ [item]) ha'
      else if (0 <=? index) && negb (index =? i) then c
      else seqint_go hashArray index c ha'
  end.
Definition SequenceIntersection (ha hashArray : HashArray) : HashArray :=
  seqint_go hashArray (-1) [] ha.

Definition ToBytes (ha : HashArray) : bytes := concat (map fb ha).

Fixpoint HashArrayFromBytes_go (count : nat) (data : bytes) : HashArray :=
  match count with
  | O => []
  | S count' => BytesToHash (take 32 data) :: HashArrayFromBytes_go count' (drop 32 data)
  end.
Definition HashArrayFromBytes (data : bytes) : HashArray :=
  HashArrayFromBytes_go (length data / 32) data.

Lemma Uint64_roundtrip u rest :
  is_u64 u → BytesToUint64 (Uint64ToBytes u ++ rest) = Ok u.
Proof.
  intros Hu. unfold BytesToUint64, Uint64ToBytes. rewrite length_app, length_le_bytes.
  destruct (Nat.ltb_spec (8 + length rest) 8); [lia|].
  rewrite take_app_length' by (by rewrite length_le_bytes).
  rewrite le_val_le_bytes, Z.mod_small; [done|exact Hu].
Qed.

Lemma UintBE_roundtrip n u rest :
  0 ≤ u < 256 ^ Z.of_nat n → UintBE n (be_bytes n u ++ rest) = Ok u.
Proof.
  intros Hu. unfold UintBE. rewrite length_app, length_be_bytes.
  destruct (Nat.ltb_spec (n + length rest) n); [lia|].
  rewrite take_app_length' by (by rewrite length_be_bytes).
  by rewrite be_val_be_bytes_small.
Qed.

(** The in-place loop: the prefix [take j a] of the array holds the hashes kept so far and
    the suffix from [i] on is still the input. *)
Lemma dedup_go_spec fuel : ∀ i j seen a,
  (j ≤ i)%nat → length (drop i a) = fuel →
  let '(j', a') := dedup_go fuel i j seen a in
  take j' a' = uniq_go seen (take j a) (drop i a).
Proof.
  induction fuel as [|fuel IH]; intros i j seen a Hji Hlen; simpl.
  { destruct (drop i a); [done|simpl in Hlen; lia]. }
  destruct (a !! i) as [item|] eqn:Hi.
  2:{ rewrite drop_ge; [done|]. by apply lookup_ge_None. }
  rewrite (drop_S _ _ _ Hi). rewrite (drop_S _ _ _ Hi) in Hlen. simpl in Hlen.
  cbn [uniq_go]. destruct (decide (item ∈ seen)) as [Hs|Hs].
  - apply IH; [lia|lia].
  - pose proof (lookup_lt_Some _ _ _ Hi) as Hlt.
    assert (drop (S i) (<[j:=item]> a) = drop (S i) a) as Hd
      by (apply drop_insert_lt; lia).
    specialize (IH (S i) (S j) ({[item]} ∪ seen) (<[j:=item]> a)).
    rewrite Hd in IH. specialize (IH ltac:(lia) ltac:(lia)).
    destruct (dedup_go _ _ _ _ _) as [j' a']. rewrite IH. f_equal.
    rewrite (take_S_r _ _ item) by (apply list_lookup_insert_eq; lia).
    by rewrite take_insert_ge by lia.
Qed.

(** In-place deduplication computes the same list as [Uniq]. *)
Lemma Deduplicate_Uniq ha : Deduplicate ha = Uniq ha.
Proof.
  unfold Deduplicate, Uniq.
  pose proof (dedup_go_spec (length ha) 0 0 ∅ ha ltac:(lia) eq_refl) as H.
  by destruct (dedup_go _ _ _ _ _).
Qed.

Lemma uniq_go_spec l : ∀ seen c,
  NoDup c → (∀ x, x ∈ seen ↔ x ∈ c) →
  NoDup (uniq_go seen c l) ∧ (∀ x, x ∈ uniq_go seen c l ↔ x ∈ c ∨ x ∈ l).
Proof.
  induction l as [|item l IH]; intros seen c Hc Hs; simpl.
  { split; [done|set_solver]. }
  destruct (decide (item ∈ seen)) as [Hi|Hi].
  - destruct (IH seen c Hc Hs) as [? Hm]. split; [done|].
    intros x. rewrite Hm. rewrite Hs in Hi. set_solver.
  - destruct (IH ({[item]} ∪ seen) (c ++ [item])) as [? Hm].
    + apply NoDup_app. split_and!; [done| |apply NoDup_singleton].
      intros x Hx. rewrite <- Hs in Hx. set_solver.
    + intros x. rewrite elem_of_app, elem_of_union, Hs. set_solver.
    + split; [done|]. intros x. rewrite Hm. set_solver.
Qed.

Lemma Uniq_NoDup ha : NoDup (Uniq ha).
Proof. apply uniq_go_spec; [apply NoDup_nil_2|set_solver]. Qed.

Lemma elem_of_Uniq ha x : x ∈ Uniq ha ↔ x ∈ ha.
Proof.
  destruct (uniq_go_spec ha ∅ []) as [_ H]; [apply NoDup_nil_2|set_solver|].
  unfold Uniq. rewrite H. set_solver.
Qed.

(** A list without duplicates is left as it is. *)
Lemma uniq_go_id l : ∀ seen c,
  NoDup l → (∀ x, x ∈ l → x ∉ seen) → uniq_go seen c l = c ++ l.
Proof.
  induction l as [|item l IH]; intros seen c Hl Hs; simpl; [by rewrite app_nil_r|].
  apply NoDup_cons in Hl as [Hi Hl].
  destruct (decide (item ∈ seen)) as [Hin|Hin]; [exfalso; set_solver|].
  rewrite IH; [by rewrite <- app_assoc|done|set_solver].
Qed.

Lemma Uniq_length l : (length (Uniq l) ≤ length l)%nat.
Proof.
  apply submseteq_length, NoDup_submseteq; [apply Uniq_NoDup|]. intros x. by rewrite elem_of_Uniq.
Qed.

Lemma Uniq_perm l k : l ≡ₚ k → Uniq l ≡ₚ Uniq k.
Proof.
  intros Hp. apply NoDup_Permutation; [apply Uniq_NoDup..|].
  intros x. by rewrite !elem_of_Uniq, Hp.
Qed.

Lemma Uniq_id ha : NoDup ha → Uniq ha = ha.
Proof. intros H. unfold Uniq. rewrite uniq_go_id; [done|done|set_solver]. Qed.

Lemma HashArray_roundtrip ha : HashArrayFromBytes (ToBytes ha) = ha.
Proof.
  unfold HashArrayFromBytes, ToBytes.
  assert (∀ l : HashArray, length (concat (map fb l)) = (length l * 32)%nat) as Hl.
  { induction l as [|h l IH]; [done|]. simpl.
    rewrite length_app, length_fb, IH. lia. }
  rewrite Hl, Nat.div_mul by lia.
  induction ha as [|h ha IH]; [done|]. cbn [length map concat HashArrayFromBytes_go].
  rewrite take_app_length' by (by rewrite length_fb).
  rewrite drop_app_length' by (by rewrite length_fb).
  by rewrite IH, BytesToFixed_fb.
Qed.

#[export] Hint Rewrite @length_fb length_be_bytes length_le_bytes : gwat.
#[export] Hint Rewrite @BytesToFixed_fb : gwat.

Lemma BnCanCastToUint64_true z : BnCanCastToUint64 (Some z) = true ↔ is_u64 z.
Proof. unfold BnCanCastToUint64, is_u64, MaxUint64, two64. rewrite andb_true_iff. lia. Qed.

(** ** Slicing a concatenation of fields *)

Lemma length_PutUint64BE u : length (PutUint64BE u) = 8%nat.
Proof. apply length_be_bytes. Qed.

Lemma length_PutUint32BE u : length (PutUint32BE u) = 4%nat.
Proof. apply length_be_bytes. Qed.

Lemma length_Uint64ToBytes u : length (Uint64ToBytes u) = 8%nat.
Proof. apply length_le_bytes. Qed.

Create HintDb field_length.
#[export] Hint Resolve length_fb length_PutUint64BE length_PutUint32BE length_Uint64ToBytes : field_length.

Lemma Uint64BE_put u : is_u64 u → Uint64BE (PutUint64BE u) = Ok u.
Proof.
  intros Hu. rewrite <- (app_nil_r (PutUint64BE u)). by apply (UintBE_roundtrip 8).
Qed.

Lemma Uint32BE_put u : 0 ≤ u < 2 ^ 32 → Uint32BE (PutUint32BE u) = Ok u.
Proof.
  intros Hu. rewrite <- (app_nil_r (PutUint32BE u)). by apply (UintBE_roundtrip 4).
Qed.

(** Evaluates the slices of a concatenation of fields: a slice at the front is a field, and
    the fields before the others are skipped by their lengths. *)
Ltac field_length := solve [eauto 1 with field_length nocore].
Ltac take_fields :=
  repeat first
    [ rewrite go_slice_prefix by (symmetry; field_length)
    | erewrite go_slice_skip by first [field_length|lia]; simpl Nat.sub
    | rewrite Ok_bind ].
