(* ===== verification/RlpEnc.v ===== *)
(** * Package rlp: the encoder

    The encoder of src/rlp/encode.go. A Go value is encoded by a writer chosen from its
    type by reflection ([makeWriter]); here a type is an [rtype], a value of it an
    [rvalue], and [writer] dispatches on the type as [makeWriter] does.

    The encoder writes string data and list headers to two separate buffers ([encbuf]);
    a header is opened before its content is written, when its size is not known yet, is
    completed when the list ends ([listEnd]) and is merged into the output at the end
    ([toBytes]). [ref] is the plain recursive definition of RLP, and the encoder is
    proved to produce it. The [Encoder] interface, interfaces and raw values are not modelled: no
    type of the modelled packages uses them. The struct tags of token operations are in
    TokenOps.v. *)

From Stdlib Require Import ZArith Lia Strings.Byte.
From stdpp Require Import base tactics option numbers list strings.
From S2P Require Import Prelude Common.

(** ** Types and values *)

(** The Go types the package serializes: unsigned integers by their width in bits,
    [bool], [big.Int], [[]byte], [[n]byte], slices, structs (the list of the types of
    their exported fields) and pointers. *)
Inductive rtype :=
| TUint (bits : Z)
| TBool
| TBigInt
| TBytes
| TArray (n : nat)
| TSlice (t : rtype)
| TStruct (ts : list rtype)
| TPtr (t : rtype).

Inductive rvalue :=
| VUint (z : Z)
| VBool (b : bool)
| VBig (z : Z)
| VBytes (b : bytes)
| VArray (b : bytes)
| VSlice (l : list rvalue)
| VStruct (l : list rvalue)
| VNil
| VPtr (v : rvalue).

(** ** Headers and integers *)

(** [putint]: big-endian, with the least number of bytes. *)
Definition putint (i : Z) : bytes :=
  if i <? 2 ^ 8 then be_bytes 1 i
  else if i <? 2 ^ 16 then be_bytes 2 i
  else if i <? 2 ^ 24 then be_bytes 3 i
  else if i <? 2 ^ 32 then be_bytes 4 i
  else if i <? 2 ^ 40 then be_bytes 5 i
  else if i <? 2 ^ 48 then be_bytes 6 i
  else if i <? 2 ^ 56 then be_bytes 7 i
  else be_bytes 8 i.

(** [intsize]: shifts the integer until it is zero; eight shifts clear a [uint64]. *)
Fixpoint intsize_go (fuel : nat) (size : nat) (i : Z) : nat :=
  match fuel with
  | O => size
  | S fuel' =>
      let i' := Z.shiftr i 8 in
      if i' =? 0 then size else intsize_go fuel' (S size) i'
  end.
Definition intsize (i : Z) : nat := intsize_go 8 1 i.

Definition headsize (size : Z) : nat :=
  if size <? 56 then 1%nat else (1 + intsize size)%nat.

(** [puthead]: the header of a list or string of the given size. *)
Definition puthead (smalltag largetag size : Z) : bytes :=
  if size <? 56 then [z2b (smalltag + size)]
  else let p := putint size in z2b (largetag + Z.of_nat (length p)) :: p.

(** ** The encoder's buffer *)

Record listhead := Listhead { offset : nat; hsize : nat }.

Record encbuf := Encbuf {
  str : bytes;
  lheads : list listhead;
  lhsize : nat
}.

Definition reset : encbuf := Encbuf [] [] 0.

Definition write_str (b : bytes) (w : encbuf) : encbuf :=
  Encbuf (str w ++ b) (lheads w) (lhsize w).

Definition head_encode (h : listhead) : bytes :=
  puthead 0xC0 0xF7 (Z.of_nat (hsize h)).

Definition encodeStringHeader (size : Z) (w : encbuf) : encbuf :=
  if size <? 56 then write_str [z2b (0x80 + size)] w
  else let p := putint size in
       write_str (z2b (0xB7 + Z.of_nat (length p)) :: p) w.

Definition encodeString (b : bytes) (w : encbuf) : encbuf :=
  match b with
  | [c] => if b2z c <=? 0x7F then write_str [c] w
           else write_str b (encodeStringHeader 1 w)
  | _ => write_str b (encodeStringHeader (Z.of_nat (length b)) w)
  end.

Definition encodeUint (i : Z) (w : encbuf) : encbuf :=
  if i =? 0 then write_str [z2b 0x80] w
  else if i <? 128 then write_str [z2b i] w
  else let p := putint i in
       write_str (z2b (0x80 + Z.of_nat (length p)) :: p) w.

(** [encbuf.list]: opens a header; its index is the number of headers before it. Until the
    list ends its [size] field holds the size of the headers written so far. *)
Definition enc_list (w : encbuf) : nat * encbuf :=
  (length (lheads w),
   Encbuf (str w) (lheads w ++ [Listhead (length (str w)) (lhsize w)]) (lhsize w)).

Definition enc_size (w : encbuf) : nat := (length (str w) + lhsize w)%nat.

Definition listEnd (index : nat) (w : encbuf) : go_res encbuf :=
  lh ← go_index (lheads w) index;
  let size := (enc_size w - offset lh - hsize lh)%nat in
  Ok (Encbuf (str w) (<[index:=Listhead (offset lh) size]> (lheads w))
        (if Nat.ltb size 56 then S (lhsize w)
         else lhsize w + (1 + intsize (Z.of_nat size)))%nat).

(** [encbuf.toBytes]: the string data with each header put in at its offset. *)
Fixpoint merge_heads (strpos : nat) (heads : list listhead) (s : bytes) : bytes :=
  match heads with
  | [] => drop strpos s
  | h :: hs =>
      take (offset h - strpos) (drop strpos s) ++ head_encode h ++
      merge_heads (offset h) hs s
  end.
Definition toBytes (w : encbuf) : bytes := merge_heads 0 (lheads w) (str w).

(** ** Writers *)

Definition writeBool (b : bool) (w : encbuf) : encbuf :=
  write_str [if b then z2b 0x01 else z2b 0x80] w.

Definition errNegative : error := Error "rlp: cannot encode negative *big.Int".

Definition bitLen (z : Z) : Z := if z =? 0 then 0 else Z.log2 (Z.abs z) + 1.

Definition writeBigInt (i : Z) (w : encbuf) : go_res encbuf :=
  if i <? 0 then Err errNegative
  else if bitLen i <=? 64 then Ok (encodeUint (u64 i) w)
  else
    let len := Z.shiftr (Z.land (bitLen i + 7) (-8)) 3 in
    Ok (write_str (be_bytes (Z.to_nat len) i) (encodeStringHeader len w)).

(** [makeByteArrayWriter] *)
Definition writeByteArray (n : nat) (b : bytes) (w : encbuf) : encbuf :=
  match n, b with
  | 0%nat, _ => write_str [z2b 0x80] w
  | 1%nat, [c] => if b2z c <=? 0x7f then write_str [c] w else write_str [z2b 0x81; c] w
  | _, _ => write_str b (encodeStringHeader (Z.of_nat (length b)) w)
  end.

(** [defaultNilKind] and [nilEncoding]; a nil [*big.Int] has a writer of its own. *)
Definition nilEncoding (t : rtype) : byte :=
  match t with
  | TUint _ | TBool | TBigInt | TArray _ => z2b 0x80
  | _ => z2b 0xC0
  end.

(** The loops of [makeSliceWriter] and [makeStructWriter] over elements and fields. *)
Definition write_elems (f : rvalue → encbuf → go_res encbuf) :
    list rvalue → encbuf → go_res encbuf :=
  fix go l w :=
    match l with
    | [] => Ok w
    | x :: l' => w' ← f x w; go l' w'
    end.

Definition write_fields (f : rtype → rvalue → encbuf → go_res encbuf) :
    list rtype → list rvalue → encbuf → go_res encbuf :=
  fix go ts l w {struct l} :=
    match ts, l with
    | [], [] => Ok w
    | t :: ts', x :: l' => w' ← f t x w; go ts' l' w'
    | _, _ => Panic
    end.

(** The writer [makeWriter] builds for a type. A value that is not of the type is a
    misuse of reflection, which panics. *)
Fixpoint writer (t : rtype) (v : rvalue) (w : encbuf) {struct v} : go_res encbuf :=
  match t, v with
  | TUint _, VUint z => Ok (encodeUint z w)
  | TBool, VBool b => Ok (writeBool b w)
  | TBigInt, VBig z => writeBigInt z w
  | TBytes, VBytes b => Ok (encodeString b w)
  | TArray n, VArray b => Ok (writeByteArray n b w)
  | TSlice t', VSlice [] => Ok (write_str [z2b 0xC0] w)
  | TSlice t', VSlice l =>
      let '(index, w1) := enc_list w in
      w2 ← write_elems (writer t') l w1;
      listEnd index w2
  | TStruct ts, VStruct l =>
      let '(index, w1) := enc_list w in
      w2 ← write_fields writer ts l w1;
      listEnd index w2
  | TPtr t', VNil => Ok (write_str [nilEncoding t'] w)
  | TPtr t', VPtr v' => writer t' v' w
  | _, _ => Panic
  end.

(** [rlp.EncodeToBytes]. *)
Definition EncodeToBytes (t : rtype) (v : rvalue) : go_res bytes :=
  w ← writer t v reset; Ok (toBytes w).

(** ** Reference encoding *)

Definition ref_uint (i : Z) : bytes :=
  if i =? 0 then [z2b 0x80]
  else if i <? 128 then [z2b i]
  else z2b (0x80 + Z.of_nat (nbytes i)) :: be_bytes (nbytes i) i.

Definition ref_head (small large : Z) (n : Z) : bytes :=
  if n <? 56 then [z2b (small + n)]
  else z2b (large + Z.of_nat (nbytes n)) :: be_bytes (nbytes n) n.

Definition ref_string (b : bytes) : bytes :=
  match b with
  | [c] => if b2z c <? 0x80 then [c] else ref_head 0x80 0xB7 1 ++ b
  | _ => ref_head 0x80 0xB7 (Z.of_nat (length b)) ++ b
  end.

Definition ref_list (payload : bytes) : bytes :=
  ref_head 0xC0 0xF7 (Z.of_nat (length payload)) ++ payload.

Definition ref_elems (f : rvalue → go_res bytes) : list rvalue → go_res bytes :=
  fix go l :=
    match l with
    | [] => Ok []
    | x :: l' => b ← f x; r ← go l'; Ok (b ++ r)
    end.

Definition ref_fields (f : rtype → rvalue → go_res bytes) :
    list rtype → list rvalue → go_res bytes :=
  fix go ts l {struct l} :=
    match ts, l with
    | [], [] => Ok []
    | t :: ts', x :: l' => b ← f t x; r ← go ts' l'; Ok (b ++ r)
    | _, _ => Panic
    end.

(** RLP by recursion on the value: an integer is the string of its minimal big-endian
    bytes, a list is a header with the size of its payload followed by the payload. *)
Fixpoint ref (t : rtype) (v : rvalue) {struct v} : go_res bytes :=
  match t, v with
  | TUint _, VUint z => Ok (ref_uint z)
  | TBool, VBool b => Ok (ref_uint (if b then 1 else 0))
  | TBigInt, VBig z => if z <? 0 then Err errNegative else Ok (ref_string (big_bytes z))
  | TBytes, VBytes b => Ok (ref_string b)
  | TArray n, VArray b => Ok (ref_string b)
  | TSlice t', VSlice l =>
      p ← ref_elems (ref t') l;
      Ok (ref_list p)
  | TStruct ts, VStruct l =>
      p ← ref_fields ref ts l;
      Ok (ref_list p)
  | TPtr t', VNil => Ok [nilEncoding t']
  | TPtr t', VPtr v' => ref t' v'
  | _, _ => Panic
  end.

(** ** Typing *)

(** [typed strict t v]: [v] is a Go value of type [t], integers in range and arrays of
    the right length; a [strict] value is one a decoder can produce: it has no nil pointer
    and no negative integer. *)
Definition good_bits (bits : Z) : Prop :=
  bits = 8 ∨ bits = 16 ∨ bits = 32 ∨ bits = 64.

Definition typed_elems (f : rvalue → Prop) : list rvalue → Prop :=
  fix go l := match l with [] => True | x :: l' => f x ∧ go l' end.

Definition typed_fields (f : rtype → rvalue → Prop) : list rtype → list rvalue → Prop :=
  fix go ts l {struct l} :=
    match ts, l with
    | [], [] => True
    | t :: ts', x :: l' => f t x ∧ go ts' l'
    | _, _ => False
    end.

Fixpoint typed (strict : bool) (t : rtype) (v : rvalue) {struct v} : Prop :=
  match t, v with
  | TUint bits, VUint z => good_bits bits ∧ 0 ≤ z < 2 ^ bits
  | TBool, VBool _ => True
  | TBigInt, VBig z => if strict then 0 ≤ z else True
  | TBytes, VBytes _ => True
  | TArray n, VArray b => length b = n
  | TSlice t', VSlice l => typed_elems (typed strict t') l
  | TStruct ts, VStruct l => typed_fields (typed strict) ts l
  | TPtr t', VNil => strict = false
  | TPtr t', VPtr v' => typed strict t' v'
  | _, _ => False
  end.

(** Induction on values, through the lists of elements and fields. *)
Section rvalue_ind.
Context (P : rvalue → Prop).
Context (HUint : ∀ z, P (VUint z)) (HBool : ∀ b, P (VBool b)) (HBig : ∀ z, P (VBig z)).
Context (HBytes : ∀ b, P (VBytes b)) (HArray : ∀ b, P (VArray b)).
Context (HSlice : ∀ l, Forall P l → P (VSlice l)).
Context (HStruct : ∀ l, Forall P l → P (VStruct l)).
Context (HNil : P VNil) (HPtr : ∀ v, P v → P (VPtr v)).

Fixpoint rvalue_nested_ind (v : rvalue) : P v :=
  let fix go (l : list rvalue) : Forall P l :=
    match l with
    | [] => List.Forall_nil P
    | x :: l' => List.Forall_cons P x l' (rvalue_nested_ind x) (go l')
    end in
  match v with
  | VUint z => HUint z
  | VBool b => HBool b
  | VBig z => HBig z
  | VBytes b => HBytes b
  | VArray b => HArray b
  | VSlice l => HSlice l (go l)
  | VStruct l => HStruct l (go l)
  | VNil => HNil
  | VPtr v' => HPtr v' (rvalue_nested_ind v')
  end.
End rvalue_ind.

(** ** Integers and headers *)

Lemma putint_spec i : 0 < i < two64 → putint i = be_bytes (nbytes i) i.
Proof.
  unfold two64. intros Hi. unfold putint.
  repeat match goal with
  | |- (if ?a <? ?b then _ else _) = _ => destruct (Z.ltb_spec a b)
  end;
    match goal with |- be_bytes ?n i = _ =>
      rewrite (nbytes_unique i n (proj1 Hi)); [reflexivity|] end;
    match goal with |- 256 ^ (Z.of_nat ?n - 1) ≤ _ < _ =>
      let e := eval vm_compute in (256 ^ (Z.of_nat n - 1)) in
      let f := eval vm_compute in (256 ^ Z.of_nat n) in
      change (256 ^ (Z.of_nat n - 1)) with e; change (256 ^ Z.of_nat n) with f end; lia.
Qed.

Lemma intsize_go_spec fuel : ∀ n i,
  0 < i → i < 256 ^ Z.of_nat fuel → intsize_go fuel (S n) i = (n + nbytes i)%nat.
Proof.
  induction fuel as [|fuel IH]; intros n i Hi Hu.
  { change (256 ^ Z.of_nat 0) with 1 in Hu. lia. }
  cbn [intsize_go]. rewrite Z.shiftr_div_pow2 by lia. change (2 ^ 8) with 256.
  pose proof (Z.div_mod i 256 ltac:(lia)). pose proof (Z.mod_pos_bound i 256 ltac:(lia)).
  destruct (Z.eqb_spec (i / 256) 0) as [Hd|Hd].
  - rewrite (nbytes_unique i 1); [lia|lia|]. change (256 ^ (Z.of_nat 1 - 1)) with 1.
    change (256 ^ Z.of_nat 1) with 256. lia.
  - rewrite pow256_S in Hu. assert (0 < i / 256) by lia.
    rewrite IH by lia.
    pose proof (nbytes_lower (i / 256) ltac:(lia)). pose proof (nbytes_upper (i / 256)).
    rewrite (nbytes_unique i (S (nbytes (i / 256)))); [lia|lia|].
    pose proof (nbytes_pos (i / 256) ltac:(lia)). rewrite pow256_S.
    replace (Z.of_nat (S (nbytes (i / 256))) - 1)
      with (Z.succ (Z.of_nat (nbytes (i / 256)) - 1)) by lia.
    rewrite Z.pow_succ_r by lia. lia.
Qed.

Lemma intsize_spec i : 0 < i < two64 → intsize i = nbytes i.
Proof. intros [Hl Hu]. unfold intsize. rewrite intsize_go_spec; [lia|done|exact Hu]. Qed.

Lemma puthead_ref small large n :
  0 ≤ n < two64 → puthead small large n = ref_head small large n.
Proof.
  intros Hn. unfold puthead, ref_head. destruct (Z.ltb_spec n 56); [done|].
  rewrite putint_spec by lia. by rewrite length_be_bytes.
Qed.

Lemma length_ref_head small large n :
  0 ≤ n < two64 → length (ref_head small large n) = headsize n.
Proof.
  intros Hn. unfold ref_head, headsize. destruct (Z.ltb_spec n 56); [done|].
  simpl. rewrite length_be_bytes, intsize_spec by lia. done.
Qed.

Lemma bitLen_nbytes z : 0 < z →
  Z.to_nat (Z.shiftr (Z.land (bitLen z + 7) (-8)) 3) = nbytes z.
Proof.
  intros Hz. unfold bitLen, nbytes. destruct (Z.eqb_spec z 0); [lia|].
  destruct (Z.leb_spec z 0); [lia|]. rewrite Z.abs_eq by lia. f_equal.
  rewrite Z.shiftr_land. change (Z.shiftr (-8) 3) with (-1). rewrite Z.land_m1_r.
  rewrite Z.shiftr_div_pow2 by lia. change (2 ^ 3) with 8. pose proof (Z.log2_nonneg z). dlia.
Qed.

Lemma ref_uint_string z : 0 ≤ z → z < two64 → ref_uint z = ref_string (big_bytes z).
Proof.
  intros Hz Hu. unfold ref_uint, big_bytes. rewrite Z.abs_eq by lia.
  destruct (Z.eqb_spec z 0) as [->|Hnz]; [done|].
  destruct (Z.ltb_spec z 128).
  { rewrite (nbytes_unique z 1); [|lia|simpl; change (256 ^ (Z.of_nat 1 - 1)) with 1;
      change (256 ^ Z.of_nat 1) with 256; lia].
    simpl. rewrite Z.shiftr_0_r, b2z_z2b, Z.mod_small by lia.
    destruct (Z.ltb_spec z 128); [done|lia]. }
  assert (nbytes z ≤ 8)%nat as H8.
  { destruct (le_lt_dec (nbytes z) 8); [done|]. pose proof (nbytes_lower z ltac:(lia)).
    assert (256 ^ 8 ≤ 256 ^ (Z.of_nat (nbytes z) - 1)) by (apply Z.pow_le_mono_r; lia).
    change (256 ^ 8) with two64 in *. lia. }
  pose proof (length_be_bytes (nbytes z) z) as Hlen.
  assert (0 ≤ z < 256 ^ Z.of_nat (nbytes z)) as Hr by (split; [lia|apply nbytes_upper]).
  pose proof (be_val_be_bytes_small _ _ Hr) as Hv.
  unfold ref_string. destruct (be_bytes (nbytes z) z) as [|c [|d l]] eqn:Hb.
  - simpl in Hlen. pose proof (nbytes_pos z ltac:(lia)). lia.
  - simpl in Hlen. rewrite <- Hlen. unfold be_val in Hv. simpl in Hv.
    destruct (Z.ltb_spec (b2z c) 128); [lia|]. done.
  - rewrite Hlen. unfold ref_head. destruct (Z.ltb_spec (Z.of_nat (nbytes z)) 56); [|lia].
    done.
Qed.

(** ** The encoder produces the reference encoding *)

Fixpoint heads_size (hs : list listhead) : nat :=
  match hs with
  | [] => 0
  | h :: hs' => headsize (Z.of_nat (hsize h)) + heads_size hs'
  end.

(** The headers lie in order between two offsets of the string data. *)
Fixpoint heads_ok (lo hi : nat) (hs : list listhead) : Prop :=
  match hs with
  | [] => (lo ≤ hi)%nat
  | h :: hs' => (lo ≤ offset h)%nat ∧ Z.of_nat (hsize h) < two64 ∧ heads_ok (offset h) hi hs'
  end.

(** The output between two offsets of the string data. *)
Fixpoint seg (p q : nat) (hs : list listhead) (s : bytes) : bytes :=
  match hs with
  | [] => take (q - p) (drop p s)
  | h :: hs' => take (offset h - p) (drop p s) ++ head_encode h ++ seg (offset h) q hs' s
  end.

Lemma heads_ok_le lo hi hs : heads_ok lo hi hs → (lo ≤ hi)%nat.
Proof.
  revert lo. induction hs as [|h hs IH]; intros lo; simpl; [done|].
  intros (? & _ & ?%IH). lia.
Qed.

Lemma heads_ok_app lo mid hi hs1 hs2 :
  heads_ok lo mid hs1 → heads_ok mid hi hs2 → heads_ok lo hi (hs1 ++ hs2).
Proof.
  revert lo. induction hs1 as [|h hs1 IH]; intros lo; simpl.
  - intros Hle. destruct hs2 as [|h hs2]; simpl; [lia|]. intros (? & ? & ?).
    split_and!; [lia|done|done].
  - intros (? & ? & ?) ?. split_and!; [done|done|by apply IH].
Qed.

Lemma take_drop_split {A} (s : list A) p q r :
  (p ≤ q ≤ r)%nat →
  take (r - p) (drop p s) = take (q - p) (drop p s) ++ take (r - q) (drop q s).
Proof.
  intros H. rewrite <- (take_drop (q - p) (take (r - p) (drop p s))) at 1.
  rewrite take_take, Nat.min_l by lia. f_equal.
  rewrite skipn_firstn_comm, drop_drop. f_equal; [lia|f_equal; lia].
Qed.

Lemma seg_app p q r hs1 hs2 s :
  heads_ok p q hs1 → heads_ok q r hs2 →
  seg p r (hs1 ++ hs2) s = seg p q hs1 s ++ seg q r hs2 s.
Proof.
  revert p. induction hs1 as [|h hs1 IH]; intros p; simpl.
  - intros Hpq Hqr. destruct hs2 as [|h hs2]; simpl in *.
    + apply take_drop_split. lia.
    + rewrite (take_drop_split s p q (offset h)) by lia. by rewrite <- app_assoc.
  - intros (? & ? & Hok) Hqr. rewrite IH by done. by rewrite <- !app_assoc.
Qed.

Lemma seg_prefix p q hs s t :
  heads_ok p q hs → (q ≤ length s)%nat → seg p q hs (s ++ t) = seg p q hs s.
Proof.
  revert p. induction hs as [|h hs IH]; intros p; simpl.
  - intros Hpq Hq. rewrite drop_app_le by lia. rewrite take_app_le; [done|].
    rewrite length_drop. lia.
  - intros (? & ? & Hok) Hq. pose proof (heads_ok_le _ _ _ Hok). rewrite IH by done.
    rewrite drop_app_le by lia. rewrite take_app_le; [done|].
    rewrite length_drop. lia.
Qed.

Lemma length_head_encode h :
  Z.of_nat (hsize h) < two64 → length (head_encode h) = headsize (Z.of_nat (hsize h)).
Proof.
  intros H. unfold head_encode. rewrite puthead_ref by lia. apply length_ref_head. lia.
Qed.

Lemma length_seg p q hs s :
  heads_ok p q hs → (q ≤ length s)%nat →
  length (seg p q hs s) = (q - p + heads_size hs)%nat.
Proof.
  revert p. induction hs as [|h hs IH]; intros p; simpl.
  - intros ? ?. rewrite length_take, length_drop. lia.
  - intros (? & ? & Hok) ?. pose proof (heads_ok_le _ _ _ Hok).
    rewrite !length_app, IH, length_take, length_drop, length_head_encode by done. lia.
Qed.

Lemma merge_heads_seg p hs s :
  merge_heads p hs s = seg p (length s) hs s.
Proof.
  revert p. induction hs as [|h hs IH]; intros p; simpl; [|by rewrite IH].
  rewrite take_ge; [done|]. rewrite length_drop. lia.
Qed.

(** Writing a value extends the two buffers; unless the encoding is longer than a Go slice
    can be, what it adds to the output is [bs]. *)
Definition emits (w w' : encbuf) (bs : bytes) : Prop :=
  ∃ s hs, str w' = str w ++ s ∧ lheads w' = lheads w ++ hs ∧
    (Z.of_nat (length bs) < two64 →
     lhsize w' = (lhsize w + heads_size hs)%nat ∧
     heads_ok (length (str w)) (length (str w')) hs ∧
     seg (length (str w)) (length (str w')) hs (str w') = bs).

Lemma emits_str w b : emits w (write_str b w) b.
Proof.
  exists b, []. split_and!; [done|simpl; by rewrite app_nil_r|].
  intros _. simpl. split_and!; [lia|rewrite length_app; lia|].
  rewrite drop_app_length, take_ge; [done|]. rewrite length_app. lia.
Qed.

(** Nothing is claimed of an encoding that is too long. *)
Lemma emits_long w b bs : two64 ≤ Z.of_nat (length bs) → emits w (write_str b w) bs.
Proof.
  intros H. exists b, []. split_and!; [done|simpl; by rewrite app_nil_r|lia].
Qed.

Lemma emits_refl w : emits w w [].
Proof.
  exists [], []. rewrite !app_nil_r. split_and!; [done|done|]. intros _.
  simpl. split_and!; [lia|lia|]. by rewrite Nat.sub_diag.
Qed.

Lemma emits_trans w w1 w2 b1 b2 : emits w w1 b1 → emits w1 w2 b2 → emits w w2 (b1 ++ b2).
Proof.
  intros (s1 & hs1 & Hs1 & Hl1 & H1) (s2 & hs2 & Hs2 & Hl2 & H2).
  exists (s1 ++ s2), (hs1 ++ hs2). rewrite Hs2, Hl2, Hs1, Hl1, !app_assoc.
  split_and!; [done|done|]. intros Hlen. rewrite length_app in Hlen.
  destruct (H1 ltac:(lia)) as (Hz1 & Ho1 & Hg1). destruct (H2 ltac:(lia)) as (Hz2 & Ho2 & Hg2).
  rewrite Hs1 in *. rewrite Hs2 in *. split_and!.
  - rewrite Hz2, Hz1. clear. induction hs1; simpl; lia.
  - eapply heads_ok_app; eassumption.
  - erewrite seg_app by eassumption. f_equal; [|done].
    rewrite <- Hg1. apply seg_prefix; [done|lia].
Qed.

(** Opening a list, writing its payload and ending it adds a header before the payload. *)
Lemma emits_list w w2 payload :
  emits (enc_list w).2 w2 payload →
  ∃ w3, listEnd (enc_list w).1 w2 = Ok w3 ∧ emits w w3 (ref_list payload).
Proof.
  unfold enc_list. simpl. intros (s & hs & Hs & Hl & H). simpl in *.
  unfold listEnd, go_index. rewrite Hl, lookup_app_l
    by (rewrite length_app; simpl; lia).
  rewrite lookup_app_r, Nat.sub_diag by lia. simpl. eexists. split; [done|].
  set (size := (enc_size w2 - length (str w) - lhsize w)%nat).
  exists s, (Listhead (length (str w)) size :: hs). split_and!; [done| |].
  { simpl. rewrite insert_app_l by (rewrite length_app; simpl; lia).
    rewrite insert_app_r_alt, Nat.sub_diag by lia. simpl. by rewrite <- app_assoc. }
  intros Hlen. unfold ref_list in Hlen. rewrite length_app in Hlen.
  destruct (H ltac:(lia)) as (Hz & Ho & Hg). pose proof (heads_ok_le _ _ _ Ho).
  assert (size = length payload) as Hsize.
  { rewrite <- Hg, length_seg by (done || lia). unfold size, enc_size. lia. }
  simpl. rewrite Hsize. split_and!.
  - unfold headsize. destruct (Nat.ltb_spec (length payload) 56),
      (Z.ltb_spec (Z.of_nat (length payload)) 56); lia.
  - lia.
  - lia.
  - done.
  - rewrite Nat.sub_diag. simpl. rewrite Hg. unfold head_encode, ref_list. simpl.
    by rewrite puthead_ref by lia.
Qed.

Lemma encodeStringHeader_write size w :
  0 ≤ size < two64 → encodeStringHeader size w = write_str (ref_head 0x80 0xB7 size) w.
Proof.
  intros Hs. unfold encodeStringHeader, ref_head. destruct (Z.ltb_spec size 56); [done|].
  rewrite putint_spec by lia. by rewrite length_be_bytes.
Qed.

Lemma write_str_app a b w : write_str b (write_str a w) = write_str (a ++ b) w.
Proof. unfold write_str. simpl. by rewrite app_assoc. Qed.

Lemma encodeString_emits b w : emits w (encodeString b w) (ref_string b).
Proof.
  assert (∀ k, emits w (write_str b (encodeStringHeader k w))
                 (ref_head 0x80 0xB7 k ++ b) ∨ ¬ (0 ≤ k < two64)) as Hhead.
  { intros k. destruct (decide (0 ≤ k < two64)); [left|by right].
    rewrite encodeStringHeader_write, write_str_app by done. apply emits_str. }
  assert (emits w (write_str b (encodeStringHeader (Z.of_nat (length b)) w))
            (ref_head 0x80 0xB7 (Z.of_nat (length b)) ++ b)) as Hlong.
  { destruct (Hhead (Z.of_nat (length b))) as [|Hbig]; [done|].
    unfold encodeStringHeader. destruct (Z.ltb_spec (Z.of_nat (length b)) 56);
      rewrite write_str_app; apply emits_long; rewrite length_app; lia. }
  destruct b as [|c [|d b]]; [done| |done]. simpl.
  destruct (Z.leb_spec (b2z c) 0x7F), (Z.ltb_spec (b2z c) 0x80); try lia.
  - apply emits_str.
  - apply Hlong.
Qed.

Lemma encodeUint_emits i w : 0 ≤ i < two64 → emits w (encodeUint i w) (ref_uint i).
Proof.
  intros Hi. unfold encodeUint, ref_uint. destruct (Z.eqb_spec i 0); [apply emits_str|].
  destruct (Z.ltb_spec i 128); [apply emits_str|].
  rewrite putint_spec, length_be_bytes by lia. apply emits_str.
Qed.

Lemma bitLen_64 z : 0 ≤ z → (bitLen z <=? 64) = true ↔ z < two64.
Proof.
  intros Hz. unfold bitLen. rewrite Z.leb_le. destruct (Z.eqb_spec z 0) as [->|].
  { unfold two64. split; lia. }
  rewrite Z.abs_eq by lia. change two64 with (2 ^ 64).
  rewrite (Z.log2_lt_pow2 z 64) by lia. lia.
Qed.

Lemma big_bytes_long z : two64 ≤ z →
  ref_string (big_bytes z) = ref_head 0x80 0xB7 (Z.of_nat (nbytes z)) ++ be_bytes (nbytes z) z
  ∧ (2 ≤ nbytes z)%nat.
Proof.
  intros Hz. unfold two64 in Hz. unfold big_bytes. rewrite Z.abs_eq by lia.
  pose proof (nbytes_upper z) as Hu. pose proof (length_be_bytes (nbytes z) z) as Hlen.
  assert (2 ≤ nbytes z)%nat.
  { destruct (nbytes z) as [|[|n]]; [| |lia].
    - change (256 ^ Z.of_nat 0) with 1 in Hu. lia.
    - change (256 ^ Z.of_nat 1) with 256 in Hu. lia. }
  split; [|done]. unfold ref_string.
  destruct (be_bytes (nbytes z) z) as [|c [|d l]]; simpl in Hlen; [lia|lia|].
  by rewrite <- Hlen.
Qed.

Lemma writeBigInt_spec z w :
  0 ≤ z → ∃ w', writeBigInt z w = Ok w' ∧ emits w w' (ref_string (big_bytes z)).
Proof.
  intros Hz. unfold writeBigInt. destruct (Z.ltb_spec z 0); [lia|].
  destruct (bitLen z <=? 64) eqn:Hb.
  - apply bitLen_64 in Hb; [|lia]. eexists. split; [done|].
    unfold u64. rewrite Z.mod_small by lia. rewrite <- ref_uint_string by lia.
    apply encodeUint_emits. lia.
  - assert (two64 ≤ z) as Hbig.
    { destruct (Z.le_gt_cases two64 z) as [|Hlt]; [done|].
      apply (bitLen_64 z Hz) in Hlt. congruence. }
    destruct (big_bytes_long z Hbig) as [-> H2].
    assert (0 < z) as Hpos by (unfold two64 in Hbig; lia).
    pose proof (bitLen_nbytes z Hpos) as Hlen.
    set (len := Z.shiftr (Z.land (bitLen z + 7) (-8)) 3) in *.
    eexists. split; [done|]. rewrite Hlen.
    replace len with (Z.of_nat (nbytes z)) by lia.
    destruct (decide (Z.of_nat (nbytes z) < two64)) as [Hn|Hn].
    + rewrite encodeStringHeader_write, write_str_app by lia. apply emits_str.
    + unfold encodeStringHeader. destruct (Z.ltb_spec (Z.of_nat (nbytes z)) 56);
        rewrite write_str_app; apply emits_long; rewrite length_app, length_be_bytes; lia.
Qed.

Lemma writeByteArray_emits n b w :
  length b = n → emits w (writeByteArray n b w) (ref_string b).
Proof.
  intros Hn. pose proof (encodeString_emits b w) as He. unfold encodeString in He.
  destruct n as [|[|n]]; destruct b as [|c [|d b]]; simpl in Hn; try lia; simpl in *.
  - apply emits_str.
  - destruct (Z.leb_spec (b2z c) 0x7f); [done|].
    change (encodeStringHeader 1 w) with (write_str [z2b 0x81] w) in He.
    by rewrite write_str_app in He.
  - done.
Qed.

Definition writes (t : rtype) (v : rvalue) : Prop :=
  ∀ w, match ref t v with
       | Ok bs => ∃ w', writer t v w = Ok w' ∧ emits w w' bs
       | Err e => writer t v w = Err e
       | _ => False
       end.

Lemma write_elems_spec t l :
  Forall (λ v, typed false t v → writes t v) l → typed_elems (typed false t) l →
  ∀ w, match ref_elems (ref t) l with
       | Ok bs => ∃ w', write_elems (writer t) l w = Ok w' ∧ emits w w' bs
       | Err e => write_elems (writer t) l w = Err e
       | _ => False
       end.
Proof.
  induction 1 as [|x l Hx Hl IH]; simpl.
  { intros _ w. eexists. split; [done|apply emits_refl]. }
  intros [Ht Hts] w. specialize (Hx Ht w). destruct (ref t x) as [b|e| |]; try done.
  2:{ simpl. by rewrite Hx. }
  destruct Hx as (w1 & Hw1 & He1). rewrite Hw1. simpl. specialize (IH Hts w1).
  destruct (ref_elems (ref t) l) as [bs|e| |]; try done.
  destruct IH as (w2 & Hw2 & He2). simpl. exists w2.
  split; [done|by eapply emits_trans].
Qed.

Lemma write_fields_spec l :
  Forall (λ v, ∀ t, typed false t v → writes t v) l →
  ∀ ts, typed_fields (typed false) ts l →
  ∀ w, match ref_fields ref ts l with
       | Ok bs => ∃ w', write_fields writer ts l w = Ok w' ∧ emits w w' bs
       | Err e => write_fields writer ts l w = Err e
       | _ => False
       end.
Proof.
  induction 1 as [|x l Hx Hl IH]; intros [|t ts]; simpl; try done.
  { intros _ w. eexists. split; [done|apply emits_refl]. }
  intros [Ht Hts] w. specialize (Hx t Ht w). destruct (ref t x) as [b|e| |]; try done.
  2:{ simpl. by rewrite Hx. }
  destruct Hx as (w1 & Hw1 & He1). rewrite Hw1. simpl. specialize (IH ts Hts w1).
  destruct (ref_fields ref ts l) as [bs|e| |]; try done.
  destruct IH as (w2 & Hw2 & He2). simpl. exists w2.
  split; [done|by eapply emits_trans].
Qed.

Lemma ref_elems_cons f x l :
  ref_elems f (x :: l) = (b ← f x; r ← ref_elems f l; Ok (b ++ r)).
Proof. reflexivity. Qed.

Lemma ref_fields_cons f t ts x l :
  ref_fields f (t :: ts) (x :: l) = (b ← f t x; r ← ref_fields f ts l; Ok (b ++ r)).
Proof. reflexivity. Qed.

#[global] Arguments write_elems : simpl never.
#[global] Arguments write_fields : simpl never.
#[global] Arguments ref_elems : simpl never.
#[global] Arguments ref_fields : simpl never.

Lemma writer_spec v : ∀ t, typed false t v → writes t v.
Proof.
  induction v using rvalue_nested_ind; intros t Ht w; destruct t; simpl in Ht; try done;
    simpl.
  - eexists. split; [done|]. apply encodeUint_emits. destruct Ht as [Hb Hz].
    destruct Hb as [->|[->|[->| ->]]]; unfold two64; lia.
  - eexists. split; [done|]. destruct b; apply emits_str.
  - destruct (Z.ltb_spec z 0).
    + unfold writeBigInt. destruct (Z.ltb_spec z 0); [done|lia].
    + by apply writeBigInt_spec.
  - eexists. split; [done|]. apply encodeString_emits.
  - eexists. split; [done|]. by apply writeByteArray_emits.
  - destruct l as [|x l]; [eexists; split; [done|apply emits_str]|].
    assert (Forall (λ v, typed false t v → writes t v) (x :: l)) as Hl
      by (eapply Forall_impl; [exact H|]; auto).
    pose proof (write_elems_spec t (x :: l) Hl Ht (enc_list w).2) as He.
    destruct (ref_elems (ref t) (x :: l)) as [bs|e| |]; try done.
    2:{ unfold enc_list in *. simpl in He. by rewrite He. }
    destruct He as (w2 & Hw2 & He). unfold enc_list in *. cbn [snd fst] in *. rewrite Hw2.
    by apply (emits_list w).
  - pose proof (write_fields_spec l H ts Ht (enc_list w).2) as He.
    destruct (ref_fields ref ts l) as [bs|e| |]; try done.
    2:{ unfold enc_list in *. simpl in He. by rewrite He. }
    destruct He as (w2 & Hw2 & He). unfold enc_list in *. cbn [snd fst] in *. rewrite Hw2.
    by apply (emits_list w).
  - eexists. split; [done|]. apply emits_str.
  - by apply IHv.
Qed.

Lemma EncodeToBytes_ref_typed t v :
  typed false t v → (∀ bs, ref t v = Ok bs → Z.of_nat (length bs) < two64) →
  EncodeToBytes t v = ref t v.
Proof.
  intros Ht Hlen. unfold EncodeToBytes. pose proof (writer_spec v t Ht reset) as H.
  destruct (ref t v) as [bs|e| |] eqn:Href; try done; [|by rewrite H].
  destruct H as (w & -> & s & hs & Hs & Hl & He). simpl. f_equal.
  destruct (He (Hlen bs eq_refl)) as (_ & Ho & Hg). unfold toBytes.
  by rewrite merge_heads_seg, Hl.
Qed.

(** C21: the encoder implements RLP. For a value of a Go type, nil pointers and negative
    integers included, the two-buffer encoder returns what the recursive definition [ref]
    of RLP gives, errors included, as long as the encoding is shorter than 2^64 bytes. *)
Theorem rlp_encode_refines t v :
  typed false t v → (∀ bs, ref t v = Ok bs → Z.of_nat (length bs) < two64) →
  EncodeToBytes t v = ref t v.
Proof. apply EncodeToBytes_ref_typed. Qed.

(** A type and a value of it with every kind of field, the pointer once nil. *)
Definition sample_type : rtype :=
  TStruct [TUint 64; TBool; TBigInt; TBytes; TArray 2; TSlice (TUint 8); TPtr (TUint 16)].
Definition sample (p : rvalue) : rvalue :=
  VStruct [VUint 300; VBool true; VBig (2 ^ 70); VBytes [x01; x02]; VArray [xff; x00];
           VSlice [VUint 0; VUint 200]; p].

Lemma rlp_encode_refines_witness :
  EncodeToBytes sample_type (sample VNil) = ref sample_type (sample VNil).
Proof.
  apply rlp_encode_refines.
  - vm_compute. intuition congruence.
  - intros bs Hbs. vm_compute in Hbs. injection Hbs as <-. done.
Defined.
