(* ===== verification/RlpDec.v ===== *)
(** * Package rlp: the decoder

    The stream decoder of src/rlp/decode.go on an input held in memory ([DecodeBytes]).
    [Stream] keeps the unread input, the number of bytes that may still be read, the
    sizes left of the enclosing lists (innermost first) and the kind of the value ahead
    once it has been read; the fields [size] and [byteval] of the Go struct are read only
    while [kind] is set, so they are part of it here. A stream is not used after an error,
    so an error carries none. Error values are those of the source; the context that
    [decodeError] collects for its message is left out.

    The theorems: what [DecodeBytes] accepts is exactly what the encoder produces
    (canonicity, although [Stream.List] may let a list size wrap around), and decoding an
    encoding gives the value back. *)

From Stdlib Require Import ZArith Lia Strings.Byte.
From stdpp Require Import base tactics option numbers list strings.
From S2P Require Import Prelude Common RlpEnc.

(** ** Errors *)

Definition EOL : error := Error "rlp.EOL".
Definition ErrExpectedString : error := Error "rlp.ErrExpectedString".
Definition ErrExpectedList : error := Error "rlp.ErrExpectedList".
Definition ErrCanonInt : error := Error "rlp.ErrCanonInt".
Definition ErrCanonSize : error := Error "rlp.ErrCanonSize".
Definition ErrElemTooLarge : error := Error "rlp.ErrElemTooLarge".
Definition ErrValueTooLarge : error := Error "rlp.ErrValueTooLarge".
Definition ErrMoreThanOneValue : error := Error "rlp.ErrMoreThanOneValue".
Definition errNotInList : error := Error "rlp.errNotInList".
Definition errNotAtEOL : error := Error "rlp.errNotAtEOL".
Definition errUintOverflow : error := Error "rlp.errUintOverflow".
Definition errTooFew : error := Error "rlp: too few elements".
Definition errTooLong : error := Error "rlp: input string too long".
Definition errTooShort : error := Error "rlp: input string too short".
Definition errBadBool : error := Error "rlp: invalid boolean value".
Definition io_EOF : error := Error "io.EOF".
Definition io_ErrUnexpectedEOF : error := Error "io.ErrUnexpectedEOF".

Definition wrapStreamError (e : error) : error :=
  if decide (e ∈ [ErrCanonInt; ErrCanonSize; ErrExpectedList; ErrExpectedString;
                  errUintOverflow; errNotAtEOL])
  then Wrapped "rlp.decodeError" e else e.

Definition wrap {A} (r : go_res A) : go_res A :=
  match r with
  | Err e => Err (wrapStreamError e)
  | _ => r
  end.

(** ** The stream *)

Inductive Kind := KByte | KString | KList.

#[export] Instance Kind_eq_dec : EqDecision Kind.
Proof. solve_decision. Defined.

Record Stream := MkStream {
  s_in : bytes;
  s_remaining : Z;
  s_stack : list Z;
  s_kind : option (Kind * Z * byte);
  s_limited : bool
}.

(** [Stream.Reset] on a [bytes.Reader] over [b]. *)
Definition stream_Reset (b : bytes) : Stream :=
  MkStream b (Z.of_nat (length b)) [] None true.

Definition set_kind (k : option (Kind * Z * byte)) (s : Stream) : Stream :=
  MkStream (s_in s) (s_remaining s) (s_stack s) k (s_limited s).

Definition listLimit (s : Stream) : option Z := head (s_stack s).

(** [willRead] *)
Definition willRead (n : Z) (s : Stream) : go_res Stream :=
  stack ← match s_stack s with
          | [] => Ok []
          | limit :: st => if limit <? n then Err ErrElemTooLarge else Ok (limit - n :: st)
          end;
  remaining ← (if s_limited s
               then if s_remaining s <? n then Err ErrValueTooLarge
                    else Ok (s_remaining s - n)
               else Ok (s_remaining s));
  Ok (MkStream (s_in s) remaining stack None (s_limited s)).

Definition readFull (n : Z) (s : Stream) : go_res (bytes * Stream) :=
  s1 ← willRead n s;
  if Z.of_nat (length (s_in s1)) <? n then Err io_ErrUnexpectedEOF
  else Ok (take (Z.to_nat n) (s_in s1),
           MkStream (drop (Z.to_nat n) (s_in s1)) (s_remaining s1) (s_stack s1)
             (s_kind s1) (s_limited s1)).

Definition readByte (s : Stream) : go_res (byte * Stream) :=
  s1 ← willRead 1 s;
  match s_in s1 with
  | [] => Err io_ErrUnexpectedEOF
  | b :: r => Ok (b, MkStream r (s_remaining s1) (s_stack s1) (s_kind s1) (s_limited s1))
  end.

Definition readUint (size : Z) (s : Stream) : go_res (Z * Stream) :=
  if size =? 0 then Ok (0, set_kind None s)
  else if size =? 1 then '(b, s1) ← readByte s; Ok (b2z b, s1)
  else
    '(buf, s1) ← readFull size s;
    match buf with
    | c :: _ => if decide (c = x00) then Err ErrCanonSize else Ok (be_val buf, s1)
    | [] => Panic
    end.

(** [readKind]: the kind, the size and the byte value of the next value. *)
Definition readKind (s : Stream) : go_res (Kind * Z * byte * Stream) :=
  match readByte s with
  | Err e =>
      Err (if decide (s_stack s = [])
           then if decide (e = io_ErrUnexpectedEOF ∨ e = ErrValueTooLarge) then io_EOF else e
           else e)
  | Panic => Panic
  | NoFuel => NoFuel
  | Ok (c, s1) =>
      let b := b2z c in
      if b <? 0x80 then Ok (KByte, 0, c, s1)
      else if b <? 0xB8 then Ok (KString, b - 0x80, x00, s1)
      else if b <? 0xC0 then
        '(size, s2) ← readUint (b - 0xB7) s1;
        if size <? 56 then Err ErrCanonSize else Ok (KString, size, x00, s2)
      else if b <? 0xF8 then Ok (KList, b - 0xC0, x00, s1)
      else
        '(size, s2) ← readUint (b - 0xF7) s1;
        if size <? 56 then Err ErrCanonSize else Ok (KList, size, x00, s2)
  end.

(** [Stream.Kind]. The size of an element is checked against the list limit as it was
    before the tag was read. *)
Definition stream_Kind (s : Stream) : go_res (Kind * Z * byte * Stream) :=
  match s_kind s with
  | Some (k, size, bv) => Ok (k, size, bv, s)
  | None =>
      let limit := listLimit s in
      if decide (limit = Some 0) then Err EOL
      else
        '(k, size, bv, s1) ← readKind s;
        if match limit with Some l => l <? size | None => false end then Err ErrElemTooLarge
        else if s_limited s1 && (s_remaining s1 <? size) then Err ErrValueTooLarge
        else Ok (k, size, bv, set_kind (Some (k, size, bv)) s1)
  end.

(** [Stream.Bytes], [Stream.uint], [Stream.Bool]. *)
Definition stream_Bytes (s : Stream) : go_res (bytes * Stream) :=
  '(k, size, bv, s1) ← stream_Kind s;
  match k with
  | KByte => Ok ([bv], set_kind None s1)
  | KString =>
      '(b, s2) ← readFull size s1;
      match b with
      | [c] => if b2z c <? 128 then Err ErrCanonSize else Ok (b, s2)
      | _ => Ok (b, s2)
      end
  | KList => Err ErrExpectedString
  end.

Definition stream_uint (maxbits : Z) (s : Stream) : go_res (Z * Stream) :=
  '(k, size, bv, s1) ← stream_Kind s;
  match k with
  | KByte => if decide (bv = x00) then Err ErrCanonInt else Ok (b2z bv, set_kind None s1)
  | KString =>
      if maxbits / 8 <? size then Err errUintOverflow
      else
        match readUint size s1 with
        | Err e => Err (if decide (e = ErrCanonSize) then ErrCanonInt else e)
        | Ok (v, s2) => if (0 <? size) && (v <? 128) then Err ErrCanonSize else Ok (v, s2)
        | Panic => Panic
        | NoFuel => NoFuel
        end
  | KList => Err ErrExpectedString
  end.

Definition stream_Bool (s : Stream) : go_res (bool * Stream) :=
  '(num, s1) ← stream_uint 8 s;
  if num =? 0 then Ok (false, s1)
  else if num =? 1 then Ok (true, s1)
  else Err errBadBool.

(** [Stream.List] takes the size of the list off the enclosing one before the list is
    entered; the subtraction is on [uint64]. *)
Definition stream_List (s : Stream) : go_res (Z * Stream) :=
  '(k, size, _, s1) ← stream_Kind s;
  match k with
  | KList =>
      let outer := match s_stack s1 with [] => [] | limit :: st => u64 (limit - size) :: st end in
      Ok (size, MkStream (s_in s1) (s_remaining s1) (size :: outer) None (s_limited s1))
  | _ => Err ErrExpectedList
  end.

Definition stream_ListEnd (s : Stream) : go_res Stream :=
  match s_stack s with
  | [] => Err errNotInList
  | limit :: st =>
      if 0 <? limit then Err errNotAtEOL
      else Ok (MkStream (s_in s) (s_remaining s) st None (s_limited s))
  end.

(** ** Decoders *)

Definition decodeBigInt (s : Stream) : go_res (Z * Stream) :=
  '(k, size, bv, s1) ← wrap (stream_Kind s);
  match k with
  | KList => Err (wrapStreamError ErrExpectedString)
  | KByte =>
      if decide (bv = x00) then Err (wrapStreamError ErrCanonInt)
      else Ok (be_val [bv], set_kind None s1)
  | KString =>
      if size =? 0 then Ok (0, set_kind None s1)
      else
        '(buf, s2) ← wrap (readFull size s1);
        match buf with
        | [] => Panic
        | c :: _ =>
            if (size =? 1) && (b2z c <? 128) then Err (wrapStreamError ErrCanonSize)
            else if decide (c = x00) then Err (wrapStreamError ErrCanonInt)
            else Ok (be_val buf, s2)
        end
  end.

Definition decodeByteArray (n : nat) (s : Stream) : go_res (bytes * Stream) :=
  '(k, size, bv, s1) ← stream_Kind s;
  match k with
  | KByte =>
      if Nat.eqb n 0 then Err errTooLong
      else if Nat.ltb 1 n then Err errTooShort
      else Ok ([bv], set_kind None s1)
  | KString =>
      if Z.of_nat n <? size then Err errTooLong
      else if size <? Z.of_nat n then Err errTooShort
      else
        '(b, s2) ← readFull size s1;
        match b with
        | [c] => if b2z c <? 128 then Err (wrapStreamError ErrCanonSize) else Ok (b, s2)
        | _ => Ok (b, s2)
        end
  | KList => Err (wrapStreamError ErrExpectedString)
  end.

(** [decodeSliceElems]: elements are decoded until the list ends. *)
Definition decodeSliceElems (d : Stream → go_res (rvalue * Stream)) :
    nat → list rvalue → Stream → go_res (list rvalue * Stream) :=
  fix go fuel acc s :=
    match fuel with
    | O => NoFuel
    | S fuel' =>
        match d s with
        | Ok (v, s') => go fuel' (acc ++ [v]) s'
        | Err e => if decide (e = EOL) then Ok (acc, s) else Err e
        | Panic => Panic
        | NoFuel => NoFuel
        end
    end.

(** The loop of [makeStructDecoder] over the fields, none of which is optional. *)
Definition decode_fields (d : rtype → Stream → go_res (rvalue * Stream)) :
    list rtype → Stream → go_res (list rvalue * Stream) :=
  fix go ts s :=
    match ts with
    | [] => Ok ([], s)
    | t :: ts' =>
        match d t s with
        | Ok (v, s') => '(l, s'') ← go ts' s'; Ok (v :: l, s'')
        | Err e => if decide (e = EOL) then Err errTooFew else Err e
        | Panic => Panic
        | NoFuel => NoFuel
        end
    end.

(** The decoder [makeDecoder] builds for a type. Each element of a list takes at least one
    byte of the input, so one round more than there are bytes is enough fuel. *)
Fixpoint decode (t : rtype) (s : Stream) {struct t} : go_res (rvalue * Stream) :=
  match t with
  | TUint bits => '(z, s1) ← wrap (stream_uint bits s); Ok (VUint z, s1)
  | TBool => '(b, s1) ← wrap (stream_Bool s); Ok (VBool b, s1)
  | TBigInt => '(z, s1) ← decodeBigInt s; Ok (VBig z, s1)
  | TBytes => '(b, s1) ← wrap (stream_Bytes s); Ok (VBytes b, s1)
  | TArray n => '(b, s1) ← decodeByteArray n s; Ok (VArray b, s1)
  | TSlice t' =>
      '(size, s1) ← wrap (stream_List s);
      if size =? 0 then s2 ← stream_ListEnd s1; Ok (VSlice [], s2)
      else
        '(l, s2) ← decodeSliceElems (decode t') (S (length (s_in s1))) [] s1;
        s3 ← stream_ListEnd s2;
        Ok (VSlice l, s3)
  | TStruct ts =>
      '(_, s1) ← wrap (stream_List s);
      '(l, s2) ← decode_fields decode ts s1;
      s3 ← wrap (stream_ListEnd s2);
      Ok (VStruct l, s3)
  | TPtr t' => '(v, s1) ← decode t' s; Ok (VPtr v, s1)
  end.

(** [rlp.DecodeBytes]: exactly one value and no trailing data. *)
Definition DecodeBytes (t : rtype) (b : bytes) : go_res rvalue :=
  '(v, s) ← decode t (stream_Reset b);
  match s_in s with
  | [] => Ok v
  | _ => Err ErrMoreThanOneValue
  end.

(** ** Reading from a stream *)

Definition wf (s : Stream) : Prop :=
  s_limited s = true ∧ s_remaining s = Z.of_nat (length (s_in s)) ∧
  s_remaining s < two64 ∧ Forall is_u64 (s_stack s).

(** The stream after [n] more bytes; list limits are counted modulo [2^64]. *)
Definition advance (n : nat) (s : Stream) : Stream :=
  MkStream (drop n (s_in s)) (s_remaining s - Z.of_nat n)
    (match s_stack s with [] => [] | top :: st => u64 (top - Z.of_nat n) :: st end)
    None (s_limited s).

Definition room (n : nat) (s : Stream) : Prop :=
  match s_stack s with [] => True | top :: _ => Z.of_nat n ≤ top end.

(** Between [s] and [s'] exactly the bytes [bs] were read. *)
Definition reads (s s' : Stream) (bs : bytes) : Prop :=
  s_in s = bs ++ s_in s' ∧ s' = advance (length bs) s.

Lemma is_u64_u64 z : is_u64 (u64 z).
Proof. apply Z.mod_pos_bound. unfold two64. lia. Qed.

Lemma u64_sub a b : u64 (u64 a - b) = u64 (a - b).
Proof. unfold u64. by rewrite Zminus_mod_idemp_l. Qed.

Lemma advance_advance m n s : advance m (advance n s) = advance (n + m) s.
Proof.
  unfold advance. simpl. rewrite drop_drop. f_equal; [lia|].
  destruct (s_stack s) as [|top st]; [done|]. rewrite u64_sub. f_equal. f_equal. lia.
Qed.

Lemma advance_0 s : wf s → s_kind s = None → advance 0 s = s.
Proof.
  destruct s as [i r st k l]. unfold wf, advance. simpl. intros (-> & -> & ? & Hst) ->.
  rewrite drop_0, Z.sub_0_r. f_equal. destruct st as [|top st]; [done|].
  apply Forall_cons in Hst as [? _]. by rewrite Z.sub_0_r, u64_small.
Qed.

Lemma advance_wf n s : wf s → (n ≤ length (s_in s))%nat → wf (advance n s).
Proof.
  intros (Hl & Hr & Hb & Hst) Hn. unfold wf, advance. simpl. rewrite length_drop.
  split_and!; [done|lia|lia|]. destruct (s_stack s); [done|].
  apply Forall_cons in Hst as [_ ?]. apply Forall_cons. split; [apply is_u64_u64|done].
Qed.

Lemma reads_wf s s' bs : wf s → reads s s' bs → wf s'.
Proof.
  intros Hwf [Hin ->]. apply advance_wf; [done|].
  rewrite Hin, length_app. lia.
Qed.

Lemma reads_kind s s' bs : reads s s' bs → s_kind s' = None.
Proof. by intros [_ ->]. Qed.

Lemma reads_trans s s1 s2 b1 b2 : reads s s1 b1 → reads s1 s2 b2 → reads s s2 (b1 ++ b2).
Proof.
  intros [H1 ->] [H2 ->]. split.
  - by rewrite H1, H2, app_assoc.
  - by rewrite advance_advance, length_app.
Qed.

Lemma reads_nil s : wf s → s_kind s = None → reads s s [].
Proof. intros. split; [done|]. simpl. by rewrite advance_0. Qed.

Lemma readFull_set_kind n k s : readFull n (set_kind k s) = readFull n s.
Proof. done. Qed.

Lemma readUint_set_kind n k s :
  s_kind s = None → readUint n (set_kind k s) = readUint n s.
Proof.
  intros Hk. unfold readUint. destruct (n =? 0); [|done]. by destruct s; simpl in *; subst.
Qed.

Lemma readFull_inv n s b s' :
  wf s → 0 ≤ n → readFull n s = Ok (b, s') →
  length b = Z.to_nat n ∧ reads s s' b.
Proof.
  intros (Hl & Hr & Hb & Hst) Hn. unfold readFull, willRead. rewrite Hl. intros H.
  destruct (s_stack s) as [|top st] eqn:Hstk.
  - simpl in H. destruct (Z.ltb_spec (s_remaining s) n); [done|]. simpl in H.
    destruct (Z.ltb_spec (Z.of_nat (length (s_in s))) n); [done|]. injection H as <- <-.
    rewrite length_take. split; [lia|]. split; [simpl; by rewrite take_drop|].
    unfold advance. rewrite length_take, Hstk, Hl. f_equal; [f_equal|]; lia.
  - destruct (Z.ltb_spec top n); [done|]. simpl in H.
    destruct (Z.ltb_spec (s_remaining s) n); [done|]. simpl in H.
    destruct (Z.ltb_spec (Z.of_nat (length (s_in s))) n); [done|]. injection H as <- <-.
    rewrite length_take. split; [lia|]. split; [simpl; by rewrite take_drop|].
    apply Forall_cons in Hst as [[Ht1 Ht2] _].
    unfold advance. rewrite length_take, Hstk, Hl. f_equal; [f_equal; lia|lia|].
    rewrite u64_small by (unfold is_u64; lia). f_equal. lia.
Qed.

Lemma readFull_fwd b rest s :
  wf s → s_in s = b ++ rest → room (length b) s →
  readFull (Z.of_nat (length b)) s = Ok (b, advance (length b) s).
Proof.
  intros (Hl & Hr & Hb & Hst) Hin Hroom. unfold readFull, willRead. rewrite Hl.
  unfold room in Hroom. rewrite Hin, length_app in Hr.
  assert (Hlen : (Z.of_nat (length (s_in s)) <? Z.of_nat (length b)) = false).
  { rewrite Hin, length_app. apply Z.ltb_ge. lia. }
  destruct (s_stack s) as [|top st] eqn:Hstk; simpl.
  - destruct (Z.ltb_spec (s_remaining s) (Z.of_nat (length b))); [lia|]. simpl.
    rewrite Hlen. unfold advance. rewrite Hstk, Hl, Nat2Z.id, Hin, take_app_length. done.
  - destruct (Z.ltb_spec top (Z.of_nat (length b))); [lia|]. simpl.
    destruct (Z.ltb_spec (s_remaining s) (Z.of_nat (length b))); [lia|]. simpl.
    rewrite Hlen. unfold advance. rewrite Hstk, Hl, Nat2Z.id, Hin, take_app_length.
    apply Forall_cons in Hst as [[Ht1 Ht2] _].
    by rewrite u64_small by (unfold is_u64; lia).
Qed.

(** A single byte is read as a buffer of length one. *)
Lemma readByte_readFull s :
  readByte s = ('(b, s') ← readFull 1 s;
                match b with c :: _ => Ok (c, s') | [] => Err io_ErrUnexpectedEOF end).
Proof.
  unfold readByte, readFull. destruct (willRead 1 s) as [s1| | |]; simpl; [|done..].
  destruct (s_in s1) as [|c r] eqn:Hin; simpl; [done|].
  destruct (Z.ltb_spec (Z.of_nat (S (length r))) 1); [lia|].
  change (Z.to_nat 1) with 1%nat. simpl. by rewrite drop_0.
Qed.

Lemma readByte_inv s c s' : wf s → readByte s = Ok (c, s') → reads s s' [c].
Proof.
  intros Hwf. rewrite readByte_readFull. intros H.
  apply bind_Ok in H as ([b s1] & Hf & H). apply readFull_inv in Hf as [Hlen Hr]; [|done|lia].
  destruct b as [|d [|e b]]; simpl in Hlen; [lia| |lia]. by injection H as -> ->.
Qed.

Lemma readByte_fwd c rest s :
  wf s → s_in s = c :: rest → room 1 s → readByte s = Ok (c, advance 1 s).
Proof.
  intros Hwf Hin Hr. rewrite readByte_readFull.
  change 1 with (Z.of_nat (length [c])). by rewrite (readFull_fwd [c] rest).
Qed.

Lemma readUint_inv n s z s' :
  wf s → 0 < n → readUint n s = Ok (z, s') →
  ∃ b, length b = Z.to_nat n ∧ z = be_val b ∧ reads s s' b ∧
    (1 < n → ∀ c t, b = c :: t → c ≠ x00).
Proof.
  intros Hwf Hn. unfold readUint. destruct (Z.eqb_spec n 0); [lia|].
  destruct (Z.eqb_spec n 1) as [->|]; intros H.
  - apply bind_Ok in H as ([c s1] & Hb & H). injection H as <- <-.
    exists [c]. split_and!; [done|done|by apply readByte_inv|lia].
  - apply bind_Ok in H as ([b s1] & Hf & H).
    apply readFull_inv in Hf as [Hlen Hr]; [|done|lia].
    destruct b as [|c b]; [done|]. destruct (decide (c = x00)); [done|].
    injection H as <- <-. exists (c :: b). split_and!; [done|done|done|congruence].
Qed.

Lemma readUint_fwd b rest s :
  wf s → s_in s = b ++ rest → room (length b) s → b ≠ [] →
  (∀ c t, b = c :: t → c ≠ x00) →
  readUint (Z.of_nat (length b)) s = Ok (be_val b, advance (length b) s).
Proof.
  intros Hwf Hin Hroom Hne Hnz. unfold readUint.
  destruct b as [|c [|d b]]; [done| |].
  - simpl. by rewrite (readByte_fwd c rest).
  - destruct (Z.eqb_spec (Z.of_nat (length (c :: d :: b))) 0); [simpl in *; lia|].
    destruct (Z.eqb_spec (Z.of_nat (length (c :: d :: b))) 1); [simpl in *; lia|].
    rewrite (readFull_fwd (c :: d :: b) rest) by done. simpl.
    destruct (decide (c = x00)) as [->|]; [by edestruct Hnz|done].
Qed.

(** ** The kind of the value ahead *)

Definition kind_head (k : Kind) (size : Z) (bv : byte) : bytes :=
  match k with
  | KByte => [bv]
  | KString => ref_head 0x80 0xB7 size
  | KList => ref_head 0xC0 0xF7 size
  end.

Definition kind_ok (k : Kind) (size : Z) (bv : byte) : Prop :=
  match k with
  | KByte => size = 0 ∧ b2z bv < 128
  | _ => bv = x00
  end.

Lemma ref_head_short small large c n :
  b2z c = small + n → 0 ≤ n < 56 → ref_head small large n = [c].
Proof.
  intros Hc Hn. unfold ref_head. destruct (Z.ltb_spec n 56); [|lia].
  by rewrite <- Hc, z2b_b2z.
Qed.

Lemma ref_head_long small large c b :
  b2z c = large + Z.of_nat (length b) → 56 ≤ be_val b →
  ((1 < length b)%nat → ∀ d t, b = d :: t → d ≠ x00) →
  ref_head small large (be_val b) = c :: b.
Proof.
  intros Hc Hb Hnz. unfold ref_head. destruct (Z.ltb_spec (be_val b) 56); [lia|].
  assert (big_bytes (be_val b) = b) as Hbig.
  { apply big_bytes_be_val. intros d t -> ->. destruct t as [|e t].
    - change (be_val [x00]) with 0 in Hb. lia.
    - apply (Hnz ltac:(simpl; lia) x00 (e :: t)); done. }
  unfold big_bytes in Hbig. rewrite Z.abs_eq in Hbig by lia.
  assert (nbytes (be_val b) = length b) as Hn
    by (rewrite <- Hbig at 2; by rewrite length_be_bytes).
  by rewrite Hbig, Hn, <- Hc, z2b_b2z.
Qed.

(** Inversion of [readUint] where it reads the size in a header. *)
Lemma readUint_size_inv small large c s s1 size s2 :
  wf s1 → reads s s1 [c] → large < b2z c → readUint (b2z c - large) s1 = Ok (size, s2) →
  56 ≤ size →
  reads s s2 (ref_head small large size) ∧ 0 ≤ size.
Proof.
  intros Hwf1 Hr Hc Hu Hsz. apply readUint_inv in Hu as (b & Hlen & -> & Hrb & Hnz); [|done|lia].
  rewrite (ref_head_long small large c b); [|lia|lia|].
  - split; [|lia]. by apply (reads_trans s s1 s2 [c] b).
  - intros H1. apply Hnz. lia.
Qed.

Lemma readKind_inv s k size bv s' :
  wf s → readKind s = Ok (k, size, bv, s') →
  reads s s' (kind_head k size bv) ∧ kind_ok k size bv ∧ 0 ≤ size.
Proof.
  intros Hwf. unfold readKind. destruct (readByte s) as [[c s1]| | |] eqn:Hb; [|done..].
  apply readByte_inv in Hb; [|done]. pose proof (reads_wf _ _ _ Hwf Hb) as Hwf1.
  pose proof (b2z_range c).
  destruct (Z.ltb_spec (b2z c) 0x80).
  { intros [= <- <- <- <-]. done. }
  destruct (Z.ltb_spec (b2z c) 0xB8).
  { intros [= <- <- <- <-]. simpl. rewrite (ref_head_short _ _ c) by lia.
    split_and!; [done|done|lia]. }
  destruct (Z.ltb_spec (b2z c) 0xC0).
  { intros H'. apply bind_Ok in H' as ([sz s2] & Hu & H').
    destruct (Z.ltb_spec sz 56); [done|]. injection H' as <- <- <- <-. simpl.
    eapply (readUint_size_inv 0x80) in Hu as [? ?]; [|done..|lia|lia]. done. }
  destruct (Z.ltb_spec (b2z c) 0xF8).
  { intros [= <- <- <- <-]. simpl. rewrite (ref_head_short _ _ c) by lia.
    split_and!; [done|done|lia]. }
  intros H'. apply bind_Ok in H' as ([sz s2] & Hu & H').
  destruct (Z.ltb_spec sz 56); [done|]. injection H' as <- <- <- <-. simpl.
  eapply (readUint_size_inv 0xC0) in Hu as [? ?]; [|done..|lia|lia]. done.
Qed.

Lemma Kind_inv s k size bv s1 :
  wf s → s_kind s = None → stream_Kind s = Ok (k, size, bv, s1) →
  ∃ s0, s1 = set_kind (Some (k, size, bv)) s0 ∧ reads s s0 (kind_head k size bv) ∧
    kind_ok k size bv ∧ 0 ≤ size ≤ Z.of_nat (length (s_in s0)).
Proof.
  intros Hwf Hk. unfold stream_Kind. rewrite Hk. destruct (decide _); [done|]. intros H.
  apply bind_Ok in H as ([[[k' sz] bv'] s0] & Hr & H).
  apply readKind_inv in Hr as (Hr & Hok & Hsz); [|done].
  pose proof (reads_wf _ _ _ Hwf Hr) as (Hl & Hrem & _ & _).
  destruct (match listLimit s with Some l => _ | None => _ end); [done|].
  destruct (s_limited s0 && (s_remaining s0 <? sz)) eqn:Hlim; [done|].
  injection H as <- <- <- <-. exists s0. split_and!; [done|done|done|done|].
  rewrite Hl in Hlim. simpl in Hlim. apply Z.ltb_ge in Hlim. lia.
Qed.

Lemma room_le m n s : (m ≤ n)%nat → room n s → room m s.
Proof. unfold room. destruct (s_stack s); [done|]. lia. Qed.

Lemma room_advance m n s :
  wf s → room (n + m) s → room m (advance n s).
Proof.
  intros (_ & _ & _ & Hst). unfold room, advance. simpl.
  destruct (s_stack s) as [|top st]; [done|]. apply Forall_cons in Hst as [[? ?] _].
  intros Hr. rewrite u64_small by (unfold is_u64; lia). lia.
Qed.

Lemma z2b_range_id z : 0 ≤ z < 256 → b2z (z2b z) = z.
Proof. intros. rewrite b2z_z2b. by apply Z.mod_small. Qed.

(** A long header read back. *)
Lemma readUint_size_fwd n rest s :
  56 ≤ n < two64 → wf s → s_in s = be_bytes (nbytes n) n ++ rest → room (nbytes n) s →
  readUint (Z.of_nat (nbytes n)) s = Ok (n, advance (nbytes n) s).
Proof.
  intros Hn Hwf Hin Hroom. pose proof (length_be_bytes (nbytes n) n) as Hlen.
  pose proof (nbytes_pos n ltac:(lia)).
  rewrite <- Hlen at 1. rewrite (readUint_fwd _ rest).
  - rewrite Hlen, be_val_be_bytes_small; [done|]. split; [lia|apply nbytes_upper].
  - done.
  - done.
  - by rewrite Hlen.
  - intros E. rewrite E in Hlen. simpl in Hlen. lia.
  - intros c t E. apply (big_bytes_head n c t). unfold big_bytes.
    by rewrite Z.abs_eq by lia.
Qed.

Lemma readKind_fwd k size bv rest s :
  wf s → kind_ok k size bv → 0 ≤ size < two64 →
  s_in s = kind_head k size bv ++ rest → room (length (kind_head k size bv)) s →
  readKind s = Ok (k, size, bv, advance (length (kind_head k size bv)) s).
Proof.
  intros Hwf Hok Hsz Hin Hroom. unfold readKind. destruct k; simpl in Hok.
  { destruct Hok as [-> Hbv]. simpl in *. rewrite (readByte_fwd bv rest) by done.
    simpl. destruct (Z.ltb_spec (b2z bv) 128); [done|lia]. }
  all: subst bv; unfold kind_head, ref_head in *; destruct (Z.ltb_spec size 56).
  all: try (rewrite (readByte_fwd _ rest _ Hwf Hin Hroom); cbv zeta;
    rewrite z2b_range_id by lia;
    repeat match goal with |- context [?a <? ?b] => destruct (Z.ltb_spec a b); try lia end;
    do 2 f_equal; repeat f_equal; lia).
  all: pose proof (nbytes_le size 8 ltac:(lia) Hsz); pose proof (nbytes_pos size ltac:(lia)).
  all: simpl in Hin, Hroom; rewrite length_be_bytes in *.
  all: rewrite (readByte_fwd _ (be_bytes (nbytes size) size ++ rest) _ Hwf Hin)
    by (apply (room_le 1 (S (nbytes size))); [lia|done]); cbv zeta.
  all: rewrite z2b_range_id by lia.
  all: repeat match goal with |- context [?a + ?b <? ?c] =>
      destruct (Z.ltb_spec (a + b) c); try lia end.
  all: match goal with |- context [readUint ?e _] =>
      replace e with (Z.of_nat (nbytes size)) by lia end.
  all: rewrite (readUint_size_fwd size rest);
    [|lia|apply advance_wf; [done|rewrite Hin; simpl; lia]
     |simpl; by rewrite Hin|by apply room_advance].
  all: simpl; destruct (Z.ltb_spec size 56); [lia|].
  all: by rewrite advance_advance, length_be_bytes.
Qed.

Lemma Kind_fwd k size bv rest s :
  wf s → s_kind s = None → kind_ok k size bv → 0 ≤ size →
  s_in s = kind_head k size bv ++ rest → size ≤ Z.of_nat (length rest) →
  room (length (kind_head k size bv) + Z.to_nat size) s →
  kind_head k size bv ≠ [] →
  stream_Kind s = Ok (k, size, bv,
    set_kind (Some (k, size, bv)) (advance (length (kind_head k size bv)) s)).
Proof.
  intros Hwf Hk Hok Hsz Hin Hlen Hroom Hne. unfold stream_Kind. rewrite Hk.
  pose proof Hwf as (Hl & Hr & Hb & Hst).
  assert (length (kind_head k size bv) ≠ 0%nat) as Hpos
    by (intros E; apply Hne, nil_length_inv, E).
  rewrite Hin, length_app in Hr.
  unfold listLimit. unfold room in Hroom. destruct (decide _) as [Hd|_].
  { destruct (s_stack s); simpl in Hd; [done|]. injection Hd as ->. lia. }
  rewrite (readKind_fwd k size bv rest); [|done|done|lia|done|].
  2:{ unfold room. destruct (s_stack s); [done|lia]. }
  simpl. rewrite Hl. simpl.
  replace (match head (s_stack s) with Some l => l <? size | None => false end) with false.
  2:{ destruct (s_stack s); simpl; [done|]. symmetry. apply Z.ltb_ge. lia. }
  destruct (Z.ltb_spec (s_remaining s - Z.of_nat (length (kind_head k size bv))) size);
    [lia|done].
Qed.

(** ** Strings and integers *)

Lemma ref_string_single c : 128 ≤ b2z c → ref_string [c] = ref_head 0x80 0xB7 1 ++ [c].
Proof. intros H. unfold ref_string. destruct (Z.ltb_spec (b2z c) 0x80); [lia|done]. Qed.

Lemma ref_string_byte c : b2z c < 128 → ref_string [c] = [c].
Proof. intros H. unfold ref_string. destruct (Z.ltb_spec (b2z c) 0x80); [done|lia]. Qed.

(** A string with a header that is not a single small byte. *)
Lemma ref_string_head b :
  (∀ c, b = [c] → 128 ≤ b2z c) →
  ref_string b = ref_head 0x80 0xB7 (Z.of_nat (length b)) ++ b.
Proof.
  intros H. destruct b as [|c [|d b]]; [done| |done]. by apply ref_string_single, H.
Qed.

Lemma readFull_Kind_inv s s0 size k b s2 :
  wf s → reads s s0 (ref_head 0x80 0xB7 size) → 0 ≤ size →
  readFull size (set_kind k s0) = Ok (b, s2) →
  (∀ c, b = [c] → 128 ≤ b2z c) →
  Z.of_nat (length b) = size ∧ reads s s2 (ref_string b).
Proof.
  intros Hwf Hr Hsz Hf Hb. rewrite readFull_set_kind in Hf.
  apply readFull_inv in Hf as [Hlen Hr2]; [|by eapply reads_wf|done].
  assert (Z.of_nat (length b) = size) as Hl by lia. split; [done|].
  rewrite ref_string_head, Hl by done. by eapply reads_trans.
Qed.

Lemma Bytes_inv s b s' :
  wf s → s_kind s = None → stream_Bytes s = Ok (b, s') → reads s s' (ref_string b).
Proof.
  intros Hwf Hk. unfold stream_Bytes. intros H.
  apply bind_Ok in H as ([[[k sz] bv] s1] & HK & H).
  apply Kind_inv in HK as (s0 & -> & Hr & Hok & Hsz); [|done..].
  destruct k; simpl in *; [| |done].
  - destruct Hok as [-> Hbv]. injection H as <- <-. rewrite ref_string_byte by done.
    by destruct Hr as [Hin ->].
  - apply bind_Ok in H as ([b' s2] & Hf & H).
    eapply readFull_Kind_inv in Hf as [Hl Hr2]; [| |done|lia|].
    + destruct b' as [|c [|d b']]; [by injection H as <- <-| |by injection H as <- <-].
      destruct (Z.ltb_spec (b2z c) 128); [done|]. by injection H as <- <-.
    + done.
    + intros c ->. destruct (Z.ltb_spec (b2z c) 128); [done|lia].
Qed.

(** The minimal bytes of an integer read from a stream. *)
Lemma ref_string_be_val b :
  (∀ c t, b = c :: t → c ≠ x00) → ref_string (big_bytes (be_val b)) = ref_string b.
Proof. intros H. by rewrite big_bytes_be_val. Qed.

Lemma ref_uint_be_val b :
  (length b ≤ 8)%nat → (∀ c t, b = c :: t → c ≠ x00) → ref_uint (be_val b) = ref_string b.
Proof.
  intros Hlen H. pose proof (be_val_range b).
  assert (256 ^ Z.of_nat (length b) ≤ 256 ^ 8) by (apply Z.pow_le_mono_r; lia).
  rewrite ref_uint_string; [by apply ref_string_be_val|lia|]. change two64 with (256 ^ 8). lia.
Qed.

Lemma good_bits_div bits : good_bits bits →
  1 ≤ bits / 8 ≤ 8 ∧ 2 ^ bits = 256 ^ (bits / 8) ∧ 128 ≤ 2 ^ bits.
Proof. intros [->|[->|[->| ->]]]; vm_compute; intuition congruence. Qed.

Lemma uint_inv bits s z s' :
  good_bits bits → wf s → s_kind s = None → stream_uint bits s = Ok (z, s') →
  reads s s' (ref_uint z) ∧ 0 ≤ z < 2 ^ bits.
Proof.
  intros Hbits Hwf Hk. destruct (good_bits_div _ Hbits) as (Hb8 & Hpow & H128).
  unfold stream_uint. intros H.
  apply bind_Ok in H as ([[[k sz] bv] s1] & HK & H).
  apply Kind_inv in HK as (s0 & -> & Hr & Hok & Hsz); [|done..].
  destruct k; simpl in *; [| |done].
  - destruct (decide (bv = x00)) as [|Hnz]; [done|]. destruct Hok as [-> Hbv].
    injection H as <- <-. pose proof (b2z_range bv).
    replace (b2z bv) with (be_val [bv]) by done.
    rewrite ref_uint_be_val; [|simpl; lia|congruence]. rewrite ref_string_byte by done.
    split; [by destruct Hr as [Hin ->]|]. unfold be_val; simpl. lia.
  - destruct (Z.ltb_spec (bits / 8) sz); [done|].
    destruct (readUint sz _) as [[v s2]| | |] eqn:Hu; [|done..].
    pose proof (reads_wf _ _ _ Hwf Hr) as Hwf0.
    rewrite readUint_set_kind in Hu by by eapply reads_kind.
    destruct ((0 <? sz) && (v <? 128)) eqn:Hc; [done|]. injection H as <- <-.
    destruct (decide (sz = 0)) as [->|Hsz0].
    { unfold readUint in Hu. simpl in Hu. injection Hu as <- <-. split; [|lia].
      destruct Hr as [Hin ->]. done. }
    apply andb_false_iff in Hc as [Hc%Z.ltb_ge|Hc%Z.ltb_ge]; [lia|].
    apply readUint_inv in Hu as (b & Hlen & -> & Hr2 & Hnz); [|done|lia].
    assert (∀ c t, b = c :: t → c ≠ x00) as Hnz'.
    { intros c t -> ->. destruct t as [|d t].
      - change (be_val [x00]) with 0 in Hc. lia.
      - eapply Hnz; [simpl in Hlen; lia|done|done]. }
    rewrite ref_uint_be_val by (lia || done). rewrite ref_string_head.
    + split; [|pose proof (be_val_range b) as Hrange]; [|split; [lia|]].
      * replace (Z.of_nat (length b)) with sz by lia. by eapply reads_trans.
      * eapply Z.lt_le_trans; [apply Hrange|]. rewrite Hpow. apply Z.pow_le_mono_r; lia.
    + intros c ->. unfold be_val in Hc. simpl in Hc. lia.
Qed.

Lemma decodeBigInt_inv s z s' :
  wf s → s_kind s = None → decodeBigInt s = Ok (z, s') →
  reads s s' (ref_string (big_bytes z)) ∧ 0 ≤ z.
Proof.
  intros Hwf Hk. unfold decodeBigInt. intros H.
  apply bind_Ok in H as ([[[k sz] bv] s1] & HK & H).
  destruct (stream_Kind s) as [[[[k' sz'] bv'] s1']| | |] eqn:HK'; [|done..].
  simpl in HK. injection HK as -> -> -> ->.
  apply Kind_inv in HK' as (s0 & -> & Hr & Hok & Hsz); [|done..].
  destruct k; simpl in *; [| |done].
  - destruct (decide (bv = x00)) as [|Hnz]; [done|]. destruct Hok as [-> Hbv].
    injection H as <- <-. rewrite ref_string_be_val by congruence.
    rewrite ref_string_byte by done. pose proof (b2z_range bv).
    split; [by destruct Hr as [Hin ->]|]. unfold be_val; simpl. lia.
  - destruct (Z.eqb_spec sz 0) as [->|Hsz0].
    { injection H as <- <-. split; [|lia]. by destruct Hr as [Hin ->]. }
    apply bind_Ok in H as ([b s2] & Hf & H).
    destruct (readFull sz _) as [[b' s2']| | |] eqn:Hf'; [|done..].
    simpl in Hf. injection Hf as -> ->. destruct b as [|c b]; [done|].
    destruct ((sz =? 1) && (b2z c <? 128)) eqn:Hc; [done|].
    destruct (decide (c = x00)) as [|Hnz]; [done|]. injection H as <- <-.
    split; [|apply be_val_range]. rewrite ref_string_be_val by congruence.
    pose proof Hf' as Hf2. rewrite readFull_set_kind in Hf2.
    apply readFull_inv in Hf2 as [Hlen _]; [|by eapply reads_wf|lia].
    eapply readFull_Kind_inv; [exact Hwf|exact Hr|lia|exact Hf'|].
    intros d [= -> ->]. simpl in Hlen. replace sz with 1 in Hc by lia. simpl in Hc.
    apply Z.ltb_ge in Hc. done.
Qed.

Lemma decodeByteArray_inv n s b s' :
  wf s → s_kind s = None → decodeByteArray n s = Ok (b, s') →
  reads s s' (ref_string b) ∧ length b = n.
Proof.
  intros Hwf Hk. unfold decodeByteArray. intros H.
  apply bind_Ok in H as ([[[k sz] bv] s1] & HK & H).
  apply Kind_inv in HK as (s0 & -> & Hr & Hok & Hsz); [|done..].
  destruct k; simpl in *; [| |done].
  - destruct (Nat.eqb_spec n 0); [done|]. destruct (Nat.ltb_spec 1 n); [done|].
    destruct Hok as [-> Hbv]. injection H as <- <-. rewrite ref_string_byte by done.
    split; [by destruct Hr as [Hin ->]|simpl; lia].
  - destruct (Z.ltb_spec (Z.of_nat n) sz); [done|].
    destruct (Z.ltb_spec sz (Z.of_nat n)); [done|].
    apply bind_Ok in H as ([b' s2] & Hf & H).
    eapply readFull_Kind_inv in Hf as [Hl Hr2]; [|exact Hwf|exact Hr|lia|].
    + assert (Ok (b', s2) = Ok (b, s')) as [= -> ->].
      { destruct b' as [|c [|d b']]; [done| |done].
        destruct (Z.ltb_spec (b2z c) 128); [done|]. done. }
      split; [done|lia].
    + intros c ->. destruct (Z.ltb_spec (b2z c) 128); [done|lia].
Qed.

(** ** Lists *)

(** The stream inside a list of [size] bytes that starts at [s]. *)
Definition enter (size : Z) (s : Stream) : Stream :=
  MkStream (s_in s) (s_remaining s)
    (size :: match s_stack s with [] => [] | limit :: st => u64 (limit - size) :: st end)
    None (s_limited s).

Lemma enter_wf size s : wf s → is_u64 size → wf (enter size s).
Proof.
  intros (Hl & Hr & Hb & Hst) Hsz. unfold wf, enter. simpl.
  split_and!; [done|done|done|]. apply Forall_cons. split; [done|].
  destruct (s_stack s); [done|]. apply Forall_cons in Hst as [_ ?].
  apply Forall_cons. split; [apply is_u64_u64|done].
Qed.

Lemma List_inv s size s1 :
  wf s → s_kind s = None → stream_List s = Ok (size, s1) →
  ∃ s0, reads s s0 (ref_head 0xC0 0xF7 size) ∧ s1 = enter size s0 ∧
    0 ≤ size ≤ Z.of_nat (length (s_in s0)) ∧ wf s1.
Proof.
  intros Hwf Hk. unfold stream_List. intros H.
  apply bind_Ok in H as ([[[k sz] bv] s1'] & HK & H).
  apply Kind_inv in HK as (s0 & -> & Hr & Hok & Hsz); [|done..].
  destruct k; simpl in *; [done|done|]. injection H as <- <-.
  pose proof (reads_wf _ _ _ Hwf Hr) as Hwf0. exists s0. split_and!; [done|done|lia|lia|].
  apply enter_wf; [done|]. destruct Hwf0 as (_ & ? & ? & _). unfold is_u64. lia.
Qed.

(** Leaving a list: its payload was read to the end, and the enclosing stream is the one
    after the payload. *)
Lemma ListEnd_inv s0 size s2 s3 p :
  wf s0 → 0 ≤ size ≤ Z.of_nat (length (s_in s0)) →
  reads (enter size s0) s2 p → stream_ListEnd s2 = Ok s3 →
  Z.of_nat (length p) = size ∧ reads s0 s3 p.
Proof.
  intros (Hl & Hr & Hb & Hst) Hsz [Hin ->] H. unfold stream_ListEnd in H. simpl in H.
  simpl in Hin. apply (f_equal length) in Hin as Hlen. rewrite length_app in Hlen.
  destruct (Z.ltb_spec 0 (u64 (size - Z.of_nat (length p)))) as [|H0]; [done|].
  injection H as <-.
  assert (Z.of_nat (length p) = size) as Hp.
  { pose proof (is_u64_u64 (size - Z.of_nat (length p))) as [? ?].
    assert (u64 (size - Z.of_nat (length p)) = 0) as Hz by lia.
    unfold u64 in Hz. apply Z.mod_divide in Hz; [|unfold two64; lia].
    destruct Hz as [q Hq]. unfold two64 in *. lia. }
  split; [done|]. split; [done|]. unfold advance, enter. simpl. by rewrite Hp.
Qed.

Lemma List_payload s s0 s3 p :
  reads s s0 (ref_head 0xC0 0xF7 (Z.of_nat (length p))) → reads s0 s3 p →
  reads s s3 (ref_list p).
Proof. intros H1 H2. by apply (reads_trans s s0 s3 _ p). Qed.

(** ** Canonicity *)

(** What a decoder accepts at a position of the input is the encoding of its result. *)
Definition canonical (t : rtype) : Prop :=
  ∀ s v s', wf s → s_kind s = None → decode t s = Ok (v, s') →
  ∃ bs, ref t v = Ok bs ∧ reads s s' bs ∧ typed true t v ∧ bs ≠ [].

Lemma decodeSliceElems_inv t : canonical t → ∀ fuel acc s l s',
  wf s → s_kind s = None →
  decodeSliceElems (decode t) fuel acc s = Ok (l, s') →
  ∃ l' bs, l = acc ++ l' ∧ ref_elems (ref t) l' = Ok bs ∧ reads s s' bs ∧
    typed_elems (typed true t) l'.
Proof.
  intros Ht. induction fuel as [|fuel IH]; intros acc s l s' Hwf Hk H; [done|].
  cbn in H. destruct (decode t s) as [[v s1]|e| |] eqn:Hd; [| |done..].
  - destruct (Ht _ _ _ Hwf Hk Hd) as (b & Hb & Hr & Hty & _).
    apply IH in H as (l' & bs & -> & Hbs & Hr2 & Htys);
      [|by eapply reads_wf|by eapply reads_kind].
    exists (v :: l'), (b ++ bs). split_and!.
    + by rewrite <- app_assoc.
    + rewrite ref_elems_cons, Hb. simpl. by rewrite Hbs.
    + by eapply reads_trans.
    + by split.
  - destruct (decide (e = EOL)); [|done]. injection H as <- <-.
    exists [], []. split_and!; [by rewrite app_nil_r|done|by apply reads_nil|done].
Qed.

Lemma decode_fields_inv ts : Forall canonical ts → ∀ s l s',
  wf s → s_kind s = None →
  decode_fields decode ts s = Ok (l, s') →
  ∃ bs, ref_fields ref ts l = Ok bs ∧ reads s s' bs ∧ typed_fields (typed true) ts l.
Proof.
  induction 1 as [|t ts Ht Hts IH]; intros s l s' Hwf Hk H; cbn in H.
  { injection H as <- <-. exists []. split_and!; [done|by apply reads_nil|done]. }
  destruct (decode t s) as [[v s1]|e| |] eqn:Hd; [| |done..].
  2:{ by destruct (decide (e = EOL)). }
  destruct (Ht _ _ _ Hwf Hk Hd) as (b & Hb & Hr & Hty & _).
  apply bind_Ok in H as ([l' s2] & H & Heq). injection Heq as <- <-.
  apply IH in H as (bs & Hbs & Hr2 & Htys); [|by eapply reads_wf|by eapply reads_kind].
  exists (b ++ bs). split_and!.
  - rewrite ref_fields_cons, Hb. simpl. by rewrite Hbs.
  - by eapply reads_trans.
  - by split.
Qed.

#[global] Arguments decodeSliceElems : simpl never.
#[global] Arguments decode_fields : simpl never.

(** Types with integer widths that Go has. *)
Fixpoint good_type (t : rtype) : Prop :=
  match t with
  | TUint bits => good_bits bits
  | TSlice t' | TPtr t' => good_type t'
  | TStruct ts => (fix go ts := match ts with [] => True | t' :: ts' => good_type t' ∧ go ts' end) ts
  | _ => True
  end.

Lemma good_fields (P : rtype → Prop) ts :
  good_type (TStruct ts) → Forall (λ t, good_type t → P t) ts → Forall P ts.
Proof.
  intros Hg H. induction H as [|t ts Ht Hts IH]; [constructor|]. destruct Hg as [? ?].
  constructor; auto.
Qed.

Section rtype_ind.
Context (P : rtype → Prop).
Context (HUint : ∀ b, P (TUint b)) (HBool : P TBool) (HBig : P TBigInt).
Context (HBytes : P TBytes) (HArray : ∀ n, P (TArray n)).
Context (HSlice : ∀ t, P t → P (TSlice t)).
Context (HStruct : ∀ ts, Forall P ts → P (TStruct ts)).
Context (HPtr : ∀ t, P t → P (TPtr t)).

Fixpoint rtype_nested_ind (t : rtype) : P t :=
  let fix go (l : list rtype) : Forall P l :=
    match l with
    | [] => List.Forall_nil P
    | x :: l' => List.Forall_cons P x l' (rtype_nested_ind x) (go l')
    end in
  match t with
  | TUint b => HUint b
  | TBool => HBool
  | TBigInt => HBig
  | TBytes => HBytes
  | TArray n => HArray n
  | TSlice t' => HSlice t' (rtype_nested_ind t')
  | TStruct ts => HStruct ts (go ts)
  | TPtr t' => HPtr t' (rtype_nested_ind t')
  end.
End rtype_ind.

Lemma wrap_Ok {A} (r : go_res A) a : wrap r = Ok a → r = Ok a.
Proof. by destruct r. Qed.

Lemma ref_head_ne small large n : ref_head small large n ≠ [].
Proof. unfold ref_head. by destruct (n <? 56). Qed.

Lemma ref_string_ne b : ref_string b ≠ [].
Proof.
  destruct b as [|c [|d b]]; simpl; [done| |].
  - by destruct (b2z c <? 128).
  - intros [E _]%app_eq_nil. by apply ref_head_ne in E.
Qed.

Lemma ref_uint_ne z : ref_uint z ≠ [].
Proof. unfold ref_uint. destruct (z =? 0); [done|]. by destruct (z <? 128). Qed.

Lemma ref_list_ne p : ref_list p ≠ [].
Proof. intros [E _]%app_eq_nil. by apply ref_head_ne in E. Qed.

Lemma decode_canonical t : good_type t → canonical t.
Proof.
  induction t using rtype_nested_ind; intros Hg st v s' Hwf Hk Hdec; simpl in Hg, Hdec;
    apply bind_Ok in Hdec as ([x s1] & Hx & Hdec).
  - apply wrap_Ok, uint_inv in Hx as [Hr Hz]; [|done..]. injection Hdec as <- <-.
    exists (ref_uint x). split_and!; [done|done|by split|apply ref_uint_ne].
  - injection Hdec as <- <-. apply wrap_Ok in Hx. unfold stream_Bool in Hx.
    apply bind_Ok in Hx as ([z s2] & Hu & Hx).
    apply uint_inv in Hu as [Hr Hz]; [|left; done|done..].
    destruct (Z.eqb_spec z 0) as [->|]; [|destruct (Z.eqb_spec z 1) as [->|]; [|done]];
      injection Hx as <- <-; eexists; (split_and!; [done|done|done|apply ref_uint_ne]).
  - apply decodeBigInt_inv in Hx as [Hr Hz]; [|done..]. injection Hdec as <- <-.
    exists (ref_string (big_bytes x)). simpl. destruct (Z.ltb_spec x 0); [lia|].
    split_and!; [done|done|done|apply ref_string_ne].
  - apply wrap_Ok, Bytes_inv in Hx; [|done..]. injection Hdec as <- <-.
    exists (ref_string x). split_and!; [done|done|done|apply ref_string_ne].
  - apply decodeByteArray_inv in Hx as [Hr Hlen]; [|done..]. injection Hdec as <- <-.
    exists (ref_string x). split_and!; [done|done|done|apply ref_string_ne].
  - apply wrap_Ok, List_inv in Hx as (s0 & Hr & -> & Hsz & Hwf1); [|done..].
    pose proof (reads_wf _ _ _ Hwf Hr) as Hwf0.
    destruct (Z.eqb_spec x 0) as [->|Hx0].
    + apply bind_Ok in Hdec as (s2 & He & Hdec). injection Hdec as <- <-.
      eapply (ListEnd_inv s0 0 _ _ []) in He as [_ Hr3]; [|done|done|by apply reads_nil].
      exists (ref_list []). split_and!; [done|by eapply List_payload|done|apply ref_list_ne].
    + apply bind_Ok in Hdec as ([l s2] & Hl & Hdec).
      apply bind_Ok in Hdec as (s3 & He & Hdec). injection Hdec as <- <-.
      apply decodeSliceElems_inv in Hl as (l' & p & -> & Hp & Hr2 & Hty); [|by apply IHt|done..].
      eapply (ListEnd_inv s0 x) in He as [Hlp Hr3]; [|done..]. subst x.
      exists (ref_list p). simpl.
      rewrite Hp. split_and!; [done|by eapply List_payload|done|apply ref_list_ne].
  - apply wrap_Ok, List_inv in Hx as (s0 & Hr & -> & Hsz & Hwf1); [|done..].
    pose proof (reads_wf _ _ _ Hwf Hr) as Hwf0.
    apply bind_Ok in Hdec as ([l s2] & Hl & Hdec).
    apply bind_Ok in Hdec as (s3 & He & Hdec). injection Hdec as <- <-.
    apply wrap_Ok in He. apply decode_fields_inv in Hl as (p & Hp & Hr2 & Hty); [| |done..].
    + eapply (ListEnd_inv s0 x) in He as [Hlp Hr3]; [|done..]. subst x.
      exists (ref_list p). simpl.
      rewrite Hp. split_and!; [done|by eapply List_payload|done|apply ref_list_ne].
    + by eapply good_fields.
  - destruct (IHt Hg _ _ _ Hwf Hk Hx) as (bs & Hbs & Hr & Hty & Hne).
    injection Hdec as <- <-. exists bs. done.
Qed.

Lemma stream_Reset_wf b : Z.of_nat (length b) < two64 → wf (stream_Reset b).
Proof. intros H. unfold wf, stream_Reset. simpl. split_and!; [done|done|done|constructor]. Qed.

Lemma DecodeBytes_ref t b v :
  good_type t → Z.of_nat (length b) < two64 → DecodeBytes t b = Ok v →
  ref t v = Ok b ∧ typed true t v.
Proof.
  intros Hg Hb. unfold DecodeBytes. intros H.
  apply bind_Ok in H as ([v' s'] & Hd & H).
  destruct (decode_canonical t Hg _ _ _ (stream_Reset_wf b Hb) eq_refl Hd)
    as (bs & Href & [Hin _] & Hty & _).
  destruct (s_in s') eqn:Hs; [|done]. injection H as <-.
  simpl in Hin. rewrite app_nil_r in Hin. by subst.
Qed.

(** ** Round trip *)

#[local] Arguments ref_string : simpl never.
#[local] Arguments ref_list : simpl never.
#[local] Arguments ref_uint : simpl never.

Lemma wrap_fwd {A} (r : go_res A) a : r = Ok a → wrap r = Ok a.
Proof. by intros ->. Qed.

(** At the end of the innermost list every decoder reports [EOL]. *)
Lemma Kind_EOL s st : s_kind s = None → s_stack s = 0 :: st → stream_Kind s = Err EOL.
Proof.
  intros Hk Hst. unfold stream_Kind, listLimit. rewrite Hk, Hst. simpl.
  by destruct (decide (Some 0 = Some 0)).
Qed.

Lemma decode_EOL t s st :
  s_kind s = None → s_stack s = 0 :: st → decode t s = Err EOL.
Proof.
  intros Hk Hst. pose proof (Kind_EOL s st Hk Hst) as HK.
  induction t; simpl;
    unfold stream_Bool, stream_uint, stream_Bytes, stream_List, decodeBigInt, decodeByteArray;
    rewrite ?HK; try done.
  by rewrite IHt.
Qed.

(** A string with a header, ahead in the stream. *)
Lemma string_fwd b rest s :
  wf s → s_kind s = None → (∀ c, b = [c] → 128 ≤ b2z c) →
  s_in s = ref_string b ++ rest → room (length (ref_string b)) s →
  ∃ s0, stream_Kind s =
      Ok (KString, Z.of_nat (length b), x00, set_kind (Some (KString, Z.of_nat (length b), x00)) s0) ∧
    wf s0 ∧ s_kind s0 = None ∧ s_in s0 = b ++ rest ∧ room (length b) s0 ∧
    advance (length b) s0 = advance (length (ref_string b)) s.
Proof.
  intros Hwf Hk Hb Hin Hroom. rewrite ref_string_head in * by done.
  set (h := ref_head 0x80 0xB7 (Z.of_nat (length b))) in *. rewrite length_app in Hroom.
  exists (advance (length h) s). rewrite <- app_assoc in Hin. split_and!.
  - apply (Kind_fwd KString (Z.of_nat (length b)) x00 (b ++ rest)); try done.
    + lia.
    + rewrite length_app. lia.
    + simpl. fold h. by rewrite Nat2Z.id.
    + apply ref_head_ne.
  - apply advance_wf; [done|]. rewrite Hin, length_app. lia.
  - done.
  - simpl. by rewrite Hin, drop_app_length.
  - by apply room_advance.
  - by rewrite advance_advance, length_app.
Qed.

(** A single small byte ahead. *)
Lemma byte_fwd c rest s :
  wf s → s_kind s = None → b2z c < 128 → s_in s = c :: rest → room 1 s →
  stream_Kind s = Ok (KByte, 0, c, set_kind (Some (KByte, 0, c)) (advance 1 s)).
Proof.
  intros Hwf Hk Hc Hin Hroom. apply (Kind_fwd KByte 0 c rest); try done. lia.
Qed.

(** Every byte string is either a single small byte or has a header. *)
Lemma string_cases (b : bytes) :
  (∃ c, b = [c] ∧ b2z c < 128) ∨ (∀ c, b = [c] → 128 ≤ b2z c).
Proof.
  destruct b as [|c [|d b]]; [by right| |by right].
  destruct (Z.lt_ge_cases (b2z c) 128); [left; eauto|right; intros ? [= <-]; done].
Qed.

Lemma not_single_lt {A} (b : bytes) (x y : go_res A) :
  (∀ c, b = [c] → 128 ≤ b2z c) →
  match b with [c] => if b2z c <? 128 then x else y | _ => y end = y.
Proof.
  intros H. destruct b as [|c [|d b]]; [done| |done].
  destruct (Z.ltb_spec (b2z c) 128); [|done]. specialize (H c eq_refl). lia.
Qed.

Lemma Bytes_fwd b rest s :
  wf s → s_kind s = None → s_in s = ref_string b ++ rest → room (length (ref_string b)) s →
  stream_Bytes s = Ok (b, advance (length (ref_string b)) s).
Proof.
  intros Hwf Hk Hin Hroom. unfold stream_Bytes.
  destruct (string_cases b) as [(c & -> & Hc)|Hb].
  - rewrite ref_string_byte in * by done. by rewrite (byte_fwd c rest).
  - destruct (string_fwd b rest s) as (s0 & -> & Hwf0 & Hk0 & Hin0 & Hr0 & Ha); [done..|].
    simpl. rewrite readFull_set_kind, (readFull_fwd b rest) by done. simpl.
    rewrite Ha. by apply not_single_lt.
Qed.

Lemma decodeByteArray_fwd b rest s :
  wf s → s_kind s = None → s_in s = ref_string b ++ rest → room (length (ref_string b)) s →
  decodeByteArray (length b) s = Ok (b, advance (length (ref_string b)) s).
Proof.
  intros Hwf Hk Hin Hroom. unfold decodeByteArray.
  destruct (string_cases b) as [(c & -> & Hc)|Hb].
  - rewrite ref_string_byte in * by done. by rewrite (byte_fwd c rest).
  - destruct (string_fwd b rest s) as (s0 & -> & Hwf0 & Hk0 & Hin0 & Hr0 & Ha); [done..|].
    simpl. rewrite Z.ltb_irrefl, readFull_set_kind, (readFull_fwd b rest) by done. simpl.
    rewrite Ha. by apply not_single_lt.
Qed.

Lemma big_bytes_nz z c t : big_bytes z = c :: t → c ≠ x00.
Proof. apply big_bytes_head. Qed.

Lemma decodeBigInt_fwd z rest s :
  0 ≤ z → wf s → s_kind s = None → s_in s = ref_string (big_bytes z) ++ rest →
  room (length (ref_string (big_bytes z))) s →
  decodeBigInt s = Ok (z, advance (length (ref_string (big_bytes z))) s).
Proof.
  intros Hz Hwf Hk Hin Hroom. pose proof (be_val_big_bytes z) as Hv.
  rewrite Z.abs_eq in Hv by lia. pose proof (big_bytes_nz z) as Hnz.
  unfold decodeBigInt. destruct (string_cases (big_bytes z)) as [(c & Hb & Hc)|Hb].
  - rewrite Hb in *. rewrite ref_string_byte in * by done.
    rewrite (byte_fwd c rest) by done. simpl.
    destruct (decide (c = x00)) as [->|]; [by destruct (Hnz x00 [])|]. by rewrite Hv.
  - destruct (string_fwd _ rest s Hwf Hk Hb Hin Hroom) as
      (s0 & -> & Hwf0 & Hk0 & Hin0 & Hr0 & Ha).
    simpl. destruct (big_bytes z) as [|c b] eqn:Hbb.
    + rewrite <- Hv, <- Ha. simpl. rewrite advance_0 by done.
      destruct s0; simpl in *; by subst.
    + destruct (Z.eqb_spec (Z.of_nat (length (c :: b))) 0); [simpl in *; lia|].
      pose proof (Hnz c b eq_refl) as Hc.
      assert ((Z.of_nat (length (c :: b)) =? 1) && (b2z c <? 128) = false) as E1.
      { destruct b as [|d b]; [specialize (Hb c eq_refl)|].
        - by destruct (Z.ltb_spec (b2z c) 128); [lia|].
        - destruct (Z.eqb_spec (Z.of_nat (length (c :: d :: b))) 1); [simpl in *; lia|done]. }
      rewrite readFull_set_kind, (readFull_fwd (c :: b) rest) by done.
      cbn -[Z.of_nat length be_val advance Z.eqb Z.ltb ref_string]. rewrite E1.
      destruct (decide (c = x00)); [done|]. by rewrite Hv, Ha.
Qed.

Lemma uint_fwd bits z rest s :
  good_bits bits → 0 ≤ z < 2 ^ bits → wf s → s_kind s = None →
  s_in s = ref_uint z ++ rest → room (length (ref_uint z)) s →
  stream_uint bits s = Ok (z, advance (length (ref_uint z)) s).
Proof.
  intros Hbits Hz Hwf Hk Hin Hroom. destruct (good_bits_div _ Hbits) as (Hb8 & Hpow & _).
  assert (z < two64).
  { assert (256 ^ (bits / 8) ≤ 256 ^ 8) by (apply Z.pow_le_mono_r; lia).
    change two64 with (256 ^ 8). lia. }
  rewrite ref_uint_string in * by lia.
  pose proof (be_val_big_bytes z) as Hv. rewrite Z.abs_eq in Hv by lia.
  pose proof (big_bytes_nz z) as Hnz. unfold stream_uint.
  destruct (string_cases (big_bytes z)) as [(c & Hb & Hc)|Hb].
  - rewrite Hb in *. rewrite ref_string_byte in * by done.
    rewrite (byte_fwd c rest) by done. simpl.
    destruct (decide (c = x00)) as [->|]; [by destruct (Hnz x00 [])|].
    by rewrite <- Hv at 1.
  - destruct (string_fwd _ rest s Hwf Hk Hb Hin Hroom) as
      (s0 & -> & Hwf0 & Hk0 & Hin0 & Hr0 & Ha).
    simpl. rewrite readUint_set_kind by done.
    assert (Z.of_nat (length (big_bytes z)) ≤ bits / 8) as Hlen.
    { rewrite length_big_bytes by lia. apply nbytes_le; lia. }
    destruct (Z.ltb_spec (bits / 8) (Z.of_nat (length (big_bytes z)))); [lia|].
    destruct (big_bytes z) as [|c b] eqn:Hbb.
    + rewrite <- Hv, <- Ha. simpl. rewrite advance_0 by done.
      destruct s0; simpl in *; by subst.
    + rewrite (readUint_fwd (c :: b) rest) by done. rewrite Hv, Ha.
      destruct (Z.ltb_spec z 128); [|by rewrite andb_false_r].
      exfalso. destruct b as [|d b].
      * specialize (Hb c eq_refl). unfold be_val in Hv. simpl in Hv. lia.
      * pose proof (length_big_bytes z ltac:(lia)) as Hl. rewrite Hbb in Hl. simpl in Hl.
        pose proof (nbytes_le z 1 ltac:(lia) ltac:(lia)). lia.
Qed.

Lemma List_fwd p rest s :
  wf s → s_kind s = None → s_in s = ref_list p ++ rest → room (length (ref_list p)) s →
  ∃ s0, stream_List s = Ok (Z.of_nat (length p), enter (Z.of_nat (length p)) s0) ∧
    wf s0 ∧ s_in s0 = p ++ rest ∧ room (length p) s0 ∧
    advance (length p) s0 = advance (length (ref_list p)) s.
Proof.
  intros Hwf Hk Hin Hroom. unfold ref_list in *.
  set (h := ref_head 0xC0 0xF7 (Z.of_nat (length p))) in *. rewrite length_app in Hroom.
  exists (advance (length h) s). rewrite <- app_assoc in Hin. split_and!.
  - unfold stream_List. rewrite (Kind_fwd KList (Z.of_nat (length p)) x00 (p ++ rest)); try done.
    + lia.
    + rewrite length_app. lia.
    + simpl. fold h. by rewrite Nat2Z.id.
    + apply ref_head_ne.
  - apply advance_wf; [done|]. rewrite Hin, length_app. lia.
  - simpl. by rewrite Hin, drop_app_length.
  - by apply room_advance.
  - by rewrite advance_advance, length_app.
Qed.

Lemma ListEnd_fwd (p : bytes) s0 :
  stream_ListEnd (advance (length p) (enter (Z.of_nat (length p)) s0)) =
  Ok (advance (length p) s0).
Proof.
  unfold stream_ListEnd, advance, enter. simpl. rewrite Z.sub_diag.
  change (u64 0) with 0. simpl. done.
Qed.

Lemma decodeSliceElems_S d fuel acc s v s' :
  d s = Ok (v, s') →
  decodeSliceElems d (S fuel) acc s = decodeSliceElems d fuel (acc ++ [v]) s'.
Proof. intros H. unfold decodeSliceElems. by rewrite H. Qed.

Lemma decode_fields_cons d t ts s v s' :
  d t s = Ok (v, s') →
  decode_fields d (t :: ts) s = ('(l, s'') ← decode_fields d ts s'; Ok (v :: l, s'')).
Proof. intros H. unfold decode_fields. by rewrite H. Qed.

Definition decodes (t : rtype) (v : rvalue) : Prop :=
  ∀ bs s rest, ref t v = Ok bs → wf s → s_kind s = None → s_in s = bs ++ rest →
  room (length bs) s → decode t s = Ok (v, advance (length bs) s).

Lemma ref_ne t v bs : ref t v = Ok bs → bs ≠ [].
Proof.
  revert t bs. induction v; intros t bs; destruct t; simpl; try done.
  - intros [= <-]. apply ref_uint_ne.
  - intros [= <-]. apply ref_uint_ne.
  - destruct (z <? 0); [done|]. intros [= <-]. apply ref_string_ne.
  - intros [= <-]. apply ref_string_ne.
  - intros [= <-]. apply ref_string_ne.
  - destruct (ref_elems _ _); [|done..]. intros [= <-]. apply ref_list_ne.
  - destruct (ref_fields _ _ _); [|done..]. intros [= <-]. apply ref_list_ne.
  - by intros [= <-].
  - apply IHv.
Qed.

Lemma decodeSliceElems_fwd t l : Forall (decodes t) l → ∀ fuel acc bs s rest st,
  ref_elems (ref t) l = Ok bs → wf s → s_kind s = None → s_in s = bs ++ rest →
  s_stack s = Z.of_nat (length bs) :: st → (length bs < fuel)%nat →
  decodeSliceElems (decode t) fuel acc s = Ok (acc ++ l, advance (length bs) s).
Proof.
  induction 1 as [|x l Hx Hl IH]; intros fuel acc bs s rest st Href Hwf Hk Hin Hst Hfuel.
  - injection Href as <-. destruct fuel as [|fuel]; [simpl in *; lia|].
    unfold decodeSliceElems. rewrite (decode_EOL t s st) by done. destruct (decide (EOL = EOL)); [|done].
    by rewrite app_nil_r, advance_0.
  - rewrite ref_elems_cons in Href. apply bind_Ok in Href as (b & Hb & Href).
    apply bind_Ok in Href as (r & Hr & Href). injection Href as <-.
    pose proof (ref_ne _ _ _ Hb) as Hne. rewrite length_app in *.
    rewrite <- app_assoc in Hin. destruct fuel as [|fuel]; [lia|].
    assert (length b ≠ 0%nat) by (intros E; apply Hne, nil_length_inv, E).
    assert (room (length b) s) by (unfold room; rewrite Hst; lia).
    rewrite (decodeSliceElems_S _ _ _ _ _ _ (Hx b s (r ++ rest) Hb Hwf Hk Hin H0)).
    rewrite (IH fuel _ r _ rest st); [| done | | done | | | lia].
    + by rewrite <- app_assoc, advance_advance.
    + apply advance_wf; [done|]. rewrite Hin, length_app. lia.
    + simpl. by rewrite Hin, drop_app_length.
    + simpl. rewrite Hst. pose proof Hwf as (_ & _ & _ & Hall). rewrite Hst in Hall.
      apply Forall_cons in Hall as [[? ?] _].
      rewrite u64_small by (unfold is_u64; lia). f_equal. lia.
Qed.

Lemma decode_fields_fwd l : ∀ ts bs s rest,
  Forall (λ v, ∀ t, typed true t v → decodes t v) l → typed_fields (typed true) ts l →
  ref_fields ref ts l = Ok bs → wf s → s_kind s = None → s_in s = bs ++ rest →
  room (length bs) s →
  decode_fields decode ts s = Ok (l, advance (length bs) s).
Proof.
  induction l as [|x l IH]; intros [|t ts] bs s rest Hall Hty Href Hwf Hk Hin Hroom; try done.
  - injection Href as <-. unfold decode_fields. by rewrite advance_0.
  - apply Forall_cons in Hall as [Hx Hl]. destruct Hty as [Htx Htl].
    rewrite ref_fields_cons in Href. apply bind_Ok in Href as (b & Hb & Href).
    apply bind_Ok in Href as (r & Hr & Href). injection Href as <-.
    rewrite length_app in *. rewrite <- app_assoc in Hin.
    assert (room (length b) s) as Hrb by (eapply room_le; [|done]; lia).
    rewrite (decode_fields_cons _ _ _ _ _ _ (Hx t Htx b s (r ++ rest) Hb Hwf Hk Hin Hrb)).
    rewrite (IH ts r _ rest); [|done..| | done | |].
    + simpl. by rewrite advance_advance.
    + apply advance_wf; [done|]. rewrite Hin, length_app. lia.
    + simpl. by rewrite Hin, drop_app_length.
    + by apply room_advance.
Qed.

Lemma typed_elems_Forall (P : rvalue → Prop) l : typed_elems P l → Forall P l.
Proof. induction l as [|x l IH]; simpl; [constructor|]. intros [? ?]. constructor; auto. Qed.

Lemma decode_ref v : ∀ t, typed true t v → decodes t v.
Proof.
  induction v using rvalue_nested_ind; intros t Hty bs st rest Href Hwf Hk Hin Hroom;
    destruct t; simpl in Hty; try done; simpl in Href.
  - injection Href as <-. destruct Hty as [Hb Hz]. simpl.
    by rewrite (wrap_fwd _ _ (uint_fwd bits z rest st Hb Hz Hwf Hk Hin Hroom)).
  - injection Href as <-. simpl. unfold stream_Bool.
    rewrite (uint_fwd 8 (if b then 1 else 0) rest st) by
      (done || (left; done) || (destruct b; lia)).
    by destruct b.
  - destruct (Z.ltb_spec z 0); [lia|]. injection Href as <-. simpl.
    by rewrite (decodeBigInt_fwd z rest).
  - injection Href as <-. simpl. by rewrite (wrap_fwd _ _ (Bytes_fwd b rest st Hwf Hk Hin Hroom)).
  - injection Href as <-. simpl. rewrite <- Hty. by rewrite (decodeByteArray_fwd b rest).
  - apply bind_Ok in Href as (p & Hp & Href). injection Href as <-.
    destruct (List_fwd p rest st Hwf Hk Hin Hroom) as (s0 & HL & Hwf0 & Hin0 & Hr0 & Ha).
    simpl. rewrite (wrap_fwd _ _ HL). simpl.
    assert (is_u64 (Z.of_nat (length p))) as Hu.
    { destruct Hwf0 as (_ & Hrem & ? & _). rewrite Hin0, length_app in Hrem.
      unfold is_u64. lia. }
    destruct (Z.eqb_spec (Z.of_nat (length p)) 0) as [H0|H0].
    + destruct p as [|]; [|simpl in H0; lia].
      pose proof (ListEnd_fwd [] s0) as He. simpl in He.
      rewrite advance_0 in He by (done || by apply enter_wf).
      rewrite (He : stream_ListEnd (enter (Z.of_nat (length [])) s0) = _).
      rewrite <- Ha. cbn.
      destruct l as [|x l]; [done|]. rewrite ref_elems_cons in Hp.
      apply bind_Ok in Hp as (b & Hb & Hp). apply bind_Ok in Hp as (r & Hr & Hp).
      injection Hp as Hp. apply app_eq_nil in Hp as [-> _]. by apply ref_ne in Hb.
    + rewrite (decodeSliceElems_fwd t l) with (bs := p) (rest := rest)
        (st := match s_stack s0 with [] => [] | limit :: st' => u64 (limit - Z.of_nat (length p)) :: st' end).
      * simpl. rewrite ListEnd_fwd. simpl. by rewrite Ha.
      * apply typed_elems_Forall in Hty. rewrite Forall_forall in Hty, H.
        apply Forall_forall. auto.
      * done.
      * by apply enter_wf.
      * done.
      * done.
      * done.
      * simpl. rewrite Hin0, length_app. lia.
  - apply bind_Ok in Href as (p & Hp & Href). injection Href as <-.
    destruct (List_fwd p rest st Hwf Hk Hin Hroom) as (s0 & HL & Hwf0 & Hin0 & Hr0 & Ha).
    simpl. rewrite (wrap_fwd _ _ HL). simpl.
    assert (is_u64 (Z.of_nat (length p))) as Hu.
    { destruct Hwf0 as (_ & Hrem & ? & _). rewrite Hin0, length_app in Hrem.
      unfold is_u64. lia. }
    rewrite (decode_fields_fwd l ts p (enter (Z.of_nat (length p)) s0) rest); try done.
    + simpl. rewrite ListEnd_fwd. simpl. by rewrite Ha.
    + by apply enter_wf.
    + unfold room, enter. simpl. lia.
  - simpl. by rewrite (IHv t Hty bs st rest).
Qed.

Lemma DecodeBytes_ref_fwd t v bs :
  typed true t v → ref t v = Ok bs → Z.of_nat (length bs) < two64 →
  DecodeBytes t bs = Ok v.
Proof.
  intros Hty Href Hlen. unfold DecodeBytes.
  rewrite (decode_ref v t Hty bs (stream_Reset bs) []); [|done| |done| |done].
  - simpl. by rewrite drop_all.
  - by apply stream_Reset_wf.
  - simpl. by rewrite app_nil_r.
Qed.

(** ** Termination and absence of panics *)

(** The call returns, with a value or with an error. *)
Definition answers {A} (r : go_res A) : Prop :=
  match r with Ok _ | Err _ => True | Panic | NoFuel => False end.

Lemma answers_bind {A B} (m : go_res A) (f : A → go_res B) :
  answers m → (∀ a, m = Ok a → answers (f a)) → answers (m ≫= f).
Proof. destruct m; simpl; auto. Qed.

Lemma answers_wrap {A} (r : go_res A) : answers r → answers (wrap r).
Proof. by destruct r. Qed.

(** Straight-line code answers when the calls it makes do. *)
Ltac answers_step :=
  first
    [ exact I
    | done
    | progress intros
    | solve [auto with gwat]
    | apply answers_wrap
    | apply answers_bind
    | match goal with |- context [match ?x with _ => _ end] => destruct x eqn:? end ].

Lemma readFull_answers n s : answers (readFull n s).
Proof. unfold readFull, willRead. repeat answers_step. Qed.

Lemma readByte_answers s : answers (readByte s).
Proof. unfold readByte, willRead. repeat answers_step. Qed.

#[local] Hint Resolve readFull_answers readByte_answers : gwat.

Lemma readFull_length n s b s' : readFull n s = Ok (b, s') → length b = Z.to_nat n.
Proof.
  unfold readFull. intros H. apply bind_Ok in H as (s1 & _ & H).
  destruct (Z.ltb_spec (Z.of_nat (length (s_in s1))) n); [done|]. injection H as <- _.
  rewrite length_take. lia.
Qed.

Lemma readUint_answers n s : 0 ≤ n → answers (readUint n s).
Proof.
  intros Hn. unfold readUint. destruct (Z.eqb_spec n 0); [done|].
  destruct (n =? 1); [repeat answers_step|].
  apply answers_bind; [auto with gwat|]. intros [[|c b] s1] Hr.
  - apply readFull_length in Hr. simpl in Hr. lia.
  - by destruct (decide (c = x00)).
Qed.

Lemma Kind_answers s : answers (stream_Kind s).
Proof.
  unfold stream_Kind. destruct (s_kind s) as [[[k sz] bv]|]; [done|].
  destruct (decide _); [done|]. apply answers_bind; [|repeat answers_step].
  unfold readKind. pose proof (readByte_answers s).
  destruct (readByte s) as [[c s1]| | |]; [|done..].
  destruct (Z.ltb_spec (b2z c) 0x80); [done|]. destruct (Z.ltb_spec (b2z c) 0xB8); [done|].
  destruct (Z.ltb_spec (b2z c) 0xC0);
    [|destruct (Z.ltb_spec (b2z c) 0xF8); [done|]];
    (apply answers_bind; [apply readUint_answers; lia|repeat answers_step]).
Qed.

#[local] Hint Resolve Kind_answers : gwat.

(** The size of the next value is not negative. *)
Lemma Kind_size s k sz bv s' :
  wf s → s_kind s = None → stream_Kind s = Ok (k, sz, bv, s') → 0 ≤ sz.
Proof. intros Hwf Hk HK. apply Kind_inv in HK as (s0 & _ & _ & _ & Hsz); [lia|done..]. Qed.

Lemma uint_answers bits s : wf s → s_kind s = None → answers (stream_uint bits s).
Proof.
  intros Hwf Hk. unfold stream_uint. apply answers_bind; [auto with gwat|].
  intros [[[[] sz] bv] s1] HK; [by destruct (decide _)| |done].
  apply Kind_size in HK; [|done..]. destruct (bits / 8 <? sz); [done|].
  pose proof (readUint_answers sz s1 HK). destruct (readUint sz s1) as [[v s2]| | |]; [|by case_match|done..].
  by destruct (_ && _).
Qed.
Lemma decodeBigInt_answers s : wf s → s_kind s = None → answers (decodeBigInt s).
Proof.
  intros Hwf Hk. unfold decodeBigInt. apply answers_bind; [auto using answers_wrap with gwat|].
  intros [[[[] sz] bv] s1] HK; [by destruct (decide _)| |done].
  apply wrap_Ok, Kind_size in HK; [|done..]. destruct (Z.eqb_spec sz 0); [done|].
  apply answers_bind; [auto using answers_wrap with gwat|]. intros [[|c b] s2] Hr.
  - apply wrap_Ok, readFull_length in Hr. simpl in Hr. lia.
  - repeat answers_step.
Qed.

(** A decoder answers on every well-formed stream. *)
Definition total (t : rtype) : Prop :=
  ∀ s, wf s → s_kind s = None → answers (decode t s).

Lemma decodeSliceElems_answers t : canonical t → total t → ∀ fuel acc s,
  wf s → s_kind s = None → (length (s_in s) < fuel)%nat →
  answers (decodeSliceElems (decode t) fuel acc s).
Proof.
  intros Hc Ht. induction fuel as [|fuel IH]; intros acc s Hwf Hk Hf; [lia|].
  pose proof (Ht s Hwf Hk) as Ha. destruct (decode t s) as [[v s1]|e| |] eqn:Hd;
    [rewrite (decodeSliceElems_S _ _ _ _ _ _ Hd)|unfold decodeSliceElems; rewrite Hd|done..].
  - destruct (Hc _ _ _ Hwf Hk Hd) as (b & _ & Hr & _ & Hne).
    apply IH; [by eapply reads_wf|by eapply reads_kind|].
    destruct Hr as [Hin _]. rewrite Hin, length_app in Hf.
    destruct b; [done|simpl in Hf; lia].
  - by destruct (decide (e = EOL)).
Qed.

Lemma decode_fields_answers ts : Forall canonical ts → Forall total ts → ∀ s,
  wf s → s_kind s = None → answers (decode_fields decode ts s).
Proof.
  induction ts as [|t ts IH]; intros Hc Ht s Hwf Hk; [done|].
  apply Forall_cons in Hc as [Hc Hcs], Ht as [Ht Hts].
  pose proof (Ht s Hwf Hk) as Ha. destruct (decode t s) as [[v s1]|e| |] eqn:Hd;
    [rewrite (decode_fields_cons _ _ _ _ _ _ Hd)|unfold decode_fields; rewrite Hd|done..].
  - destruct (Hc _ _ _ Hwf Hk Hd) as (b & _ & Hr & _).
    apply answers_bind; [|by intros []].
    apply IH; [done..|by eapply reads_wf|by eapply reads_kind].
  - by destruct (decide (e = EOL)).
Qed.

Lemma ListEnd_answers s : answers (stream_ListEnd s).
Proof. unfold stream_ListEnd. repeat answers_step. Qed.

Lemma List_answers s : answers (stream_List s).
Proof. unfold stream_List. repeat answers_step. Qed.

#[local] Hint Resolve ListEnd_answers List_answers uint_answers decodeBigInt_answers : gwat.

Lemma decode_total t : good_type t → total t.
Proof.
  induction t using rtype_nested_ind; intros Hg s Hwf Hk; simpl.
  1-5: apply answers_bind; [|by intros []]; try apply answers_wrap.
  - auto with gwat.
  - unfold stream_Bool. apply answers_bind; [auto with gwat|repeat answers_step].
  - auto with gwat.
  - unfold stream_Bytes. repeat answers_step.
  - unfold decodeByteArray. repeat answers_step.
  - apply answers_bind; [auto using answers_wrap with gwat|]. intros [sz s1] HL.
    apply wrap_Ok, List_inv in HL as (s0 & _ & -> & _ & Hwf1); [|done..].
    destruct (sz =? 0); [repeat answers_step|].
    apply answers_bind; [|repeat answers_step].
    apply decodeSliceElems_answers; auto using decode_canonical.
  - apply answers_bind; [auto using answers_wrap with gwat|]. intros [sz s1] HL.
    apply wrap_Ok, List_inv in HL as (s0 & _ & -> & _ & Hwf1); [|done..].
    apply answers_bind; [|repeat answers_step].
    apply decode_fields_answers; [..|done|done].
    + eapply good_fields; [exact Hg|]. apply Forall_true, decode_canonical.
    + by eapply good_fields.
  - apply answers_bind; [|by intros []]. by apply IHt.
Qed.

Lemma DecodeBytes_answers t b :
  good_type t → Z.of_nat (length b) < two64 → answers (DecodeBytes t b).
Proof.
  intros Hg Hb. apply answers_bind; [|repeat answers_step].
  apply decode_total; [done|by apply stream_Reset_wf|done].
Qed.

(** ** The package's contract *)

Lemma typed_strict v : ∀ t, typed true t v → typed false t v ∧ ∃ bs, ref t v = Ok bs.
Proof.
  induction v using rvalue_nested_ind; intros t Hty; destruct t; simpl in Hty; try done;
    try (split; [done|by eexists]).
  - split; [done|]. simpl. destruct (Z.ltb_spec z 0); [lia|by eexists].
  - enough (typed_elems (typed false t) l ∧ ∃ bs, ref_elems (ref t) l = Ok bs) as [? [p Hp]]
      by (split; [done|]; exists (ref_list p); simpl; by rewrite Hp).
    induction H as [|x l Hx Hl IH]; [split; [done|by eexists]|].
    destruct Hty as [Htx Htl]. destruct (Hx t Htx) as [? [b Hb]].
    destruct (IH Htl) as [? [r Hr]]. split; [done|]. exists (b ++ r).
    by rewrite ref_elems_cons, Hb, Hr.
  - enough (typed_fields (typed false) ts l ∧ ∃ bs, ref_fields ref ts l = Ok bs) as [? [p Hp]]
      by (split; [done|]; exists (ref_list p); simpl; by rewrite Hp).
    revert ts Hty. induction H as [|x l Hx Hl IH]; intros [|t ts] Hty; try done;
      [split; [done|by eexists]|].
    destruct Hty as [Htx Htl]. destruct (Hx t Htx) as [? [b Hb]].
    destruct (IH ts Htl) as [? [r Hr]]. split; [done|]. exists (b ++ r).
    by rewrite ref_fields_cons, Hb, Hr.
  - by apply IHv.
Qed.

Lemma Encode_Decode t v :
  typed true t v → (∀ bs, ref t v = Ok bs → Z.of_nat (length bs) < two64) →
  ∃ bs, EncodeToBytes t v = Ok bs ∧ DecodeBytes t bs = Ok v.
Proof.
  intros Hty Hlen. destruct (typed_strict v t Hty) as [Hty' [bs Hbs]]. exists bs.
  rewrite EncodeToBytes_ref_typed by done. split; [done|].
  apply DecodeBytes_ref_fwd; auto.
Qed.

Lemma Decode_Encode t b v :
  good_type t → Z.of_nat (length b) < two64 → DecodeBytes t b = Ok v →
  EncodeToBytes t v = Ok b.
Proof.
  intros Hg Hb Hd. destruct (DecodeBytes_ref t b v Hg Hb Hd) as [Hr Hty].
  destruct (typed_strict v t Hty) as [Hty' _]. rewrite EncodeToBytes_ref_typed; [done|done|].
  intros bs Hbs. rewrite Hr in Hbs. by injection Hbs as <-.
Qed.

(** ** The size of an encoding *)

(** A header takes at most nine bytes, so do an integer and its header. *)
Fixpoint vsize (v : rvalue) : nat :=
  match v with
  | VUint _ | VBool _ | VNil => 9
  | VBig z => 9 + nbytes (Z.abs z)
  | VBytes b | VArray b => 9 + length b
  | VSlice l | VStruct l => 9 + list_sum (map vsize l)
  | VPtr v' => vsize v'
  end.

Lemma ref_head_length small large n : 0 ≤ n < two64 → (length (ref_head small large n) ≤ 9)%nat.
Proof.
  intros Hn. unfold ref_head. destruct (n <? 56); simpl; [lia|]. rewrite length_be_bytes.
  pose proof (nbytes_le n 8 ltac:(lia) Hn). lia.
Qed.

Lemma ref_string_length b :
  Z.of_nat (length b) < two64 → (length (ref_string b) ≤ 9 + length b)%nat.
Proof.
  intros Hb. destruct (string_cases b) as [(c & -> & Hc)|Hb1].
  - rewrite ref_string_byte by done. simpl. lia.
  - rewrite ref_string_head, length_app by done.
    pose proof (ref_head_length 0x80 0xB7 (Z.of_nat (length b)) ltac:(lia)). lia.
Qed.

Lemma ref_list_length p :
  Z.of_nat (length p) < two64 → (length (ref_list p) ≤ 9 + length p)%nat.
Proof.
  intros Hp. unfold ref_list. rewrite length_app.
  pose proof (ref_head_length 0xC0 0xF7 (Z.of_nat (length p)) ltac:(lia)). lia.
Qed.

Lemma ref_uint_length z : 0 ≤ z < two64 → (length (ref_uint z) ≤ 9)%nat.
Proof.
  intros Hz. pose proof (nbytes_le z 8 ltac:(lia) Hz). unfold ref_uint.
  destruct (z =? 0), (z <? 128); simpl; rewrite ?length_be_bytes; lia.
Qed.

Lemma good_bits_u64 bits z : good_bits bits → 0 ≤ z < 2 ^ bits → 0 ≤ z < two64.
Proof. unfold good_bits, two64. intros [->|[->|[->| ->]]]; simpl; lia. Qed.

Lemma ref_vsize v : ∀ t bs, typed true t v → Z.of_nat (vsize v) < two64 → ref t v = Ok bs →
  (length bs ≤ vsize v)%nat.
Proof.
  induction v using rvalue_nested_ind; intros t bs Hty Hsz Href; destruct t; try done;
    simpl in Hty, Hsz, Href |- *.
  - injection Href as <-. destruct Hty as [Hg Hz]. by apply ref_uint_length, (good_bits_u64 bits).
  - injection Href as <-. apply ref_uint_length. destruct b; done.
  - destruct (Z.ltb_spec z 0); [done|]. injection Href as <-.
    pose proof (ref_string_length (big_bytes z)) as Hl. rewrite length_big_bytes in Hl by lia.
    rewrite Z.abs_eq in * by lia. lia.
  - injection Href as <-. apply ref_string_length. lia.
  - injection Href as <-. apply ref_string_length. lia.
  - apply bind_Ok in Href as (p & Hp & Href). injection Href as <-.
    enough (length p ≤ list_sum (map vsize l))%nat by
      (pose proof (ref_list_length p ltac:(lia)); lia).
    revert p Hp. induction H as [|x l Hx Hl IH]; intros p Hp; [by injection Hp as <-|].
    rewrite ref_elems_cons in Hp. apply bind_Ok in Hp as (b & Hb & Hp).
    apply bind_Ok in Hp as (r & Hr & Hp). injection Hp as <-. simpl in Hsz |- *.
    destruct Hty as [Htx Htl]. rewrite length_app.
    pose proof (Hx t b Htx ltac:(lia) Hb). pose proof (IH Htl ltac:(lia) r Hr). lia.
  - apply bind_Ok in Href as (p & Hp & Href). injection Href as <-.
    enough (length p ≤ list_sum (map vsize l))%nat by
      (pose proof (ref_list_length p ltac:(lia)); lia).
    revert ts Hty p Hp. induction H as [|x l Hx Hl IH]; intros [|t ts] Hty p Hp; try done;
      [by injection Hp as <-|].
    rewrite ref_fields_cons in Hp. apply bind_Ok in Hp as (b & Hb & Hp).
    apply bind_Ok in Hp as (r & Hr & Hp). injection Hp as <-. simpl in Hsz |- *.
    destruct Hty as [Htx Htl]. rewrite length_app.
    pose proof (Hx t b Htx ltac:(lia) Hb). pose proof (IH ltac:(lia) ts Htl r Hr). lia.
  - by eapply IHv.
Qed.

Lemma Encode_Decode_size t v :
  typed true t v → Z.of_nat (vsize v) < two64 →
  ∃ bs, EncodeToBytes t v = Ok bs ∧ DecodeBytes t bs = Ok v ∧ (length bs ≤ vsize v)%nat ∧
    ref t v = Ok bs.
Proof.
  intros Hty Hsz. destruct (typed_strict v t Hty) as [Hf [bs Hbs]].
  assert (∀ bs', ref t v = Ok bs' → Z.of_nat (length bs') < two64) as Hlen.
  { intros bs' Hbs'. pose proof (ref_vsize v t bs' Hty Hsz Hbs'). lia. }
  exists bs. split_and!; [by rewrite EncodeToBytes_ref_typed| | |done].
  - apply DecodeBytes_ref_fwd; auto.
  - by apply (ref_vsize v t).
Qed.

(** Every field of a struct takes at least one byte. *)
Lemma ref_fields_length_ge l : ∀ ts p, ref_fields ref ts l = Ok p → (length l ≤ length p)%nat.
Proof.
  induction l as [|x l IH]; intros [|t ts] p Hp; try done; [simpl; lia|].
  rewrite ref_fields_cons in Hp. apply bind_Ok in Hp as (b & Hb & Hp).
  apply bind_Ok in Hp as (r & Hr & Hp). injection Hp as <-. rewrite length_app.
  apply ref_ne in Hb. apply IH in Hr. destruct b; [done|]. simpl. lia.
Qed.

Lemma ref_head_length_ge small large n : (1 ≤ length (ref_head small large n))%nat.
Proof. unfold ref_head. destruct (n <? 56); simpl; lia. Qed.

Lemma ref_struct_length_ge ts l bs :
  ref (TStruct ts) (VStruct l) = Ok bs → (S (length l) ≤ length bs)%nat.
Proof.
  simpl. intros H. apply bind_Ok in H as (p & Hp & H). injection H as <-.
  apply ref_fields_length_ge in Hp. unfold ref_list. rewrite length_app.
  pose proof (ref_head_length_ge 0xC0 0xF7 (Z.of_nat (length p))). lia.
Qed.

Lemma ref_string_length_ge b : (2 ≤ length b)%nat → (S (length b) ≤ length (ref_string b))%nat.
Proof.
  intros Hb. rewrite ref_string_head by (intros c ->; simpl in Hb; lia). rewrite length_app.
  pose proof (ref_head_length_ge 0x80 0xB7 (Z.of_nat (length b))). lia.
Qed.

(** C34: round trip. A value without nil pointers and negative integers is encoded without
    an error, and decoding the encoding gives the value back. *)
Theorem rlp_decode_encode t v :
  typed true t v → (∀ bs, ref t v = Ok bs → Z.of_nat (length bs) < two64) →
  ∃ bs, EncodeToBytes t v = Ok bs ∧ DecodeBytes t bs = Ok v.
Proof. apply Encode_Decode. Qed.

(** C35: canonicity. The only input the decoder accepts for a value is the encoding of the
    value: no other spelling of a size, of an integer or of a byte, and no trailing byte. *)
Theorem rlp_decode_canonical t b v :
  good_type t → Z.of_nat (length b) < two64 → DecodeBytes t b = Ok v →
  EncodeToBytes t v = Ok b.
Proof. apply Decode_Encode. Qed.

(** C36: on every input the decoder returns, with a value or an error: it does not run out
    of the fuel of the element loop and reaches none of the panicking branches. *)
Theorem rlp_decode_total t b :
  good_type t → Z.of_nat (length b) < two64 → answers (DecodeBytes t b).
Proof. apply DecodeBytes_answers. Qed.

Lemma rlp_decode_encode_witness :
  ∃ bs, EncodeToBytes sample_type (sample (VPtr (VUint 7))) = Ok bs ∧
    DecodeBytes sample_type bs = Ok (sample (VPtr (VUint 7))).
Proof.
  apply rlp_decode_encode.
  - vm_compute. intuition congruence.
  - intros bs Hbs. vm_compute in Hbs. injection Hbs as <-. done.
Defined.

Lemma rlp_decode_canonical_witness :
  EncodeToBytes (TSlice (TUint 64)) (VSlice [VUint 5; VUint 1024]) =
  Ok [xc4; x05; x82; x04; x00].
Proof.
  apply rlp_decode_canonical; [vm_compute; intuition congruence|done|reflexivity].
Defined.

Lemma rlp_decode_total_witness :
  answers (DecodeBytes (TSlice (TUint 64)) [xc3; x05; x82; x04; x00]).
Proof. apply rlp_decode_total; [vm_compute; intuition congruence|done]. Defined.
