(* ===== verification/Shuffle.v ===== *)
(** * Package validator/shuffle

    The shuffling of the validators of an era (src/validator/shuffle/shuffle.go): the
    whole-list form of the swap-or-not shuffle. Each of the 90 rounds walks the list from
    both ends of the part before the pivot, then of the part after it, and swaps the two
    ends when a bit of a hash says so; a new hash is computed once in 256 positions and a
    new byte of it is taken once in 8.

    SHA-256 is a third-party package: it is the parameter [sha256] of the definitions.

    The theorems: every call on a list of at most 2^40 validators returns (no index is out
    of range), position [i] of the result holds the validator that the per-index shuffle
    [compute_shuffled_index] names, the result is a permutation of the list, and the two
    directions undo each other. *)

From Stdlib Require Import ZArith Lia Strings.Byte.
From stdpp Require Import base tactics option numbers list strings.
From S2P Require Import Prelude Common.

Definition seedSize : nat := 32.
Definition pivotViewSize : nat := 33.
Definition shuffleRoundCount : Z := 90.
Definition maxShuffleListSize : Z := Z.shiftl 1 40.

Definition errListSize : error := Error "shuffle: list size out of bounds".

(** [FromBytes8] *)
Definition FromBytes8 (x : bytes) : Z :=
  if Nat.ltb (length x) 8 then 0 else le_val (take 8 x).

Section shuffle.
Context (sha256 : bytes → Hash).

(** [binary.LittleEndian.PutUint32(buf[pivotViewSize:], uint32(v))] on the buffer of
    [totalSize] bytes. *)
Definition putPosition (buf : bytes) (v : Z) : bytes :=
  take pivotViewSize buf ++ le_bytes 4 v.

(** [source[(j&0xff)>>3]] *)
Definition sourceByte (source : Hash) (j : Z) : go_res byte :=
  go_index (fb source) (Z.to_nat (Z.shiftr (Z.land j 0xff) 3)).

(** [swapOrNot]. Besides the byte and the hash that it returns, it writes the buffer and
    the list. *)
Definition swapOrNot (buf : bytes) (byteV : byte) (i j : Z) (validators : list Address)
    (source : Hash) : go_res (bytes * byte * Hash * list Address) :=
  let '(buf, source) :=
    if Z.land j 0xff =? 0xff
    then let buf' := putPosition buf (Z.shiftr j 8) in (buf', sha256 buf')
    else (buf, source) in
  byteV ← (if Z.land j 0x7 =? 0x7 then sourceByte source j else Ok byteV);
  let bitV := Z.land (Z.shiftr (b2z byteV) (Z.land j 0x7)) 0x1 in
  if bitV =? 1 then
    vj ← go_index validators (Z.to_nat j);
    vi ← go_index validators (Z.to_nat i);
    Ok (buf, byteV, source, <[Z.to_nat j := vi]> (<[Z.to_nat i := vj]> validators))
  else Ok (buf, byteV, source, validators).

(** [for ; i < mirror; i, j = i+1, j-1 { byteV, source = swapOrNot(...) }] *)
Fixpoint swapLoop (fuel : nat) (mirror i j : Z)
    (st : bytes * byte * Hash * list Address) : go_res (bytes * byte * Hash * list Address) :=
  match fuel with
  | O => NoFuel
  | S fuel' =>
      if i <? mirror then
        let '(buf, byteV, source, validators) := st in
        st' ← swapOrNot buf byteV i j validators source;
        swapLoop fuel' mirror (u64 (i + 1)) (u64 (j - 1)) st'
      else Ok st
  end.

(** One round: the part up to the pivot, then the part after it. A part has fewer pairs
    than the list has elements, which bounds the fuel. *)
Definition shuffleRound (r : Z) (buf : bytes) (validators : list Address) :
    go_res (bytes * list Address) :=
  let listSize := Z.of_nat (length validators) in
  let fuel := S (length validators) in
  let buf := <[seedSize := z2b r]> buf in
  let ph := sha256 (take pivotViewSize buf) in
  let pivot := FromBytes8 (take 8 (fb ph)) mod listSize in
  let mirror := Z.shiftr (u64 (pivot + 1)) 1 in
  let buf := putPosition buf (Z.shiftr pivot 8) in
  let source := sha256 buf in
  byteV ← sourceByte source pivot;
  '(buf, _, _, validators) ← swapLoop fuel mirror 0 pivot (buf, byteV, source, validators);
  let mirror := Z.shiftr (u64 (u64 (pivot + listSize) + 1)) 1 in
  let end_ := u64 (listSize - 1) in
  let buf := putPosition buf (Z.shiftr end_ 8) in
  let source := sha256 buf in
  byteV ← sourceByte source end_;
  '(buf, _, _, validators) ← swapLoop fuel mirror (u64 (pivot + 1)) end_
                               (buf, byteV, source, validators);
  Ok (buf, validators).

(** The loop over the rounds, [r] counting up or down. *)
Fixpoint shuffleRounds (fuel : nat) (rounds : Z) (shuffl : bool) (r : Z) (buf : bytes)
    (validators : list Address) : go_res (list Address) :=
  match fuel with
  | O => NoFuel
  | S fuel' =>
      '(buf, validators) ← shuffleRound r buf validators;
      if shuffl then
        let r := (r + 1) mod 256 in
        if r =? rounds then Ok validators
        else shuffleRounds fuel' rounds shuffl r buf validators
      else
        if r =? 0 then Ok validators
        else shuffleRounds fuel' rounds shuffl (r - 1) buf validators
  end.

(** [innerShuffleList]. The list is shuffled in place: what is returned is the argument. *)
Definition innerShuffleList (validators : list Address) (seed : Hash) (shuffl : bool) :
    go_res (list Address) :=
  if Nat.leb (length validators) 1 then Ok validators
  else if maxShuffleListSize <? Z.of_nat (length validators) then Err errListSize
  else
    let rounds := shuffleRoundCount in
    if rounds =? 0 then Ok validators
    else
      let r := if shuffl then 0 else rounds - 1 in
      let buf := fb seed ++ replicate 5 x00 in
      shuffleRounds (Z.to_nat rounds) rounds shuffl r buf validators.

Definition unshuffleList (validators : list Address) (seed : Hash) : go_res (list Address) :=
  innerShuffleList validators seed false.

Definition ShuffleValidators (validators : list Address) (seed : Hash) :
    go_res (list Address) := unshuffleList validators seed.

(** ** The per-index shuffle *)

(** The swap-or-not shuffle of one index, as a specification. *)
Definition spec_pivot (seed : Hash) (n r : Z) : Z :=
  le_val (take 8 (fb (sha256 (fb seed ++ [z2b r])))) mod n.

Definition spec_bit (seed : Hash) (r position : Z) : bool :=
  let source := sha256 (fb seed ++ [z2b r] ++ le_bytes 4 (position / 256)) in
  Z.testbit (b2z (nth (Z.to_nat (position mod 256 / 8)) (fb source) x00)) (position mod 8).

Definition spec_flip (seed : Hash) (n r index : Z) : Z :=
  (spec_pivot seed n r + n - index) mod n.

Definition spec_round (seed : Hash) (n r index : Z) : Z :=
  let flip := spec_flip seed n r index in
  if spec_bit seed r (Z.max index flip) then flip else index.

Definition round_numbers : list Z := seqZ 0 shuffleRoundCount.

Definition compute_shuffled_index (seed : Hash) (n index : Z) : Z :=
  foldl (λ i r, spec_round seed n r i) index round_numbers.

End shuffle.

(** ** Bits, bytes and the buffer *)

Lemma land_ff j : 0 ≤ j → Z.land j 0xff = j mod 256.
Proof. intros. change 0xff with (Z.ones 8). by rewrite Z.land_ones. Qed.

Lemma land_7 j : 0 ≤ j → Z.land j 0x7 = j mod 8.
Proof. intros. change 0x7 with (Z.ones 3). by rewrite Z.land_ones. Qed.

Lemma shiftr_3 j : Z.shiftr j 3 = j / 8.
Proof. by rewrite Z.shiftr_div_pow2. Qed.

Lemma shiftr_8 j : Z.shiftr j 8 = j / 256.
Proof. by rewrite Z.shiftr_div_pow2. Qed.

Lemma shiftr_1 j : Z.shiftr j 1 = j / 2.
Proof. by rewrite Z.shiftr_div_pow2. Qed.

Lemma bit_testbit b k : 0 ≤ k → (Z.land (Z.shiftr b k) 1 =? 1) = Z.testbit b k.
Proof.
  intros Hk. change 1 with (Z.ones 1) at 1. rewrite Z.land_ones by lia.
  rewrite Z.shiftr_div_pow2 by lia. change (2 ^ 1) with 2.
  pose proof (Z.testbit_spec' b k Hk) as H. rewrite <- H.
  by destruct (Z.testbit b k).
Qed.

Section shuffle_proofs.
Context (sha256 : bytes → Hash) (seed : Hash).

(** The hashed prefix of round [r], and the hash and the byte that cover position [j]. *)
Let view (r : Z) : bytes := fb seed ++ [z2b r].
Let hash_at (r j : Z) : Hash := sha256 (view r ++ le_bytes 4 (j / 256)).
Let byte_at (r j : Z) : byte := nth (Z.to_nat (j mod 256 / 8)) (fb (hash_at r j)) x00.

Lemma length_view r : length (view r) = pivotViewSize.
Proof. unfold view. rewrite length_app, length_fb. done. Qed.

Lemma sourceByte_hash_at r j : 0 ≤ j → sourceByte (hash_at r j) j = Ok (byte_at r j).
Proof.
  intros Hj. unfold sourceByte, byte_at. rewrite land_ff, shiftr_3 by done.
  unfold go_index. rewrite nth_lookup.
  destruct (lookup_lt_is_Some_2 (fb (hash_at r j)) (Z.to_nat (j mod 256 / 8))) as [b Hb].
  - rewrite length_fb. dlia.
  - by rewrite Hb.
Qed.

Lemma putPosition_view r buf v :
  take pivotViewSize buf = view r → putPosition buf v = view r ++ le_bytes 4 v.
Proof. unfold putPosition. by intros ->. Qed.

Lemma take_view r b : take pivotViewSize (view r ++ b) = view r.
Proof. by rewrite take_app_length' by by rewrite length_view. Qed.

(** What [swapOrNot] relies on when it is called for position [j]. *)
Definition tracks (r j : Z) (buf : bytes) (byteV : byte) (source : Hash) : Prop :=
  take pivotViewSize buf = view r ∧
  (j mod 256 ≠ 255 → source = hash_at r j) ∧
  (j mod 8 ≠ 7 → byteV = byte_at r j).

Lemma tracks_start r j buf :
  take pivotViewSize buf = view r → 0 ≤ j →
  tracks r j (putPosition buf (Z.shiftr j 8)) (byte_at r j) (hash_at r j) ∧
  sha256 (putPosition buf (Z.shiftr j 8)) = hash_at r j.
Proof.
  intros Hb Hj. rewrite (putPosition_view r), shiftr_8 by done. split; [|done].
  split; [apply take_view|done].
Qed.

Lemma tracks_pred r j buf :
  take pivotViewSize buf = view r → 0 < j → tracks r (j - 1) buf (byte_at r j) (hash_at r j).
Proof.
  intros Hb Hj. split; [done|]. unfold byte_at, hash_at. split; intros Hm.
  - do 3 f_equal. dlia.
  - replace ((j - 1) / 256) with (j / 256) by dlia.
    by replace ((j - 1) mod 256 / 8) with (j mod 256 / 8) by dlia.
Qed.

Lemma spec_bit_byte r j : spec_bit sha256 seed r j = Z.testbit (b2z (byte_at r j)) (j mod 8).
Proof. unfold spec_bit, byte_at, hash_at, view. by rewrite <- app_assoc. Qed.

(** ** One swap *)

Definition swap_index (i j k : Z) : Z := if k =? i then j else if k =? j then i else k.

Lemma lookup_swap {A} (l : list A) (i j k : Z) vi vj :
  0 ≤ i → 0 ≤ j → 0 ≤ k →
  l !! Z.to_nat i = Some vi → l !! Z.to_nat j = Some vj →
  <[Z.to_nat j := vi]> (<[Z.to_nat i := vj]> l) !! Z.to_nat k =
  l !! Z.to_nat (swap_index i j k).
Proof.
  intros Hi Hj Hk Hvi Hvj. unfold swap_index.
  apply lookup_lt_Some in Hvi as Hli. apply lookup_lt_Some in Hvj as Hlj.
  destruct (Z.eqb_spec k j) as [->|Hkj].
  - rewrite list_lookup_insert_eq by by rewrite length_insert.
    destruct (Z.eqb_spec j i); congruence.
  - rewrite list_lookup_insert_ne by lia. destruct (Z.eqb_spec k i) as [->|Hki].
    + by rewrite list_lookup_insert_eq.
    + by rewrite list_lookup_insert_ne by lia.
Qed.

Lemma swapOrNot_spec r buf byteV i j vs source :
  0 ≤ i < Z.of_nat (length vs) → 0 < j < Z.of_nat (length vs) →
  tracks r j buf byteV source →
  ∃ buf' byteV' source' vs',
    swapOrNot sha256 buf byteV i j vs source = Ok (buf', byteV', source', vs') ∧
    tracks r (j - 1) buf' byteV' source' ∧ length vs' = length vs ∧
    ∀ k, 0 ≤ k → vs' !! Z.to_nat k =
      vs !! Z.to_nat (if spec_bit sha256 seed r j then swap_index i j k else k).
Proof.
  intros Hi Hj (Hbuf & Hs & Hb). unfold swapOrNot.
  rewrite land_ff, land_7, shiftr_8 by lia. rewrite (putPosition_view r) by done.
  fold (hash_at r j).
  assert (∃ buf', (if j mod 256 =? 255 then (view r ++ le_bytes 4 (j / 256), hash_at r j)
                   else (buf, source)) = (buf', hash_at r j) ∧
                  take pivotViewSize buf' = view r) as (buf' & -> & Hbuf').
  { destruct (Z.eqb_spec (j mod 256) 255); [eexists; split; [done|apply take_view]|].
    eexists. by rewrite Hs by done. }
  assert ((if j mod 8 =? 7 then sourceByte (hash_at r j) j else Ok byteV) = Ok (byte_at r j)) as ->.
  { destruct (Z.eqb_spec (j mod 8) 7); [apply sourceByte_hash_at; lia|]. by rewrite Hb by done. }
  simpl. rewrite bit_testbit, <- spec_bit_byte by dlia.
  pose proof (tracks_pred r j buf' Hbuf' ltac:(lia)).
  destruct (spec_bit sha256 seed r j); [|by do 4 eexists].
  destruct (lookup_lt_is_Some_2 vs (Z.to_nat j)) as [vj Hvj]; [lia|].
  destruct (lookup_lt_is_Some_2 vs (Z.to_nat i)) as [vi Hvi]; [lia|].
  unfold go_index. rewrite Hvj, Hvi. simpl. do 4 eexists. split_and!; [done|done| |].
  - by rewrite !length_insert.
  - intros k Hk. apply lookup_swap; auto with lia.
Qed.

(** ** One part of a round *)

(** Where position [k] takes its validator from when the pairs [(i, s-i)], [(i+1, s-i-1)],
    ... are swapped or not. *)
Definition fold_index (r i s k : Z) : Z :=
  if (i <=? k) && (k <=? s - i) && spec_bit sha256 seed r (Z.max k (s - k)) then s - k else k.

Lemma fold_index_step r i s k :
  2 * i < s →
  let m := fold_index r (i + 1) s k in
  (if spec_bit sha256 seed r (s - i) then swap_index i (s - i) m else m) = fold_index r i s k.
Proof.
  intros Hi. unfold fold_index, swap_index. cbv zeta.
  destruct (decide (k = i)) as [->|]; [|destruct (decide (k = s - i)) as [->|]].
  - replace (Z.max i (s - i)) with (s - i) by lia.
    destruct (spec_bit _ _ _ _);
      repeat (case_match; try lia).
  - replace (Z.max (s - i) (s - (s - i))) with (s - i) by lia.
    destruct (spec_bit _ _ _ _); repeat (case_match; try lia).
  - assert ((i + 1 <=? k) && (k <=? s - (i + 1)) = (i <=? k) && (k <=? s - i)) as ->.
    { destruct (Z.leb_spec (i + 1) k), (Z.leb_spec k (s - (i + 1))), (Z.leb_spec i k),
        (Z.leb_spec k (s - i)); simpl; lia || done. }
    destruct ((i <=? k) && (k <=? s - i)) eqn:Hk; simpl;
      repeat (case_match; try lia).
Qed.

Lemma fold_index_done r i s k : s ≤ 2 * i → fold_index r i s k = k.
Proof.
  intros Hi. unfold fold_index.
  destruct (Z.leb_spec i k), (Z.leb_spec k (s - i)); simpl; try done.
  destruct (spec_bit _ _ _ _); lia.
Qed.

Lemma swapLoop_spec r s mirror fuel : ∀ i j buf byteV source vs,
  mirror = (s + 1) / 2 → j = s - i → 0 ≤ i → j < Z.of_nat (length vs) ≤ maxShuffleListSize →
  mirror ≤ maxShuffleListSize → Z.max 0 (mirror - i) < Z.of_nat fuel → tracks r j buf byteV source →
  ∃ buf' byteV' source' vs',
    swapLoop sha256 fuel mirror i j (buf, byteV, source, vs) = Ok (buf', byteV', source', vs') ∧
    take pivotViewSize buf' = view r ∧ length vs' = length vs ∧
    ∀ k, 0 ≤ k → vs' !! Z.to_nat k = vs !! Z.to_nat (fold_index r i s k).
Proof.
  change maxShuffleListSize with (2 ^ 40).
  induction fuel as [|fuel IH]; intros i j buf byteV source vs Hm Hj Hi Hlen Hmax Hf Ht; simpl.
  - lia.
  - destruct (Z.ltb_spec i mirror).
    + destruct (swapOrNot_spec r buf byteV i j vs source) as
        (buf1 & byteV1 & source1 & vs1 & -> & Ht1 & Hl1 & Hk1); [dlia|dlia|done|]. simpl.
      unfold u64. rewrite !Z.mod_small by (unfold two64; dlia).
      destruct (IH (i + 1) (j - 1) buf1 byteV1 source1 vs1) as
        (buf2 & byteV2 & source2 & vs2 & -> & Hb2 & Hl2 & Hk2); try done; try lia.
      do 4 eexists. split_and!; [done|done|congruence|]. intros k Hk. rewrite Hk2 by done.
      rewrite Hk1 by (unfold fold_index; repeat case_match; lia).
      subst j. rewrite fold_index_step by dlia. done.
    + destruct Ht as [Hb _]. do 4 eexists. split_and!; [done..|]. intros k Hk.
      by rewrite fold_index_done by dlia.
Qed.


(** ** One round *)

#[local] Arguments swapLoop : simpl never.
#[local] Arguments sourceByte : simpl never.

(** The buffer between rounds: the seed, and a byte for the round to overwrite. *)
Definition seeded (buf : bytes) : Prop :=
  take seedSize buf = fb seed ∧ (seedSize < length buf)%nat.

Lemma seeded_view r buf : take pivotViewSize buf = view r → seeded buf.
Proof.
  intros H. split.
  - replace seedSize with (Nat.min seedSize pivotViewSize) by done.
    rewrite <- take_take, H. unfold view. by rewrite take_app_length' by by rewrite length_fb.
  - apply (f_equal length) in H. rewrite length_view, length_take in H.
    unfold pivotViewSize, seedSize in *. lia.
Qed.

Lemma take_set_round r buf : seeded buf → take pivotViewSize (<[seedSize := z2b r]> buf) = view r.
Proof.
  intros [Hs Hl]. rewrite (take_S_r _ seedSize (z2b r)).
  - rewrite take_insert_ge by lia. by rewrite Hs.
  - by rewrite list_lookup_insert_eq.
Qed.

Lemma pivot_spec r n :
  FromBytes8 (take 8 (fb (sha256 (view r)))) mod n = spec_pivot sha256 seed n r.
Proof.
  unfold FromBytes8. rewrite length_take, length_fb. simpl. by rewrite take_take.
Qed.

(** The two parts together are the per-index round. *)
Lemma fold_index_round r n k :
  0 < n → 0 ≤ k < n →
  let pivot := spec_pivot sha256 seed n r in
  fold_index r 0 pivot (fold_index r (pivot + 1) (pivot + n) k) = spec_round sha256 seed n r k.
Proof.
  intros Hn Hk pivot. assert (0 ≤ pivot < n) as Hp by by apply Z.mod_pos_bound.
  unfold spec_round, spec_flip. fold pivot.
  destruct (Z.le_gt_cases k pivot).
  - replace (fold_index r (pivot + 1) (pivot + n) k) with k.
    2:{ unfold fold_index. destruct (Z.leb_spec (pivot + 1) k); [lia|done]. }
    replace ((pivot + n - k) mod n) with (pivot - k).
    2:{ apply (Z.mod_unique _ _ 1); lia. }
    unfold fold_index. destruct (Z.leb_spec 0 k), (Z.leb_spec k (pivot - 0)); [done|lia..].
  - rewrite Z.mod_small by lia.
    replace (fold_index r (pivot + 1) (pivot + n) k)
      with (if spec_bit sha256 seed r (Z.max k (pivot + n - k)) then pivot + n - k else k).
    2:{ unfold fold_index. destruct (Z.leb_spec (pivot + 1) k); [|lia].
        destruct (Z.leb_spec k (pivot + n - (pivot + 1))); [done|lia]. }
    unfold fold_index at 1.
    destruct (Z.leb_spec 0 (if spec_bit sha256 seed r (Z.max k (pivot + n - k))
                            then pivot + n - k else k)); [|done].
    destruct (Z.leb_spec (if spec_bit sha256 seed r (Z.max k (pivot + n - k))
                          then pivot + n - k else k) (pivot - 0)); [|done].
    exfalso. destruct (spec_bit _ _ _ _); lia.
Qed.

Lemma shuffleRound_spec r buf vs :
  let n := Z.of_nat (length vs) in
  2 ≤ n ≤ maxShuffleListSize → seeded buf →
  ∃ buf' vs', shuffleRound sha256 r buf vs = Ok (buf', vs') ∧
    seeded buf' ∧ length vs' = length vs ∧
    ∀ k, 0 ≤ k < n → vs' !! Z.to_nat k = vs !! Z.to_nat (spec_round sha256 seed n r k).
Proof.
  intros n Hn Hbuf. unfold shuffleRound. fold n. rewrite (take_set_round r) by done.
  rewrite pivot_spec. set (pivot := spec_pivot sha256 seed n r).
  assert (0 ≤ pivot < n) as Hp by (apply Z.mod_pos_bound; lia).
  assert (maxShuffleListSize = 2 ^ 40) as Hmax by done.
  unfold u64. rewrite !Z.mod_small by (rewrite ?Z.mod_small; unfold two64; lia).
  rewrite !shiftr_1.
  destruct (tracks_start r pivot _ (take_set_round r buf Hbuf)) as [Ht1 ->]; [lia|].
  rewrite sourceByte_hash_at by lia. simpl.
  destruct (swapLoop_spec r pivot ((pivot + 1) / 2) (S (length vs)) 0 pivot _ _ _ vs eq_refl
    ltac:(lia) ltac:(lia) ltac:(lia) ltac:(dlia) ltac:(dlia) Ht1) as
    (buf1 & bv1 & s1 & vs1 & -> & Hb1 & Hl1 & Hk1).
  simpl. destruct (tracks_start r (n - 1) buf1 Hb1) as [Ht2 ->]; [lia|].
  rewrite sourceByte_hash_at by lia. simpl.
  destruct (swapLoop_spec r (pivot + n) ((pivot + n + 1) / 2) (S (length vs)) (pivot + 1)
    (n - 1) _ _ _ vs1 eq_refl ltac:(lia) ltac:(lia) ltac:(rewrite Hl1; lia) ltac:(dlia)
    ltac:(dlia) Ht2) as (buf2 & bv2 & s2 & vs2 & -> & Hb2 & Hl2 & Hk2).
  simpl. do 2 eexists. split_and!; [done|by eapply seeded_view|congruence|].
  intros k Hk. rewrite Hk2 by lia. rewrite Hk1.
  - unfold pivot. by rewrite fold_index_round by lia.
  - unfold fold_index. repeat case_match; lia.
Qed.


(** ** All rounds *)

(** The numbers of the rounds still to run, in the order they run. *)
Definition rounds_left (rounds : Z) (shuffl : bool) (r : Z) : list Z :=
  if shuffl then seqZ r (rounds - r) else reverse (seqZ 0 (r + 1)).

Definition index_of_rounds (n : Z) (rs : list Z) (k : Z) : Z :=
  foldr (λ r i, spec_round sha256 seed n r i) k rs.

Lemma spec_round_range n r k : 0 < n → 0 ≤ k < n → 0 ≤ spec_round sha256 seed n r k < n.
Proof.
  intros Hn Hk. unfold spec_round, spec_flip. destruct (spec_bit _ _ _ _); [|done].
  by apply Z.mod_pos_bound.
Qed.

Lemma index_of_rounds_range n rs k :
  0 < n → 0 ≤ k < n → 0 ≤ index_of_rounds n rs k < n.
Proof. intros Hn Hk. induction rs as [|r rs IH]; simpl; [done|]. by apply spec_round_range. Qed.

Lemma seqZ_split a n : 0 < n → seqZ a n = a :: seqZ (a + 1) (n - 1).
Proof. intros. rewrite seqZ_cons by lia. by rewrite <- Z.sub_1_r, Z.add_1_r. Qed.

Lemma shuffleRounds_spec rounds (shuffl : bool) fuel : ∀ r buf (vs : list Address),
  let n := Z.of_nat (length vs) in
  2 ≤ n ≤ maxShuffleListSize → seeded buf → rounds < 256 → 0 ≤ r < rounds →
  (if shuffl then rounds - r else r + 1) ≤ Z.of_nat fuel →
  ∃ vs', shuffleRounds sha256 fuel rounds shuffl r buf vs = Ok vs' ∧
    length vs' = length vs ∧
    ∀ k, 0 ≤ k < n → vs' !! Z.to_nat k =
      vs !! Z.to_nat (index_of_rounds n (rounds_left rounds shuffl r) k).
Proof.
  induction fuel as [|fuel IH]; intros r buf vs n Hn Hbuf H256 Hr Hf;
    [destruct shuffl; lia|]. simpl.
  destruct (shuffleRound_spec r buf vs Hn Hbuf) as (buf1 & vs1 & -> & Hb1 & Hl1 & Hk1).
  simpl. unfold n in *. rewrite <- Hl1 in Hn. destruct shuffl; simpl.
  - rewrite Z.mod_small by lia. destruct (Z.eqb_spec (r + 1) rounds).
    + eexists. split_and!; [done|done|]. intros k Hk. rewrite Hk1 by done.
      unfold rounds_left. rewrite seqZ_split, (seqZ_nil _ (_ - 1)) by lia. done.
    + destruct (IH (r + 1) buf1 vs1 Hn Hb1 H256) as (vs2 & -> & Hl2 & Hk2); [lia|lia|].
      eexists. split_and!; [done|congruence|]. intros k Hk. rewrite Hk2, Hl1 by lia.
      rewrite Hk1 by (apply index_of_rounds_range; lia). unfold rounds_left.
      rewrite (seqZ_split r) by lia. by replace (rounds - (r + 1)) with (rounds - r - 1) by lia.
  - destruct (Z.eqb_spec r 0) as [->|].
    + eexists. split_and!; [done|done|]. intros k Hk. by rewrite Hk1.
    + destruct (IH (r - 1) buf1 vs1 Hn Hb1 H256) as (vs2 & -> & Hl2 & Hk2); [lia|lia|].
      eexists. split_and!; [done|congruence|]. intros k Hk. rewrite Hk2, Hl1 by lia.
      rewrite Hk1 by (apply index_of_rounds_range; lia). unfold rounds_left.
      replace (r - 1 + 1) with r by lia. rewrite (seqZ_app 0 r 1) by lia.
      rewrite reverse_app. done.
Qed.

(** The two directions: [k] goes through the rounds in order or in reverse. *)
Definition result_index (n : Z) (shuffl : bool) (k : Z) : Z :=
  index_of_rounds n (if shuffl then round_numbers else reverse round_numbers) k.

Lemma innerShuffleList_spec vs shuffl :
  2 ≤ Z.of_nat (length vs) ≤ maxShuffleListSize →
  ∃ vs', innerShuffleList sha256 vs seed shuffl = Ok vs' ∧ length vs' = length vs ∧
    ∀ k, 0 ≤ k < Z.of_nat (length vs) →
      vs' !! Z.to_nat k = vs !! Z.to_nat (result_index (Z.of_nat (length vs)) shuffl k).
Proof.
  intros Hn. unfold innerShuffleList.
  destruct (Nat.leb_spec (length vs) 1); [lia|].
  destruct (Z.ltb_spec maxShuffleListSize (Z.of_nat (length vs))); [lia|].
  destruct (Z.eqb_spec shuffleRoundCount 0); [done|].
  assert (seeded (fb seed ++ replicate 5 x00)) as Hs.
  { split; [by rewrite take_app_length' by by rewrite length_fb|].
    rewrite length_app, length_fb. unfold seedSize. simpl. lia. }
  destruct (shuffleRounds_spec shuffleRoundCount shuffl (Z.to_nat shuffleRoundCount)
    (if shuffl then 0 else shuffleRoundCount - 1) _ vs Hn Hs) as (vs' & -> & Hl & Hk).
  - done.
  - unfold shuffleRoundCount. destruct shuffl; lia.
  - unfold shuffleRoundCount. destruct shuffl; lia.
  - exists vs'. split_and!; [done|done|]. intros k Hk'. rewrite Hk by done.
    unfold result_index. by destruct shuffl.
Qed.

(** A round is its own inverse. *)
Lemma spec_round_involutive n r k :
  0 < n → 0 ≤ k < n → spec_round sha256 seed n r (spec_round sha256 seed n r k) = k.
Proof.
  intros Hn Hk. set (f := spec_flip sha256 seed n r).
  assert (f (f k) = k) as Hff.
  { unfold f, spec_flip. rewrite Zminus_mod_idemp_r.
    replace (_ - (_ - k)) with k by lia. by apply Z.mod_small. }
  unfold spec_round at 2. fold (f k). destruct (spec_bit sha256 seed r (Z.max k (f k))) eqn:Hb;
    unfold spec_round; fold (f k); fold (f (f k)).
  - by rewrite Hff, Z.max_comm, Hb.
  - by rewrite Hb.
Qed.

Lemma index_of_rounds_app n rs1 rs2 k :
  index_of_rounds n (rs1 ++ rs2) k = index_of_rounds n rs1 (index_of_rounds n rs2 k).
Proof. unfold index_of_rounds. by rewrite foldr_app. Qed.

Lemma index_of_rounds_reverse n rs k :
  0 < n → 0 ≤ k < n → index_of_rounds n rs (index_of_rounds n (reverse rs) k) = k.
Proof.
  intros Hn. revert k. induction rs as [|r rs IH]; intros k Hk; [done|].
  rewrite reverse_cons, index_of_rounds_app. simpl. rewrite IH.
  - by apply spec_round_involutive.
  - by apply spec_round_range.
Qed.

Lemma result_index_inverse n shuffl k :
  0 < n → 0 ≤ k < n → result_index n shuffl (result_index n (negb shuffl) k) = k.
Proof.
  intros Hn Hk. unfold result_index. destruct shuffl; cbn [negb].
  - by apply index_of_rounds_reverse.
  - rewrite <- (reverse_involutive round_numbers) at 2. by apply index_of_rounds_reverse.
Qed.


Lemma result_index_range n shuffl k : 0 < n → 0 ≤ k < n → 0 ≤ result_index n shuffl k < n.
Proof. apply index_of_rounds_range. Qed.

Lemma result_index_inj n shuffl k l :
  0 < n → 0 ≤ k < n → 0 ≤ l < n → result_index n shuffl k = result_index n shuffl l → k = l.
Proof.
  intros Hn Hk Hl E. rewrite <- (result_index_inverse n (negb shuffl) k),
    <- (result_index_inverse n (negb shuffl) l) by done.
  rewrite negb_involutive. by rewrite E.
Qed.

(** The list form for every size it accepts, the short lists it leaves alone included. *)
Lemma innerShuffleList_index vs shuffl :
  Z.of_nat (length vs) ≤ maxShuffleListSize →
  ∃ vs', innerShuffleList sha256 vs seed shuffl = Ok vs' ∧ length vs' = length vs ∧
    ∀ k, 0 ≤ k < Z.of_nat (length vs) →
      vs' !! Z.to_nat k = vs !! Z.to_nat (result_index (Z.of_nat (length vs)) shuffl k).
Proof.
  intros Hn. destruct (Nat.leb_spec (length vs) 1) as [H1|]; [|apply innerShuffleList_spec; lia].
  exists vs. unfold innerShuffleList. rewrite (proj2 (Nat.leb_le _ _) H1). split_and!; [done..|].
  intros k Hk. pose proof (result_index_range (Z.of_nat (length vs)) shuffl k ltac:(lia) Hk).
  by replace (result_index (Z.of_nat (length vs)) shuffl k) with k by lia.
Qed.

Lemma compute_shuffled_index_rounds n k :
  compute_shuffled_index sha256 seed n k = result_index n false k.
Proof.
  unfold compute_shuffled_index, result_index. generalize round_numbers. intros rs. revert k.
  induction rs as [|r rs IH]; intros k; [done|].
  rewrite reverse_cons, index_of_rounds_app. cbn [foldl]. by rewrite IH.
Qed.

Lemma innerShuffleList_Permutation vs vs' shuffl :
  innerShuffleList sha256 vs seed shuffl = Ok vs' → vs' ≡ₚ vs.
Proof.
  intros H. destruct (Z.le_gt_cases (Z.of_nat (length vs)) maxShuffleListSize) as [Hn|Hn].
  - destruct (innerShuffleList_index vs shuffl Hn) as (vs2 & H2 & Hl & Hk).
    rewrite H in H2. injection H2 as <-. set (n := Z.of_nat (length vs)) in *.
    apply Permutation_inj. split; [done|].
    exists (λ i, if decide (Z.of_nat i < n) then Z.to_nat (result_index n shuffl (Z.of_nat i)) else i).
    pose proof (result_index_range n shuffl) as Hr. split.
    + intros i j. destruct (decide (Z.of_nat i < n)), (decide (Z.of_nat j < n)); intros E.
      * pose proof (Hr (Z.of_nat i)). pose proof (Hr (Z.of_nat j)). apply Nat2Z.inj.
        apply (result_index_inj n shuffl); lia.
      * pose proof (Hr (Z.of_nat i)). lia.
      * pose proof (Hr (Z.of_nat j)). lia.
      * done.
    + intros i. destruct (decide (Z.of_nat i < n)) as [Hi|Hi].
      * rewrite <- Hk by lia. by rewrite Nat2Z.id.
      * by rewrite !lookup_ge_None_2 by lia.
  - unfold innerShuffleList in H. change maxShuffleListSize with (2 ^ 40) in *.
    destruct (Nat.leb_spec (length vs) 1); [lia|].
    destruct (Z.ltb_spec (2 ^ 40) (Z.of_nat (length vs))); [done|lia].
Qed.

Lemma innerShuffleList_inverse vs shuffl :
  Z.of_nat (length vs) ≤ maxShuffleListSize →
  ∃ vs', innerShuffleList sha256 vs seed shuffl = Ok vs' ∧
    innerShuffleList sha256 vs' seed (negb shuffl) = Ok vs.
Proof.
  intros Hn. destruct (innerShuffleList_index vs shuffl Hn) as (vs1 & H1 & Hl1 & Hk1).
  exists vs1. split; [done|].
  destruct (innerShuffleList_index vs1 (negb shuffl)) as (vs2 & -> & Hl2 & Hk2); [lia|].
  f_equal. apply list_eq. intros i. set (n := Z.of_nat (length vs)) in *.
  destruct (decide (Z.of_nat i < n)) as [Hi|Hi].
  - rewrite <- (Nat2Z.id i) at 1. rewrite Hk2, Hl1 by lia.
    rewrite Hk1 by (apply result_index_range; lia). fold n.
    by rewrite result_index_inverse, Nat2Z.id by lia.
  - by rewrite !lookup_ge_None_2 by lia.
Qed.

End shuffle_proofs.

(** ** The package's contract *)

(** C19: on a list of at most 2^40 validators the in-place shuffle returns, and position [k]
    of the result holds the validator whose index is the swap-or-not shuffle of [k] by the
    seed, computed one index at a time. *)
Theorem shuffle_validators_index sha256 seed vs :
  Z.of_nat (length vs) ≤ maxShuffleListSize →
  ∃ vs', ShuffleValidators sha256 vs seed = Ok vs' ∧ length vs' = length vs ∧
    ∀ k, 0 ≤ k < Z.of_nat (length vs) →
      vs' !! Z.to_nat k =
      vs !! Z.to_nat (compute_shuffled_index sha256 seed (Z.of_nat (length vs)) k).
Proof.
  intros Hn. destruct (innerShuffleList_index sha256 seed vs false Hn) as (vs' & H & Hl & Hk).
  exists vs'. split_and!; [done..|]. intros k Hk'. by rewrite compute_shuffled_index_rounds, Hk.
Qed.

(** a shuffled list is a permutation of the list: every validator appears in it as
    often as it did before. *)
Theorem shuffle_validators_permutation sha256 seed vs :
  Z.of_nat (length vs) ≤ maxShuffleListSize →
  ∃ vs', ShuffleValidators sha256 vs seed = Ok vs' ∧ vs' ≡ₚ vs.
Proof.
  intros Hn. destruct (innerShuffleList_index sha256 seed vs false Hn) as (vs' & H & _).
  exists vs'. split; [done|]. by eapply innerShuffleList_Permutation.
Qed.

(** shuffling in one direction and then in the other gives the list back. *)
Theorem shuffle_inverse sha256 seed vs shuffl :
  Z.of_nat (length vs) ≤ maxShuffleListSize →
  ∃ vs', innerShuffleList sha256 vs seed shuffl = Ok vs' ∧
    innerShuffleList sha256 vs' seed (negb shuffl) = Ok vs.
Proof. apply innerShuffleList_inverse. Qed.

(** A hash for the examples: a polynomial in the bytes, modulo 2^256. *)
Definition toy_hash (b : bytes) : Hash :=
  BytesToHash (be_bytes 32 (foldr (λ c z, b2z c * 7919 + z * 104729) 1 b)).

Definition toy_list : list Address := map (λ k, BytesToAddress [k]) [x01; x02; x03; x04; x05].

Lemma shuffle_validators_index_witness :
  ∃ vs', ShuffleValidators toy_hash toy_list (zero_fixed 32) = Ok vs' ∧
    length vs' = length toy_list ∧ ∀ k, 0 ≤ k < Z.of_nat (length toy_list) →
      vs' !! Z.to_nat k =
      toy_list !! Z.to_nat (compute_shuffled_index toy_hash (zero_fixed 32) (Z.of_nat (length toy_list)) k).
Proof. apply shuffle_validators_index. vm_compute. discriminate. Defined.

