(* ===== verification/Chain.v ===== *)
(** * Chain configuration and slot arithmetic

    [ChainConfig] and its fork predicates (src/params/config.go), [SlotInfo]
    (src/core/types/block_dag.go) and [Checkpoint] (src/core/types/dag.go). Slots and epochs
    are [uint64] values; a division by zero is a panic, the overflows the code tests for are
    errors, and the others wrap around. *)

From Stdlib Require Import ZArith Lia Strings.Byte.
From stdpp Require Import base tactics option numbers list gmap strings.
From S2P Require Import Prelude Common.

(** ** Configuration *)

Record ChainConfig := MkChainConfig {
  ChainID : Z;
  SecondsPerSlot : Z;
  SlotsPerEpoch : Z;
  EpochsPerEra : Z;
  TransitionPeriod : Z;
  ValidatorsStateAddress : option Address;
  ValidatorsPerSlot : Z;
  EffectiveBalance : option Z;
  ValidatorOpExpireSlots : Z;
  ForkSlotSubNet1 : Z;
  ForkSlotDelegate : Z;
  ForkSlotPrefixFin : Z;
  ForkSlotShanghai : Z;
  ForkSlotValOpTracking : Z;
  ForkSlotReduceBaseFee : Z;
  ForkSlotValSyncProc : Z;
  StartEpochsPerEra : Z
}.

Definition IsForkSlotSubNet1 (c : ChainConfig) (slot : Z) : bool := ForkSlotSubNet1 c <=? slot.
Definition IsForkSlotDelegate (c : ChainConfig) (slot : Z) : bool := ForkSlotDelegate c <=? slot.
Definition IsForkSlotPrefixFin (c : ChainConfig) (slot : Z) : bool :=
  ForkSlotPrefixFin c <=? slot.
Definition IsForkSlotValOpTracking (c : ChainConfig) (slot : Z) : bool :=
  ForkSlotValOpTracking c <=? slot.
Definition IsForkSlotReduceBaseFee (c : ChainConfig) (slot : Z) : bool :=
  ForkSlotReduceBaseFee c <=? slot.
Definition IsForkSlotValSyncProc (c : ChainConfig) (slot : Z) : bool :=
  ForkSlotValSyncProc c <=? slot.

(** ** Slots *)

Record SlotInfo := MkSlotInfo {
  GenesisTime : Z;
  si_SecondsPerSlot : Z;
  si_SlotsPerEpoch : Z
}.

(** [a % b] and [a / b] on [uint64]. *)
Definition go_mod (a b : Z) : go_res Z := if b =? 0 then Panic else Ok (a mod b).
Definition go_div (a b : Z) : go_res Z := if b =? 0 then Panic else Ok (a / b).

(** The conversion [int64(u)]. *)
Definition int64 (u : Z) : Z := if u <? 2 ^ 63 then u else u - two64.

Definition errMulOverflow : error := Error "multiplication overflows".
Definition errAddOverflow : error := Error "addition overflows".
Definition errStartSlotMul : error :=
  Error "start slot calculation overflows: multiplication overflows".
Definition errStartSlot : error := Error "start slot calculation overflows".

(** [StartSlotTime], in seconds since the Unix epoch. *)
Definition StartSlotTime (si : SlotInfo) (slot : Z) : go_res Z :=
  let product := slot * si_SecondsPerSlot si in
  if two64 <=? product then Err (Wrapped "slot is in the far distant future" errMulOverflow)
  else
    let sum := product + GenesisTime si in
    if two64 <=? sum then Err (Wrapped "slot is in the far distant future" errAddOverflow)
    else Ok (int64 sum).

(** [CurrentSlot]; the clock is an argument. *)
Definition CurrentSlot (si : SlotInfo) (now : Z) : go_res Z :=
  let genesis := int64 (GenesisTime si) in
  if now <? genesis then Ok 0 else go_div (u64 (now - genesis)) (si_SecondsPerSlot si).

Definition IsEpochStart (si : SlotInfo) (slot : Z) : go_res bool :=
  m ← go_mod slot (si_SlotsPerEpoch si); Ok (m =? 0).

Definition IsEpochEnd (si : SlotInfo) (slot : Z) : go_res bool := IsEpochStart si (u64 (slot + 1)).

Definition SlotToEpoch (si : SlotInfo) (slot : Z) : go_res Z := go_div slot (si_SlotsPerEpoch si).

Definition SlotInEpoch (si : SlotInfo) (slot : Z) : go_res Z := go_mod slot (si_SlotsPerEpoch si).

Definition SlotOfEpochStart (si : SlotInfo) (epoch : Z) : go_res Z :=
  let product := si_SlotsPerEpoch si * epoch in
  if two64 <=? product then Err errStartSlotMul else Ok product.

Definition SlotOfEpochEnd (si : SlotInfo) (epoch : Z) : go_res Z :=
  if epoch =? MaxUint64 then Err errStartSlot
  else slot ← SlotOfEpochStart si (epoch + 1); Ok (u64 (slot - 1)).

(** ** Checkpoints *)

Record Checkpoint := MkCheckpoint {
  cp_Epoch : Z;
  cp_FinEpoch : Z;
  cp_Root : Hash;
  cp_Spine : Hash
}.

(** ** Properties *)

Lemma SlotToEpoch_Ok si slot e :
  0 < si_SlotsPerEpoch si → SlotToEpoch si slot = Ok e ↔ e = slot / si_SlotsPerEpoch si.
Proof.
  intros Hs. unfold SlotToEpoch, go_div. destruct (Z.eqb_spec (si_SlotsPerEpoch si) 0); [lia|].
  split; [by intros [= <-]|by intros ->].
Qed.

(** The slots from [SlotOfEpochStart] to [SlotOfEpochEnd] are those of the epoch. *)
Lemma epoch_bounds si epoch first last slot :
  0 < si_SlotsPerEpoch si → is_u64 epoch →
  SlotOfEpochStart si epoch = Ok first → SlotOfEpochEnd si epoch = Ok last →
  (SlotToEpoch si slot = Ok epoch ↔ first ≤ slot ≤ last).
Proof.
  intros Hs He Hf Hl. rewrite SlotToEpoch_Ok by done. set (n := si_SlotsPerEpoch si) in *.
  unfold SlotOfEpochEnd in Hl. destruct (Z.eqb_spec epoch MaxUint64); [done|].
  apply bind_Ok in Hl as (x & Hx & Hl). injection Hl as <-.
  unfold SlotOfEpochStart in *. fold n in Hf, Hx.
  destruct (Z.leb_spec two64 (n * epoch)); [done|]. injection Hf as <-.
  destruct (Z.leb_spec two64 (n * (epoch + 1))); [done|]. injection Hx as <-.
  unfold is_u64 in He. unfold u64. rewrite Z.mod_small by nia. split.
  - intros ->. pose proof (Z.mul_div_le slot n Hs). pose proof (Z.mul_succ_div_gt slot n Hs). lia.
  - intros Hslot. apply (Z.div_unique_pos _ _ _ (slot - n * epoch)); lia.
Qed.
