(* ===== verification/Era.v ===== *)
(** * Eras

    Package validator/era (src/validator/era/era.go), the era records of the database
    (src/core/rawdb/accessors_chain.go) and the era operations of the blockchain
    ([EnterNextEra], [StartTransitionPeriod] and [EpochToEra] of src/core/blockchain.go).

    The chain keeps the current era in memory and every era, in RLP, under its number in a
    key-value store. The number of active validators, the headers and the out-of-range
    conversion from floating point to [uint64] are parameters; logging and the goroutine
    that warms the validator cache are left out.

    The theorems: an era that was written is read back; the eras in the store form a chain
    of adjacent, non-empty epoch ranges and entering an era extends the chain; [EpochToEra]
    finds the era of every epoch up to the end of the current one; [HandleEra] returns and
    leaves the chain in an era that contains the finalized epoch. *)

From Stdlib Require Import ZArith Lia Strings.Byte SpecFloat.
From stdpp Require Import base tactics option numbers list gmap strings.
From S2P Require Import Prelude Common RlpEnc RlpDec Chain.

(** ** Eras *)

Record Era := MkEra {
  Number : Z;
  From : Z;
  To : Z;
  Root : Hash;
  BlockHash : Hash
}.

Definition era_Length (e : Era) : Z := u64 (To e - From e).

Definition IsContainsEpoch (e : Era) (epoch : Z) : bool := (From e <=? epoch) && (epoch <=? To e).

(** [EraInfo]: the current era, nil before the first one is set. *)
Record EraInfo := MkEraInfo {
  currentEra : option Era;
  ei_length : Z
}.

Definition NewEraInfo (e : Era) : EraInfo := MkEraInfo (Some e) (era_Length e).

Definition ei_Number (ei : EraInfo) : go_res Z := e ← deref (currentEra ei); Ok (Number e).
Definition ToEpoch (ei : EraInfo) : go_res Z := e ← deref (currentEra ei); Ok (To e).
Definition FromEpoch (ei : EraInfo) : go_res Z := e ← deref (currentEra ei); Ok (From e).

Definition ei_EpochsPerEra (ei : EraInfo) : go_res Z :=
  e ← deref (currentEra ei); Ok (u64 (u64 (To e - From e) + 1)).

Definition IsTransitionPeriodEpoch (ei : EraInfo) (c : ChainConfig) (epoch : Z) : go_res bool :=
  to ← ToEpoch ei;
  Ok ((u64 (to - TransitionPeriod c) <=? epoch) && (epoch <=? to)).

Definition IsTransitionPeriodStartEpoch (ei : EraInfo) (c : ChainConfig) (epoch : Z) : go_res bool :=
  to ← ToEpoch ei;
  Ok (epoch =? u64 (to - TransitionPeriod c)).

Definition IsTransitionPeriodStartSlot (ei : EraInfo) (c : ChainConfig) (si : SlotInfo) (slot : Z) :
    go_res bool :=
  to ← ToEpoch ei;
  let transitionEpoch := u64 (u64 (to + 1) - TransitionPeriod c) in
  currentEpoch ← SlotToEpoch si slot;
  if currentEpoch =? transitionEpoch then IsEpochStart si slot else Ok false.

Definition NextEraFirstEpoch (ei : EraInfo) : go_res Z := to ← ToEpoch ei; Ok (u64 (to + 1)).

(** The first and last slot of the era and the first of the next; 0 when it overflows. *)
Definition slot_or_0 (r : go_res Z) : go_res Z :=
  match r with Err _ => Ok 0 | _ => r end.

Definition FirstSlot (ei : EraInfo) (si : SlotInfo) : go_res Z :=
  epoch ← FromEpoch ei; slot_or_0 (SlotOfEpochStart si epoch).
Definition LastSlot (ei : EraInfo) (si : SlotInfo) : go_res Z :=
  epoch ← ToEpoch ei; slot_or_0 (SlotOfEpochEnd si epoch).
Definition NextEraFirstSlot (ei : EraInfo) (si : SlotInfo) : go_res Z :=
  epoch ← NextEraFirstEpoch ei; slot_or_0 (SlotOfEpochStart si epoch).

Definition LenEpochs (ei : EraInfo) : Z := ei_length ei.
Definition LenSlots (ei : EraInfo) : Z := u64 (ei_length ei * 32).

Definition ei_IsContainsEpoch (ei : EraInfo) (epoch : Z) : go_res bool :=
  from ← FromEpoch ei; to ← ToEpoch ei; Ok ((from <=? epoch) && (epoch <=? to)).

(** ** The length of an era *)

(** [float64] is the IEEE 754 binary64 format. *)
Abbreviation float64 := spec_float.
Definition float64_of_uint64 (u : Z) : float64 := binary_normalize 53 1024 u 0 false.
Definition float64_mul : float64 → float64 → float64 := SFmul 53 1024.
Definition float64_div : float64 → float64 → float64 := SFdiv 53 1024.

(** [math.Ceil] of a finite number, as an integer. *)
Definition float64_ceil (f : float64) : option Z :=
  match f with
  | S754_zero _ => Some 0
  | S754_finite s m e =>
      let z := if s then Z.neg m else Z.pos m in
      Some (if 0 <=? e then z * 2 ^ e else - ((- z) / 2 ^ (- e)))
  | S754_infinity _ | S754_nan => None
  end.

(** A key-value store. *)
Abbreviation KV := (gmap bytes bytes).

Section era.
(** The value of [uint64(f)] for a float that is not in the range of [uint64]; the language
    leaves it to the implementation. *)
Context (uint64_out_of_range : float64 → Z).

Definition roundUp (num : float64) : Z :=
  match float64_ceil num with
  | Some z => if (0 <=? z) && (z <? two64) then z else uint64_out_of_range num
  | None => uint64_out_of_range num
  end.

Definition EstimateEraLength (c : ChainConfig) (numberOfValidators eraNumber : Z) : Z :=
  if StartEpochsPerEra c <=? eraNumber then EpochsPerEra c
  else
    let epochsPerEra := EpochsPerEra c in
    let slotsPerEpoch := float64_of_uint64 (SlotsPerEpoch c) in
    let validatorsPerSlot := float64_of_uint64 (ValidatorsPerSlot c) in
    u64 (epochsPerEra *
         roundUp (float64_div (float64_of_uint64 numberOfValidators)
                    (float64_mul (float64_mul (float64_of_uint64 epochsPerEra) slotsPerEpoch)
                       validatorsPerSlot))).

Definition NextEra (c : ChainConfig) (ei : EraInfo) (root blockHash : Hash) (numValidators : Z) :
    go_res Era :=
  number ← ei_Number ei;
  let nextEraNumber := u64 (number + 1) in
  let nextEraLength := EstimateEraLength c numValidators nextEraNumber in
  to ← ToEpoch ei;
  Ok (MkEra nextEraNumber (u64 (to + 1)) (u64 (to + nextEraLength)) root blockHash).

(** ** The database *)

Definition eraPrefix : bytes := [x65; x72; x61].
Definition currentEraPrefix : bytes := [x63; x75; x72; x72; x65; x6e; x74; x65; x72; x61].
Definition eraKey (number : Z) : bytes := eraPrefix ++ PutUint64BE number.

Definition era_fields : list rtype := [TUint 64; TUint 64; TUint 64; TArray 32; TArray 32].
Definition era_type : rtype := TStruct era_fields.
Definition era_value (e : Era) : rvalue :=
  VStruct [VUint (Number e); VUint (From e); VUint (To e); VArray (fb (Root e));
           VArray (fb (BlockHash e))].

Definition WriteEra (db : KV) (number : Z) (e : Era) : KV :=
  <[eraKey number := match EncodeToBytes era_type (era_value e) with Ok b => b | _ => [] end]> db.

(** What a failed decoding of a struct leaves behind: the fields before the one that failed. *)
Fixpoint decode_prefix (ts : list rtype) (s : Stream) : list rvalue :=
  match ts with
  | [] => []
  | t :: ts' => match decode t s with Ok (v, s') => v :: decode_prefix ts' s' | _ => [] end
  end.

Definition uint_field (l : list rvalue) (i : nat) : Z :=
  match l !! i with Some (VUint z) => z | _ => 0 end.
Definition hash_field (l : list rvalue) (i : nat) : Hash :=
  match l !! i with Some (VArray b) => BytesToHash b | _ => zero_fixed 32 end.
Definition era_of_fields (l : list rvalue) : Era :=
  MkEra (uint_field l 0) (uint_field l 1) (uint_field l 2) (hash_field l 3) (hash_field l 4).

(** [rlp.DecodeBytes] into a fresh [Era], the error aside: the list is entered and the fields
    are set one by one. *)
Definition decodeEra (b : bytes) : Era :=
  era_of_fields (match stream_List (stream_Reset b) with
                 | Ok (_, s) => decode_prefix era_fields s
                 | _ => []
                 end).

(** [ReadEra] tests [err != nil && decoded == nil], and [decoded] is never nil: an era that
    cannot be decoded is returned as far as it was decoded. *)
Definition ReadEra (db : KV) (number : Z) : option Era := decodeEra <$> db !! eraKey number.

Definition DeleteEra (db : KV) (number : Z) : KV := delete (eraKey number) db.

Definition WriteCurrentEra (db : KV) (number : Z) : KV :=
  <[currentEraPrefix := PutUint64BE number]> db.

(** [ReadCurrentEra]: a missing entry ends the process ([log.Crit]). *)
Definition ReadCurrentEra (db : KV) : go_res Z :=
  b ← deref (db !! currentEraPrefix); Uint64BE b.

Definition DeleteCurrentEra (db : KV) : KV := delete currentEraPrefix db.

(** [FindEra] counts down to the first era found; era 0 is not tried. *)
Fixpoint FindEra_go (fuel : nat) (db : KV) (curEra : Z) : go_res (option Era) :=
  match fuel with
  | O => NoFuel
  | S fuel' =>
      if 0 <? curEra then
        match ReadEra db curEra with
        | Some e => Ok (Some e)
        | None => FindEra_go fuel' db (curEra - 1)
        end
      else Ok None
  end.
Definition FindEra (db : KV) (curEra : Z) : go_res (option Era) :=
  FindEra_go (S (Z.to_nat curEra)) db curEra.

(** ** The era operations of the blockchain *)

Record EraChain := MkEraChain {
  ec_config : ChainConfig;
  ec_slots : SlotInfo;
  ec_eraInfo : EraInfo;
  ec_db : KV
}.

Definition SetNewEraInfo (e : Era) (st : EraChain) : EraChain :=
  MkEraChain (ec_config st) (ec_slots st) (NewEraInfo e) (ec_db st).
Definition set_db (db : KV) (st : EraChain) : EraChain :=
  MkEraChain (ec_config st) (ec_slots st) (ec_eraInfo st) db.

(** [ValidatorStorage().GetActiveValidatorsCount] and [GetHeaderByHash], which gives the state
    root and the hash of a block. *)
Context (GetActiveValidatorsCount : EraChain → Z → go_res Z).
Context (GetHeaderByHash : Hash → option (Hash * Hash)).

Definition EnterNextEra (nextEraEpochFrom : Z) (root blockHash : Hash) : stM EraChain (option Era) :=
  st ← getS;
  number ← liftR (ei_Number (ec_eraInfo st));
  match ReadEra (ec_db st) (u64 (number + 1)) with
  | Some nextEra =>
      _ ← modify (λ st, set_db (WriteCurrentEra (ec_db st) (Number nextEra)) st);
      _ ← modify (SetNewEraInfo nextEra);
      mret (Some nextEra)
  | None =>
      transitionSlot ← liftR (SlotOfEpochStart (ec_slots st)
                                (u64 (nextEraEpochFrom - TransitionPeriod (ec_config st))));
      validatorsCount ← liftR (GetActiveValidatorsCount st transitionSlot);
      nextEra ← liftR (NextEra (ec_config st) (ec_eraInfo st) root blockHash validatorsCount);
      _ ← modify (λ st, set_db (WriteEra (ec_db st) (Number nextEra) nextEra) st);
      _ ← modify (λ st, set_db (WriteCurrentEra (ec_db st) (Number nextEra)) st);
      _ ← modify (SetNewEraInfo nextEra);
      mret (Some nextEra)
  end.

Definition StartTransitionPeriod (cp : Checkpoint) (spineRoot spineHash : Hash) : stM EraChain unit :=
  st ← getS;
  number ← liftR (ei_Number (ec_eraInfo st));
  match ReadEra (ec_db st) (u64 (number + 1)) with
  | None =>
      let period := TransitionPeriod (ec_config st) in
      if int64 (u64 (cp_FinEpoch cp - period)) <? 0 then mret tt
      else
        cpEpochSlot ← liftR (SlotOfEpochStart (ec_slots st) (u64 (cp_FinEpoch cp - period)));
        validatorsCount ← liftR (GetActiveValidatorsCount st cpEpochSlot);
        nextEra ← liftR (NextEra (ec_config st) (ec_eraInfo st) spineRoot spineHash validatorsCount);
        modify (λ st, set_db (WriteEra (ec_db st) (Number nextEra) nextEra) st)
  | Some _ => mret tt
  end.

Definition ErrCheckpointInvalid : error := Error "era.ErrCheckpointInvalid".
Definition ErrHandleEraFailed : error := Error "era.ErrHandleEraFailed".

(** [for curToEpoch+1 <= cp.FinEpoch { ... }] *)
Fixpoint enterEras (fuel : nat) (finEpoch curToEpoch : Z) (spineRoot spineHash : Hash) :
    stM EraChain unit :=
  match fuel with
  | O => liftR NoFuel
  | S fuel' =>
      if u64 (curToEpoch + 1) <=? finEpoch then
        nextEra ← EnterNextEra (u64 (curToEpoch + 1)) spineRoot spineHash;
        match nextEra with
        | Some e => enterEras fuel' finEpoch (To e) spineRoot spineHash
        | None => liftR (Err ErrHandleEraFailed)
        end
      else mret tt
  end.

(** An error that the caller does not look at. *)
Definition ignore {S A} (m : stM S A) : stM S unit := λ s,
  match m s with
  | (Ok _, s') | (Err _, s') => (Ok tt, s')
  | (Panic, s') => (Panic, s')
  | (NoFuel, s') => (NoFuel, s')
  end.

(** [HandleEra]. An era is at least one epoch long from era [StartEpochsPerEra] on, which
    bounds the number of eras up to the finalized epoch. *)
Definition HandleEra (cp : Checkpoint) : stM EraChain unit :=
  match GetHeaderByHash (cp_Spine cp) with
  | None => liftR (Err ErrCheckpointInvalid)
  | Some (spineRoot, spineHash) =>
      st ← getS;
      to ← liftR (ToEpoch (ec_eraInfo st));
      if u64 (to + 1) <=? cp_FinEpoch cp then
        enterEras (S (Z.to_nat (cp_FinEpoch cp) + Z.to_nat (StartEpochsPerEra (ec_config st))))
          (cp_FinEpoch cp) to spineRoot spineHash
      else if (u64 (u64 (to + 1) - TransitionPeriod (ec_config st)) =? cp_FinEpoch cp) &&
              (cp_FinEpoch cp <=? u64 (to + 1))
      then ignore (StartTransitionPeriod cp spineRoot spineHash)
      else mret tt
  end.

(** [EpochToEra]: binary search among the earlier eras, linear search among the later ones. A
    search over [n] eras takes at most [log2 n + 1] steps, and the search forward reads a
    different key of the store at each step. *)
Fixpoint searchDown (fuel : nat) (db : KV) (epoch low high : Z) (finding : Era) : go_res Era :=
  if IsContainsEpoch finding epoch then Ok finding
  else
    match fuel with
    | O => NoFuel
    | S fuel' =>
        let eraNumber := u64 (low + high) / 2 in
        finding ← deref (ReadEra db eraNumber);
        if epoch <? To finding then searchDown fuel' db epoch low (u64 (eraNumber - 1)) finding
        else searchDown fuel' db epoch (u64 (eraNumber + 1)) high finding
    end.

Fixpoint searchUp (fuel : nat) (db : KV) (epoch eraNumber : Z) (finding : Era) : go_res Era :=
  if IsContainsEpoch finding epoch then Ok finding
  else
    match fuel with
    | O => NoFuel
    | S fuel' =>
        let eraNumber := u64 (eraNumber + 1) in
        finding ← deref (ReadEra db eraNumber);
        searchUp fuel' db epoch eraNumber finding
    end.

Definition findEpoch (db : KV) (curEra : Era) (epoch : Z) : go_res Era :=
  if IsContainsEpoch curEra epoch then Ok curEra
  else if epoch <? From curEra then searchDown 65 db epoch 0 (Number curEra) curEra
  else if To curEra <? epoch then searchUp (S (size db)) db epoch (Number curEra) curEra
  else Ok curEra.

Definition EpochToEra (epoch : Z) : stM EraChain (option Era) :=
  st ← getS;
  match currentEra (ec_eraInfo st) with
  | Some curEra => e ← liftR (findEpoch (ec_db st) curEra epoch); mret (Some e)
  | None =>
      number ← liftR (ReadCurrentEra (ec_db st));
      match ReadEra (ec_db st) number with
      | Some curEra =>
          _ ← modify (SetNewEraInfo curEra);
          e ← liftR (findEpoch (ec_db st) curEra epoch); mret (Some e)
      | None => mret None
      end
  end.

End era.

(** ** Eras in the store *)

(** The fields of an era are [uint64] values. *)
Definition era_wf (e : Era) : Prop := is_u64 (Number e) ∧ is_u64 (From e) ∧ is_u64 (To e).

Lemma eraKey_inj m n : is_u64 m → is_u64 n → eraKey m = eraKey n → m = n.
Proof.
  unfold is_u64, eraKey, PutUint64BE. intros Hm Hn H. apply (inj (app eraPrefix)) in H.
  apply (f_equal be_val) in H. by rewrite !be_val_be_bytes_small in H by done.
Qed.

Lemma eraKey_current n : eraKey n ≠ currentEraPrefix.
Proof. done. Qed.

Lemma decode_fields_prefix ts : ∀ s l s',
  decode_fields decode ts s = Ok (l, s') → decode_prefix ts s = l.
Proof.
  induction ts as [|t ts IH]; intros s l s' H; simpl; [by injection H as <- _|].
  destruct (decode t s) as [[v s1]|e| |] eqn:Hd.
  - rewrite (decode_fields_cons _ _ _ _ _ _ Hd) in H.
    apply bind_Ok in H as ([l1 s2] & H1 & H). injection H as <- _. by rewrite (IH _ _ _ H1).
  - unfold decode_fields in H. rewrite Hd in H. by destruct (decide (e = EOL)).
  - unfold decode_fields in H. by rewrite Hd in H.
  - unfold decode_fields in H. by rewrite Hd in H.
Qed.

(** The era that [ReadEra] sees is the decoded value when decoding succeeds. *)
Lemma decodeEra_Ok b l : DecodeBytes era_type b = Ok (VStruct l) → decodeEra b = era_of_fields l.
Proof.
  unfold DecodeBytes, decodeEra. intros H. apply bind_Ok in H as ([v s] & Hd & H).
  cbn [decode era_type] in Hd. apply bind_Ok in Hd as ([sz s1] & HL & Hd).
  apply wrap_Ok in HL. rewrite HL.
  apply bind_Ok in Hd as ([l1 s2] & Hf & Hd). apply bind_Ok in Hd as (s3 & _ & Hd).
  injection Hd as <- <-. rewrite (decode_fields_prefix _ _ _ _ Hf).
  destruct (s_in s3); [|done]. by injection H as <-.
Qed.

Lemma era_value_typed e : era_wf e → typed true era_type (era_value e).
Proof.
  intros (HN & HF & HT). unfold is_u64 in *. unfold two64 in *.
  assert (good_bits 64) as G by (unfold good_bits; lia).
  simpl. change (2 ^ 64) with 18446744073709551616. rewrite !length_fb.
  split_and!; try done; lia.
Qed.


Lemma decode_era_value e bs :
  era_wf e → EncodeToBytes era_type (era_value e) = Ok bs → decodeEra bs = e.
Proof.
  intros Hwf He.
  destruct (Encode_Decode_size era_type (era_value e) (era_value_typed e Hwf)) as
    (bs' & He' & Hd & _).
  { cbn. rewrite !length_fb. done. }
  rewrite He in He'. injection He' as <-. rewrite (decodeEra_Ok _ _ Hd). destruct e as [n f t r h].
  change (MkEra n f t (BytesToHash (fb r)) (BytesToHash (fb h)) = MkEra n f t r h).
  by rewrite !BytesToFixed_fb.
Qed.

Lemma ReadEra_WriteEra db n e : era_wf e → ReadEra (WriteEra db n e) n = Some e.
Proof.
  intros Hwf. unfold ReadEra, WriteEra. rewrite lookup_insert_eq. simpl.
  destruct (Encode_Decode_size era_type (era_value e) (era_value_typed e Hwf)) as (bs & He & _).
  { cbn. rewrite !length_fb. done. }
  rewrite He. f_equal. by apply decode_era_value.
Qed.

Lemma ReadEra_WriteEra_ne db m n e :
  is_u64 m → is_u64 n → m ≠ n → ReadEra (WriteEra db m e) n = ReadEra db n.
Proof.
  intros Hm Hn Hne. unfold ReadEra, WriteEra. rewrite lookup_insert_ne; [done|].
  intros E. by apply eraKey_inj in E.
Qed.

Lemma ReadEra_WriteCurrentEra db m n : ReadEra (WriteCurrentEra db m) n = ReadEra db n.
Proof.
  unfold ReadEra, WriteCurrentEra. rewrite lookup_insert_ne; [done|].
  intros E. by apply (eraKey_current n).
Qed.

Lemma ReadCurrentEra_Write db n : is_u64 n → ReadCurrentEra (WriteCurrentEra db n) = Ok n.
Proof.
  intros Hn. unfold ReadCurrentEra, WriteCurrentEra. rewrite lookup_insert_eq.
  change (Uint64BE (PutUint64BE n) = Ok n). rewrite <- (app_nil_r (PutUint64BE n)).
  by apply UintBE_roundtrip.
Qed.

(** ** The chain of eras *)

(** [e'] starts where [e] ends, and is not empty. *)
Definition follows (e e' : Era) : Prop :=
  Number e' = Number e + 1 ∧ From e' = To e + 1 ∧ From e' ≤ To e' ∧ era_wf e'.

(** Era 0 starts at epoch 0, every era up to the current one is in the store under its
    number and follows the one before it. *)
Record linked (db : KV) (cur : Era) : Prop := {
  linked_cur : ReadEra db (Number cur) = Some cur;
  linked_wf : era_wf cur;
  linked_zero : ∃ e, ReadEra db 0 = Some e ∧ Number e = 0 ∧ From e = 0 ∧ 0 ≤ To e ∧ era_wf e;
  linked_next : ∀ k, 0 ≤ k < Number cur →
    ∃ e e', ReadEra db k = Some e ∧ ReadEra db (k + 1) = Some e' ∧ follows e e'
}.

Lemma linked_at db cur k :
  linked db cur → 0 ≤ k ≤ Number cur →
  ∃ e, ReadEra db k = Some e ∧ Number e = k ∧ From e ≤ To e ∧ era_wf e.
Proof.
  intros [_ _ (z & Hz & Hz0 & Hf & Ht & Hw) Hnext] Hk.
  replace k with (Z.of_nat (Z.to_nat k)) in * by lia. generalize dependent (Z.to_nat k).
  intros d. induction d as [|d IH]; intros Hd; [exists z; split_and!; [done|done|lia|done]|].
  destruct IH as (e1 & He1 & Hn1 & _); [lia|].
  destruct (Hnext (Z.of_nat d)) as (e & e' & He & He' & Hn & Hfr & Hle & Hwf); [lia|].
  replace (Z.of_nat (S d)) with (Z.of_nat d + 1) by lia. exists e'.
  rewrite He1 in He. simplify_eq. split_and!; [done|lia|done|done].
Qed.

(** Eras are ordered as their numbers. *)
Lemma linked_mono db cur a b ea eb :
  linked db cur → 0 ≤ a < b → b ≤ Number cur →
  ReadEra db a = Some ea → ReadEra db b = Some eb → To ea < From eb.
Proof.
  intros HL Ha. replace b with (a + 1 + Z.of_nat (Z.to_nat (b - a - 1))) by lia.
  destruct Ha as [Ha _]. generalize (Z.to_nat (b - a - 1)). clear b. intros d Hb Hea. revert eb.
  induction d as [|d IH]; intros eb Heb.
  - destruct (linked_next _ _ HL a) as (e & e' & He & He' & _ & Hfr & _); [lia|].
    rewrite Z.add_0_r in Heb. rewrite Hea in He. rewrite Heb in He'. simplify_eq. lia.
  - destruct (linked_next _ _ HL (a + 1 + Z.of_nat d)) as (e & e' & He & He' & _ & Hfr & _); [lia|].
    replace (a + 1 + Z.of_nat d + 1) with (a + 1 + Z.of_nat (S d)) in He' by lia.
    rewrite Heb in He'. simplify_eq. specialize (IH ltac:(lia) e He).
    destruct (linked_at db cur (a + 1 + Z.of_nat d) HL) as (e2 & He2 & _ & Hle & _); [lia|].
    rewrite He in He2. simplify_eq. lia.
Qed.

(** ** The search for an epoch *)

(** Some era up to the current one contains the epoch. *)
Lemma linked_contains db cur epoch :
  linked db cur → 0 ≤ epoch ≤ To cur →
  ∃ k e, 0 ≤ k ≤ Number cur ∧ ReadEra db k = Some e ∧ From e ≤ epoch ≤ To e.
Proof.
  intros HL He. pose proof (linked_wf _ _ HL) as ([Hn0 _] & _).
  enough (∀ d : nat, Z.of_nat d ≤ Number cur → ∀ e, ReadEra db (Z.of_nat d) = Some e →
    epoch ≤ To e → ∃ k e, 0 ≤ k ≤ Number cur ∧ ReadEra db k = Some e ∧ From e ≤ epoch ≤ To e) as H.
  { apply (H (Z.to_nat (Number cur)) ltac:(lia) cur); [|lia].
    rewrite Z2Nat.id by lia. apply (linked_cur _ _ HL). }
  induction d as [|d IH]; intros Hd e Hr Hle.
  - destruct (linked_zero _ _ HL) as (z & Hz & _ & Hf & _).
    change (ReadEra db 0 = Some e) in Hr. rewrite Hr in Hz. simplify_eq. exists 0, z. split_and!; [lia|lia|done|lia|lia].
  - destruct (decide (From e ≤ epoch)); [exists (Z.of_nat (S d)), e; split_and!; done || lia|].
    destruct (linked_next _ _ HL (Z.of_nat d)) as (e1 & e2 & H1 & H2 & _ & Hf & _); [lia|].
    replace (Z.of_nat d + 1) with (Z.of_nat (S d)) in H2 by lia. rewrite Hr in H2. simplify_eq.
    apply (IH ltac:(lia) e1 H1). lia.
Qed.

Lemma contains_spec e epoch : IsContainsEpoch e epoch = true ↔ From e ≤ epoch ≤ To e.
Proof. unfold IsContainsEpoch. rewrite andb_true_iff, !Z.leb_le. done. Qed.

Lemma searchDown_spec db cur epoch k target :
  linked db cur → Number cur < 2 ^ 63 → 0 ≤ k ≤ Number cur → ReadEra db k = Some target →
  From target ≤ epoch ≤ To target →
  ∀ fuel low high finding, 0 ≤ low ≤ k → k ≤ high ≤ Number cur →
  high - low + 1 < 2 ^ Z.of_nat fuel →
  (∃ m, 0 ≤ m ≤ Number cur ∧ ReadEra db m = Some finding) →
  searchDown fuel db epoch low high finding = Ok target.
Proof.
  intros HL H63 Hk Ht Hc.
  assert (∀ m e, 0 ≤ m ≤ Number cur → ReadEra db m = Some e →
            From e ≤ epoch ≤ To e → e = target) as Huniq.
  { intros m e Hm He Hce. destruct (Z.lt_trichotomy m k) as [H|[->|H]]; [exfalso|congruence|exfalso].
    - pose proof (linked_mono db cur m k e target HL ltac:(lia) ltac:(lia) He Ht). lia.
    - pose proof (linked_mono db cur k m target e HL ltac:(lia) ltac:(lia) Ht He). lia. }
  induction fuel as [|fuel IH]; intros low high finding Hlo Hhi Hf (m & Hm & Hfi); simpl;
    (destruct (IsContainsEpoch finding epoch) eqn:Hcf;
     [f_equal; by eapply Huniq; [..|apply contains_spec]|]).
  - change (2 ^ Z.of_nat 0) with 1 in Hf. lia.
  - rewrite Nat2Z.inj_succ, Z.pow_succ_r in Hf by lia.
    unfold u64. rewrite (Z.mod_small (low + high)) by (unfold two64; lia).
    set (mid := (low + high) / 2). assert (low ≤ mid ≤ high) as Hmid by (unfold mid; dlia).
    destruct (linked_at db cur mid HL) as (e & He & _ & Hle & _); [lia|]. rewrite He. simpl.
    destruct (decide (mid = k)) as [E|Hne].
    { assert (e = target) as -> by congruence.
      assert (IsContainsEpoch target epoch = true) as Hct by by apply contains_spec.
      destruct fuel; simpl; rewrite Hct; by destruct (epoch <? To target). }
    destruct (Z.ltb_spec epoch (To e)) as [Hlt|Hge].
    + assert (k < mid).
      { destruct (Z.le_gt_cases k mid) as [|Hgt]; [lia|].
        pose proof (linked_mono db cur mid k e target HL ltac:(lia) ltac:(lia) He Ht). lia. }
      rewrite Z.mod_small by (unfold two64; lia).
      apply IH; [lia|lia|unfold mid; dlia|exists mid; split; [lia|done]].
    + assert (mid < k).
      { destruct (Z.le_gt_cases k mid) as [|Hgt]; [|lia].
        pose proof (linked_mono db cur k mid target e HL ltac:(lia) ltac:(lia) Ht He). lia. }
      rewrite Z.mod_small by (unfold two64; lia).
      apply IH; [lia|lia|unfold mid; dlia|exists mid; split; [lia|done]].
Qed.

Lemma findEpoch_spec db cur epoch :
  linked db cur → Number cur < 2 ^ 63 → 0 ≤ epoch ≤ To cur →
  ∃ e, findEpoch db cur epoch = Ok e ∧ From e ≤ epoch ≤ To e ∧
    ∃ k, 0 ≤ k ≤ Number cur ∧ ReadEra db k = Some e.
Proof.
  intros HL H63 He. unfold findEpoch.
  pose proof (linked_wf _ _ HL) as ([Hn0 Hn1] & _).
  pose proof (linked_cur _ _ HL) as Hcur.
  destruct (IsContainsEpoch cur epoch) eqn:Hc.
  - apply contains_spec in Hc. exists cur. split_and!; [done|lia|lia|]. exists (Number cur).
    split; [lia|done].
  - destruct (linked_contains db cur epoch HL He) as (k & e & Hk & Hr & Hce).
    destruct (Z.ltb_spec epoch (From cur)).
    + exists e. split_and!; [|lia|lia|by exists k].
      apply (searchDown_spec db cur epoch k e HL H63 Hk Hr Hce); [lia|lia| |].
      * change (2 ^ Z.of_nat 65) with (2 * two64). unfold two64. lia.
      * exists (Number cur). split; [lia|done].
    + apply Bool.not_true_iff_false in Hc. rewrite contains_spec in Hc. lia.
Qed.

(** ** Entering eras *)

(** The state of the chain: the current era is the head of a chain of eras, the next one may
    have been prepared, and no later one has. *)
Record era_inv (st : EraChain) (cur : Era) : Prop := {
  inv_cur : currentEra (ec_eraInfo st) = Some cur;
  inv_linked : linked (ec_db st) cur;
  inv_next : ∀ e, ReadEra (ec_db st) (Number cur + 1) = Some e → follows cur e ∧ To e < MaxUint64;
  inv_later : ∀ k, is_u64 k → Number cur + 1 < k → ReadEra (ec_db st) k = None
}.

Lemma linked_number_le db cur : linked db cur → Number cur ≤ To cur.
Proof.
  intros HL. pose proof (linked_wf _ _ HL) as ([Hn0 _] & _). pose proof (linked_cur _ _ HL) as Hc.
  enough (∀ d : nat, Z.of_nat d ≤ Number cur → ∀ e, ReadEra db (Z.of_nat d) = Some e →
            Z.of_nat d ≤ To e) as H.
  { specialize (H (Z.to_nat (Number cur)) ltac:(lia) cur). rewrite Z2Nat.id in H by lia. auto. }
  induction d as [|d IH]; intros Hd e He.
  - destruct (linked_at db cur 0 HL) as (e' & He' & _ & _ & _ & _ & [? _]); [lia|].
    change (ReadEra db 0 = Some e) in He. rewrite He in He'. simplify_eq. simpl. lia.
  - destruct (linked_next _ _ HL (Z.of_nat d)) as (e1 & e2 & H1 & H2 & _ & Hf & Hle & _); [lia|].
    replace (Z.of_nat d + 1) with (Z.of_nat (S d)) in H2 by lia. rewrite He in H2. simplify_eq.
    specialize (IH ltac:(lia) e1 H1). lia.
Qed.

(** Only the entries up to the current era matter. *)
Lemma linked_ext db db' cur :
  (∀ k, 0 ≤ k ≤ Number cur → ReadEra db' k = ReadEra db k) → linked db cur → linked db' cur.
Proof.
  intros E HL. pose proof (linked_wf _ _ HL) as ([Hn0 _] & _).
  destruct HL as [Hc Hw Hz Hn]. split; [|done| |].
  - by rewrite E by lia.
  - by rewrite E by lia.
  - intros k Hk. rewrite !E by lia. auto.
Qed.

Lemma linked_extend db cur e :
  linked db cur → follows cur e → ReadEra db (Number e) = Some e → linked db e.
Proof.
  intros HL (Hn & Hf & Hle & Hwf) He. split; [done|done|apply (linked_zero _ _ HL)|].
  intros k Hk. destruct (decide (k = Number cur)) as [->|].
  - exists cur, e. rewrite <- Hn. split_and!; [apply (linked_cur _ _ HL)|done|]. done.
  - apply (linked_next _ _ HL). lia.
Qed.

Lemma inv_number st cur : era_inv st cur → To cur < MaxUint64 → is_u64 (Number cur + 1).
Proof.
  intros HI Hmax. pose proof (linked_number_le _ _ (inv_linked _ _ HI)).
  destruct (linked_wf _ _ (inv_linked _ _ HI)) as ([Hn0 _] & _).
  unfold is_u64, MaxUint64, two64 in *. lia.
Qed.

(** Writing the record of the next era, as both ways of creating an era do. *)
Lemma inv_prepare st cur e :
  era_inv st cur → follows cur e → To e < MaxUint64 →
  era_inv (set_db (WriteEra (ec_db st) (Number e) e) st) cur.
Proof.
  intros [Hc HL Hnx Hlt] (Hn & Hf & Hle & Hwf) Hmax. pose proof Hwf as ([_ Hn1] & _).
  destruct (linked_wf _ _ HL) as ([Hn0 _] & _). unfold is_u64 in *. split; simpl.
  - done.
  - eapply linked_ext; [|exact HL]. intros k Hk. apply ReadEra_WriteEra_ne; unfold is_u64; lia.
  - intros e'. rewrite <- Hn, ReadEra_WriteEra by done. by intros [= <-].
  - intros k [? ?] Hlk. rewrite ReadEra_WriteEra_ne by (unfold is_u64; lia). apply Hlt; lia.
Qed.

(** Moving on to the next era once its record is there. *)
Lemma inv_enter st cur e :
  era_inv st cur → ReadEra (ec_db st) (Number cur + 1) = Some e →
  era_inv (SetNewEraInfo e (set_db (WriteCurrentEra (ec_db st) (Number e)) st)) e.
Proof.
  intros [Hc HL Hnx Hlt] He. destruct (Hnx e He) as [Hfo Hmax].
  pose proof Hfo as (Hn & Hf & Hle & Hwf).
  assert (linked (ec_db st) e) as HLe by (apply (linked_extend _ cur); [done..|by rewrite Hn]).
  pose proof (linked_number_le _ _ HLe). destruct Hwf as ([Hn0 _] & _). split; simpl.
  - done.
  - eapply linked_ext; [|exact HLe]. intros. apply ReadEra_WriteCurrentEra.
  - intros e'. rewrite ReadEra_WriteCurrentEra, Hlt; [done| |lia].
    unfold is_u64, MaxUint64, two64 in *. lia.
  - intros k Hk Hlk. rewrite ReadEra_WriteCurrentEra. apply Hlt; [done|lia].
Qed.

Section era_proofs.
Context (uint64_out_of_range : float64 → Z).
Context (GetActiveValidatorsCount : EraChain → Z → go_res Z).
Context (GetHeaderByHash : Hash → option (Hash * Hash)).

Lemma NextEra_spec c ei cur root h n :
  currentEra ei = Some cur → era_wf cur → 0 ≤ Number cur < MaxUint64 →
  let len := EstimateEraLength uint64_out_of_range c n (Number cur + 1) in
  1 ≤ len → To cur + len < two64 →
  ∃ e, NextEra uint64_out_of_range c ei root h n = Ok e ∧ follows cur e ∧ To e = To cur + len ∧
    Root e = root ∧ BlockHash e = h.
Proof.
  intros Hc (HN & HF & HT) Hn len Hl Ht. unfold MaxUint64, is_u64, two64 in *.
  unfold NextEra, ei_Number, ToEpoch. rewrite Hc. simpl.
  unfold u64, two64. rewrite !(Z.mod_small (_ + 1)) by lia. fold len.
  rewrite Z.mod_small by lia. eexists. split; [done|].
  unfold follows, era_wf, is_u64, two64. simpl. split_and!; done || lia.
Qed.

(** The next era can be created: the validators are counted and its last epoch is in range. *)
Definition can_extend (st : EraChain) (cur : Era) : Prop :=
  ∀ slot, ∃ n, GetActiveValidatorsCount st slot = Ok n ∧
    let len := EstimateEraLength uint64_out_of_range (ec_config st) n (Number cur + 1) in
    1 ≤ len ∧ To cur + len < MaxUint64.

(** Entering the next era, prepared or not, extends the chain by one era. *)
Lemma EnterNextEra_spec st cur root h :
  era_inv st cur → To cur < MaxUint64 → can_extend st cur →
  (∃ slot, SlotOfEpochStart (ec_slots st) (u64 (To cur + 1 - TransitionPeriod (ec_config st))) = Ok slot) →
  ∃ e st', EnterNextEra uint64_out_of_range GetActiveValidatorsCount (To cur + 1) root h st =
      (Ok (Some e), st') ∧
    era_inv st' e ∧ follows cur e ∧ To e < MaxUint64 ∧
    ec_config st' = ec_config st ∧ ec_slots st' = ec_slots st.
Proof.
  intros HI Hmax Hcount [slot Hslot]. pose proof (inv_cur _ _ HI) as Hc.
  pose proof (linked_wf _ _ (inv_linked _ _ HI)) as Hwf. pose proof (inv_number _ _ HI Hmax) as Hu.
  unfold EnterNextEra, ei_Number. unfold mbind, stM_bind, getS, liftR. rewrite Hc. simpl.
  rewrite (u64_small _ Hu). destruct (ReadEra (ec_db st) (Number cur + 1)) as [e|] eqn:He.
  - destruct (inv_next _ _ HI e He). do 2 eexists. split; [reflexivity|].
    split_and!; [by eapply inv_enter|done..].
  - rewrite Hslot. destruct (Hcount slot) as (n & -> & Hl & Ht). unfold MaxUint64, two64, is_u64 in *.
    destruct (NextEra_spec (ec_config st) (ec_eraInfo st) cur root h n Hc) as
      (e & -> & Hfo & Hte & _ & _);
      [done|destruct Hwf as ([? ?] & _); unfold MaxUint64, two64 in *; lia|done|unfold two64 in *; lia|].
    do 2 eexists. split; [reflexivity|]. split_and!; [|done|unfold MaxUint64; lia|done|done].
    pose proof (inv_prepare st cur e HI Hfo ltac:(unfold MaxUint64; lia)) as HI'.
    apply (inv_enter _ cur e HI'). destruct Hfo as (Hn & _ & _ & Hwfe). simpl.
    rewrite <- Hn. by apply ReadEra_WriteEra.
Qed.

(** Preparing the next era leaves the current one in place. *)
Lemma StartTransitionPeriod_spec st cur cp root h :
  era_inv st cur → To cur < MaxUint64 → can_extend st cur →
  ∃ r st', StartTransitionPeriod uint64_out_of_range GetActiveValidatorsCount cp root h st = (r, st') ∧
    (r = Ok tt ∨ ∃ e, r = Err e) ∧ era_inv st' cur.
Proof.
  intros HI Hmax Hcount. pose proof (inv_cur _ _ HI) as Hc.
  pose proof (linked_wf _ _ (inv_linked _ _ HI)) as Hwf. pose proof (inv_number _ _ HI Hmax) as Hu.
  unfold StartTransitionPeriod, ei_Number. unfold mbind, stM_bind, getS, liftR. rewrite Hc. simpl.
  rewrite (u64_small _ Hu). destruct (ReadEra (ec_db st) (Number cur + 1)) as [e|] eqn:He.
  { do 2 eexists. split; [reflexivity|]. split; [by left|done]. }
  destruct (_ <? 0); [do 2 eexists; split; [reflexivity|]; split; [by left|done]|].
  destruct (SlotOfEpochStart _ _) as [slot|e| |] eqn:Hslot.
  2:{ do 2 eexists. split; [reflexivity|]. split; [right; by exists e|done]. }
  2-3: unfold SlotOfEpochStart in Hslot; by destruct (two64 <=? _).
  destruct (Hcount slot) as (n & -> & Hl & Ht). unfold MaxUint64, two64, is_u64 in *.
  destruct (NextEra_spec (ec_config st) (ec_eraInfo st) cur root h n Hc) as
    (e & -> & Hfo & Hte & _ & _);
    [done|destruct Hwf as ([? ?] & _); unfold MaxUint64, two64 in *; lia|done|unfold two64 in *; lia|].
  do 2 eexists. split; [reflexivity|]. split; [by left|].
  apply inv_prepare; [done|done|unfold MaxUint64; lia].
Qed.

Section handle.
Context (fin : Z).
Hypothesis count_total : ∀ st slot, ∃ n, GetActiveValidatorsCount st slot = Ok n.

(** What the configuration has to satisfy for the eras up to epoch [fin]: eras have a fixed,
    positive length and the slots and epochs are in range. *)
Record fits (st : EraChain) (cur : Era) : Prop := {
  fits_start : StartEpochsPerEra (ec_config st) ≤ Number cur + 1;
  fits_len : 1 ≤ EpochsPerEra (ec_config st);
  fits_to : Z.max fin (To cur) + EpochsPerEra (ec_config st) < MaxUint64;
  fits_period : 0 ≤ TransitionPeriod (ec_config st) ≤ To cur + 1;
  fits_slots : 0 ≤ si_SlotsPerEpoch (ec_slots st) ∧ si_SlotsPerEpoch (ec_slots st) * fin < two64
}.

Lemma fits_can_extend st cur : fits st cur → can_extend st cur.
Proof.
  intros [Hs Hl Ht _ _] slot. destruct (count_total st slot) as [n Hn]. exists n.
  split; [done|]. unfold EstimateEraLength.
  destruct (Z.leb_spec (StartEpochsPerEra (ec_config st)) (Number cur + 1)); lia.
Qed.

Lemma enterEras_spec root h fuel : ∀ st cur,
  era_inv st cur → To cur < MaxUint64 → (To cur < fin → fits st cur) →
  Z.max 0 (fin - To cur) < Z.of_nat fuel →
  ∃ st' cur', enterEras uint64_out_of_range GetActiveValidatorsCount fuel fin (To cur) root h st =
      (Ok tt, st') ∧ era_inv st' cur' ∧
    (To cur < fin → From cur' ≤ fin ≤ To cur') ∧ (fin ≤ To cur → cur' = cur).
Proof.
  induction fuel as [|fuel IH]; intros st cur HI Hmax Hfit Hf; [lia|].
  destruct (linked_wf _ _ (inv_linked _ _ HI)) as (_ & _ & [Ht0 _]).
  cbn [enterEras]. rewrite (u64_small (To cur + 1)) by (unfold is_u64, MaxUint64, two64 in *; lia).
  destruct (Z.leb_spec (To cur + 1) fin) as [Hle|Hgt].
  2:{ do 2 eexists. split; [reflexivity|]. split_and!; [done|lia|done]. }
  specialize (Hfit ltac:(lia)). pose proof (fits_can_extend _ _ Hfit) as Hext.
  pose proof Hfit as [Hs Hl Ht [Hp0 Hp] [Hn0 Hslots]].
  destruct (EnterNextEra_spec st cur root h HI Hmax Hext) as
    (e & st1 & Heq & HI1 & (Hn & Hfr & Hfe & _) & Hmax1 & Hcfg & Hsl).
  { unfold SlotOfEpochStart. rewrite u64_small by (unfold is_u64, MaxUint64, two64 in *; lia).
    destruct (Z.leb_spec two64 (si_SlotsPerEpoch (ec_slots st) *
      (To cur + 1 - TransitionPeriod (ec_config st)))); [nia|by eexists]. }
  unfold mbind, stM_bind. rewrite Heq.
  destruct (IH st1 e HI1 Hmax1) as (st2 & cur' & -> & HI2 & Hlt & Hge).
  - intros He. split; rewrite ?Hcfg, ?Hsl; lia.
  - lia.
  - exists st2, cur'. split_and!; [done|done|intros _|lia].
    destruct (Z.lt_ge_cases (To e) fin); [auto|]. rewrite Hge by lia. lia.
Qed.

Lemma HandleEra_spec st cur cp root h :
  fin = cp_FinEpoch cp → GetHeaderByHash (cp_Spine cp) = Some (root, h) →
  era_inv st cur → 0 ≤ fin → 0 ≤ StartEpochsPerEra (ec_config st) → fits st cur →
  ∃ st' cur', HandleEra uint64_out_of_range GetActiveValidatorsCount GetHeaderByHash cp st =
      (Ok tt, st') ∧ era_inv st' cur' ∧
    (To cur < fin → From cur' ≤ fin ≤ To cur') ∧ (fin ≤ To cur → cur' = cur).
Proof.
  intros Hfin Hh HI Hf0 Hs0 Hfit. pose proof Hfit as [_ Hl Ht _ _].
  assert (To cur < MaxUint64) as Hmax by lia.
  destruct (linked_wf _ _ (inv_linked _ _ HI)) as (_ & _ & [Ht0 _]).
  unfold HandleEra. rewrite Hh, <- Hfin. unfold mbind, stM_bind, getS, liftR, ToEpoch.
  rewrite (inv_cur _ _ HI). cbn -[enterEras StartTransitionPeriod].
  rewrite (u64_small (To cur + 1)) by (unfold is_u64, MaxUint64, two64 in *; lia).
  destruct (Z.leb_spec (To cur + 1) fin) as [Hle|Hgt].
  - apply enterEras_spec; auto. lia.
  - destruct (_ && _).
    + destruct (StartTransitionPeriod_spec st cur cp root h HI Hmax (fits_can_extend _ _ Hfit)) as
        (r & st' & Heq & Hr & HI'). unfold ignore. rewrite Heq.
      exists st', cur. destruct Hr as [->|[e ->]]; split_and!; done || lia.
    + exists st, cur. split_and!; done || lia.
Qed.
End handle.

End era_proofs.

(** ** The contract *)

(** on a store whose eras are linked, [EpochToEra] returns an era of the store that
    contains the epoch, for every epoch up to the end of the current era; the binary search
    neither runs out of steps nor reads a missing era. *)
Theorem epoch_to_era_finds st cur epoch :
  currentEra (ec_eraInfo st) = Some cur → linked (ec_db st) cur → Number cur < 2 ^ 63 →
  0 ≤ epoch ≤ To cur →
  ∃ e, EpochToEra epoch st = (Ok (Some e), st) ∧ IsContainsEpoch e epoch = true ∧
    ReadEra (ec_db st) (Number e) = Some e ∧ Number e ≤ Number cur.
Proof.
  intros Hc HL H63 He. destruct (findEpoch_spec _ _ epoch HL H63 He) as (e & Hf & Hce & k & Hk & Hr).
  exists e. unfold EpochToEra, mbind, stM_bind, getS, liftR. rewrite Hc. cbn. rewrite Hf.
  rewrite contains_spec. destruct (linked_at _ _ k HL Hk) as (e' & Hr' & Hn & _).
  rewrite Hr in Hr'. injection Hr' as <-. subst k. split_and!; [done|lia|lia|done|lia].
Qed.

(** C33: entering the next era, prepared in advance or created now, keeps the eras linked and
    makes the current era the one that follows. *)
Theorem enter_next_era_links oor count st cur root h :
  era_inv st cur → To cur < MaxUint64 → can_extend oor count st cur →
  (∃ slot, SlotOfEpochStart (ec_slots st)
     (u64 (To cur + 1 - TransitionPeriod (ec_config st))) = Ok slot) →
  ∃ e st', EnterNextEra oor count (To cur + 1) root h st = (Ok (Some e), st') ∧
    era_inv st' e ∧ follows cur e.
Proof.
  intros HI Hmax Hx Hs.
  destruct (EnterNextEra_spec oor count st cur root h HI Hmax Hx Hs) as (e & st' & H & HI' & Hf & _).
  by exists e, st'.
Qed.

(** C32: When eras have a fixed length, handling a checkpoint whose spine is known ends in a
    linked state: the current era contains the finalized epoch when the epoch was beyond the
    era, and is the same era otherwise. The conditions: the number of the next era has reached
    [StartEpochsPerEra], from where on eras have the positive length [EpochsPerEra] of the
    configuration; the epochs and slots up to the checkpoint are 64-bit numbers; the transition
    period is not longer than the chain; and the count of the active validators is known for every
    slot. *)
Theorem handle_era_reaches oor count hdr st cur cp root h :
  (∀ st slot, ∃ n, count st slot = Ok n) → hdr (cp_Spine cp) = Some (root, h) →
  era_inv st cur → 0 ≤ cp_FinEpoch cp → 0 ≤ StartEpochsPerEra (ec_config st) →
  fits (cp_FinEpoch cp) st cur →
  ∃ st' cur', HandleEra oor count hdr cp st = (Ok tt, st') ∧ era_inv st' cur' ∧
    (To cur < cp_FinEpoch cp → From cur' ≤ cp_FinEpoch cp ≤ To cur') ∧
    (cp_FinEpoch cp ≤ To cur → cur' = cur).
Proof. intros Hc Hh HI Hf Hs Hfit. eapply HandleEra_spec; eauto. Qed.

(** Three eras of ten epochs, the current one in the middle and the last one prepared. *)
Definition toy_config : ChainConfig :=
  MkChainConfig 1 4 32 10 2 None 4 None 100 0 0 0 0 0 0 0 0.
Definition toy_era (n : Z) : Era := MkEra n (10 * n) (10 * n + 9) (zero_fixed 32) (zero_fixed 32).
Definition toy_db : KV :=
  WriteEra (WriteEra (WriteEra ∅ 0 (toy_era 0)) 1 (toy_era 1)) 2 (toy_era 2).
Definition toy_chain : EraChain :=
  MkEraChain toy_config (MkSlotInfo 0 4 32) (NewEraInfo (toy_era 1)) toy_db.

Lemma toy_wf n : 0 ≤ n ≤ 2 → era_wf (toy_era n).
Proof. unfold era_wf, is_u64, two64. simpl. lia. Qed.

Lemma toy_read n : 0 ≤ n ≤ 2 → ReadEra toy_db n = Some (toy_era n).
Proof.
  intros Hn. assert (n = 0 ∨ n = 1 ∨ n = 2) as [->|[->| ->]] by lia; vm_compute; reflexivity.
Qed.

Lemma toy_later k : is_u64 k → 2 < k → ReadEra toy_db k = None.
Proof.
  intros Hk H2. unfold toy_db.
  by rewrite !ReadEra_WriteEra_ne by (done || lia).
Qed.

Lemma toy_follows n : 0 ≤ n < 2 → follows (toy_era n) (toy_era (n + 1)).
Proof.
  intros Hn. split; [done|]. split; [simpl; lia|]. split; [simpl; lia|]. apply toy_wf. lia.
Qed.

Lemma toy_linked : linked toy_db (toy_era 1).
Proof.
  split; [by apply toy_read|by apply toy_wf| |].
  - exists (toy_era 0). split_and!; [by apply toy_read|done|done|done|by apply toy_wf].
  - intros k Hk. simpl in Hk. exists (toy_era k), (toy_era (k + 1)).
    rewrite !toy_read by lia. split_and!; [done|done|]. apply toy_follows. lia.
Qed.

Lemma toy_inv : era_inv toy_chain (toy_era 1).
Proof.
  split; [done|apply toy_linked| |].
  - intros e. change (Number (toy_era 1) + 1) with 2. simpl. rewrite toy_read by lia.
    intros [= <-]. split; [by apply (toy_follows 1)|done].
  - intros k Hk Hlt. apply toy_later; [done|simpl in Hlt; lia].
Qed.


Lemma enter_next_era_links_witness :
  ∃ e st', EnterNextEra (λ _, 0) (λ _ _, Ok 5) 20 (zero_fixed 32) (zero_fixed 32) toy_chain =
      (Ok (Some e), st') ∧ era_inv st' e ∧ follows (toy_era 1) e.
Proof.
  apply (enter_next_era_links (λ _, 0) (λ _ _, Ok 5) toy_chain (toy_era 1)).
  - apply toy_inv.
  - done.
  - intros slot. exists 5. done.
  - exists 576. done.
Defined.

Lemma handle_era_reaches_witness :
  ∃ st' cur', HandleEra (λ _, 0) (λ _ _, Ok 5) (λ _, Some (zero_fixed 32, zero_fixed 32))
      (MkCheckpoint 60 45 (zero_fixed 32) (zero_fixed 32)) toy_chain = (Ok tt, st') ∧
    era_inv st' cur' ∧ (19 < 45 → From cur' ≤ 45 ≤ To cur') ∧ (45 ≤ 19 → cur' = toy_era 1).
Proof.
  apply (handle_era_reaches (λ _, 0) (λ _ _, Ok 5) (λ _, Some (zero_fixed 32, zero_fixed 32))
    toy_chain (toy_era 1) (MkCheckpoint 60 45 (zero_fixed 32) (zero_fixed 32))
    (zero_fixed 32) (zero_fixed 32)).
  - intros. by exists 5.
  - done.
  - apply toy_inv.
  - done.
  - done.
  - split; vm_compute; intuition congruence.
Defined.
