(* ===== verification/GoMap.v ===== *)
(** * Go maps, sorting and bit lists

    What the modelled packages use of the language and of its libraries around maps: the
    iteration order of a map, which Go leaves open ([MapRange]), [bytes.Compare],
    [sort.Slice] on addresses, [sort.Search], [copy], and the bit lists of the third-party package
    go-bitfield ([Bitlist]), which are an interface with the documented laws. [ssz_bitlist] is
    a concrete implementation of that interface. *)

From Stdlib Require Import ZArith Lia Strings.Byte Sorting.Sorted Sorting.Permutation.
From stdpp Require Import base tactics option numbers list gmap strings sorting.
From S2P Require Import Prelude Common.

(** ** Iteration over a map *)

(** The entries of a map in the order in which a [for range] loop visits them. *)
Class MapRange := {
  range : ∀ {K} `{Countable K} {A}, gmap K A → list (K * A);
  range_perm : ∀ {K} `{Countable K} {A} (m : gmap K A), range m ≡ₚ map_to_list m
}.

(** One possible order. *)
Definition list_range : MapRange := {|
  range := λ K _ _ A m, map_to_list m;
  range_perm := λ K _ _ A m, reflexivity _
|}.

(** ** copy *)

(** The contents of [dst] after [copy(dst, src)]. *)
Definition go_copy {A} (dst src : list A) : list A :=
  take (length dst) src ++ drop (length src) dst.

Lemma length_go_copy {A} (dst src : list A) : length (go_copy dst src) = length dst.
Proof. unfold go_copy. rewrite length_app, length_take, length_drop. lia. Qed.

Lemma go_copy_same {A} (dst src : list A) : length dst = length src → go_copy dst src = src.
Proof.
  intros H. unfold go_copy. rewrite H, firstn_all, <- H, drop_all. apply app_nil_r.
Qed.

(** ** Binary search *)

(** The loop of [sort.Search] over the indices from [i] to [j]; it halves the distance, so the
    distance is enough fuel. *)
Fixpoint search_loop (fuel i j : nat) (f : nat → bool) : nat :=
  match fuel with
  | O => i
  | S fuel' =>
      if Nat.ltb i j then
        let h := ((i + j) / 2)%nat in
        if f h then search_loop fuel' i h f else search_loop fuel' (S h) j f
      else i
  end.
Definition Search (n : nat) (f : nat → bool) : nat := search_loop n 0 n f.

Lemma search_loop_spec n f : (∀ i k, (i ≤ k < n)%nat → f i = true → f k = true) →
  ∀ fuel i j, (i ≤ j ≤ n)%nat → (j - i ≤ fuel)%nat →
  (∀ k, (k < i)%nat → f k = false) → (∀ k, (j ≤ k < n)%nat → f k = true) →
  let r := search_loop fuel i j f in
  (r ≤ n)%nat ∧ (∀ k, (k < r)%nat → f k = false) ∧ (∀ k, (r ≤ k < n)%nat → f k = true).
Proof.
  intros Hmono. induction fuel as [|fuel IH]; intros i j Hij Hf Hlow Hhigh; cbn [search_loop].
  { replace j with i in Hhigh by lia. split_and!; auto with lia. }
  destruct (Nat.ltb_spec i j); [|replace j with i in Hhigh by lia; split_and!; auto with lia].
  assert (i ≤ (i + j) / 2 < j)%nat as Hh by (split; [apply Nat.div_le_lower_bound|apply Nat.Div0.div_lt_upper_bound]; lia).
  destruct (f ((i + j) / 2)%nat) eqn:Hm.
  - apply IH; [lia|lia|done|]. intros k Hk. eapply (Hmono ((i + j) / 2)%nat); [lia|done].
  - apply IH; [lia|lia| |done]. intros k Hk. destruct (f k) eqn:Hk'; [|done].
    rewrite (Hmono k ((i + j) / 2)%nat) in Hm; [done|lia|done].
Qed.

Lemma Search_spec n f : (∀ i k, (i ≤ k < n)%nat → f i = true → f k = true) →
  (Search n f ≤ n)%nat ∧ (∀ k, (k < Search n f)%nat → f k = false) ∧
  (∀ k, (Search n f ≤ k < n)%nat → f k = true).
Proof. intros Hmono. apply search_loop_spec; auto with lia. Qed.

(** ** Order of addresses *)

(** [bytes.Compare] *)
Fixpoint bytes_compare (a b : bytes) : comparison :=
  match a, b with
  | [], [] => Eq
  | [], _ :: _ => Lt
  | _ :: _, [] => Gt
  | x :: a', y :: b' =>
      match Z.compare (b2z x) (b2z y) with
      | Eq => bytes_compare a' b'
      | c => c
      end
  end.

(** On slices of the same length it is the order of the numbers they spell. *)
Lemma bytes_compare_val a : ∀ b, length a = length b →
  bytes_compare a b = Z.compare (be_val a) (be_val b).
Proof.
  induction a as [|x a IH]; intros [|y b] Hl; simplify_eq/=; [done|].
  rewrite !be_val_cons. replace (length b) with (length a) by done.
  pose proof (be_val_range a). pose proof (be_val_range b) as Hb. rewrite <- Hl in Hb.
  pose proof (pow256_pos (length a)).
  destruct (Z.compare_spec (b2z x) (b2z y)) as [E|L|G].
  - rewrite IH, E by done. symmetry. apply Zcompare_plus_compat.
  - symmetry. apply Z.compare_lt_iff. nia.
  - symmetry. apply Z.compare_gt_iff. nia.
Qed.

Definition addr_val (a : Address) : Z := be_val (fb a).

Definition addr_le (a b : Address) : Prop := bytes_compare (fb a) (fb b) ≠ Gt.

#[export] Instance addr_le_dec a b : Decision (addr_le a b).
Proof. unfold addr_le. apply _. Defined.

Lemma addr_le_val a b : addr_le a b ↔ addr_val a ≤ addr_val b.
Proof.
  unfold addr_le, addr_val. rewrite bytes_compare_val by by rewrite !length_fb.
  done.
Qed.

Lemma addr_val_inj a b : addr_val a = addr_val b → a = b.
Proof. intros H. apply fixed_eq, be_val_inj; [by rewrite !length_fb|done]. Qed.

#[export] Instance addr_le_trans : Transitive addr_le.
Proof. intros a b c. rewrite !addr_le_val. lia. Qed.

#[export] Instance addr_le_total : Total addr_le.
Proof. intros a b. rewrite !addr_le_val. lia. Qed.

#[export] Instance addr_le_antisymm : AntiSymm (=) addr_le.
Proof. intros a b. rewrite !addr_le_val. intros. apply addr_val_inj. lia. Qed.

(** [sort.Slice] with [bytes.Compare]: on distinct addresses the result does not depend on
    the algorithm. *)
Definition sort_addrs (l : list Address) : list Address := merge_sort addr_le l.

Lemma sort_addrs_perm l : sort_addrs l ≡ₚ l.
Proof. apply merge_sort_Permutation. Qed.

Lemma sort_addrs_unique l k : l ≡ₚ k → sort_addrs l = sort_addrs k.
Proof.
  intros H. unfold sort_addrs. apply (StronglySorted_unique addr_le).
  - apply (StronglySorted_merge_sort addr_le).
  - apply (StronglySorted_merge_sort addr_le).
  - by rewrite !merge_sort_Permutation.
Qed.

(** ** Bit lists *)

(** The operations of [bitfield.Bitlist] that the program calls, and what it relies on: a new
    list has no bit set, setting a bit sets that bit and no other and keeps the size, and
    [BitIndices] lists the set bits in increasing order. *)
Class Bitlist := {
  NewBitlist : nat → bytes;
  SetBitAt : bytes → nat → bytes;
  BitIndices : bytes → list nat;
  BitLen : bytes → nat;
  BitAt : bytes → nat → bool;
  BitIndices_spec : ∀ b, BitIndices b = List.filter (BitAt b) (seq 0 (BitLen b));
  NewBitlist_len : ∀ n, BitLen (NewBitlist n) = n;
  NewBitlist_bits : ∀ n i, BitAt (NewBitlist n) i = false;
  NewBitlist_bytes : ∀ n, length (NewBitlist n) = S (n / 8);
  SetBitAt_len : ∀ b i, (i < BitLen b)%nat → BitLen (SetBitAt b i) = BitLen b;
  SetBitAt_bits : ∀ b i j, (i < BitLen b)%nat → BitAt (SetBitAt b i) j = (Nat.eqb i j || BitAt b j);
  SetBitAt_bytes : ∀ b i, length (SetBitAt b i) = length b;
  BitIndices_empty : BitIndices [] = []
}.

(** A bit list in the SSZ layout: bit [i] is bit [i mod 8] of byte [i / 8], and the highest
    bit that is set in the last byte marks the length. *)
Definition ssz_len (b : bytes) : nat :=
  let v := le_val b in
  if (0 <? v) && (8 * (Z.of_nat (length b) - 1) <=? Z.log2 v) then Z.to_nat (Z.log2 v) else 0.
Definition ssz_at (b : bytes) (i : nat) : bool :=
  Nat.ltb i (ssz_len b) && Z.testbit (le_val b) (Z.of_nat i).
Definition ssz_new (n : nat) : bytes := le_bytes (S (n / 8)) (2 ^ Z.of_nat n).
Definition ssz_set (b : bytes) (i : nat) : bytes :=
  if Nat.ltb i (ssz_len b) then le_bytes (length b) (Z.lor (le_val b) (2 ^ Z.of_nat i)) else b.

Lemma ssz_new_val n : le_val (ssz_new n) = 2 ^ Z.of_nat n.
Proof.
  unfold ssz_new. rewrite le_val_le_bytes. apply Z.mod_small.
  split; [apply Z.pow_nonneg; lia|]. rewrite pow256. apply Z.pow_lt_mono_r; [lia|lia|].
  pose proof (Nat.div_mod n 8 ltac:(lia)). pose proof (Nat.mod_upper_bound n 8 ltac:(lia)). lia.
Qed.

Lemma ssz_new_len n : ssz_len (ssz_new n) = n.
Proof.
  unfold ssz_len. rewrite ssz_new_val, Z.log2_pow2 by lia. unfold ssz_new.
  rewrite length_le_bytes. pose proof (Z.pow_pos_nonneg 2 (Z.of_nat n) ltac:(lia) ltac:(lia)).
  destruct (Z.ltb_spec 0 (2 ^ Z.of_nat n)); [|lia].
  destruct (Z.leb_spec (8 * (Z.of_nat (S (n / 8)) - 1)) (Z.of_nat n)); simpl; [lia|].
  pose proof (Nat.div_mod n 8 ltac:(lia)). lia.
Qed.

Lemma ssz_len_pos b i : (i < ssz_len b)%nat →
  0 < le_val b ∧ Z.of_nat i < Z.log2 (le_val b) ∧ 8 * (Z.of_nat (length b) - 1) ≤ Z.log2 (le_val b) ∧
  Z.of_nat (ssz_len b) = Z.log2 (le_val b).
Proof.
  unfold ssz_len. destruct (Z.ltb_spec 0 (le_val b)); simpl; [|lia].
  destruct (Z.leb_spec (8 * (Z.of_nat (length b) - 1)) (Z.log2 (le_val b))); simpl; lia.
Qed.

Lemma ssz_set_val b i : (i < ssz_len b)%nat →
  le_val (ssz_set b i) = Z.lor (le_val b) (2 ^ Z.of_nat i) ∧
  Z.log2 (Z.lor (le_val b) (2 ^ Z.of_nat i)) = Z.log2 (le_val b) ∧
  0 < Z.lor (le_val b) (2 ^ Z.of_nat i).
Proof.
  intros Hi. destruct (ssz_len_pos b i Hi) as (Hp & Hl & _ & _). unfold ssz_set.
  destruct (Nat.ltb_spec i (ssz_len b)); [|lia].
  pose proof (Z.pow_pos_nonneg 2 (Z.of_nat i) ltac:(lia) ltac:(lia)).
  assert (0 ≤ Z.lor (le_val b) (2 ^ Z.of_nat i)) as Hge0 by (apply Z.lor_nonneg; lia).
  assert (Z.log2 (Z.lor (le_val b) (2 ^ Z.of_nat i)) = Z.log2 (le_val b)) as Hlog.
  { rewrite Z.log2_lor, Z.log2_pow2 by lia. lia. }
  assert (0 < Z.lor (le_val b) (2 ^ Z.of_nat i)) as Hpos.
  { destruct (Z.eq_dec (Z.lor (le_val b) (2 ^ Z.of_nat i)) 0) as [E|]; [|lia].
    apply Z.lor_eq_0_iff in E. lia. }
  split_and!; [|done|done]. rewrite le_val_le_bytes. apply Z.mod_small. split; [done|].
  pose proof (le_val_range b) as [_ Hr]. rewrite pow256 in *.
  apply Z.log2_lt_pow2; [done|]. rewrite Hlog. by apply Z.log2_lt_pow2.
Qed.

Lemma ssz_set_bytes b i : length (ssz_set b i) = length b.
Proof. unfold ssz_set. destruct (Nat.ltb i (ssz_len b)); [apply length_le_bytes|done]. Qed.

Lemma ssz_set_len b i : (i < ssz_len b)%nat → ssz_len (ssz_set b i) = ssz_len b.
Proof.
  intros Hi. destruct (ssz_set_val b i Hi) as (Hv & Hlog & Hpos).
  destruct (ssz_len_pos b i Hi) as (Hp & _).
  unfold ssz_len. rewrite Hv, Hlog, ssz_set_bytes.
  destruct (Z.ltb_spec 0 (le_val b)), (Z.ltb_spec 0 (Z.lor (le_val b) (2 ^ Z.of_nat i))); try lia.
Qed.

Lemma ssz_set_bits b i j : (i < ssz_len b)%nat →
  ssz_at (ssz_set b i) j = (Nat.eqb i j || ssz_at b j).
Proof.
  intros Hi. unfold ssz_at. rewrite ssz_set_len by done.
  destruct (ssz_set_val b i Hi) as (-> & _). rewrite Z.lor_spec, Z.pow2_bits_eqb by lia.
  destruct (Nat.eqb_spec i j) as [->|Hne].
  - rewrite Z.eqb_refl, orb_true_r, andb_true_r. simpl. by apply Nat.ltb_lt.
  - destruct (Z.eqb_spec (Z.of_nat i) (Z.of_nat j)); [lia|]. by rewrite orb_false_r.
Qed.

Lemma ssz_new_bits n i : ssz_at (ssz_new n) i = false.
Proof.
  unfold ssz_at. rewrite ssz_new_len, ssz_new_val, Z.pow2_bits_eqb by lia.
  destruct (Nat.ltb_spec i n); [|done]. simpl. apply Z.eqb_neq. lia.
Qed.

Definition ssz_bitlist : Bitlist := {|
  NewBitlist := ssz_new;
  SetBitAt := ssz_set;
  BitIndices := λ b, List.filter (ssz_at b) (seq 0 (ssz_len b));
  BitLen := ssz_len;
  BitAt := ssz_at;
  BitIndices_spec := λ b, eq_refl;
  NewBitlist_len := ssz_new_len;
  NewBitlist_bits := ssz_new_bits;
  NewBitlist_bytes := λ n, length_le_bytes _ _;
  SetBitAt_len := ssz_set_len;
  SetBitAt_bits := ssz_set_bits;
  SetBitAt_bytes := ssz_set_bytes;
  BitIndices_empty := eq_refl
|}.
