(* ===== verification/DelegRules.v ===== *)
(** * Delegated stake

    [DelegatingStakeRules] and [DelegatingStakeData]
    (src/validator/operation/delegated_stake_rules.go and delegated_stake_data.go): who shares
    the profit and the stake of a validator and who may start its exit and its withdrawals,
    for the trial period and after it.

    The rules are kept as parallel slices: the addresses in increasing order, a percentage of
    the profit and of the stake for each, and two bit lists over the addresses. Rules decoded
    from a transaction may have slices of different lengths; the accessors then panic, and so
    do the definitions here. JSON is not modelled.

    The theorems: rules built from maps of shares and lists of addresses give these maps and
    sets back, whatever order the maps are iterated in; the encodings of rules and of delegated
    stake data are decoded to the value they encode. *)

From Stdlib Require Import ZArith Lia Strings.Byte.
From stdpp Require Import base tactics option numbers list gmap strings sorting.
From S2P Require Import Prelude Common RlpEnc RlpDec GoMap.

(** ** Errors of package operation *)

Definition ErrBadDataLen : error := Error "operation.ErrBadDataLen".
Definition ErrNoPubKey : error := Error "operation.ErrNoPubKey".
Definition ErrNoInitTxHash : error := Error "operation.ErrNoInitTxHash".
Definition ErrNoCreatorAddress : error := Error "operation.ErrNoCreatorAddress".
Definition ErrNoWithdrawalAddress : error := Error "operation.ErrNoWithdrawalAddress".
Definition ErrNoSignature : error := Error "operation.ErrNoSignature".
Definition ErrNoAmount : error := Error "operation.ErrNoAmount".
Definition ErrNoBalance : error := Error "operation.ErrNoBalance".
Definition ErrNoRules : error := Error "operation.ErrNoRules".
Definition ErrRawDataShort : error := Error "operation.ErrRawDataShort".
Definition ErrPrefixNotValid : error := Error "operation.ErrPrefixNotValid".
Definition ErrOpNotValid : error := Error "operation.ErrOpNotValid".
Definition ErrOpBadVersion : error := Error "operation.ErrOpBadVersion".
Definition ErrNoExitRoles : error := Error "operation.ErrNoExitRoles".
Definition ErrNoWithdrawalRoles : error := Error "operation.ErrNoWithdrawalRoles".
Definition ErrBadProfitShare : error := Error "operation.ErrBadProfitShare".
Definition ErrBadStakeShare : error := Error "operation.ErrBadStakeShare".
Definition ErrDelegateForkRequire : error := Error "operation.ErrDelegateForkRequire".
Definition ErrInvalidDepositSig : error := Error "operation.ErrInvalidDepositSig".
Definition errDelegatingStakeNilValBin : error := Error "operation.errDelegatingStakeNilValBin".

(** ** Rules *)

Record DelegatingStakeRules := MkRules {
  addrs : list Address;
  profitShare : bytes;
  stakeShare : bytes;
  exit : bytes;
  withdrawal : bytes
}.

(** The zero value: every slice is nil. *)
Definition empty_rules : DelegatingStakeRules := MkRules [] [] [] [] [].

#[export] Instance rules_eq_dec : EqDecision DelegatingStakeRules.
Proof. solve_decision. Defined.

(** What [init] collects about an address. *)
Record adrInfo := MkAdrInfo {
  Profit : Z;
  Stake : Z;
  Exit_ : bool;
  Withdraw : bool
}.

Definition new_adrInfo : adrInfo := MkAdrInfo 0 0 false false.
Definition set_Profit (v : Z) (i : adrInfo) : adrInfo := MkAdrInfo v (Stake i) (Exit_ i) (Withdraw i).
Definition set_Stake (v : Z) (i : adrInfo) : adrInfo := MkAdrInfo (Profit i) v (Exit_ i) (Withdraw i).
Definition set_Exit (i : adrInfo) : adrInfo := MkAdrInfo (Profit i) (Stake i) true (Withdraw i).
Definition set_Withdraw (i : adrInfo) : adrInfo := MkAdrInfo (Profit i) (Stake i) (Exit_ i) true.

Abbreviation addrMap := (gmap Address adrInfo).

(** [if _, ok := addrMap[a]; !ok { addrMap[a] = new(adrInfo) }] and an assignment to a field. *)
Definition update_info (f : adrInfo → adrInfo) (a : Address) (m : addrMap) : addrMap :=
  <[a := f (default new_adrInfo (m !! a))]> m.

Definition collect_shares (set : Z → adrInfo → adrInfo) (l : list (Address * Z)) (m : addrMap) : addrMap :=
  foldl (λ m '(a, v), if v =? 0 then m else update_info (set v) a m) m l.

Definition collect_roles (set : adrInfo → adrInfo) (l : list Address) (m : addrMap) : addrMap :=
  foldl (λ m a, update_info set a m) m l.

(** A loop over [addrs] that sets entry [i] of a slice or bit [i] of a bit list. *)
Definition role_bits `{!Bitlist} (get : adrInfo → bool) (m : addrMap) (l : list Address) : bytes :=
  foldl (λ b '(i, a), if get (default new_adrInfo (m !! a)) then SetBitAt b i else b)
    (NewBitlist (length l)) (zip (seq 0 (length l)) l).

Definition share_bytes (get : adrInfo → Z) (m : addrMap) (l : list Address) : bytes :=
  map (λ a, z2b (get (default new_adrInfo (m !! a)))) l.

(** [NewDelegatingStakeRules]; [init] never fails. The shares are [uint8] values. *)
Definition NewDelegatingStakeRules `{!Bitlist, !MapRange} (ps ss : gmap Address Z)
    (ex wd : list Address) : DelegatingStakeRules :=
  let m := collect_shares set_Profit (range ps) ∅ in
  let m := collect_shares set_Stake (range ss) m in
  let m := collect_roles set_Exit ex m in
  let m := collect_roles set_Withdraw wd m in
  let l := sort_addrs (range m).*1 in
  MkRules l (share_bytes Profit m l) (share_bytes Stake m l)
    (role_bits Exit_ m l) (role_bits Withdraw m l).

(** The accessors. [s[i]] panics when the slice is shorter than [addrs]. *)
Fixpoint share_map (l : list Address) (shares : bytes) (m : gmap Address Z) : go_res (gmap Address Z) :=
  match l with
  | [] => Ok m
  | a :: l' =>
      match shares with
      | [] => Panic
      | v :: shares' => share_map l' shares' (if 0 <? b2z v then <[a := b2z v]> m else m)
      end
  end.

Definition ProfitShare (dr : DelegatingStakeRules) : go_res (gmap Address Z) :=
  share_map (addrs dr) (profitShare dr) ∅.
Definition StakeShare (dr : DelegatingStakeRules) : go_res (gmap Address Z) :=
  share_map (addrs dr) (stakeShare dr) ∅.

Fixpoint at_indices {A} (l : list A) (ixs : list nat) : go_res (list A) :=
  match ixs with
  | [] => Ok []
  | ix :: ixs' => a ← go_index l ix; r ← at_indices l ixs'; Ok (a :: r)
  end.

Definition Exit `{!Bitlist} (dr : DelegatingStakeRules) : go_res (list Address) :=
  at_indices (addrs dr) (BitIndices (exit dr)).
Definition Withdrawal `{!Bitlist} (dr : DelegatingStakeRules) : go_res (list Address) :=
  at_indices (addrs dr) (BitIndices (withdrawal dr)).

Definition total_prc (shares : bytes) : Z := foldl (λ acc v, u64 (acc + b2z v)) 0 shares.

Definition ValidateProfitShare (dr : DelegatingStakeRules) : go_res unit :=
  fail_if (negb (total_prc (profitShare dr) =? 100)) ErrBadProfitShare.
Definition ValidateStakeShare (dr : DelegatingStakeRules) : go_res unit :=
  fail_if (negb (total_prc (stakeShare dr) =? 100)) ErrBadStakeShare.
Definition validateExit `{!Bitlist} (dr : DelegatingStakeRules) : go_res unit :=
  l ← Exit dr; fail_if (Nat.eqb (length l) 0) ErrNoExitRoles.
Definition validateWithdrawal `{!Bitlist} (dr : DelegatingStakeRules) : go_res unit :=
  l ← Withdrawal dr; fail_if (Nat.eqb (length l) 0) ErrNoWithdrawalRoles.

Definition Validate `{!Bitlist} (dr : DelegatingStakeRules) : go_res unit :=
  _ ← ValidateProfitShare dr;
  _ ← ValidateStakeShare dr;
  _ ← validateExit dr;
  validateWithdrawal dr.

(** [Copy]: the shares are copied entry by entry, which panics on a slice that is too short. *)
Definition copy_bits `{!Bitlist} (n : nat) (b : bytes) : bytes :=
  if Nat.eqb (length b) 0 then [] else go_copy (NewBitlist n) b.

Definition rules_Copy `{!Bitlist} (dr : DelegatingStakeRules) : go_res DelegatingStakeRules :=
  let adrCount := length (addrs dr) in
  if Nat.ltb (length (profitShare dr)) adrCount || Nat.ltb (length (stakeShare dr)) adrCount
  then Panic
  else Ok (MkRules (addrs dr) (take adrCount (profitShare dr)) (take adrCount (stakeShare dr))
             (copy_bits adrCount (exit dr)) (copy_bits adrCount (withdrawal dr))).

(** [rlpDelegatingStakeRules]; a [[]uint8] is a byte string in RLP. *)
Definition rules_type : rtype := TStruct [TSlice (TArray 20); TBytes; TBytes; TBytes; TBytes].
Definition rules_value (dr : DelegatingStakeRules) : rvalue :=
  VStruct [VSlice (map (λ a : Address, VArray (fb a)) (addrs dr)); VBytes (profitShare dr);
           VBytes (stakeShare dr); VBytes (exit dr); VBytes (withdrawal dr)].

Definition address_of_value (v : rvalue) : Address :=
  match v with VArray b => BytesToAddress b | _ => zero_fixed 20 end.

Definition rules_of_value (v : rvalue) : DelegatingStakeRules :=
  match v with
  | VStruct [VSlice a; VBytes p; VBytes s; VBytes e; VBytes w] =>
      MkRules (map address_of_value a) p s e w
  | _ => empty_rules
  end.

Definition rules_MarshalBinary (dr : DelegatingStakeRules) : go_res bytes :=
  EncodeToBytes rules_type (rules_value dr).
Definition rules_UnmarshalBinary (b : bytes) : go_res DelegatingStakeRules :=
  v ← DecodeBytes rules_type b; Ok (rules_of_value v).

(** ** Delegated stake data *)

Record DelegatingStakeData := MkStakeData {
  Rules : DelegatingStakeRules;
  TrialPeriod : Z;
  TrialRules : DelegatingStakeRules
}.

#[export] Instance stake_data_eq_dec : EqDecision DelegatingStakeData.
Proof. solve_decision. Defined.

(** [fmt.Errorf("...: %w", err)] *)
Definition wrap_err {A} (ctx : string) (r : go_res A) : go_res A :=
  match r with Err e => Err (Wrapped ctx e) | _ => r end.

Definition validate_if (cond : go_res bool) (check : go_res unit) : go_res unit :=
  cond ≫= λ b : bool, if b then check else Ok tt.

(** [trialPeriod > 0 && len(m) > 0] *)
Definition trial_has (trialPeriod : Z) (m : go_res (gmap Address Z)) : go_res bool :=
  if 0 <? trialPeriod then m ← m; Ok (Nat.ltb 0 (size m)) else Ok false.

Definition NewDelegatingStakeData `{!Bitlist} (rules : option DelegatingStakeRules) (trialPeriod : Z)
    (trialRules : option DelegatingStakeRules) : go_res DelegatingStakeData :=
  _ ← match rules with
      | None => Ok tt
      | Some r => wrap_err "delegate rules err" (Validate r)
      end;
  let tr := default empty_rules trialRules in
  _ ← validate_if (trial_has trialPeriod (ProfitShare tr))
        (wrap_err "delegate trial rules err" (ValidateProfitShare tr));
  _ ← validate_if (trial_has trialPeriod (StakeShare tr))
        (wrap_err "delegate trial rules err" (ValidateStakeShare tr));
  Ok (MkStakeData (default empty_rules rules) trialPeriod tr).

Definition stake_type : rtype := TStruct [TBytes; TUint 64; TBytes].

(** [MarshalBinary]: a length in four bytes and an RLP list; a nil pointer is four zeros. *)
Definition stake_MarshalBinary (dsd : option DelegatingStakeData) : go_res bytes :=
  match dsd with
  | None => Ok (replicate Uint32Size x00)
  | Some d =>
      bRules ← rules_MarshalBinary (Rules d);
      bTRules ← rules_MarshalBinary (TrialRules d);
      enc ← EncodeToBytes stake_type (VStruct [VBytes bRules; VUint (TrialPeriod d); VBytes bTRules]);
      Ok (PutUint32BE (Z.of_nat (length enc)) ++ enc)
  end.

Definition minDsdLen : nat :=
  match stake_MarshalBinary (Some (MkStakeData empty_rules 0 empty_rules)) with
  | Ok b => length b
  | _ => 0
  end.

Definition stake_UnmarshalBinary (b : bytes) : go_res DelegatingStakeData :=
  if Nat.ltb (length b) minDsdLen then
    if decide (b = replicate Uint32Size x00) then Err errDelegatingStakeNilValBin
    else Err ErrBadDataLen
  else
    head ← go_slice 0 Uint32Size b;
    dataLen ← Uint32BE head;
    if Z.of_nat (length b) <? Z.of_nat Uint32Size + dataLen then Err ErrBadDataLen
    else
      data ← go_slice Uint32Size (Uint32Size + Z.to_nat dataLen) b;
      v ← DecodeBytes stake_type data;
      match v with
      | VStruct [VBytes r; VUint tp; VBytes tr] =>
          rules ← rules_UnmarshalBinary r;
          trialRules ← rules_UnmarshalBinary tr;
          Ok (MkStakeData rules tp trialRules)
      | _ => Panic
      end.

(** [NewDelegatingStakeDataFromBinary]: the four zeros are a nil pointer. *)
Definition NewDelegatingStakeDataFromBinary (bin : bytes) : go_res (option DelegatingStakeData) :=
  match stake_UnmarshalBinary bin with
  | Err e => if decide (e = errDelegatingStakeNilValBin) then Ok None else Err e
  | Ok d => Ok (Some d)
  | Panic => Panic
  | NoFuel => NoFuel
  end.

Definition stake_Copy `{!Bitlist} (dsd : option DelegatingStakeData) : go_res (option DelegatingStakeData) :=
  match dsd with
  | None => Ok None
  | Some d =>
      rules ← rules_Copy (Rules d);
      tRules ← rules_Copy (TrialRules d);
      Ok (Some (MkStakeData rules (TrialPeriod d) tRules))
  end.

Definition stake_IsEmpty `{!Bitlist} (dsd : option DelegatingStakeData) : go_res bool :=
  match dsd with
  | None => Ok true
  | Some d => l ← Withdrawal (Rules d); Ok (Nat.eqb (length l) 0)
  end.

(** ** Collecting the information on addresses *)

Lemma collect_shares_lookup set l m a :
  NoDup l.*1 →
  collect_shares set l m !! a =
  match (list_to_map l : gmap Address Z) !! a with
  | Some v => if v =? 0 then m !! a else Some (set v (default new_adrInfo (m !! a)))
  | None => m !! a
  end.
Proof.
  unfold collect_shares. revert m. induction l as [|[b v] l IH]; intros m Hnd; [done|].
  cbn [fmap list_fmap fst] in Hnd. apply NoDup_cons in Hnd as [Hb Hnd]. cbn [foldl list_to_map foldr].
  rewrite IH by done. cbn [fst snd]. destruct (decide (a = b)) as [->|Hne].
  - rewrite lookup_insert_eq, not_elem_of_list_to_map_1 by done.
    destruct (v =? 0); [done|]. unfold update_info. by rewrite lookup_insert_eq.
  - rewrite lookup_insert_ne by done. unfold update_info.
    destruct (v =? 0); [done|]. by rewrite lookup_insert_ne.
Qed.

Lemma range_NoDup `{!MapRange} {A} (m : gmap Address A) : NoDup (range m).*1.
Proof. rewrite range_perm. apply NoDup_fst_map_to_list. Qed.

Lemma range_list_to_map `{!MapRange} (m : gmap Address Z) : list_to_map (range m) = m.
Proof.
  rewrite (list_to_map_proper (range m) (map_to_list m)); [apply list_to_map_to_list| |apply range_perm].
  apply range_NoDup.
Qed.

Lemma collect_roles_lookup set l m a :
  (∀ i, set (set i) = set i) →
  collect_roles set l m !! a =
  if decide (a ∈ l) then Some (set (default new_adrInfo (m !! a))) else m !! a.
Proof.
  intros Hset. unfold collect_roles. revert m. induction l as [|b l IH]; intros m; [done|].
  cbn [foldl]. rewrite IH. unfold update_info. destruct (decide (a = b)) as [->|Hne].
  - rewrite lookup_insert_eq. simpl. rewrite (decide_True (P := b ∈ b :: l)) by set_solver.
    destruct (decide (b ∈ l)); [by rewrite Hset|done].
  - rewrite lookup_insert_ne by done.
    destruct (decide (a ∈ l)), (decide (a ∈ b :: l)); [done|set_solver|set_solver|done].
Qed.

(** ** Reading the slices back *)

Lemma share_map_map (f : Address → byte) l : ∀ m, NoDup l →
  ∃ M, share_map l (map f l) m = Ok M ∧
    ∀ a, M !! a = if decide (a ∈ l ∧ 0 < b2z (f a)) then Some (b2z (f a)) else m !! a.
Proof.
  induction l as [|b l IH]; intros m Hnd; cbn [share_map map].
  - exists m. split; [done|]. intros a. by rewrite decide_False by set_solver.
  - apply NoDup_cons in Hnd as [Hb Hnd].
    destruct (IH (if 0 <? b2z (f b) then <[b:=b2z (f b)]> m else m) Hnd) as (M & HM & Hl).
    exists M. split; [done|]. intros a. rewrite Hl. destruct (decide (a = b)) as [->|Hne].
    + rewrite decide_False by tauto. destruct (Z.ltb_spec 0 (b2z (f b))).
      * rewrite lookup_insert_eq, decide_True by set_solver. done.
      * rewrite decide_False by lia. done.
    + replace ((if 0 <? b2z (f b) then <[b:=b2z (f b)]> m else m) !! a) with (m !! a).
      2:{ destruct (0 <? b2z (f b)); [by rewrite lookup_insert_ne|done]. }
      destruct (decide (a ∈ l ∧ 0 < b2z (f a))).
      * rewrite decide_True by set_solver. done.
      * rewrite decide_False by set_solver. done.
Qed.

Lemma role_bits_go `{!Bitlist} (get : adrInfo → bool) (m : addrMap) (l : list Address) : ∀ k b,
  (k + length l ≤ BitLen b)%nat →
  let b' := foldl (λ b '(i, a), if get (default new_adrInfo (m !! a)) then SetBitAt b i else b)
              b (zip (seq k (length l)) l) in
  BitLen b' = BitLen b ∧ length b' = length b ∧
  ∀ j, BitAt b' j = (BitAt b j || Nat.leb k j &&
    match l !! (j - k)%nat with Some a => get (default new_adrInfo (m !! a)) | None => false end).
Proof.
  induction l as [|a l IH]; intros k b Hk; simpl.
  - split_and!; [done|done|]. intros j. by rewrite andb_false_r, orb_false_r.
  - set (b1 := if get (default new_adrInfo (m !! a)) then SetBitAt b k else b).
    simpl in Hk. assert (BitLen b1 = BitLen b ∧ length b1 = length b ∧
      ∀ j, BitAt b1 j = (BitAt b j || Nat.eqb k j && get (default new_adrInfo (m !! a)))) as (Hl & Hlb & Hb).
    { unfold b1. destruct (get (default new_adrInfo (m !! a))).
      - split_and!; [apply SetBitAt_len; lia|apply SetBitAt_bytes|]. intros j.
        rewrite SetBitAt_bits by lia. rewrite andb_true_r. apply orb_comm.
      - split_and!; [done|done|]. intros j. by rewrite andb_false_r, orb_false_r. }
    destruct (IH (S k) b1) as (Hl' & Hlb' & Hb'); [lia|]. rewrite Hl', Hlb'. split_and!; [done|done|].
    intros j. rewrite Hb', Hb, <- orb_assoc. f_equal.
    destruct (Nat.eqb_spec k j) as [->|Hne].
    + rewrite Nat.leb_refl, Nat.sub_diag. destruct (Nat.leb_spec (S j) j); [lia|].
      simpl. by rewrite orb_false_r.
    + cbn [andb orb]. destruct (Nat.leb_spec (S k) j), (Nat.leb_spec k j); try lia.
      by replace (j - k)%nat with (S (j - S k)) by lia.
Qed.

(** A bit list filled from a list of addresses: its set bits are the addresses that have the
    role. *)
Lemma role_bits_spec `{!Bitlist} get m l :
  BitLen (role_bits get m l) = length l ∧ length (role_bits get m l) = S (length l / 8) ∧
  ∀ j, BitAt (role_bits get m l) j =
    match l !! j with Some a => get (default new_adrInfo (m !! a)) | None => false end.
Proof.
  unfold role_bits. destruct (role_bits_go get m l 0 (NewBitlist (length l))) as (Hl & Hlb & Hb).
  { by rewrite NewBitlist_len. }
  rewrite NewBitlist_len in Hl. rewrite NewBitlist_bytes in Hlb. split_and!; [done|done|].
  intros j. rewrite Hb, NewBitlist_bits. simpl. by rewrite Nat.sub_0_r.
Qed.

Lemma at_indices_filter {A} (p : A → bool) (P : nat → bool) (l pre : list A) :
  (∀ j a, l !! j = Some a → P (length pre + j)%nat = p a) →
  at_indices (pre ++ l) (List.filter P (seq (length pre) (length l))) = Ok (List.filter p l).
Proof.
  revert pre. induction l as [|a l IH]; intros pre HP; [done|]. simpl.
  pose proof (HP 0%nat a eq_refl) as Ha. rewrite Nat.add_0_r in Ha. rewrite Ha.
  specialize (IH (pre ++ [a])). rewrite <- app_assoc, length_app in IH.
  replace (length pre + length [a])%nat with (S (length pre)) in IH by (simpl; lia).
  assert (at_indices (pre ++ a :: l) (List.filter P (seq (S (length pre)) (length l))) =
          Ok (List.filter p l)) as HE.
  { apply IH. intros j b Hj. rewrite <- (HP (S j) b Hj). f_equal. lia. }
  destruct (p a); [|done]. simpl. unfold go_index. rewrite list_lookup_middle by done. simpl.
  by rewrite HE.
Qed.

Section rules_init.
Context `{!Bitlist}.
Context (ps ss : gmap Address Z) (ex wd : list Address).

(** What is known about an address, and whether anything is. *)
Definition info_of (a : Address) : adrInfo :=
  MkAdrInfo (default 0 (ps !! a)) (default 0 (ss !! a)) (bool_decide (a ∈ ex)) (bool_decide (a ∈ wd)).
Definition involved (a : Address) : Prop :=
  default 0 (ps !! a) ≠ 0 ∨ default 0 (ss !! a) ≠ 0 ∨ a ∈ ex ∨ a ∈ wd.

Definition collected `{!MapRange} : addrMap :=
  collect_roles set_Withdraw wd (collect_roles set_Exit ex
    (collect_shares set_Stake (range ss) (collect_shares set_Profit (range ps) ∅))).

Lemma collected_lookup `{!MapRange} a :
  (involved a → collected !! a = Some (info_of a)) ∧ (¬ involved a → collected !! a = None).
Proof.
  unfold collected, involved, info_of. rewrite !collect_roles_lookup by done.
  rewrite !collect_shares_lookup, !range_list_to_map, lookup_empty by apply range_NoDup.
  destruct (ps !! a) as [p|], (ss !! a) as [s|]; simpl;
    try destruct (Z.eqb_spec p 0); try destruct (Z.eqb_spec s 0); subst; simpl;
    destruct (decide (a ∈ ex)), (decide (a ∈ wd));
    rewrite ?(bool_decide_eq_true_2 (a ∈ ex)), ?(bool_decide_eq_false_2 (a ∈ ex)),
      ?(bool_decide_eq_true_2 (a ∈ wd)), ?(bool_decide_eq_false_2 (a ∈ wd)) by done;
    split; intros Hinv; try done; exfalso; tauto.
Qed.

Lemma collected_default `{!MapRange} a : default new_adrInfo (collected !! a) = info_of a.
Proof.
  destruct (collected_lookup a) as [H1 H2].
  destruct (decide (default 0 (ps !! a) ≠ 0 ∨ default 0 (ss !! a) ≠ 0 ∨ a ∈ ex ∨ a ∈ wd)) as [Hi|Hi].
  - by rewrite H1.
  - rewrite H2 by done. unfold info_of.
    rewrite !bool_decide_eq_false_2 by tauto. simpl.
    destruct (decide (default 0 (ps !! a) = 0)) as [->|]; [|tauto].
    destruct (decide (default 0 (ss !! a) = 0)) as [->|]; [done|tauto].
Qed.

Lemma collected_unique (r1 r2 : MapRange) : @collected r1 = @collected r2.
Proof.
  apply map_eq. intros a. destruct (@collected_lookup r1 a) as [H1 H2], (@collected_lookup r2 a) as [G1 G2].
  destruct (decide (default 0 (ps !! a) ≠ 0 ∨ default 0 (ss !! a) ≠ 0 ∨ a ∈ ex ∨ a ∈ wd)) as [Hi|Hi].
  - by rewrite H1, G1.
  - by rewrite H2, G2.
Qed.

Definition sorted_addrs `{!MapRange} : list Address := sort_addrs (range collected).*1.

Lemma sorted_addrs_NoDup `{!MapRange} : NoDup sorted_addrs.
Proof. unfold sorted_addrs. rewrite sort_addrs_perm. apply range_NoDup. Qed.

Lemma elem_of_sorted_addrs `{!MapRange} a : a ∈ sorted_addrs ↔ involved a.
Proof.
  unfold sorted_addrs. rewrite sort_addrs_perm, range_perm.
  rewrite list_elem_of_fmap. destruct (collected_lookup a) as [H1 H2]. split.
  - intros ([b i] & -> & Hi%elem_of_map_to_list). cbn in *.
    destruct (decide (default 0 (ps !! b) ≠ 0 ∨ default 0 (ss !! b) ≠ 0 ∨ b ∈ ex ∨ b ∈ wd)); [done|].
    by rewrite H2 in Hi.
  - intros Hi. exists (a, info_of a). split; [done|]. apply elem_of_map_to_list. auto.
Qed.


Lemma NewRules_eq `{!MapRange} :
  NewDelegatingStakeRules ps ss ex wd =
  MkRules sorted_addrs (map (λ a, z2b (Profit (info_of a))) sorted_addrs)
    (map (λ a, z2b (Stake (info_of a))) sorted_addrs)
    (role_bits Exit_ collected sorted_addrs) (role_bits Withdraw collected sorted_addrs).
Proof.
  unfold NewDelegatingStakeRules. fold collected. fold sorted_addrs. unfold share_bytes. f_equal.
  - apply map_ext. intros a. by rewrite collected_default.
  - apply map_ext. intros a. by rewrite collected_default.
Qed.

(** The shares read back from a slice. *)
Lemma shares_back `{!MapRange} (get : adrInfo → Z) (m : gmap Address Z) :
  (∀ a, get (info_of a) = default 0 (m !! a)) → map_Forall (λ _ v, 0 ≤ v < 256) m →
  (∀ a, default 0 (m !! a) ≠ 0 → involved a) →
  share_map sorted_addrs (map (λ a, z2b (get (info_of a))) sorted_addrs) ∅ =
  Ok (filter (λ '(_, v), v ≠ 0) m).
Proof.
  intros Hget Hm Hin.
  destruct (share_map_map (λ a, z2b (get (info_of a))) sorted_addrs ∅ sorted_addrs_NoDup) as (M & -> & HM).
  f_equal. apply map_eq. intros a. rewrite HM, lookup_empty, Hget, b2z_z2b.
  specialize (Hm a). specialize (Hin a). pose proof (elem_of_sorted_addrs a) as Hel.
  destruct (m !! a) as [v|] eqn:Hv; simpl in *.
  - specialize (Hm v eq_refl). rewrite Z.mod_small by lia.
    destruct (decide (v = 0)) as [->|].
    + rewrite decide_False by lia. symmetry. apply map_lookup_filter_None. right.
      intros v' Hv'. rewrite Hv in Hv'. injection Hv' as <-. tauto.
    + rewrite decide_True by (split; [tauto|lia]). symmetry. by apply map_lookup_filter_Some.
  - rewrite decide_False by (rewrite Z.mod_0_l; lia). symmetry.
    apply map_lookup_filter_None. by left.
Qed.

(** The addresses read back from a bit list. *)
Lemma roles_back `{!MapRange} (get : adrInfo → bool) (l : list Address) :
  (∀ a, get (info_of a) = bool_decide (a ∈ l)) → (∀ a, a ∈ l → involved a) →
  ∃ r, at_indices sorted_addrs (BitIndices (role_bits get collected sorted_addrs)) = Ok r ∧
    NoDup r ∧ ∀ a, a ∈ r ↔ a ∈ l.
Proof.
  intros Hget Hin. destruct (role_bits_spec get collected sorted_addrs) as (Hl & _ & Hb).
  rewrite BitIndices_spec, Hl.
  exists (List.filter (λ a, get (info_of a)) sorted_addrs). split_and!.
  - apply (at_indices_filter _ _ sorted_addrs []). intros j a Hj. simpl.
    by rewrite Hb, Hj, collected_default.
  - apply NoDup_ListNoDup, List.NoDup_filter, NoDup_ListNoDup, sorted_addrs_NoDup.
  - intros a. rewrite list_elem_of_In, List.filter_In, <- list_elem_of_In, elem_of_sorted_addrs, Hget,
      bool_decide_eq_true. specialize (Hin a). tauto.
Qed.

End rules_init.

(** ** Encodings *)

Lemma rules_value_typed dr : typed true rules_type (rules_value dr).
Proof.
  simpl. split; [|done]. induction (addrs dr) as [|a l IH]; simpl; [done|].
  split; [apply length_fb|done].
Qed.

Lemma rules_of_rules_value dr : rules_of_value (rules_value dr) = dr.
Proof.
  destruct dr as [l p s e w]. unfold rules_of_value, rules_value. simpl. f_equal.
  rewrite map_map. rewrite <- (map_id l) at 2. apply map_ext. intros a. apply BytesToFixed_fb.
Qed.

Lemma rules_roundtrip dr :
  Z.of_nat (vsize (rules_value dr)) < two64 →
  ∃ b, rules_MarshalBinary dr = Ok b ∧ rules_UnmarshalBinary b = Ok dr ∧
    (6 ≤ length b ≤ vsize (rules_value dr))%nat.
Proof.
  intros Hsz. destruct (Encode_Decode_size _ _ (rules_value_typed dr) Hsz) as (b & He & Hd & Hl & Hr).
  exists b. unfold rules_MarshalBinary, rules_UnmarshalBinary. rewrite He, Hd, Ok_bind.
  rewrite rules_of_rules_value. split_and!; [done|done| |done].
  by apply ref_struct_length_ge in Hr.
Qed.

(** The data is small enough for the four bytes that hold the length of its encoding. *)
Definition stake_fits (d : DelegatingStakeData) : Prop :=
  is_u64 (TrialPeriod d) ∧
  Z.of_nat (vsize (rules_value (Rules d)) + vsize (rules_value (TrialRules d))) + 40 < 2 ^ 32.

Lemma minDsdLen_20 : minDsdLen = 20%nat.
Proof. reflexivity. Qed.

(** An encoding: the length in four bytes, and at least sixteen bytes. *)
Lemma stake_Marshal_spec d :
  stake_fits d →
  ∃ enc, stake_MarshalBinary (Some d) = Ok (PutUint32BE (Z.of_nat (length enc)) ++ enc) ∧
    (16 ≤ length enc)%nat ∧ Z.of_nat (length enc) + 4 < 2 ^ 32 ∧
    ∃ r tr, DecodeBytes stake_type enc = Ok (VStruct [VBytes r; VUint (TrialPeriod d); VBytes tr]) ∧
      rules_UnmarshalBinary r = Ok (Rules d) ∧ rules_UnmarshalBinary tr = Ok (TrialRules d).
Proof.
  intros [[Htp0 Htp] Hsz].
  destruct (rules_roundtrip (Rules d)) as (r & Hmr & Hur & Hlr); [unfold two64; lia|].
  destruct (rules_roundtrip (TrialRules d)) as (tr & Hmt & Hut & Hlt); [unfold two64; lia|].
  set (v := VStruct [VBytes r; VUint (TrialPeriod d); VBytes tr]).
  destruct (Encode_Decode_size stake_type v) as (enc & He & Hd & Hl & Hr).
  { simpl. split_and!; try done. unfold good_bits. lia. }
  { simpl. unfold two64. lia. }
  exists enc. unfold stake_MarshalBinary. rewrite Hmr, Hmt. simpl. fold v. rewrite He. simpl.
  simpl in Hl. split_and!; [done| |lia|by exists r, tr].
  simpl in Hr. injection Hr as <-. unfold ref_list.
  repeat (rewrite length_app; simpl).
  pose proof (ref_string_length_ge r ltac:(lia)). pose proof (ref_string_length_ge tr ltac:(lia)).
  pose proof (ref_uint_ne (TrialPeriod d)). destruct (ref_uint (TrialPeriod d)); [done|]. simpl.
  match goal with |- context [ref_head ?a ?b ?c] => pose proof (ref_head_length_ge a b c) end.
  lia.
Qed.

Lemma stake_Unmarshal_app enc rest n :
  (16 ≤ length enc)%nat → Z.of_nat (length enc) < 2 ^ 32 → n = Z.of_nat (length enc) →
  stake_UnmarshalBinary (PutUint32BE n ++ enc ++ rest) =
  (v ← DecodeBytes stake_type enc;
   match v with
   | VStruct [VBytes r; VUint tp; VBytes tr] =>
       rules ← rules_UnmarshalBinary r;
       trialRules ← rules_UnmarshalBinary tr;
       Ok (MkStakeData rules tp trialRules)
   | _ => Panic
   end).
Proof.
  intros H16 H32 ->. unfold stake_UnmarshalBinary. rewrite minDsdLen_20.
  assert (length (PutUint32BE (Z.of_nat (length enc))) = 4%nat) as H4 by apply length_be_bytes.
  rewrite !length_app, H4. destruct (Nat.ltb_spec (4 + (length enc + length rest)) 20); [lia|].
  rewrite go_slice_prefix by done.
  rewrite Ok_bind. unfold Uint32BE.
  rewrite <- (app_nil_r (PutUint32BE _)) at 1.
  rewrite (UintBE_roundtrip 4) by (change (256 ^ Z.of_nat 4) with (2 ^ 32); lia).
  rewrite Ok_bind.
  destruct (Z.ltb_spec (Z.of_nat (4 + (length enc + length rest)))
              (Z.of_nat Uint32Size + Z.of_nat (length enc))); [unfold Uint32Size in *; lia|].
  rewrite (go_slice_app (PutUint32BE _) enc rest) by (rewrite ?H4; unfold Uint32Size; lia). done.
Qed.

Lemma stake_roundtrip d :
  stake_fits d →
  ∃ b, stake_MarshalBinary (Some d) = Ok b ∧ NewDelegatingStakeDataFromBinary b = Ok (Some d) ∧
    Z.of_nat (length b) < 2 ^ 32 ∧ (20 ≤ length b)%nat.
Proof.
  intros Hd. destruct (stake_Marshal_spec d Hd) as (enc & Hm & H16 & H32 & r & tr & Hdec & Hr & Htr).
  eexists. split; [exact Hm|]. unfold NewDelegatingStakeDataFromBinary.
  rewrite <- (app_nil_r enc) at 2. rewrite stake_Unmarshal_app by (done || lia).
  rewrite Hdec, Ok_bind, Hr, Ok_bind, Htr, Ok_bind. rewrite length_app. unfold PutUint32BE.
  rewrite length_be_bytes. destruct d. split_and!; [done|lia|lia].
Qed.

(** ** Well-formed rules *)

(** The slices have an entry per address, and the bit lists have a bit per address or are
    empty. Rules that [NewDelegatingStakeRules] builds are well formed; rules that come from a
    transaction need not be. *)
Definition bits_wf `{!Bitlist} (n : nat) (b : bytes) : Prop :=
  b = [] ∨ length b = S (n / 8) ∧ BitLen b = n.

Definition rules_wf `{!Bitlist} (dr : DelegatingStakeRules) : Prop :=
  length (profitShare dr) = length (addrs dr) ∧ length (stakeShare dr) = length (addrs dr) ∧
  bits_wf (length (addrs dr)) (exit dr) ∧ bits_wf (length (addrs dr)) (withdrawal dr).

Lemma copy_bits_wf `{!Bitlist} n b : bits_wf n b → copy_bits n b = b.
Proof.
  unfold copy_bits. intros [->|[Hl _]]; [done|]. destruct (Nat.eqb_spec (length b) 0); [lia|].
  apply go_copy_same. by rewrite NewBitlist_bytes.
Qed.

Lemma rules_Copy_wf `{!Bitlist} dr : rules_wf dr → rules_Copy dr = Ok dr.
Proof.
  destruct dr as [l p s e w]. intros (Hp & Hs & He & Hw). unfold rules_Copy. simpl in *.
  rewrite Hp, Hs, Nat.ltb_irrefl. simpl. rewrite !copy_bits_wf by done.
  rewrite <- Hp at 1. rewrite <- Hs at 1. by rewrite !firstn_all.
Qed.

Lemma empty_rules_wf `{!Bitlist} : rules_wf empty_rules.
Proof. split_and!; by try left. Qed.

Lemma NewRules_wf `{!Bitlist, !MapRange} ps ss ex wd :
  rules_wf (NewDelegatingStakeRules ps ss ex wd).
Proof.
  rewrite NewRules_eq. unfold rules_wf. simpl. rewrite !length_map. split_and!; [done|done| |];
    right; edestruct role_bits_spec as (? & ? & _); eauto.
Qed.

Lemma at_indices_total {A} (l : list A) ixs :
  Forall (λ i, (i < length l)%nat) ixs → ∃ r, at_indices l ixs = Ok r ∧ length r = length ixs.
Proof.
  induction 1 as [|i ixs Hi _ (r & Hr & Hl)]; [by exists []|]. simpl. unfold go_index.
  destruct (lookup_lt_is_Some_2 l i Hi) as [a ->]. simpl. rewrite Hr. simpl.
  exists (a :: r). simpl. by rewrite Hl.
Qed.

Lemma bits_wf_total `{!Bitlist} (l : list Address) b :
  bits_wf (length l) b → ∃ r, at_indices l (BitIndices b) = Ok r ∧ length r = length (BitIndices b).
Proof.
  intros Hb. apply at_indices_total. destruct Hb as [->|[_ Hl]].
  - rewrite BitIndices_empty. constructor.
  - rewrite BitIndices_spec, Hl. apply Forall_forall. intros i Hi.
    apply list_elem_of_In, List.filter_In in Hi as [Hi _]. apply List.in_seq in Hi. lia.
Qed.

Lemma share_map_total l : ∀ sh m, length sh = length l → ∃ M, share_map l sh m = Ok M.
Proof.
  induction l as [|a l IH]; intros [|v sh] m Hl; simplify_eq/=; [by exists m|]. by apply IH.
Qed.

(** ** The contract *)

(** rules built from maps of shares in percent and lists of addresses return these: the
    maps without their zero entries, and the addresses of the lists, each once. *)
Theorem rules_accessors `{!Bitlist, !MapRange} (ps ss : gmap Address Z) (ex wd : list Address) :
  map_Forall (λ _ v, 0 ≤ v < 256) ps → map_Forall (λ _ v, 0 ≤ v < 256) ss →
  let r := NewDelegatingStakeRules ps ss ex wd in
  ProfitShare r = Ok (filter (λ '(_, v), v ≠ 0) ps) ∧
  StakeShare r = Ok (filter (λ '(_, v), v ≠ 0) ss) ∧
  (∃ l, Exit r = Ok l ∧ NoDup l ∧ ∀ a, a ∈ l ↔ a ∈ ex) ∧
  (∃ l, Withdrawal r = Ok l ∧ NoDup l ∧ ∀ a, a ∈ l ↔ a ∈ wd).
Proof.
  intros Hps Hss r. unfold r. rewrite NewRules_eq.
  unfold ProfitShare, StakeShare, Exit, Withdrawal. cbn [addrs profitShare stakeShare exit withdrawal].
  split_and!.
  - apply shares_back; [done|done|]. by left.
  - apply shares_back; [done|done|]. intros a Ha. right. by left.
  - apply roles_back; [done|]. intros a Ha. do 2 right. by left.
  - apply roles_back; [done|]. intros a Ha. by do 3 right.
Qed.

(** the rules do not depend on the order in which Go iterates over the maps they are
    built from. *)
Theorem rules_deterministic `{!Bitlist} (r1 r2 : MapRange) ps ss ex wd :
  @NewDelegatingStakeRules _ r1 ps ss ex wd = @NewDelegatingStakeRules _ r2 ps ss ex wd.
Proof.
  rewrite (@NewRules_eq _ ps ss ex wd r1), (@NewRules_eq _ ps ss ex wd r2).
  rewrite (collected_unique ps ss ex wd r1 r2).
  enough (@sorted_addrs ps ss ex wd r1 = @sorted_addrs ps ss ex wd r2) as -> by done.
  unfold sorted_addrs. apply sort_addrs_unique.
  by rewrite !range_perm, (collected_unique ps ss ex wd r1 r2).
Qed.

(** delegated stake data is decoded from its encoding, and the encoding of a nil pointer
    is decoded to a nil pointer. *)
Theorem stake_data_roundtrip (dsd : option DelegatingStakeData) :
  (∀ d, dsd = Some d → stake_fits d) →
  ∃ b, stake_MarshalBinary dsd = Ok b ∧ NewDelegatingStakeDataFromBinary b = Ok dsd.
Proof.
  intros Hd. destruct dsd as [d|]; [|by eexists].
  destruct (stake_roundtrip d (Hd d eq_refl)) as (b & Hm & Hu & _). by exists b.
Qed.

Definition toy_addr (c : byte) : Address := BytesToAddress [c].
Definition toy_ps : gmap Address Z := <[toy_addr x07 := 70]> (<[toy_addr x03 := 30]> ∅).
Definition toy_rules : DelegatingStakeRules :=
  @NewDelegatingStakeRules ssz_bitlist list_range toy_ps (<[toy_addr x05 := 100]> ∅)
    [toy_addr x05; toy_addr x03] [toy_addr x07].


