(* ===== verification/ValOps.v ===== *)
(** * Validator operations

    The operations carried by validator transactions and their binary encoding
    (src/validator/operation: operation.go, deposit.go, exit.go, withdrawal.go and
    validator_sync.go). An encoded operation is the prefix 0xF4, a code and the body of the
    operation. Validator sync operations have two encodings: the first version is RLP in a
    versioned wrapper, and what does not decode as that is read as the fixed layout of the
    operations without a version.

    A body is read by slicing, and slicing beyond the end of the data is a panic: the
    definitions return [Panic] where the source does, for data that is too short.

    The theorems: an operation that its constructor accepts is decoded from its encoding
    (up to the sign of an amount and to the fields of a validator sync operation that are not part
    of it), and the lengths of
    data on which decoding panics. *)

From Stdlib Require Import ZArith Lia Strings.Byte.
From stdpp Require Import base tactics option numbers list gmap strings.
From S2P Require Import Prelude Common RlpEnc RlpDec GoMap DelegRules.

(** ** Codes *)

Definition DepositCode : Z := 0x01.
Definition ActivateCode : Z := 0x02.
Definition ExitCode : Z := 0x03.
Definition DeactivateCode : Z := 0x04.
Definition UpdateBalanceCode : Z := 0x05.
Definition WithdrawalCode : Z := 0x06.
Definition OpPrefix : Z := 0xF4.

(** [types.ValidatorSyncOp] (src/core/types/dag.go), a [uint64] with three named values. *)
Definition Activate : Z := 0.
Definition Deactivate : Z := 1.
Definition UpdateBalance : Z := 2.

(** [VersionValSyncOp], a [uint16]. *)
Definition NoVer : Z := 0.
Definition Ver1 : Z := 1.

(** ** Deposit *)

Record depositOperation := MkDeposit {
  d_pubkey : BlsPubKey;
  d_creator_address : Address;
  d_withdrawal_address : Address;
  d_signature : BlsSignature;
  d_delegate : option DelegatingStakeData
}.

(** [a || b] on calls that may panic. *)
Definition go_or (a b : go_res bool) : go_res bool := a ≫= λ x : bool, if x then Ok true else b.

Definition nonempty {A} (r : go_res (list A)) : go_res bool := l ← r; Ok (Nat.ltb 0 (length l)).

(** The validation of the trial rules: [TrialPeriod > 0 && len(shares) > 0 || len(roles) > 0]
    decides whether the rules are checked. *)
Definition validate_delegate `{!Bitlist} (d : DelegatingStakeData) : go_res unit :=
  _ ← Validate (Rules d);
  let tr := TrialRules d in
  _ ← validate_if (go_or (trial_has (TrialPeriod d) (ProfitShare tr)) (nonempty (Withdrawal tr)))
        (_ ← ValidateProfitShare tr; validateWithdrawal tr);
  validate_if (go_or (trial_has (TrialPeriod d) (StakeShare tr)) (nonempty (Exit tr)))
    (_ ← ValidateStakeShare tr; _ ← validateExit tr; ValidateProfitShare tr).

Definition deposit_init `{!Bitlist} (pubkey : BlsPubKey) (creator withdrawal : Address)
    (signature : BlsSignature) (delegate : option DelegatingStakeData) : go_res depositOperation :=
  if decide (pubkey = zero_fixed 48) then Err ErrNoPubKey
  else if decide (creator = zero_fixed 20) then Err ErrNoCreatorAddress
  else if decide (withdrawal = zero_fixed 20 ∧ delegate = None) then Err ErrNoWithdrawalAddress
  else if decide (signature = zero_fixed 96) then Err ErrNoSignature
  else
    match delegate with
    | None => Ok (MkDeposit pubkey creator withdrawal signature None)
    | Some _ =>
        cpy ← stake_Copy delegate;
        d ← deref cpy;
        _ ← validate_delegate d;
        Ok (MkDeposit pubkey creator withdrawal signature (Some d))
    end.

Definition deposit_minBinaryLen : nat := 48 + 20 + 20 + 96.

Definition deposit_UnmarshalBinary `{!Bitlist} (b : bytes) : go_res depositOperation :=
  if Nat.ltb (length b) deposit_minBinaryLen then Err ErrBadDataLen
  else
    pk ← go_slice 0 48 b;
    cr ← go_slice 48 68 b;
    wd ← go_slice 68 88 b;
    sg ← go_slice 88 184 b;
    let extendedData := drop 184 b in
    delegatingStake ←
      (if Nat.ltb 0 (length extendedData) then
         head ← go_slice 0 Uint32Size extendedData;
         delegateDataLen ← Uint32BE head;
         if Z.of_nat (length (drop Uint32Size extendedData)) <? delegateDataLen then Err ErrBadDataLen
         else
           data ← go_slice Uint32Size (Uint32Size + Z.to_nat delegateDataLen) extendedData;
           NewDelegatingStakeDataFromBinary data
       else Ok None);
    deposit_init (BytesToBlsPubKey pk) (BytesToAddress cr) (BytesToAddress wd) (BytesToBlsSig sg)
      delegatingStake.

Definition deposit_MarshalBinary (op : depositOperation) : go_res bytes :=
  delegateBin ← stake_MarshalBinary (d_delegate op);
  let bin := fb (d_pubkey op) ++ fb (d_creator_address op) ++ fb (d_withdrawal_address op) ++
             fb (d_signature op) in
  match d_delegate op with
  | None => Ok bin
  | Some _ => Ok (bin ++ PutUint32BE (Z.of_nat (length delegateBin)) ++ delegateBin)
  end.

(** [DelegatingStake] *)
Definition deposit_DelegatingStake `{!Bitlist} (op : depositOperation) :
    go_res (option DelegatingStakeData) := stake_Copy (d_delegate op).

(** ** Exit *)

Record exitOperation := MkExit {
  e_pubKey : BlsPubKey;
  e_creatorAddress : Address;
  e_exitAfterEpoch : option Z
}.

Definition minExitRequestLen : nat := 48 + 20.

Definition exit_init (pubKey : BlsPubKey) (creator : Address) (after : option Z) : go_res exitOperation :=
  if decide (pubKey = zero_fixed 48) then Err ErrNoPubKey
  else if decide (creator = zero_fixed 20) then Err ErrNoCreatorAddress
  else Ok (MkExit pubKey creator after).

Definition exit_MarshalBinary (op : exitOperation) : go_res bytes :=
  Ok (fb (e_pubKey op) ++ fb (e_creatorAddress op) ++
      match e_exitAfterEpoch op with Some epoch => PutUint64BE epoch | None => [] end).

Definition exit_UnmarshalBinary (data : bytes) : go_res exitOperation :=
  if Nat.ltb (length data) minExitRequestLen then Err ErrBadDataLen
  else
    pk ← go_slice 0 48 data;
    cr ← go_slice 48 68 data;
    if Nat.ltb minExitRequestLen (length data) then
      exitAfterEpoch ← Uint64BE (drop 68 data);
      exit_init (BytesToBlsPubKey pk) (BytesToAddress cr) (Some exitAfterEpoch)
    else exit_init (BytesToBlsPubKey pk) (BytesToAddress cr) None.

(** ** Withdrawal *)

Record withdrawalOperation := MkWithdrawal {
  w_creatorAddress : Address;
  w_amount : Z
}.

Definition withdrawal_init (creator : Address) (amount : option Z) : go_res withdrawalOperation :=
  if decide (creator = zero_fixed 20) then Err ErrNoCreatorAddress
  else
    match amount with
    | None => Err ErrNoAmount
    | Some a => Ok (MkWithdrawal creator a)
    end.

Definition withdrawal_MarshalBinary (op : withdrawalOperation) : go_res bytes :=
  Ok (fb (w_creatorAddress op) ++ big_bytes (w_amount op)).

(** There is no check of the length before the address is sliced off. *)
Definition withdrawal_UnmarshalBinary (data : bytes) : go_res withdrawalOperation :=
  cr ← go_slice 0 20 data;
  withdrawal_init (BytesToAddress cr) (Some (be_val (drop 20 data))).

(** ** Validator sync *)

Record validatorSyncOperation := MkSync {
  s_version : Z;
  s_opType : Z;
  s_initTxHash : Hash;
  s_procEpoch : Z;
  s_index : Z;
  s_creator : Address;
  s_amount : option Z;
  s_withdrawalAddress : option Address;
  s_balance : option Z
}.

Definition sync_init (version opType : Z) (initTxHash : Hash) (procEpoch index : Z) (creator : Address)
    (amount : option Z) (withdrawalAddress : option Address) (balance : option Z) :
    go_res validatorSyncOperation :=
  if decide (initTxHash = zero_fixed 32) then Err ErrNoInitTxHash
  else if decide (creator = zero_fixed 20) then Err ErrNoCreatorAddress
  else
    _ ← (if opType =? UpdateBalance then
           if decide (amount = None) then Err ErrNoAmount
           else if decide (withdrawalAddress = None) then Err ErrNoWithdrawalAddress
           else if (NoVer <? version) && bool_decide (balance = None) then Err ErrNoBalance
           else Ok tt
         else Ok tt);
    if opType =? UpdateBalance
    then Ok (MkSync version opType initTxHash procEpoch index creator amount withdrawalAddress balance)
    else Ok (MkSync version opType initTxHash procEpoch index creator amount None None).

(** [rlpVerWrapper] and [rlpValSyncOpVer1] *)
Definition wrapper_type : rtype := TStruct [TUint 16; TBytes].
Definition sync_type : rtype :=
  TStruct [TUint 64; TArray 32; TUint 64; TUint 64; TArray 20; TArray 20; TBigInt; TBigInt].

Definition wrapVersionedData (ver : Z) (bin : bytes) : go_res bytes :=
  EncodeToBytes wrapper_type (VStruct [VUint ver; VBytes bin]).

Definition unwrapVersionedData (bin : bytes) : go_res (Z * bytes) :=
  v ← DecodeBytes wrapper_type bin;
  match v with VStruct [VUint ver; VBytes data] => Ok (ver, data) | _ => Panic end.

(** The fields every encoding has take 76 bytes; the check asks for 68. *)
Definition valSyncOpDataMinLen : nat := 8 + 8 + 20 + 32.

Definition unmarshalBinaryLegacy (b : bytes) : go_res validatorSyncOperation :=
  if Nat.ltb (length b) valSyncOpDataMinLen then Err ErrBadDataLen
  else
    opTypeB ← go_slice 0 8 b; opType ← Uint64BE opTypeB;
    hashB ← go_slice 8 40 b;
    epochB ← go_slice 40 48 b; procEpoch ← Uint64BE epochB;
    indexB ← go_slice 48 56 b; index ← Uint64BE indexB;
    creatorB ← go_slice 56 76 b;
    '(amount, withdrawal) ←
      (if opType =? UpdateBalance then
         wB ← go_slice 76 96 b;
         Ok (Some (be_val (drop 96 b)), BytesToAddress wB)
       else Ok (None, zero_fixed 20));
    sync_init NoVer opType (BytesToHash hashB) procEpoch index (BytesToAddress creatorB) amount
      (Some withdrawal) None.

Definition marshalBinaryLegacy (op : validatorSyncOperation) : go_res bytes :=
  Ok (PutUint64BE (s_opType op) ++ fb (s_initTxHash op) ++ PutUint64BE (s_procEpoch op) ++
      PutUint64BE (s_index op) ++ fb (s_creator op) ++
      match s_withdrawalAddress op with Some a => fb a | None => [] end ++
      match s_amount op with Some a => big_bytes a | None => [] end).

Definition sync_UnmarshalBinary (b : bytes) : go_res validatorSyncOperation :=
  match unwrapVersionedData b with
  | Err _ => unmarshalBinaryLegacy b
  | Ok (version, binData) =>
      if version =? Ver1 then
        v ← DecodeBytes sync_type binData;
        match v with
        | VStruct [VUint opType; VArray h; VUint procEpoch; VUint index; VArray cr; VArray wa;
                   VBig amount; VBig balance] =>
            sync_init version opType (BytesToHash h) procEpoch index (BytesToAddress cr) (Some amount)
              (Some (BytesToAddress wa)) (Some balance)
        | _ => Panic
        end
      else Err ErrOpBadVersion
  | Panic => Panic
  | NoFuel => NoFuel
  end.

Definition sync_MarshalBinary (op : validatorSyncOperation) : go_res bytes :=
  let '(withdrawalAddress, amount, balance) :=
    if s_opType op =? UpdateBalance
    then (s_withdrawalAddress op, s_amount op, s_balance op)
    else (Some (zero_fixed 20), Some 0, Some 0) in
  if s_version op =? NoVer then marshalBinaryLegacy op
  else if s_version op =? Ver1 then
    wa ← deref withdrawalAddress;
    am ← deref amount;
    ba ← deref balance;
    binData ← EncodeToBytes sync_type
                (VStruct [VUint (s_opType op); VArray (fb (s_initTxHash op)); VUint (s_procEpoch op);
                          VUint (s_index op); VArray (fb (s_creator op)); VArray (fb wa); VBig am; VBig ba]);
    wrapVersionedData (s_version op) binData
  else Err ErrOpBadVersion.

Definition sync_OpCode (op : validatorSyncOperation) : Z :=
  if s_opType op =? Activate then ActivateCode
  else if s_opType op =? Deactivate then DeactivateCode
  else if s_opType op =? UpdateBalance then UpdateBalanceCode
  else 0.

Definition sync_Amount (op : validatorSyncOperation) : option Z :=
  match s_amount op with
  | None => None
  | Some a => if sync_OpCode op =? UpdateBalanceCode then Some a else None
  end.

Definition SetVersion (op : validatorSyncOperation) (ver : Z) : validatorSyncOperation :=
  MkSync ver (s_opType op) (s_initTxHash op) (s_procEpoch op) (s_index op) (s_creator op) (s_amount op)
    (s_withdrawalAddress op) (s_balance op).

(** ** Operations *)

Inductive Operation :=
| OpDeposit (op : depositOperation)
| OpSync (op : validatorSyncOperation)
| OpExit (op : exitOperation)
| OpWithdrawal (op : withdrawalOperation).

Definition OpCode (op : Operation) : Z :=
  match op with
  | OpDeposit _ => DepositCode
  | OpSync op => sync_OpCode op
  | OpExit _ => ExitCode
  | OpWithdrawal _ => WithdrawalCode
  end.

Definition GetOpCode (b : bytes) : go_res Z :=
  match b with
  | p :: c :: _ => if negb (b2z p =? OpPrefix) then Err ErrPrefixNotValid else Ok (b2z c)
  | _ => Err ErrRawDataShort
  end.

Definition DecodeOperation `{!Bitlist} (b : bytes) : go_res Operation :=
  opCode ← GetOpCode b;
  let body := drop 2 b in
  if opCode =? DepositCode then op ← deposit_UnmarshalBinary body; Ok (OpDeposit op)
  else if (opCode =? ActivateCode) || (opCode =? DeactivateCode) || (opCode =? UpdateBalanceCode)
  then op ← sync_UnmarshalBinary body; Ok (OpSync op)
  else if opCode =? ExitCode then op ← exit_UnmarshalBinary body; Ok (OpExit op)
  else if opCode =? WithdrawalCode then op ← withdrawal_UnmarshalBinary body; Ok (OpWithdrawal op)
  else Err ErrOpNotValid.

(** The code of a sync operation is that of the operation that its body decodes to. *)
Definition EncodeOperation (op : Operation) : go_res bytes :=
  '(code, b) ← match op with
    | OpDeposit d => b ← deposit_MarshalBinary d; Ok (DepositCode, b)
    | OpSync s => b ← sync_MarshalBinary s; vs ← sync_UnmarshalBinary b; Ok (sync_OpCode vs, b)
    | OpExit e => b ← exit_MarshalBinary e; Ok (ExitCode, b)
    | OpWithdrawal w => b ← withdrawal_MarshalBinary w; Ok (WithdrawalCode, b)
    end;
  Ok ([z2b OpPrefix; z2b code] ++ b).

(** ** Exit and withdrawal *)

Lemma exit_roundtrip pk cr after op :
  exit_init pk cr after = Ok op → (∀ e, after = Some e → is_u64 e) →
  ∃ b, exit_MarshalBinary op = Ok b ∧ exit_UnmarshalBinary b = Ok op.
Proof.
  intros Hi Ha. pose proof Hi as Hop. unfold exit_init in Hop.
  destruct (decide (pk = zero_fixed 48)); [done|]. destruct (decide (cr = zero_fixed 20)); [done|].
  injection Hop as <-. eexists. split; [reflexivity|]. simpl. unfold exit_UnmarshalBinary, minExitRequestLen.
  rewrite !length_app, !length_fb.
  destruct (Nat.ltb_spec (48 + (20 + length match after with Some epoch => PutUint64BE epoch | None => [] end))
              (48 + 20)); [simpl in *; lia|].
  take_fields. rewrite !BytesToFixed_fb. destruct after as [e|].
  - rewrite length_PutUint64BE. simpl Nat.ltb. cbv iota.
    rewrite app_assoc, drop_app_length' by (by rewrite length_app, !length_fb).
    by rewrite Uint64BE_put by auto.
  - done.
Qed.

Lemma withdrawal_roundtrip cr amount op :
  withdrawal_init cr (Some amount) = Ok op →
  ∃ b, withdrawal_MarshalBinary op = Ok b ∧ withdrawal_UnmarshalBinary b = Ok (MkWithdrawal cr (Z.abs amount)).
Proof.
  intros Hi. pose proof Hi as Hop. unfold withdrawal_init in Hop.
  destruct (decide (cr = zero_fixed 20)); [done|]. injection Hop as <-.
  eexists. split; [reflexivity|]. simpl. unfold withdrawal_UnmarshalBinary.
  take_fields. rewrite drop_app_length' by by rewrite length_fb.
  rewrite BytesToFixed_fb, be_val_big_bytes. unfold withdrawal_init. by destruct (decide (cr = zero_fixed 20)).
Qed.

(** ** Deposit *)

(** Delegated stake data that its encoding can hold and that [Copy] does not change. *)
Definition delegate_ok `{!Bitlist} (d : DelegatingStakeData) : Prop :=
  stake_fits d ∧ rules_wf (Rules d) ∧ rules_wf (TrialRules d).

Lemma stake_Copy_wf `{!Bitlist} d :
  rules_wf (Rules d) → rules_wf (TrialRules d) → stake_Copy (Some d) = Ok (Some d).
Proof.
  intros H1 H2. unfold stake_Copy. rewrite !rules_Copy_wf by done. by destruct d.
Qed.

Lemma deposit_init_inv `{!Bitlist} pk cr wd sg dl op :
  deposit_init pk cr wd sg dl = Ok op → (∀ d, dl = Some d → delegate_ok d) →
  op = MkDeposit pk cr wd sg dl.
Proof.
  unfold deposit_init. intros Hi Hd.
  destruct (decide (pk = _)); [done|]. destruct (decide (cr = _)); [done|].
  destruct (decide (wd = _ ∧ dl = None)); [done|]. destruct (decide (sg = _)); [done|].
  destruct dl as [d|]; [|by injection Hi as <-]. destruct (Hd d eq_refl) as (_ & H1 & H2).
  rewrite stake_Copy_wf in Hi by done. simpl in Hi. apply bind_Ok in Hi as (u & _ & Hi).
  by injection Hi as <-.
Qed.

Lemma deposit_roundtrip `{!Bitlist} pk cr wd sg dl op :
  deposit_init pk cr wd sg dl = Ok op → (∀ d, dl = Some d → delegate_ok d) →
  ∃ b, deposit_MarshalBinary op = Ok b ∧ deposit_UnmarshalBinary b = Ok op.
Proof.
  intros Hi Hd. pose proof (deposit_init_inv _ _ _ _ _ _ Hi Hd) as Hop.
  assert (∃ db ext, stake_MarshalBinary dl = Ok db ∧
    deposit_MarshalBinary op = Ok (fb pk ++ fb cr ++ fb wd ++ fb sg ++ ext) ∧
    (if Nat.ltb 0 (length ext) then
       head ← go_slice 0 Uint32Size ext;
       delegateDataLen ← Uint32BE head;
       if Z.of_nat (length (drop Uint32Size ext)) <? delegateDataLen then Err ErrBadDataLen
       else
         data ← go_slice Uint32Size (Uint32Size + Z.to_nat delegateDataLen) ext;
         NewDelegatingStakeDataFromBinary data
     else Ok None) = Ok dl) as (db & ext & Hm & Hmb & Hext).
  { subst op. unfold deposit_MarshalBinary. simpl. destruct dl as [d|].
    - destruct (Hd d eq_refl) as (Hf & _). destruct (stake_roundtrip d Hf) as (b & Hm & Hu & H32 & H20).
      exists b, (PutUint32BE (Z.of_nat (length b)) ++ b). rewrite Hm. split_and!; [done| |].
      + simpl. by rewrite <- !app_assoc.
      + rewrite length_app, length_PutUint32BE. simpl Nat.ltb. cbv iota.
        rewrite go_slice_prefix by done. rewrite Ok_bind, Uint32BE_put by lia. rewrite Ok_bind.
        rewrite drop_app_length' by by rewrite length_PutUint32BE. rewrite Z.ltb_irrefl, Nat2Z.id.
        rewrite go_slice_suffix by (rewrite length_PutUint32BE; done). done.
    - eexists _, []. split_and!; [done| |done]. simpl. by rewrite app_nil_r. }
  exists (fb pk ++ fb cr ++ fb wd ++ fb sg ++ ext). split; [done|]. unfold deposit_UnmarshalBinary.
  unfold deposit_minBinaryLen. rewrite !length_app, !length_fb.
  destruct (Nat.ltb_spec (48 + (20 + (20 + (96 + length ext)))) (48 + 20 + 20 + 96)); [lia|].
  take_fields. rewrite !BytesToFixed_fb.
  replace (drop 184 (fb pk ++ fb cr ++ fb wd ++ fb sg ++ ext)) with ext.
  - by rewrite Hext, Ok_bind.
  - rewrite !drop_app_ge by (rewrite !length_fb; simpl; lia). by rewrite !length_fb.
Qed.

(** ** Validator sync *)

(** The fixed layout starts with a zero byte, which is not the start of an RLP list. *)
Lemma unwrap_zero r : Z.of_nat (S (length r)) < two64 → ∃ e, unwrapVersionedData (x00 :: r) = Err e.
Proof.
  intros Hr. unfold unwrapVersionedData, DecodeBytes.
  assert (stream_List (stream_Reset (x00 :: r)) = Err ErrExpectedList) as HL.
  { unfold stream_List. rewrite (byte_fwd x00 r); [done| |done|done|done|done].
    apply stream_Reset_wf. simpl. lia. }
  cbn [decode wrapper_type]. rewrite HL. by eexists.
Qed.

(** What an operation has to satisfy to be encoded. *)
Record sync_fits (op : validatorSyncOperation) : Prop := {
  fits_version : s_version op = NoVer ∨ s_version op = Ver1;
  fits_type : s_opType op = Activate ∨ s_opType op = Deactivate ∨ s_opType op = UpdateBalance;
  fits_epoch : is_u64 (s_procEpoch op);
  fits_index : is_u64 (s_index op);
  fits_amount : ∀ a, s_amount op = Some a → 0 ≤ a < 2 ^ 256;
  fits_balance : ∀ a, s_balance op = Some a → 0 ≤ a < 2 ^ 256
}.

(** The operation that the encoding stands for: the amount is part of an update of a balance
    only, and the layout without a version has no balance. *)
Definition sync_decoded (op : validatorSyncOperation) : validatorSyncOperation :=
  MkSync (s_version op) (s_opType op) (s_initTxHash op) (s_procEpoch op) (s_index op) (s_creator op)
    (if s_opType op =? UpdateBalance then s_amount op
     else if s_version op =? Ver1 then Some 0 else None)
    (s_withdrawalAddress op)
    (if s_version op =? NoVer then None else s_balance op).

(** The value of an operation that [init] accepted. *)
Lemma sync_init_inv ver ty h ep ix cr am wa ba op :
  sync_init ver ty h ep ix cr am wa ba = Ok op →
  h ≠ zero_fixed 32 ∧ cr ≠ zero_fixed 20 ∧
  (ty = UpdateBalance → am ≠ None ∧ wa ≠ None ∧ (NoVer < ver → ba ≠ None)) ∧
  op = if ty =? UpdateBalance then MkSync ver ty h ep ix cr am wa ba
       else MkSync ver ty h ep ix cr am None None.
Proof.
  unfold sync_init. intros Hi. destruct (decide (h = _)); [done|]. destruct (decide (cr = _)); [done|].
  apply bind_Ok in Hi as (u & Hu & Hi). split; [done|]. split; [done|].
  destruct (Z.eqb_spec ty UpdateBalance) as [->|Hne]; [|split; [done|by injection Hi as <-]].
  destruct (decide (am = None)); [done|]. destruct (decide (wa = None)); [done|].
  destruct ((NoVer <? ver) && bool_decide (ba = None)) eqn:Hb; [done|]. split; [|by injection Hi as <-].
  intros _. split_and!; [done|done|]. intros Hv ->. rewrite (proj2 (Z.ltb_lt _ _) Hv) in Hb. done.
Qed.

Lemma sync_init_again ver ty h ep ix cr am wa ba :
  h ≠ zero_fixed 32 → cr ≠ zero_fixed 20 →
  (ty = UpdateBalance → am ≠ None ∧ wa ≠ None ∧ (NoVer < ver → ba ≠ None)) →
  sync_init ver ty h ep ix cr am wa ba =
  Ok (if ty =? UpdateBalance then MkSync ver ty h ep ix cr am wa ba
      else MkSync ver ty h ep ix cr am None None).
Proof.
  intros Hh Hc Hu. unfold sync_init. rewrite !decide_False by done.
  destruct (Z.eqb_spec ty UpdateBalance) as [->|Hne]; [|done].
  destruct (Hu eq_refl) as (Ha & Hw & Hb). rewrite !decide_False by done.
  destruct (Z.ltb_spec NoVer ver); [|done]. by rewrite bool_decide_eq_false_2 by auto.
Qed.

Lemma type_head ty : ty = Activate ∨ ty = Deactivate ∨ ty = UpdateBalance →
  ∃ r, PutUint64BE ty = x00 :: r ∧ is_u64 ty.
Proof. intros [->|[->| ->]]; eexists; split; done. Qed.

(** What [init] guarantees. *)
Definition sync_ok (op : validatorSyncOperation) : Prop :=
  s_initTxHash op ≠ zero_fixed 32 ∧ s_creator op ≠ zero_fixed 20 ∧
  if s_opType op =? UpdateBalance
  then s_amount op ≠ None ∧ s_withdrawalAddress op ≠ None ∧ (NoVer < s_version op → s_balance op ≠ None)
  else s_withdrawalAddress op = None ∧ s_balance op = None.

Lemma big_bytes_length_256 a : 0 ≤ a < 2 ^ 256 → (length (big_bytes a) ≤ 32)%nat.
Proof.
  intros Ha. rewrite length_big_bytes by lia.
  pose proof (nbytes_le a 32 ltac:(lia) Ha). lia.
Qed.

(** The common fields of the fixed layout. *)
Lemma legacy_common (ty : Z) (h : Hash) (ep ix : Z) (cr : Address) tail :
  is_u64 ty → is_u64 ep → is_u64 ix →
  unmarshalBinaryLegacy (PutUint64BE ty ++ fb h ++ PutUint64BE ep ++ PutUint64BE ix ++ fb cr ++ tail) =
  ('(amount, withdrawal) ←
     (if ty =? UpdateBalance then
        wB ← go_slice 0 20 tail;
        Ok (Some (be_val (drop 20 tail)), BytesToAddress wB)
      else Ok (None, zero_fixed 20));
   sync_init NoVer ty h ep ix cr amount (Some withdrawal) None).
Proof.
  intros Ht He Hx. unfold unmarshalBinaryLegacy, valSyncOpDataMinLen.
  rewrite !length_app, !length_PutUint64BE, !length_fb.
  destruct (Nat.ltb_spec (8 + (32 + (8 + (8 + (20 + length tail))))) (8 + 8 + 20 + 32)); [lia|].
  replace (drop 96 (PutUint64BE ty ++ fb h ++ PutUint64BE ep ++ PutUint64BE ix ++ fb cr ++ tail))
    with (drop 20 tail).
  2:{ rewrite !drop_app_ge by (rewrite ?length_PutUint64BE, ?length_fb; simpl; lia).
      by rewrite ?length_PutUint64BE, ?length_fb. }
  take_fields. repeat (rewrite Uint64BE_put by done; rewrite ?Ok_bind).
  rewrite !BytesToFixed_fb.
  done.
Qed.

Lemma sync_legacy_roundtrip op :
  sync_ok op → sync_fits op → s_version op = NoVer →
  ∃ b, sync_MarshalBinary op = Ok b ∧ sync_UnmarshalBinary b = Ok (sync_decoded op).
Proof.
  intros (Hh & Hc & Hu) [_ Hty He Hx Ha _] Hv. destruct (type_head _ Hty) as (r & Hr & Htu).
  set (W := match s_withdrawalAddress op with Some a => fb a | None => [] end).
  set (A := match s_amount op with Some a => big_bytes a | None => [] end).
  exists (PutUint64BE (s_opType op) ++ fb (s_initTxHash op) ++ PutUint64BE (s_procEpoch op) ++
      PutUint64BE (s_index op) ++ fb (s_creator op) ++ W ++ A). split.
  { unfold sync_MarshalBinary. rewrite Hv. by destruct (s_opType op =? UpdateBalance). }
  assert (length W ≤ 20)%nat by (unfold W; destruct (s_withdrawalAddress op); [by rewrite length_fb|simpl; lia]).
  assert (length A ≤ 32)%nat.
  { unfold A. destruct (s_amount op) as [a|]; [|simpl; lia]. by apply big_bytes_length_256, Ha. }
  unfold sync_UnmarshalBinary. destruct (unwrap_zero (r ++ fb (s_initTxHash op) ++
    PutUint64BE (s_procEpoch op) ++ PutUint64BE (s_index op) ++ fb (s_creator op) ++ W ++ A)) as (e & He').
  { apply (f_equal length) in Hr. rewrite length_PutUint64BE in Hr. simpl in Hr.
    rewrite !length_app, !length_fb, !length_PutUint64BE. unfold two64. lia. }
  match goal with |- context [unwrapVersionedData ?b] => assert (unwrapVersionedData b = Err e) as -> end.
  { rewrite Hr. exact He'. }
  rewrite legacy_common by done.
  unfold sync_decoded. rewrite Hv. destruct (Z.eqb_spec (s_opType op) UpdateBalance) as [E|].
  - destruct Hu as (Hu1 & Hu2 & _). unfold W, A.
    destruct (s_withdrawalAddress op) as [w|]; [|done]. destruct (s_amount op) as [a|]; [|done].
    take_fields. rewrite drop_app_length' by by rewrite length_fb.
    rewrite BytesToFixed_fb, be_val_big_bytes, Z.abs_eq by (by apply Ha).
    rewrite sync_init_again by done. by rewrite E.
  - rewrite Ok_bind. destruct Hu as [-> ->]. rewrite sync_init_again by done.
    by destruct (Z.eqb_spec (s_opType op) UpdateBalance).
Qed.

Lemma sync_ver1_roundtrip op :
  sync_ok op → sync_fits op → s_version op = Ver1 →
  ∃ b, sync_MarshalBinary op = Ok b ∧ sync_UnmarshalBinary b = Ok (sync_decoded op).
Proof.
  intros (Hh & Hc & Hu) [_ Hty He Hx Ha Hb] Hv. destruct (type_head _ Hty) as (_ & _ & Htu).
  assert (∃ wa am ba, (if s_opType op =? UpdateBalance
     then (s_withdrawalAddress op, s_amount op, s_balance op)
     else (Some (zero_fixed 20), Some 0, Some 0)) = (Some wa, Some am, Some ba) ∧
     0 ≤ am < 2 ^ 256 ∧ 0 ≤ ba < 2 ^ 256) as (wa & am & ba & Hsel & Ham & Hba).
  { destruct (Z.eqb_spec (s_opType op) UpdateBalance).
    - destruct Hu as (Hu1 & Hu2 & Hu3). specialize (Hu3 ltac:(by rewrite Hv)).
      destruct (s_withdrawalAddress op) as [w|], (s_amount op) as [a|], (s_balance op) as [b|]; try done.
      exists w, a, b. auto.
    - by exists (zero_fixed 20), 0, 0. }
  set (v := VStruct [VUint (s_opType op); VArray (fb (s_initTxHash op)); VUint (s_procEpoch op);
    VUint (s_index op); VArray (fb (s_creator op)); VArray (fb wa); VBig am; VBig ba]).
  pose proof (nbytes_le am 32 ltac:(lia) Ham). pose proof (nbytes_le ba 32 ltac:(lia) Hba).
  destruct (Encode_Decode_size sync_type v) as (bin & Hbe & Hbd & Hbl & _).
  { unfold is_u64, two64 in *. assert (good_bits 64) by (unfold good_bits; lia).
    simpl. rewrite !length_fb. change (2 ^ 64) with 18446744073709551616. split_and!; done || lia. }
  { simpl. rewrite !length_fb, !Z.abs_eq by lia. unfold two64. lia. }
  destruct (Encode_Decode_size wrapper_type (VStruct [VUint Ver1; VBytes bin])) as (b & Hwe & Hwd & _).
  { simpl. split_and!; try done. unfold good_bits. lia. }
  { simpl in Hbl |- *. rewrite !length_fb, !Z.abs_eq in Hbl by lia. unfold two64. lia. }
  exists b. split.
  - unfold sync_MarshalBinary. rewrite Hsel, Hv. simpl. fold v. rewrite Hbe, Ok_bind. exact Hwe.
  - unfold sync_UnmarshalBinary, unwrapVersionedData. rewrite Hwd. simpl. rewrite Hbd. simpl.
    rewrite !BytesToFixed_fb. rewrite sync_init_again by done.
    unfold sync_decoded. rewrite Hv. f_equal. destruct (Z.eqb_spec (s_opType op) UpdateBalance).
    + by injection Hsel as -> -> ->.
    + destruct Hu as [-> ->]. injection Hsel as <- <- <-. done.
Qed.

(** ** The contract *)

(** An operation that its constructor accepts, with the epochs and indices that a [uint64] holds. The
    constructors do not check the rest: the amount and the balance of a sync operation are natural
    numbers below [2 ^ 256], its type and version are known ones, and the delegated stake is one that
    its encoding holds. *)
Definition op_ok `{!Bitlist} (op : Operation) : Prop :=
  match op with
  | OpDeposit d =>
      deposit_init (d_pubkey d) (d_creator_address d) (d_withdrawal_address d) (d_signature d)
        (d_delegate d) = Ok d ∧ ∀ x, d_delegate d = Some x → delegate_ok x
  | OpSync s => sync_ok s ∧ sync_fits s
  | OpExit e =>
      exit_init (e_pubKey e) (e_creatorAddress e) (e_exitAfterEpoch e) = Ok e ∧
      ∀ x, e_exitAfterEpoch e = Some x → is_u64 x
  | OpWithdrawal w => withdrawal_init (w_creatorAddress w) (Some (w_amount w)) = Ok w
  end.

(** The operation that an encoding stands for: [big.Int.Bytes] drops the sign of an amount. *)
Definition decoded_operation (op : Operation) : Operation :=
  match op with
  | OpSync s => OpSync (sync_decoded s)
  | OpWithdrawal w => OpWithdrawal (MkWithdrawal (w_creatorAddress w) (Z.abs (w_amount w)))
  | _ => op
  end.

(** The same operation, as far as its accessors tell; the layout of sync operations without a
    version does not keep the balance. *)
Definition same_operation (op op' : Operation) : Prop :=
  match op, op' with
  | OpSync s, OpSync s' =>
      s_version s' = s_version s ∧ s_opType s' = s_opType s ∧ s_initTxHash s' = s_initTxHash s ∧
      s_procEpoch s' = s_procEpoch s ∧ s_index s' = s_index s ∧ s_creator s' = s_creator s ∧
      sync_Amount s' = sync_Amount s ∧ s_withdrawalAddress s' = s_withdrawalAddress s ∧
      s_balance s' = if s_version s =? NoVer then None else s_balance s
  | OpWithdrawal w, OpWithdrawal w' =>
      w_creatorAddress w' = w_creatorAddress w ∧ w_amount w' = Z.abs (w_amount w)
  | _, _ => op' = op
  end.

Lemma sync_decoded_same s : same_operation (OpSync s) (OpSync (sync_decoded s)).
Proof.
  destruct s as [ver ty h ep ix cr am wa ba]. simpl. split_and!; try done.
  - unfold sync_Amount, sync_decoded, sync_OpCode. simpl.
    destruct (Z.eqb_spec ty UpdateBalance) as [->|]; simpl; [done|].
    destruct (ty =? Activate), (ty =? Deactivate), (ver =? Ver1), am; done.
Qed.

Lemma sync_roundtrip s :
  sync_ok s → sync_fits s →
  ∃ b, sync_MarshalBinary s = Ok b ∧ sync_UnmarshalBinary b = Ok (sync_decoded s).
Proof.
  intros Hok Hf. destruct (fits_version _ Hf).
  - by apply sync_legacy_roundtrip.
  - by apply sync_ver1_roundtrip.
Qed.

Lemma decode_sync_body `{!Bitlist} s b :
  sync_fits s → sync_UnmarshalBinary b = Ok (sync_decoded s) →
  DecodeOperation ([z2b OpPrefix; z2b (sync_OpCode (sync_decoded s))] ++ b) = Ok (OpSync (sync_decoded s)).
Proof.
  intros [_ Hty _ _ _ _] Hu. change (sync_OpCode (sync_decoded s)) with (sync_OpCode s).
  destruct s as [ver ty h ep ix cr am wa ba]. unfold sync_OpCode.
  destruct Hty as [E|[E|E]]; simpl in E; subst ty; cbn -[sync_UnmarshalBinary sync_decoded];
    change (drop 0 b) with b; by rewrite Hu.
Qed.

(** C29: an operation that its constructor accepts is encoded, and decoding gives back the operation,
    with three exceptions. A negative amount of a withdrawal, which the constructor does not refuse,
    comes back as its absolute value. The balance of a sync operation without a version is not part of
    its layout and comes back as not set. The amount of a sync operation that is no update of a balance
    is not encoded either, and its accessor does not show it. The epoch and the index are 64-bit
    numbers; for a sync operation, the amount and the balance are natural numbers below [2 ^ 256] and
    the type and the version are known ones, which its constructor does not check. The delegated stake
    of a deposit is one that its encoding holds, with the promises of the bit lists. *)
Theorem operation_roundtrip `{!Bitlist} op :
  op_ok op →
  ∃ b, EncodeOperation op = Ok b ∧ DecodeOperation b = Ok (decoded_operation op) ∧
    same_operation op (decoded_operation op).
Proof.
  destruct op as [d|s|e|w]; intros Hop.
  - destruct Hop as [Hok Hfit]. destruct (deposit_roundtrip _ _ _ _ _ _ Hok Hfit) as (b & Hm & Hu).
    exists ([z2b OpPrefix; z2b DepositCode] ++ b). unfold EncodeOperation. rewrite Hm.
    split_and!; [done| |done]. cbn -[deposit_UnmarshalBinary]. change (drop 0 b) with b. by rewrite Hu.
  - destruct Hop as [Hok Hfit]. destruct (sync_roundtrip s Hok Hfit) as (b & Hm & Hu).
    eexists. unfold EncodeOperation. rewrite Hm, Ok_bind, Hu, !Ok_bind.
    split_and!; [done|by apply decode_sync_body|apply sync_decoded_same].
  - destruct Hop as [Hok Hfit]. destruct (exit_roundtrip _ _ _ _ Hok Hfit) as (b & Hm & Hu).
    exists ([z2b OpPrefix; z2b ExitCode] ++ b). unfold EncodeOperation. rewrite Hm.
    split_and!; [done| |done]. cbn -[exit_UnmarshalBinary]. change (drop 0 b) with b. by rewrite Hu.
  - destruct (withdrawal_roundtrip _ _ _ Hop) as (b & Hm & Hu).
    exists ([z2b OpPrefix; z2b WithdrawalCode] ++ b). unfold EncodeOperation. rewrite Hm.
    split_and!; [done| |done]. cbn -[withdrawal_UnmarshalBinary]. change (drop 0 b) with b. by rewrite Hu.
Qed.

Lemma withdrawal_short b : (length b < 20)%nat → withdrawal_UnmarshalBinary b = Panic.
Proof. intros Hb. unfold withdrawal_UnmarshalBinary. by rewrite go_slice_Panic. Qed.

(** A slice that ends within the data. *)
Lemma go_slice_within {A} (s : list A) lo hi :
  (lo ≤ hi ≤ length s)%nat → ∃ r, go_slice lo hi s = Ok r ∧ length r = (hi - lo)%nat.
Proof.
  intros H. unfold go_slice. destruct (Nat.leb_spec lo hi), (Nat.leb_spec hi (length s)); try lia.
  eexists. split; [done|]. rewrite length_take, length_drop. lia.
Qed.

Lemma UintBE_enough n b : (n ≤ length b)%nat → ∃ z, UintBE n b = Ok z.
Proof. intros H. unfold UintBE. destruct (Nat.ltb_spec (length b) n); [lia|by eexists]. Qed.

Lemma UintBE_short n b : (length b < n)%nat → UintBE n b = Panic.
Proof. intros H. unfold UintBE. by destruct (Nat.ltb_spec (length b) n); [|lia]. Qed.

(** Evaluates a slice that is known to be within the data, and an integer read from it. *)
Ltac slice_within :=
  match goal with
  | |- (go_slice ?lo ?hi ?b ≫= _) = _ =>
      let r := fresh "r" in let Hr := fresh "Hr" in let Hl := fresh "Hl" in
      destruct (go_slice_within b lo hi) as (r & Hr & Hl); [lia|]; rewrite Hr, Ok_bind; clear Hr
  end.
Ltac read_within :=
  match goal with
  | |- (Uint64BE ?r ≫= _) = _ =>
      let z := fresh "z" in let Hz := fresh "Hz" in
      destruct (UintBE_enough 8 r) as [z Hz]; [lia|]; change (UintBE 8 r) with (Uint64BE r) in Hz;
      rewrite Hz, Ok_bind; clear Hz
  end.

Lemma legacy_short b : (68 ≤ length b < 76)%nat → unmarshalBinaryLegacy b = Panic.
Proof.
  intros Hb. unfold unmarshalBinaryLegacy, valSyncOpDataMinLen.
  destruct (Nat.ltb_spec (length b) (8 + 8 + 20 + 32)); [lia|].
  slice_within. read_within. slice_within. slice_within. read_within. slice_within. read_within.
  by rewrite (go_slice_Panic b 56 76) by lia.
Qed.

Lemma exit_short b : (68 < length b < 76)%nat → exit_UnmarshalBinary b = Panic.
Proof.
  intros Hb. unfold exit_UnmarshalBinary, minExitRequestLen.
  destruct (Nat.ltb_spec (length b) (48 + 20)); [lia|]. slice_within. slice_within.
  destruct (Nat.ltb_spec (48 + 20) (length b)); [|lia]. unfold Uint64BE.
  by rewrite UintBE_short by (rewrite length_drop; lia).
Qed.

Lemma deposit_short `{!Bitlist} b : (184 < length b < 188)%nat → deposit_UnmarshalBinary b = Panic.
Proof.
  intros Hb. unfold deposit_UnmarshalBinary, deposit_minBinaryLen.
  destruct (Nat.ltb_spec (length b) (48 + 20 + 20 + 96)); [lia|].
  do 4 slice_within. rewrite length_drop. destruct (Nat.ltb_spec 0 (length b - 184)); [|lia].
  rewrite (go_slice_Panic _ 0 Uint32Size); [done|]. rewrite length_drop. unfold Uint32Size. lia.
Qed.

Lemma deposit_uneven `{!Bitlist} pk cr wd sg d :
  pk ≠ zero_fixed 48 → cr ≠ zero_fixed 20 → sg ≠ zero_fixed 96 →
  (length (profitShare (Rules d)) < length (addrs (Rules d)))%nat →
  deposit_init pk cr wd sg (Some d) = Panic.
Proof.
  intros Hp Hc Hs Hl. unfold deposit_init. rewrite !decide_False by (done || naive_solver).
  unfold stake_Copy, rules_Copy.
  by destruct (Nat.ltb_spec (length (profitShare (Rules d))) (length (addrs (Rules d)))); [|lia].
Qed.

(** decoding panics on data of a transaction that is cut short in the wrong place (a
    withdrawal shorter than an address, a sync operation without a version of 68 to 75 bytes,
    an exit or a deposit with a partial field at its end), and on a deposit whose rules have
    more addresses than shares. *)
Theorem operation_decode_panics `{!Bitlist} :
  (∀ b, (length b < 20)%nat → DecodeOperation (xf4 :: x06 :: b) = Panic) ∧
  (∀ b e, (68 ≤ length b < 76)%nat → unwrapVersionedData b = Err e →
     DecodeOperation (xf4 :: x02 :: b) = Panic) ∧
  (∀ b, (68 < length b < 76)%nat → DecodeOperation (xf4 :: x03 :: b) = Panic) ∧
  (∀ b, (184 < length b < 188)%nat → DecodeOperation (xf4 :: x01 :: b) = Panic) ∧
  (∀ pk cr wd sg d, pk ≠ zero_fixed 48 → cr ≠ zero_fixed 20 → sg ≠ zero_fixed 96 →
     (length (profitShare (Rules d)) < length (addrs (Rules d)))%nat →
     deposit_init pk cr wd sg (Some d) = Panic).
Proof.
  split_and!.
  - intros b Hb. cbn -[withdrawal_UnmarshalBinary]. change (drop 0 b) with b. by rewrite withdrawal_short.
  - intros b e Hb He. cbn -[sync_UnmarshalBinary]. change (drop 0 b) with b.
    unfold sync_UnmarshalBinary. by rewrite He, legacy_short.
  - intros b Hb. cbn -[exit_UnmarshalBinary]. change (drop 0 b) with b. by rewrite exit_short.
  - intros b Hb. cbn -[deposit_UnmarshalBinary]. change (drop 0 b) with b. by rewrite deposit_short.
  - intros. by apply deposit_uneven.
Qed.

(** A deposit with delegated stake, the first operation of a delegating validator. *)
Definition toy_deposit : depositOperation :=
  MkDeposit (BytesToBlsPubKey [x01]) (toy_addr x09) (zero_fixed 20) (BytesToBlsSig [x02])
    (Some (MkStakeData toy_rules 10 empty_rules)).

Lemma operation_roundtrip_witness :
  ∃ b, EncodeOperation (OpDeposit toy_deposit) = Ok b ∧
    @DecodeOperation ssz_bitlist b = Ok (OpDeposit toy_deposit) ∧
    same_operation (OpDeposit toy_deposit) (OpDeposit toy_deposit).
Proof.
  apply (@operation_roundtrip ssz_bitlist (OpDeposit toy_deposit)). split; [vm_compute; reflexivity|].
  intros x [= <-]. split_and!.
  - split; vm_compute; intuition congruence.
  - apply NewRules_wf.
  - apply empty_rules_wf.
Defined.
