(* ===== verification/World.v ===== *)
(** * The world state the processors change

    The interface [vm.StateDB] (src/core/vm/interface.go) as the processors see it: accounts with
    a nonce, a balance, a code and a storage, the logs of the transaction, the refund counter, the
    access list, and snapshots. An operation of the interface is a function on [World];
    [Snapshot] returns the current world and [RevertToSnapshot] goes back to it. StateDB.v proves
    that the journaled state database implements this. The hash functions are parameters
    ([Crypto]). *)

From Stdlib Require Import ZArith Lia Strings.Byte.
From stdpp Require Import base tactics option numbers list gmap strings.
From S2P Require Import Prelude Common.

(** ** Hashes *)

(** [crypto.Keccak256Hash], a third-party function; nothing is assumed of it here. *)
Class Crypto := { keccak256 : bytes → Hash }.

(** The bytes of a string literal. *)
Definition str (s : string) : bytes := String.list_byte_of_string s.

(** ** State *)

(** [types.Log]: the fields that are part of consensus. *)
Record Log := MkLog {
  log_Address : Address;
  log_Topics : list Hash;
  log_Data : bytes
}.

(** An account; [None] is a nil code. A slot that is not in a map holds zero; [acc_committed]
    is the storage at the start of the transaction. *)
Record Account := MkAccount {
  acc_nonce : Z;
  acc_balance : Z;
  acc_code : option bytes;
  acc_storage : gmap Hash Hash;
  acc_committed : gmap Hash Hash;
  acc_suicided : bool
}.

(** The logs are those of the current transaction. *)
Record World := MkWorld {
  accounts : gmap Address Account;
  logs : list Log;
  refund : Z;
  access_addresses : gset Address;
  access_slots : gset (Address * Hash)
}.

Definition empty_account : Account := MkAccount 0 0 None ∅ ∅ false.
Definition empty_world : World := MkWorld ∅ [] 0 ∅ ∅.

(** An account that does not exist reads as an empty one. *)
Definition account (w : World) (a : Address) : Account := default empty_account (accounts w !! a).

Definition set_accounts (m : gmap Address Account) (w : World) : World :=
  MkWorld m (logs w) (refund w) (access_addresses w) (access_slots w).

(** [GetOrNewStateObject] followed by a change of the object. *)
Definition update_account (f : Account → Account) (a : Address) (w : World) : World :=
  set_accounts (<[a := f (account w a)]> (accounts w)) w.

Definition set_nonce (n : Z) (x : Account) : Account :=
  MkAccount n (acc_balance x) (acc_code x) (acc_storage x) (acc_committed x) (acc_suicided x).
Definition set_balance (b : Z) (x : Account) : Account :=
  MkAccount (acc_nonce x) b (acc_code x) (acc_storage x) (acc_committed x) (acc_suicided x).
Definition set_code (c : bytes) (x : Account) : Account :=
  MkAccount (acc_nonce x) (acc_balance x) (Some c) (acc_storage x) (acc_committed x) (acc_suicided x).
Definition set_slot (k v : Hash) (x : Account) : Account :=
  MkAccount (acc_nonce x) (acc_balance x) (acc_code x) (<[k := v]> (acc_storage x)) (acc_committed x)
    (acc_suicided x).
Definition mark_suicided (x : Account) : Account :=
  MkAccount (acc_nonce x) 0 (acc_code x) (acc_storage x) (acc_committed x) true.

(** ** Operations *)

Definition GetBalance (w : World) (a : Address) : Z := acc_balance (account w a).
Definition GetNonce (w : World) (a : Address) : Z := acc_nonce (account w a).
Definition GetCode (w : World) (a : Address) : option bytes := acc_code (account w a).
Definition GetState (w : World) (a : Address) (k : Hash) : Hash :=
  default (zero_fixed 32) (acc_storage (account w a) !! k).
Definition GetCommittedState (w : World) (a : Address) (k : Hash) : Hash :=
  default (zero_fixed 32) (acc_committed (account w a) !! k).
Definition HasSuicided (w : World) (a : Address) : bool := acc_suicided (account w a).
Definition Exist (w : World) (a : Address) : bool := bool_decide (is_Some (accounts w !! a)).
Definition GetCodeSize (w : World) (a : Address) : Z := Z.of_nat (length (default [] (GetCode w a))).

Definition AddBalance (a : Address) (amount : Z) : World → World :=
  update_account (λ x, set_balance (acc_balance x + amount) x) a.
Definition SubBalance (a : Address) (amount : Z) : World → World :=
  update_account (λ x, set_balance (acc_balance x - amount) x) a.
Definition SetBalance (a : Address) (amount : Z) : World → World := update_account (set_balance amount) a.
Definition SetNonce (a : Address) (nonce : Z) : World → World := update_account (set_nonce nonce) a.
Definition SetCode (a : Address) (code : bytes) : World → World := update_account (set_code code) a.
Definition SetState (a : Address) (k v : Hash) : World → World := update_account (set_slot k v) a.
Definition AddLog (l : Log) (w : World) : World :=
  MkWorld (accounts w) (logs w ++ [l]) (refund w) (access_addresses w) (access_slots w).

(** A new account in place of the one at the address, of which only the balance is kept. *)
Definition CreateAccount (a : Address) (w : World) : World :=
  set_accounts (<[a := set_balance (GetBalance w a) empty_account]> (accounts w)) w.

(** The account stays readable until the end of the transaction. *)
Definition Suicide (a : Address) (w : World) : bool * World :=
  if Exist w a then (true, update_account mark_suicided a w) else (false, w).

Definition set_refund (r : Z) (w : World) : World :=
  MkWorld (accounts w) (logs w) r (access_addresses w) (access_slots w).
Definition AddRefund (gas : Z) (w : World) : World := set_refund (u64 (refund w + gas)) w.
Definition SubRefund (gas : Z) : stM World unit := λ w,
  if refund w <? gas then (Panic, w) else (Ok tt, set_refund (refund w - gas) w).

Definition AddAddressToAccessList (a : Address) (w : World) : World :=
  MkWorld (accounts w) (logs w) (refund w) ({[a]} ∪ access_addresses w) (access_slots w).
Definition AddSlotToAccessList (a : Address) (k : Hash) (w : World) : World :=
  MkWorld (accounts w) (logs w) (refund w) ({[a]} ∪ access_addresses w) ({[(a, k)]} ∪ access_slots w).
Definition AddressInAccessList (w : World) (a : Address) : bool := bool_decide (a ∈ access_addresses w).
Definition SlotInAccessList (w : World) (a : Address) (k : Hash) : bool * bool :=
  (AddressInAccessList w a, bool_decide ((a, k) ∈ access_slots w)).

Section hashes.
Context `{!Crypto}.

(** Zero for an account that does not exist. *)
Definition GetCodeHash (w : World) (a : Address) : Hash :=
  if Exist w a then keccak256 (default [] (GetCode w a)) else zero_fixed 32.

(** Not there, or without nonce, balance and code. *)
Definition Empty (w : World) (a : Address) : bool :=
  negb (Exist w a) ||
  ((GetNonce w a =? 0) && (GetBalance w a =? 0) &&
   bool_decide (keccak256 (default [] (GetCode w a)) = keccak256 [])).
End hashes.

(** [IsValidatorAddress]: a validator's code starts with its address. *)
Definition IsValidatorAddress (w : World) (a : Address) : bool :=
  match GetCode w a with
  | Some code => Nat.leb 20 (length code) && bool_decide (take 20 code = fb a)
  | None => false
  end.

(** ** Lemmas *)

Lemma account_update f a w b :
  account (update_account f a w) b = if decide (a = b) then f (account w a) else account w b.
Proof.
  unfold account at 1, update_account. simpl. case_decide as Hab.
  - subst. by rewrite lookup_insert_eq.
  - by rewrite lookup_insert_ne.
Qed.

Lemma GetCode_account w w' a : account w a = account w' a → GetCode w a = GetCode w' a.
Proof. unfold GetCode. by intros ->. Qed.

Lemma GetBalance_account w w' a : account w a = account w' a → GetBalance w a = GetBalance w' a.
Proof. unfold GetBalance. by intros ->. Qed.

Lemma GetBalance_SetCode a c w b : GetBalance (SetCode a c w) b = GetBalance w b.
Proof. unfold GetBalance, SetCode. rewrite account_update. by case_decide; subst. Qed.

Lemma GetBalance_SetNonce a n w b : GetBalance (SetNonce a n w) b = GetBalance w b.
Proof. unfold GetBalance, SetNonce. rewrite account_update. by case_decide; subst. Qed.

Lemma GetBalance_AddLog l w b : GetBalance (AddLog l w) b = GetBalance w b.
Proof. done. Qed.

Lemma GetBalance_SubBalance a v w b :
  GetBalance (SubBalance a v w) b = if decide (a = b) then GetBalance w a - v else GetBalance w b.
Proof. unfold GetBalance, SubBalance. rewrite account_update. by case_decide. Qed.

Lemma GetBalance_AddBalance a v w b :
  GetBalance (AddBalance a v w) b = if decide (a = b) then GetBalance w a + v else GetBalance w b.
Proof. unfold GetBalance, AddBalance. rewrite account_update. by case_decide. Qed.

Lemma GetNonce_SetCode a c w b : GetNonce (SetCode a c w) b = GetNonce w b.
Proof. unfold GetNonce, SetCode. rewrite account_update. by case_decide; subst. Qed.

Lemma GetNonce_AddLog l w b : GetNonce (AddLog l w) b = GetNonce w b.
Proof. done. Qed.

Lemma GetNonce_SubBalance a v w b : GetNonce (SubBalance a v w) b = GetNonce w b.
Proof. unfold GetNonce, SubBalance. rewrite account_update. by case_decide; subst. Qed.

Lemma GetNonce_AddBalance a v w b : GetNonce (AddBalance a v w) b = GetNonce w b.
Proof. unfold GetNonce, AddBalance. rewrite account_update. by case_decide; subst. Qed.

Lemma GetNonce_SetNonce a n w b :
  GetNonce (SetNonce a n w) b = if decide (a = b) then n else GetNonce w b.
Proof. unfold GetNonce, SetNonce. rewrite account_update. by case_decide. Qed.

Lemma GetCode_SetCode a c w b :
  GetCode (SetCode a c w) b = if decide (a = b) then Some c else GetCode w b.
Proof. unfold GetCode, SetCode. rewrite account_update. by case_decide. Qed.

Lemma GetCode_AddLog l w b : GetCode (AddLog l w) b = GetCode w b.
Proof. done. Qed.

Lemma GetCode_SubBalance a v w b : GetCode (SubBalance a v w) b = GetCode w b.
Proof. unfold GetCode, SubBalance. rewrite account_update. by case_decide; subst. Qed.

Lemma GetCode_AddBalance a v w b : GetCode (AddBalance a v w) b = GetCode w b.
Proof. unfold GetCode, AddBalance. rewrite account_update. by case_decide; subst. Qed.

Lemma GetCode_SetNonce a n w b : GetCode (SetNonce a n w) b = GetCode w b.
Proof. unfold GetCode, SetNonce. rewrite account_update. by case_decide; subst. Qed.

Lemma logs_SetCode a c w : logs (SetCode a c w) = logs w.
Proof. done. Qed.

Lemma logs_SetNonce a n w : logs (SetNonce a n w) = logs w.
Proof. done. Qed.

Lemma logs_SubBalance a v w : logs (SubBalance a v w) = logs w.
Proof. done. Qed.

Lemma logs_AddBalance a v w : logs (AddBalance a v w) = logs w.
Proof. done. Qed.

Lemma logs_AddLog l w : logs (AddLog l w) = logs w ++ [l].
Proof. done. Qed.

#[export] Hint Rewrite GetBalance_SetCode GetBalance_SetNonce GetBalance_AddLog GetBalance_SubBalance
  GetBalance_AddBalance GetNonce_SetCode GetNonce_AddLog GetNonce_SubBalance GetNonce_AddBalance
  GetNonce_SetNonce GetCode_SetCode GetCode_AddLog GetCode_SubBalance GetCode_AddBalance
  GetCode_SetNonce logs_SetCode logs_SetNonce logs_SubBalance logs_AddBalance logs_AddLog : world.

(** The operations are read through their effects. *)
#[global] Opaque GetBalance GetNonce GetCode AddBalance SubBalance SetNonce SetCode.
