(* ===== verification/StateDB.v ===== *)
(** * The journaled state database

    [StateDB] of src/core/state (statedb.go, state_object.go, journal.go, access_list.go): the
    implementation of the interface that World.v specifies. Objects are loaded from the tries
    into a map when they are first used, every change appends an entry to the journal, and going
    back to a snapshot undoes the entries from the last to the one the snapshot stands for.

    The tries and the store of codes are the parameter [Database]; reading them does not fail.
    The model is the database without the flat snapshot ([s.snap == nil]), which is a cache in
    front of the tries, and without the prefetcher and the metrics. [IntermediateRoot] and [Commit], which
    write to the tries after a block, are not modelled. An object that is changed through a pointer is written
    back to the map at its address; an object that was replaced is kept by the journal only.

    StateRefine.v proves that this implements worlds with snapshots. *)

From Stdlib Require Import ZArith Lia Strings.Byte.
From stdpp Require Import base tactics option numbers list gmap strings.
From S2P Require Import Prelude Common GoMap World.

(** ** Accounts in the tries *)

(** [types.StateAccount]; [None] is nil. *)
Record StateAccount := MkStateAccount {
  Nonce : Z;
  Balance : option Z;
  Root : Hash;
  CodeHash : option bytes
}.

(** The account trie, the storage trie of an account with a given root, and the store of codes. *)
Record Database := MkDatabase {
  TryGet : Address → option StateAccount;
  StorageTryGet : Address → Hash → Hash → Hash;
  ContractCode : Hash → option bytes
}.

Definition emptyRoot : Hash :=
  BytesToHash (be_bytes 32 0x56e81f171bcc55a6ff8345e692c0f86e5b48e01b996cadc001622fb5e363b421).

(** ** Objects *)

Abbreviation Storage := (gmap Hash Hash).

(** The fields of [data] are those of the account, none of them nil. *)
Record stateObject := MkObject {
  o_address : Address;
  o_Nonce : Z;
  o_Balance : Z;
  o_Root : Hash;
  o_CodeHash : bytes;
  o_code : option bytes;
  originStorage : Storage;
  pendingStorage : Storage;
  dirtyStorage : Storage;
  fakeStorage : option Storage;
  dirtyCode : bool;
  suicided : bool;
  deleted : bool
}.

(** ** Access list *)

Record accessList := MkAccessList {
  addresses : gmap Address Z;
  slots : list (gset Hash)
}.

Definition newAccessList : accessList := MkAccessList ∅ [].

Definition ContainsAddress (al : accessList) (a : Address) : bool :=
  bool_decide (is_Some (addresses al !! a)).

Definition Contains (al : accessList) (a : Address) (slot : Hash) : go_res (bool * bool) :=
  match addresses al !! a with
  | None => Ok (false, false)
  | Some idx =>
      if idx =? -1 then Ok (true, false)
      else slotmap ← go_index (slots al) (Z.to_nat idx); Ok (true, bool_decide (slot ∈ slotmap))
  end.

Definition AddAddress (a : Address) (al : accessList) : bool * accessList :=
  match addresses al !! a with
  | Some _ => (false, al)
  | None => (true, MkAccessList (<[a := -1]> (addresses al)) (slots al))
  end.

Definition AddSlot (a : Address) (slot : Hash) (al : accessList) : go_res (bool * bool * accessList) :=
  let fresh (addrPresent : bool) :=
    Ok (negb addrPresent, true,
        MkAccessList (<[a := Z.of_nat (length (slots al))]> (addresses al)) (slots al ++ [{[slot]}])) in
  match addresses al !! a with
  | None => fresh false
  | Some idx =>
      if idx =? -1 then fresh true else
      slotmap ← go_index (slots al) (Z.to_nat idx);
      if decide (slot ∈ slotmap) then Ok (false, false, al)
      else Ok (false, true,
               MkAccessList (addresses al) (<[Z.to_nat idx := {[slot]} ∪ slotmap]> (slots al)))
  end.

(** An index out of range, -1 for instance, is a panic. *)
Definition DeleteSlot (a : Address) (slot : Hash) (al : accessList) : go_res accessList :=
  idx ← deref (addresses al !! a);
  slotmap ← (if idx <? 0 then Panic else go_index (slots al) (Z.to_nat idx));
  let slotmap := slotmap ∖ {[slot]} in
  if Nat.eqb (size slotmap) 0
  then Ok (MkAccessList (<[a := -1]> (addresses al)) (take (Z.to_nat idx) (slots al)))
  else Ok (MkAccessList (addresses al) (<[Z.to_nat idx := slotmap]> (slots al))).

Definition DeleteAddress (a : Address) (al : accessList) : accessList :=
  MkAccessList (delete a (addresses al)) (slots al).

(** ** Journal *)

(** A pointer to an address is the address; [prevdestruct] belongs to the flat snapshot. *)
Inductive journalEntry :=
| createObjectChange (account : Address)
| resetObjectChange (prev : stateObject)
| suicideChange (account : Address) (prev : bool) (prevbalance : Z)
| balanceChange (account : Address) (prev : Z)
| nonceChange (account : Address) (prev : Z)
| storageChange (account : Address) (key prevalue : Hash)
| codeChange (account : Address) (prevcode : option bytes) (prevhash : bytes)
| refundChange (prev : Z)
| addLogChange (txhash : Hash)
| addPreimageChange (hash : Hash)
| touchChange (account : Address)
| accessListAddAccountChange (address : Address)
| accessListAddSlotChange (address : Address) (slot : Hash).

Definition dirtied (e : journalEntry) : option Address :=
  match e with
  | createObjectChange a | suicideChange a _ _ | balanceChange a _ | nonceChange a _
  | storageChange a _ _ | codeChange a _ _ | touchChange a => Some a
  | _ => None
  end.

Record journal := MkJournal {
  entries : list journalEntry;
  dirties : gmap Address Z
}.

Definition newJournal : journal := MkJournal [] ∅.

(** [j.dirties[addr] += n] *)
Definition add_dirty (a : Address) (n : Z) (m : gmap Address Z) : gmap Address Z :=
  <[a := default 0 (m !! a) + n]> m.

Definition journal_append (e : journalEntry) (j : journal) : journal :=
  MkJournal (entries j ++ [e])
    (match dirtied e with Some a => add_dirty a 1 (dirties j) | None => dirties j end).

Definition journal_dirty (a : Address) (j : journal) : journal :=
  MkJournal (entries j) (add_dirty a 1 (dirties j)).

(** [if j.dirties[addr]--; j.dirties[addr] == 0 { delete(j.dirties, addr) }] *)
Definition undirty (e : journalEntry) (j : journal) : journal :=
  match dirtied e with
  | None => j
  | Some a =>
      let m := add_dirty a (-1) (dirties j) in
      MkJournal (entries j) (if decide (m !! a = Some 0) then delete a m else m)
  end.

(** ** State *)

(** [types.Log] as the database keeps it. *)
Record stLog := MkStLog {
  l_log : Log;
  l_TxHash : Hash;
  l_TxIndex : Z;
  l_Index : Z;
  l_BlockHash : Hash
}.

Record StateDB := MkStateDB {
  stateObjects : gmap Address stateObject;
  stateObjectsPending : gset Address;
  stateObjectsDirty : gset Address;
  s_refund : Z;
  thash : Hash;
  txIndex : Z;
  s_logs : gmap Hash (list stLog);
  logSize : Z;
  preimages : gmap Hash bytes;
  s_accessList : accessList;
  s_journal : journal;
  validRevisions : list (Z * nat);
  nextRevisionId : Z
}.

Definition New : StateDB :=
  MkStateDB ∅ ∅ ∅ 0 (zero_fixed 32) 0 ∅ 0 ∅ newAccessList newJournal [] 0.

Definition with_objects (m : gmap Address stateObject) (s : StateDB) : StateDB :=
  MkStateDB m (stateObjectsPending s) (stateObjectsDirty s) (s_refund s) (thash s) (txIndex s) (s_logs s)
    (logSize s) (preimages s) (s_accessList s) (s_journal s) (validRevisions s) (nextRevisionId s).
Definition with_marks (pending dirty : gset Address) (s : StateDB) : StateDB :=
  MkStateDB (stateObjects s) pending dirty (s_refund s) (thash s) (txIndex s) (s_logs s)
    (logSize s) (preimages s) (s_accessList s) (s_journal s) (validRevisions s) (nextRevisionId s).
Definition with_refund (r : Z) (s : StateDB) : StateDB :=
  MkStateDB (stateObjects s) (stateObjectsPending s) (stateObjectsDirty s) r (thash s) (txIndex s) (s_logs s)
    (logSize s) (preimages s) (s_accessList s) (s_journal s) (validRevisions s) (nextRevisionId s).
Definition with_logs (l : gmap Hash (list stLog)) (n : Z) (s : StateDB) : StateDB :=
  MkStateDB (stateObjects s) (stateObjectsPending s) (stateObjectsDirty s) (s_refund s) (thash s) (txIndex s) l
    n (preimages s) (s_accessList s) (s_journal s) (validRevisions s) (nextRevisionId s).
Definition with_preimages (m : gmap Hash bytes) (s : StateDB) : StateDB :=
  MkStateDB (stateObjects s) (stateObjectsPending s) (stateObjectsDirty s) (s_refund s) (thash s) (txIndex s)
    (s_logs s) (logSize s) m (s_accessList s) (s_journal s) (validRevisions s) (nextRevisionId s).
Definition with_access (al : accessList) (s : StateDB) : StateDB :=
  MkStateDB (stateObjects s) (stateObjectsPending s) (stateObjectsDirty s) (s_refund s) (thash s) (txIndex s)
    (s_logs s) (logSize s) (preimages s) al (s_journal s) (validRevisions s) (nextRevisionId s).
Definition with_journal (j : journal) (s : StateDB) : StateDB :=
  MkStateDB (stateObjects s) (stateObjectsPending s) (stateObjectsDirty s) (s_refund s) (thash s) (txIndex s)
    (s_logs s) (logSize s) (preimages s) (s_accessList s) j (validRevisions s) (nextRevisionId s).
Definition with_revisions (l : list (Z * nat)) (n : Z) (s : StateDB) : StateDB :=
  MkStateDB (stateObjects s) (stateObjectsPending s) (stateObjectsDirty s) (s_refund s) (thash s) (txIndex s)
    (s_logs s) (logSize s) (preimages s) (s_accessList s) (s_journal s) l n.

Definition append (e : journalEntry) (s : StateDB) : StateDB := with_journal (journal_append e (s_journal s)) s.

Definition setStateObject (o : stateObject) (s : StateDB) : StateDB :=
  with_objects (<[o_address o := o]> (stateObjects s)) s.

(** The changes of the fields of an object. *)
Definition setBalance (b : Z) (o : stateObject) : stateObject :=
  MkObject (o_address o) (o_Nonce o) b (o_Root o) (o_CodeHash o) (o_code o) (originStorage o)
    (pendingStorage o) (dirtyStorage o) (fakeStorage o) (dirtyCode o) (suicided o) (deleted o).
Definition setNonce (n : Z) (o : stateObject) : stateObject :=
  MkObject (o_address o) n (o_Balance o) (o_Root o) (o_CodeHash o) (o_code o) (originStorage o)
    (pendingStorage o) (dirtyStorage o) (fakeStorage o) (dirtyCode o) (suicided o) (deleted o).
Definition setCode (codeHash : Hash) (code : option bytes) (o : stateObject) : stateObject :=
  MkObject (o_address o) (o_Nonce o) (o_Balance o) (o_Root o) (fb codeHash) code (originStorage o)
    (pendingStorage o) (dirtyStorage o) (fakeStorage o) true (suicided o) (deleted o).
Definition setState (key value : Hash) (o : stateObject) : stateObject :=
  MkObject (o_address o) (o_Nonce o) (o_Balance o) (o_Root o) (o_CodeHash o) (o_code o) (originStorage o)
    (pendingStorage o) (<[key := value]> (dirtyStorage o)) (fakeStorage o) (dirtyCode o) (suicided o) (deleted o).
Definition setFake (m : option Storage) (o : stateObject) : stateObject :=
  MkObject (o_address o) (o_Nonce o) (o_Balance o) (o_Root o) (o_CodeHash o) (o_code o) (originStorage o)
    (pendingStorage o) (dirtyStorage o) m (dirtyCode o) (suicided o) (deleted o).
Definition setSuicided (b : bool) (o : stateObject) : stateObject :=
  MkObject (o_address o) (o_Nonce o) (o_Balance o) (o_Root o) (o_CodeHash o) (o_code o) (originStorage o)
    (pendingStorage o) (dirtyStorage o) (fakeStorage o) (dirtyCode o) b (deleted o).
Definition setDeleted (o : stateObject) : stateObject :=
  MkObject (o_address o) (o_Nonce o) (o_Balance o) (o_Root o) (o_CodeHash o) (o_code o) (originStorage o)
    (pendingStorage o) (dirtyStorage o) (fakeStorage o) (dirtyCode o) (suicided o) true.
(** The caches: a code that was loaded and a slot that was read. *)
Definition cacheCode (c : option bytes) (o : stateObject) : stateObject :=
  MkObject (o_address o) (o_Nonce o) (o_Balance o) (o_Root o) (o_CodeHash o) c (originStorage o)
    (pendingStorage o) (dirtyStorage o) (fakeStorage o) (dirtyCode o) (suicided o) (deleted o).
Definition cacheSlot (key value : Hash) (o : stateObject) : stateObject :=
  MkObject (o_address o) (o_Nonce o) (o_Balance o) (o_Root o) (o_CodeHash o) (o_code o)
    (<[key := value]> (originStorage o)) (pendingStorage o) (dirtyStorage o) (fakeStorage o) (dirtyCode o)
    (suicided o) (deleted o).
(** [finalise]: the dirty slots become pending. *)
Definition finalise (o : stateObject) : stateObject :=
  MkObject (o_address o) (o_Nonce o) (o_Balance o) (o_Root o) (o_CodeHash o) (o_code o) (originStorage o)
    (dirtyStorage o ∪ pendingStorage o) ∅ (fakeStorage o) (dirtyCode o) (suicided o) (deleted o).

(** ** Operations *)

Section statedb.
Context `{!Crypto}.
Variable db : Database.

Definition emptyCodeHash : bytes := fb (keccak256 []).

Definition newObject (a : Address) (data : StateAccount) : stateObject :=
  MkObject a (Nonce data) (default 0 (Balance data))
    (if decide (Root data = zero_fixed 32) then emptyRoot else Root data)
    (default emptyCodeHash (CodeHash data)) None ∅ ∅ ∅ None false false false.

Definition empty (o : stateObject) : bool :=
  (o_Nonce o =? 0) && (o_Balance o =? 0) && bool_decide (o_CodeHash o = emptyCodeHash).

(** *** Finding objects *)

Definition getDeletedStateObject (a : Address) : stM StateDB (option stateObject) := λ s,
  match stateObjects s !! a with
  | Some obj => (Ok (Some obj), s)
  | None =>
      match TryGet db a with
      | None => (Ok None, s)
      | Some data => let obj := newObject a data in (Ok (Some obj), setStateObject obj s)
      end
  end.

Definition getStateObject (a : Address) : stM StateDB (option stateObject) :=
  obj ← getDeletedStateObject a;
  mret (match obj with
        | Some o => if deleted o then None else Some o
        | None => None
        end).

Definition createObject (a : Address) : stM StateDB (stateObject * option stateObject) :=
  prev ← getDeletedStateObject a;
  let newobj := newObject a (MkStateAccount 0 None (zero_fixed 32) None) in
  _ ← modify (append (match prev with
                      | None => createObjectChange a
                      | Some prev => resetObjectChange prev
                      end));
  _ ← modify (setStateObject newobj);
  mret (newobj, match prev with
                | Some prev => if deleted prev then None else Some prev
                | None => None
                end).

Definition GetOrNewStateObject (a : Address) : stM StateDB stateObject :=
  obj ← getStateObject a;
  match obj with
  | Some o => mret o
  | None => '(o, _) ← createObject a; mret o
  end.

Definition CreateAccount (a : Address) : stM StateDB unit :=
  '(newObj, prev) ← createObject a;
  match prev with
  | Some prev => modify (setStateObject (setBalance (o_Balance prev) newObj))
  | None => mret tt
  end.

(** *** Methods of objects *)

Definition ripemd : Address := BytesToAddress [x03].

Definition touch (o : stateObject) : stM StateDB unit :=
  _ ← modify (append (touchChange (o_address o)));
  if decide (o_address o = ripemd)
  then modify (λ s, with_journal (journal_dirty (o_address o) (s_journal s)) s)
  else mret tt.

Definition obj_SetBalance (amount : Z) (o : stateObject) : stM StateDB unit :=
  _ ← modify (append (balanceChange (o_address o) (o_Balance o)));
  modify (setStateObject (setBalance amount o)).

Definition obj_AddBalance (amount : Z) (o : stateObject) : stM StateDB unit :=
  if amount =? 0 then (if empty o then touch o else mret tt)
  else obj_SetBalance (o_Balance o + amount) o.

Definition obj_SubBalance (amount : Z) (o : stateObject) : stM StateDB unit :=
  if amount =? 0 then mret tt else obj_SetBalance (o_Balance o - amount) o.

Definition obj_SetNonce (nonce : Z) (o : stateObject) : stM StateDB unit :=
  _ ← modify (append (nonceChange (o_address o) (o_Nonce o)));
  modify (setStateObject (setNonce nonce o)).

(** [Code], which keeps the code that it loads. *)
Definition obj_Code (o : stateObject) : option bytes * stateObject :=
  match o_code o with
  | Some c => (Some c, o)
  | None =>
      if decide (o_CodeHash o = emptyCodeHash) then (None, o)
      else let c := ContractCode db (BytesToHash (o_CodeHash o)) in (c, cacheCode c o)
  end.

Definition obj_CodeSize (o : stateObject) : Z :=
  match o_code o with
  | Some c => Z.of_nat (length c)
  | None =>
      if decide (o_CodeHash o = emptyCodeHash) then 0
      else Z.of_nat (length (default [] (ContractCode db (BytesToHash (o_CodeHash o)))))
  end.

Definition obj_SetCode (codeHash : Hash) (code : bytes) (o : stateObject) : stM StateDB unit :=
  let '(prevcode, o) := obj_Code o in
  _ ← modify (append (codeChange (o_address o) prevcode (o_CodeHash o)));
  modify (setStateObject (setCode codeHash (Some code) o)).

Definition obj_GetCommittedState (key : Hash) (o : stateObject) : Hash * stateObject :=
  match fakeStorage o with
  | Some fake => (default (zero_fixed 32) (fake !! key), o)
  | None =>
      match pendingStorage o !! key, originStorage o !! key with
      | Some value, _ | None, Some value => (value, o)
      | None, None =>
          let value := StorageTryGet db (o_address o) (o_Root o) key in (value, cacheSlot key value o)
      end
  end.

Definition obj_GetState (key : Hash) (o : stateObject) : Hash * stateObject :=
  match fakeStorage o with
  | Some fake => (default (zero_fixed 32) (fake !! key), o)
  | None =>
      match dirtyStorage o !! key with
      | Some value => (value, o)
      | None => obj_GetCommittedState key o
      end
  end.

Definition obj_SetState (key value : Hash) (o : stateObject) : stM StateDB unit :=
  match fakeStorage o with
  | Some fake => modify (setStateObject (setFake (Some (<[key := value]> fake)) o))
  | None =>
      let '(prev, o) := obj_GetState key o in
      if decide (prev = value) then modify (setStateObject o) else
      _ ← modify (append (storageChange (o_address o) key prev));
      modify (setStateObject (setState key value o))
  end.

Definition obj_SetStorage (storage : Storage) (o : stateObject) : stM StateDB unit :=
  modify (setStateObject (setFake (Some (storage ∪ default ∅ (fakeStorage o))) o)).

(** *** Reading *)

(** The methods that read a field of an object, with the value for an account that does not
    exist. *)
Definition getter {A} (none : A) (f : stateObject → A * stateObject) (a : Address) : stM StateDB A :=
  obj ← getStateObject a;
  match obj with
  | None => mret none
  | Some o => let '(v, o) := f o in _ ← modify (setStateObject o); mret v
  end.

Definition Exist (a : Address) : stM StateDB bool := getter false (λ o, (true, o)) a.
Definition Empty (a : Address) : stM StateDB bool := getter true (λ o, (empty o, o)) a.
Definition GetBalance (a : Address) : stM StateDB Z := getter 0 (λ o, (o_Balance o, o)) a.
Definition GetNonce (a : Address) : stM StateDB Z := getter 0 (λ o, (o_Nonce o, o)) a.
Definition GetCode (a : Address) : stM StateDB (option bytes) := getter None obj_Code a.
Definition GetCodeSize (a : Address) : stM StateDB Z := getter 0 (λ o, (obj_CodeSize o, o)) a.
Definition GetCodeHash (a : Address) : stM StateDB Hash :=
  getter (zero_fixed 32) (λ o, (BytesToHash (o_CodeHash o), o)) a.
Definition GetState (a : Address) (key : Hash) : stM StateDB Hash :=
  getter (zero_fixed 32) (obj_GetState key) a.
Definition GetCommittedState (a : Address) (key : Hash) : stM StateDB Hash :=
  getter (zero_fixed 32) (obj_GetCommittedState key) a.
Definition HasSuicided (a : Address) : stM StateDB bool := getter false (λ o, (suicided o, o)) a.
Definition GetRefund : stM StateDB Z := gets s_refund.
Definition AddressInAccessList (a : Address) : stM StateDB bool :=
  gets (λ s, ContainsAddress (s_accessList s) a).
Definition SlotInAccessList (a : Address) (slot : Hash) : stM StateDB (bool * bool) :=
  s ← getS; liftR (Contains (s_accessList s) a slot).

Definition IsValidatorAddress (a : Address) : stM StateDB bool :=
  code ← GetCode a;
  let code := default [] code in
  if Nat.ltb (length code) 20 then mret false
  else mret (bool_decide (take 20 code = fb a)).

(** [GetLogs] completes the logs that it returns. *)
Definition set_block (blockHash : Hash) (l : stLog) : stLog :=
  MkStLog (l_log l) (l_TxHash l) (l_TxIndex l) (l_Index l) blockHash.
Definition GetLogs (hash blockHash : Hash) : stM StateDB (list stLog) := λ s,
  match s_logs s !! hash with
  | None => (Ok [], s)
  | Some l =>
      let l := map (set_block blockHash) l in
      (Ok l, with_logs (<[hash := l]> (s_logs s)) (logSize s) s)
  end.

(** *** Changing *)

Definition AddBalance (a : Address) (amount : Z) : stM StateDB unit :=
  o ← GetOrNewStateObject a; obj_AddBalance amount o.
Definition SubBalance (a : Address) (amount : Z) : stM StateDB unit :=
  o ← GetOrNewStateObject a; obj_SubBalance amount o.
Definition SetBalance (a : Address) (amount : Z) : stM StateDB unit :=
  o ← GetOrNewStateObject a; obj_SetBalance amount o.
Definition SetNonce (a : Address) (nonce : Z) : stM StateDB unit :=
  o ← GetOrNewStateObject a; obj_SetNonce nonce o.
Definition SetCode (a : Address) (code : bytes) : stM StateDB unit :=
  o ← GetOrNewStateObject a; obj_SetCode (keccak256 code) code o.
Definition SetState (a : Address) (key value : Hash) : stM StateDB unit :=
  o ← GetOrNewStateObject a; obj_SetState key value o.
Definition SetStorage (a : Address) (storage : Storage) : stM StateDB unit :=
  o ← GetOrNewStateObject a; obj_SetStorage storage o.

Definition Suicide (a : Address) : stM StateDB bool :=
  obj ← getStateObject a;
  match obj with
  | None => mret false
  | Some o =>
      _ ← modify (append (suicideChange a (suicided o) (o_Balance o)));
      _ ← modify (setStateObject (setBalance 0 (setSuicided true o)));
      mret true
  end.

Definition AddRefund (gas : Z) : stM StateDB unit :=
  _ ← modify (λ s, append (refundChange (s_refund s)) s);
  modify (λ s, with_refund (u64 (s_refund s + gas)) s).

Definition SubRefund (gas : Z) : stM StateDB unit :=
  _ ← modify (λ s, append (refundChange (s_refund s)) s);
  s ← getS;
  if s_refund s <? gas then liftR Panic else modify (with_refund (s_refund s - gas)).

Definition AddLog (l : Log) : stM StateDB unit :=
  _ ← modify (λ s, append (addLogChange (thash s)) s);
  modify (λ s,
    let log := MkStLog l (thash s) (txIndex s) (logSize s) (zero_fixed 32) in
    with_logs (<[thash s := default [] (s_logs s !! thash s) ++ [log]]> (s_logs s)) (u64 (logSize s + 1)) s).

Definition AddPreimage (hash : Hash) (preimage : bytes) : stM StateDB unit :=
  s ← getS;
  match preimages s !! hash with
  | Some _ => mret tt
  | None =>
      _ ← modify (append (addPreimageChange hash));
      modify (with_preimages (<[hash := preimage]> (preimages s)))
  end.

Definition AddAddressToAccessList (a : Address) : stM StateDB unit :=
  s ← getS;
  let '(added, al) := AddAddress a (s_accessList s) in
  _ ← modify (with_access al);
  if added : bool then modify (append (accessListAddAccountChange a)) else mret tt.

Definition AddSlotToAccessList (a : Address) (slot : Hash) : stM StateDB unit :=
  s ← getS;
  '(addrMod, slotMod, al) ← liftR (AddSlot a slot (s_accessList s));
  _ ← modify (with_access al);
  _ ← (if addrMod : bool then modify (append (accessListAddAccountChange a)) else mret tt);
  if slotMod : bool then modify (append (accessListAddSlotChange a slot)) else mret tt.

(** *** Undoing *)

(** [s.getStateObject(account)] and a method call on it, a panic for nil. *)
Definition update_object (f : stateObject → stateObject) (a : Address) : stM StateDB unit :=
  obj ← getStateObject a;
  o ← liftR (deref obj);
  modify (setStateObject (f o)).

(** The last log of a transaction; [logs[:len(logs)-1]] is a panic when there is none. *)
Definition removeLog (txhash : Hash) (m : gmap Hash (list stLog)) : go_res (gmap Hash (list stLog)) :=
  let l := default [] (m !! txhash) in
  if Nat.eqb (length l) 1 then Ok (delete txhash m)
  else if Nat.eqb (length l) 0 then Panic
  else Ok (<[txhash := take (length l - 1) l]> m).

Definition revert (e : journalEntry) : stM StateDB unit :=
  match e with
  | createObjectChange a => modify (λ s,
      with_marks (stateObjectsPending s) (stateObjectsDirty s ∖ {[a]})
        (with_objects (delete a (stateObjects s)) s))
  | resetObjectChange prev => modify (setStateObject prev)
  | suicideChange a prev prevbalance =>
      obj ← getStateObject a;
      match obj with
      | None => mret tt
      | Some o => modify (setStateObject (setBalance prevbalance (setSuicided prev o)))
      end
  | touchChange _ => mret tt
  | balanceChange a prev => update_object (setBalance prev) a
  | nonceChange a prev => update_object (setNonce prev) a
  | codeChange a prevcode prevhash => update_object (setCode (BytesToHash prevhash) prevcode) a
  | storageChange a key prevalue => update_object (setState key prevalue) a
  | refundChange prev => modify (with_refund prev)
  | addLogChange txhash =>
      s ← getS;
      m ← liftR (removeLog txhash (s_logs s));
      modify (with_logs m (u64 (logSize s - 1)))
  | addPreimageChange hash => modify (λ s, with_preimages (delete hash (preimages s)) s)
  | accessListAddAccountChange a => modify (λ s, with_access (DeleteAddress a (s_accessList s)) s)
  | accessListAddSlotChange a slot =>
      s ← getS;
      al ← liftR (DeleteSlot a slot (s_accessList s));
      modify (with_access al)
  end.

(** The loop of [journal.revert] over the entries, the last one first. *)
Fixpoint revert_all (es : list journalEntry) : stM StateDB unit :=
  match es with
  | [] => mret tt
  | e :: es' =>
      _ ← revert e;
      _ ← modify (λ s, with_journal (undirty e (s_journal s)) s);
      revert_all es'
  end.

Definition journal_revert (snapshot : nat) : stM StateDB unit :=
  s ← getS;
  _ ← revert_all (rev (drop snapshot (entries (s_journal s))));
  es ← liftR (go_slice 0 snapshot (entries (s_journal s)));
  modify (λ s, with_journal (MkJournal es (dirties (s_journal s))) s).

(** *** Snapshots *)

Definition Snapshot : stM StateDB Z :=
  s ← getS;
  _ ← modify (with_revisions (validRevisions s ++ [(nextRevisionId s, length (entries (s_journal s)))])
                (nextRevisionId s + 1));
  mret (nextRevisionId s).

Definition RevertToSnapshot (revid : Z) : stM StateDB unit :=
  s ← getS;
  let idx := Search (length (validRevisions s))
               (λ i, match validRevisions s !! i with Some r => revid <=? r.1 | None => true end) in
  r ← liftR (deref (validRevisions s !! idx));
  if negb (r.1 =? revid) then liftR Panic else
  _ ← journal_revert r.2;
  modify (λ s, with_revisions (take idx (validRevisions s)) (nextRevisionId s) s).

(** *** The end of a transaction *)

Definition clearJournalAndRefund (s : StateDB) : StateDB :=
  let s := with_revisions [] (nextRevisionId s) s in
  match entries (s_journal s) with
  | [] => s
  | _ => with_refund 0 (with_journal newJournal s)
  end.

(** The loop over the dirty addresses changes one object per address. *)
Definition Finalise (deleteEmptyObjects : bool) (s : StateDB) : StateDB :=
  let dirty := dom (dirties (s_journal s)) in
  let objects := map_imap (λ a o, Some
    (if decide (a ∈ dirty)
     then if suicided o || (deleteEmptyObjects && empty o) then setDeleted o else finalise o
     else o)) (stateObjects s) in
  let found := dirty ∩ dom (stateObjects s) in
  clearJournalAndRefund
    (with_marks (stateObjectsPending s ∪ found) (stateObjectsDirty s ∪ found) (with_objects objects s)).

Definition Prepare (hash : Hash) (ti : Z) (s : StateDB) : StateDB :=
  MkStateDB (stateObjects s) (stateObjectsPending s) (stateObjectsDirty s) (s_refund s) hash ti
    (s_logs s) (logSize s) (preimages s) newAccessList (s_journal s) (validRevisions s) (nextRevisionId s).
End statedb.
