(* ===== verification/StateRefine.v ===== *)
(** * The state database implements worlds with snapshots

    [Machine] is the specification of the interface [vm.StateDB]: a world, and for each snapshot a
    copy of the world. The theorems: whatever operations follow one another, the journaled
    database of StateDB.v and the machine give the same answers, and panic in the same places. *)

From Stdlib Require Import ZArith Lia Strings.Byte Sorting.Sorted.
From stdpp Require Import base tactics option numbers list gmap strings.
From S2P Require Import Prelude Common GoMap World StateDB.

Section refine.
Context {cr : Crypto}.
Variable db : Database.

(** ** Specification *)

(** The operations of the interface that the processors and the interpreter use. *)
Inductive op :=
| OpExist (a : Address)
| OpEmpty (a : Address)
| OpGetBalance (a : Address)
| OpGetNonce (a : Address)
| OpGetCode (a : Address)
| OpGetCodeSize (a : Address)
| OpGetCodeHash (a : Address)
| OpGetState (a : Address) (key : Hash)
| OpGetCommittedState (a : Address) (key : Hash)
| OpHasSuicided (a : Address)
| OpIsValidatorAddress (a : Address)
| OpGetRefund
| OpAddressInAccessList (a : Address)
| OpSlotInAccessList (a : Address) (slot : Hash)
| OpCreateAccount (a : Address)
| OpAddBalance (a : Address) (amount : Z)
| OpSubBalance (a : Address) (amount : Z)
| OpSetBalance (a : Address) (amount : Z)
| OpSetNonce (a : Address) (nonce : Z)
| OpSetCode (a : Address) (code : bytes)
| OpSetState (a : Address) (key value : Hash)
| OpSuicide (a : Address)
| OpAddRefund (gas : Z)
| OpSubRefund (gas : Z)
| OpAddLog (l : Log)
| OpAddPreimage (hash : Hash) (preimage : bytes)
| OpAddAddressToAccessList (a : Address)
| OpAddSlotToAccessList (a : Address) (slot : Hash)
| OpSnapshot
| OpRevertToSnapshot (revid : Z).

Inductive answer :=
| ADone
| ABool (b : bool)
| AZ (z : Z)
| AHash (h : Hash)
| ACode (c : option bytes)
| APresent (address slot : bool).

Definition ans {S A} (f : A → answer) (m : stM S A) : stM S answer := x ← m; mret (f x).
Definition ignore {A} (_ : A) : answer := ADone.

Definition db_step (o : op) : stM StateDB answer :=
  match o with
  | OpExist a => ans ABool (Exist db a)
  | OpEmpty a => ans ABool (Empty db a)
  | OpGetBalance a => ans AZ (GetBalance db a)
  | OpGetNonce a => ans AZ (GetNonce db a)
  | OpGetCode a => ans ACode (GetCode db a)
  | OpGetCodeSize a => ans AZ (GetCodeSize db a)
  | OpGetCodeHash a => ans AHash (GetCodeHash db a)
  | OpGetState a k => ans AHash (GetState db a k)
  | OpGetCommittedState a k => ans AHash (GetCommittedState db a k)
  | OpHasSuicided a => ans ABool (HasSuicided db a)
  | OpIsValidatorAddress a => ans ABool (IsValidatorAddress db a)
  | OpGetRefund => ans AZ GetRefund
  | OpAddressInAccessList a => ans ABool (AddressInAccessList a)
  | OpSlotInAccessList a k => ans (λ p, APresent p.1 p.2) (SlotInAccessList a k)
  | OpCreateAccount a => ans ignore (CreateAccount db a)
  | OpAddBalance a v => ans ignore (AddBalance db a v)
  | OpSubBalance a v => ans ignore (SubBalance db a v)
  | OpSetBalance a v => ans ignore (SetBalance db a v)
  | OpSetNonce a n => ans ignore (SetNonce db a n)
  | OpSetCode a c => ans ignore (SetCode db a c)
  | OpSetState a k v => ans ignore (SetState db a k v)
  | OpSuicide a => ans ABool (Suicide db a)
  | OpAddRefund g => ans ignore (AddRefund g)
  | OpSubRefund g => ans ignore (SubRefund g)
  | OpAddLog l => ans ignore (AddLog l)
  | OpAddPreimage h b => ans ignore (AddPreimage h b)
  | OpAddAddressToAccessList a => ans ignore (AddAddressToAccessList a)
  | OpAddSlotToAccessList a k => ans ignore (AddSlotToAccessList a k)
  | OpSnapshot => ans AZ Snapshot
  | OpRevertToSnapshot id => ans ignore (RevertToSnapshot db id)
  end.

(** The world, the worlds of the snapshots that can be reverted to, and the next identifier. *)
Record Machine := MkMachine {
  m_world : World;
  m_snaps : list (Z * World);
  m_next : Z
}.

Definition reads (f : World → answer) : stM Machine answer := gets (λ m, f (m_world m)).
Definition writes (f : World → World) : stM Machine answer := λ m,
  (Ok ADone, MkMachine (f (m_world m)) (m_snaps m) (m_next m)).

Definition machine_step (o : op) : stM Machine answer :=
  match o with
  | OpExist a => reads (λ w, ABool (World.Exist w a))
  | OpEmpty a => reads (λ w, ABool (World.Empty w a))
  | OpGetBalance a => reads (λ w, AZ (World.GetBalance w a))
  | OpGetNonce a => reads (λ w, AZ (World.GetNonce w a))
  | OpGetCode a => reads (λ w, ACode (World.GetCode w a))
  | OpGetCodeSize a => reads (λ w, AZ (World.GetCodeSize w a))
  | OpGetCodeHash a => reads (λ w, AHash (World.GetCodeHash w a))
  | OpGetState a k => reads (λ w, AHash (World.GetState w a k))
  | OpGetCommittedState a k => reads (λ w, AHash (World.GetCommittedState w a k))
  | OpHasSuicided a => reads (λ w, ABool (World.HasSuicided w a))
  | OpIsValidatorAddress a => reads (λ w, ABool (World.IsValidatorAddress w a))
  | OpGetRefund => reads (λ w, AZ (refund w))
  | OpAddressInAccessList a => reads (λ w, ABool (World.AddressInAccessList w a))
  | OpSlotInAccessList a k =>
      reads (λ w, let p := World.SlotInAccessList w a k in APresent p.1 p.2)
  | OpCreateAccount a => writes (World.CreateAccount a)
  | OpAddBalance a v => writes (World.AddBalance a v)
  | OpSubBalance a v => writes (World.SubBalance a v)
  | OpSetBalance a v => writes (World.SetBalance a v)
  | OpSetNonce a n => writes (World.SetNonce a n)
  | OpSetCode a c => writes (World.SetCode a c)
  | OpSetState a k v => writes (World.SetState a k v)
  | OpSuicide a => λ m,
      let '(b, w) := World.Suicide a (m_world m) in (Ok (ABool b), MkMachine w (m_snaps m) (m_next m))
  | OpAddRefund g => writes (World.AddRefund g)
  | OpSubRefund g => λ m,
      let '(r, w) := World.SubRefund g (m_world m) in (_ ← r; Ok ADone, MkMachine w (m_snaps m) (m_next m))
  | OpAddLog l => writes (World.AddLog l)
  | OpAddPreimage _ _ => writes id
  | OpAddAddressToAccessList a => writes (World.AddAddressToAccessList a)
  | OpAddSlotToAccessList a k => writes (World.AddSlotToAccessList a k)
  | OpSnapshot => λ m,
      (Ok (AZ (m_next m)), MkMachine (m_world m) (m_snaps m ++ [(m_next m, m_world m)]) (m_next m + 1))
  | OpRevertToSnapshot id => λ m,
      match list_find (λ x, x.1 = id) (m_snaps m) with
      | Some (i, (_, w)) => (Ok ADone, MkMachine w (take i (m_snaps m)) (m_next m))
      | None => (Panic, m)
      end
  end.

(** The answers to a sequence of operations. *)
Fixpoint run {S} (step : op → stM S answer) (ops : list op) : stM S (list answer) :=
  match ops with
  | [] => mret []
  | o :: ops' => a ← step o; l ← run step ops'; mret (a :: l)
  end.

(** ** Objects as they are read *)

Definition code_view (o : stateObject) : option bytes :=
  match o_code o with
  | Some c => Some c
  | None =>
      if decide (o_CodeHash o = emptyCodeHash) then None
      else ContractCode db (BytesToHash (o_CodeHash o))
  end.

Definition committed_view (o : stateObject) (k : Hash) : Hash :=
  match fakeStorage o with
  | Some fake => default (zero_fixed 32) (fake !! k)
  | None =>
      match pendingStorage o !! k, originStorage o !! k with
      | Some v, _ | None, Some v => v
      | None, None => StorageTryGet db (o_address o) (o_Root o) k
      end
  end.

Definition state_view (o : stateObject) (k : Hash) : Hash :=
  match fakeStorage o, dirtyStorage o !! k with
  | None, Some v => v
  | _, _ => committed_view o k
  end.

(** The same object up to its caches. *)
Record obj_equiv (o o' : stateObject) : Prop := {
  oe_address : o_address o = o_address o';
  oe_nonce : o_Nonce o = o_Nonce o';
  oe_balance : o_Balance o = o_Balance o';
  oe_hash : o_CodeHash o = o_CodeHash o';
  oe_code : code_view o = code_view o';
  oe_state : ∀ k, state_view o k = state_view o' k;
  oe_committed : ∀ k, committed_view o k = committed_view o' k;
  oe_suicided : suicided o = suicided o';
  oe_deleted : deleted o = deleted o';
  oe_fake : fakeStorage o = fakeStorage o'
}.

#[local] Instance obj_equiv_equivalence : Equivalence obj_equiv.
Proof.
  split.
  - by intros o.
  - intros o o' []. by split.
  - intros o1 o2 o3 [] []. split; intros; etrans; eauto.
Qed.

(** What [getDeletedStateObject] finds. *)
Definition obj_at (s : StateDB) (a : Address) : option stateObject :=
  match stateObjects s !! a with
  | Some o => Some o
  | None => newObject a <$> TryGet db a
  end.

Definition alive (o : stateObject) : option stateObject := if deleted o then None else Some o.
Definition live (s : StateDB) (a : Address) : option stateObject := obj_at s a ≫= alive.

(** The same database up to caches and journal. *)
Record equiv (s s' : StateDB) : Prop := {
  eq_objects : ∀ a, option_Forall2 obj_equiv (obj_at s a) (obj_at s' a);
  eq_refund : s_refund s = s_refund s';
  eq_thash : thash s = thash s';
  eq_txIndex : txIndex s = txIndex s';
  eq_logs : s_logs s = s_logs s';
  eq_logSize : logSize s = logSize s';
  eq_preimages : preimages s = preimages s';
  eq_access : s_accessList s = s_accessList s'
}.

#[local] Instance equiv_equivalence : Equivalence equiv.
Proof.
  split.
  - intros s. by split.
  - intros s s' []. by split.
  - intros s1 s2 s3 [] []. split; intros; etrans; eauto.
Qed.

Lemma obj_at_set o s a :
  obj_at (setStateObject o s) a = if decide (o_address o = a) then Some o else obj_at s a.
Proof.
  unfold obj_at. cbn [stateObjects setStateObject with_objects]. case_decide as H.
  - subst. by rewrite lookup_insert_eq.
  - by rewrite lookup_insert_ne.
Qed.

Lemma equiv_set s s' o o' : equiv s s' → obj_equiv o o' →
  equiv (setStateObject o s) (setStateObject o' s').
Proof.
  intros [] Ho. split; try done. intros a. rewrite !obj_at_set, (oe_address _ _ Ho).
  case_decide; [by constructor|done].
Qed.

(** *** The setters respect the equivalence *)

Lemma obj_equiv_setBalance b o o' : obj_equiv o o' → obj_equiv (setBalance b o) (setBalance b o').
Proof. intros []. by split. Qed.

Lemma obj_equiv_setNonce n o o' : obj_equiv o o' → obj_equiv (setNonce n o) (setNonce n o').
Proof. intros []. by split. Qed.

Lemma obj_equiv_setSuicided b o o' : obj_equiv o o' → obj_equiv (setSuicided b o) (setSuicided b o').
Proof. intros []. by split. Qed.

Lemma obj_equiv_setCode h c o o' : obj_equiv o o' → obj_equiv (setCode h c o) (setCode h c o').
Proof. intros []. by split. Qed.

Lemma state_view_set k v k' o : fakeStorage o = None →
  state_view (setState k v o) k' = if decide (k = k') then v else state_view o k'.
Proof.
  intros Hf. unfold state_view. cbn [fakeStorage dirtyStorage setState]. rewrite Hf.
  case_decide as Hk.
  - subst. by rewrite lookup_insert_eq.
  - by rewrite lookup_insert_ne.
Qed.

Lemma state_view_set_fake k v k' o : fakeStorage o ≠ None →
  state_view (setState k v o) k' = state_view o k'.
Proof.
  intros Hf. unfold state_view. cbn [fakeStorage dirtyStorage setState]. by destruct (fakeStorage o).
Qed.

Lemma obj_equiv_setState k v o o' : obj_equiv o o' → obj_equiv (setState k v o) (setState k v o').
Proof.
  intros []. split; try done.
  intros k'. destruct (decide (fakeStorage o = None)) as [Hf|Hf].
  - rewrite !state_view_set by congruence. by case_decide.
  - by rewrite !state_view_set_fake by congruence.
Qed.

(** *** Caching does not change an object *)

Lemma obj_Code_view o : ∃ o', obj_Code db o = (code_view o, o') ∧ obj_equiv o' o.
Proof.
  unfold obj_Code, code_view. destruct (o_code o) as [c|] eqn:Hc; [by exists o|].
  case_decide as Hh; [by exists o|]. eexists. split; [done|]. split; try done.
  unfold code_view. cbn [o_code o_CodeHash cacheCode]. rewrite Hc, decide_False by done.
  by destruct (ContractCode db _).
Qed.

Lemma obj_GetCommittedState_view k o : ∃ o', obj_GetCommittedState db k o = (committed_view o k, o') ∧ obj_equiv o' o.
Proof.
  unfold obj_GetCommittedState, committed_view. destruct (fakeStorage o) eqn:Hf; [by exists o|].
  destruct (pendingStorage o !! k) eqn:Hp; [by exists o|].
  destruct (originStorage o !! k) eqn:Ho; [by exists o|]. eexists. split; [done|].
  assert (∀ k', committed_view (cacheSlot k (StorageTryGet db (o_address o) (o_Root o) k) o) k' = committed_view o k').
  { intros k'. unfold committed_view. cbn [fakeStorage pendingStorage originStorage cacheSlot o_address o_Root].
    rewrite Hf. destruct (decide (k = k')) as [<-|Hk].
    - by rewrite Hp, Ho, lookup_insert_eq.
    - by rewrite lookup_insert_ne. }
  split; try done. intros k'. unfold state_view. cbn [fakeStorage dirtyStorage cacheSlot]. rewrite Hf.
  by destruct (dirtyStorage o !! k').
Qed.

Lemma obj_GetState_view k o : ∃ o', obj_GetState db k o = (state_view o k, o') ∧ obj_equiv o' o.
Proof.
  unfold obj_GetState, state_view. destruct (fakeStorage o) eqn:Hf.
  { exists o. unfold committed_view. by rewrite Hf. }
  destruct (dirtyStorage o !! k) eqn:Hd; [by exists o|]. apply obj_GetCommittedState_view.
Qed.

(** *** Loading *)

(** The database [s'] has loaded objects. *)
Definition loads (s s' : StateDB) : Prop :=
  s' = with_objects (stateObjects s') s ∧ ∀ a, obj_at s' a = obj_at s a.

Lemma loads_equiv s s' : loads s s' → equiv s' s.
Proof. intros [-> Hl]. split; try done. intros a. by rewrite Hl. Qed.

Lemma getDeletedStateObject_spec a s :
  ∃ s', getDeletedStateObject db a s = (Ok (obj_at s a), s') ∧ loads s s'.
Proof.
  unfold getDeletedStateObject, obj_at. destruct (stateObjects s !! a) as [o|] eqn:Hs.
  { exists s. split; [done|]. split; [by destruct s|done]. }
  destruct (TryGet db a) as [d|] eqn:Hd; [|exists s; split; [done|]; split; [by destruct s|done]].
  eexists. split; [done|]. split; [done|]. intros b. rewrite obj_at_set.
  case_decide as Hb; [|done]. cbn in Hb. subst b. unfold obj_at. by rewrite Hs, Hd.
Qed.

Lemma getStateObject_spec a s : ∃ s', getStateObject db a s = (Ok (live s a), s') ∧ loads s s'.
Proof.
  destruct (getDeletedStateObject_spec a s) as (s' & Hg & Hl). exists s'. split; [|done].
  unfold getStateObject, mbind, stM_bind. rewrite Hg. unfold live. by destruct (obj_at s a).
Qed.

Lemma live_equiv s s' a : equiv s s' → option_Forall2 obj_equiv (live s a) (live s' a).
Proof.
  intros He. unfold live. destruct (eq_objects _ _ He a) as [o o' Ho|]; [|constructor].
  cbn. unfold alive. rewrite (oe_deleted _ _ Ho). destruct (deleted o'); by constructor.
Qed.

(** *** Undoing respects the equivalence *)

Lemma update_object_equiv g a s t s' :
  (∀ o o', obj_equiv o o' → obj_equiv (g o) (g o')) → equiv s t →
  update_object db g a s = (Ok tt, s') → ∃ t', update_object db g a t = (Ok tt, t') ∧ equiv s' t'.
Proof.
  intros Hg He Hs. unfold update_object, mbind, stM_bind in *.
  destruct (getStateObject_spec a s) as (s1 & Hs1 & Hl1). rewrite Hs1 in Hs.
  destruct (getStateObject_spec a t) as (t1 & Ht1 & Hl2). rewrite Ht1.
  destruct (live_equiv s t a He) as [o o' Ho|]; [|done]. injection Hs as <-. eexists. split; [done|].
  apply equiv_set; [|by apply Hg]. by rewrite (loads_equiv _ _ Hl1), (loads_equiv _ _ Hl2).
Qed.

Lemma revert_equiv e s t s' : equiv s t → revert db e s = (Ok tt, s') →
  ∃ t', revert db e t = (Ok tt, t') ∧ equiv s' t'.
Proof.
  intros He. destruct e as [a|p|a b z|a b|a n|a k v|a c h|r|h|h|a|a|a k]; cbn [revert].
  4-7: apply update_object_equiv; [|done];
    eauto using obj_equiv_setBalance, obj_equiv_setNonce, obj_equiv_setState, obj_equiv_setCode.
  - intros [= <-]. eexists. split; [done|]. destruct He as [Ho]. split; try done. intros b.
    specialize (Ho b). unfold obj_at in *. cbn [stateObjects with_marks with_objects].
    destruct (decide (a = b)) as [<-|Hb]; [by rewrite !lookup_delete_eq|by rewrite !lookup_delete_ne].
  - intros [= <-]. eexists. split; [done|]. by apply equiv_set.
  - unfold mbind, stM_bind. destruct (getStateObject_spec a s) as (s1 & -> & Hl1).
    destruct (getStateObject_spec a t) as (t1 & -> & Hl2).
    assert (equiv s1 t1) by by rewrite (loads_equiv _ _ Hl1), (loads_equiv _ _ Hl2).
    destruct (live_equiv s t a He) as [o o' Ho|]; intros [= <-]; (eexists; split; [done|]); [|done].
    apply equiv_set; [done|]. by apply obj_equiv_setBalance, obj_equiv_setSuicided.
  - intros [= <-]. eexists. split; [done|]. by destruct He.
  - unfold mbind, stM_bind, getS, liftR. rewrite (eq_logs _ _ He), (eq_logSize _ _ He).
    destruct (removeLog _ _); intros [= <-]; (eexists; split; [done|]); by destruct He.
  - intros [= <-]. eexists. split; [done|]. destruct He. split; try done. simpl. congruence.
  - intros [= <-]. by exists t.
  - intros [= <-]. eexists. split; [done|]. destruct He. split; try done. simpl. congruence.
  - unfold mbind, stM_bind, getS, liftR. rewrite (eq_access _ _ He).
    destruct (DeleteSlot _ _ _); intros [= <-]. eexists. split; [done|]. by destruct He.
Qed.

Lemma equiv_journal j s : equiv (with_journal j s) s.
Proof. by split. Qed.

Lemma revert_all_equiv es : ∀ s t s', equiv s t → revert_all db es s = (Ok tt, s') →
  ∃ t', revert_all db es t = (Ok tt, t') ∧ equiv s' t'.
Proof.
  induction es as [|e es IH]; intros s t s' He Hs; cbn [revert_all] in *.
  { injection Hs as <-. by exists t. }
  unfold mbind, stM_bind in *. destruct (revert db e s) as [[[]| | |] s1] eqn:Hr; simplify_eq.
  destruct (revert_equiv e s t s1 He Hr) as (t1 & -> & He1).
  eapply IH; [|exact Hs]. cbn. by rewrite !equiv_journal.
Qed.

Lemma revert_all_app es es' s :
  revert_all db (es ++ es') s = (_ ← revert_all db es; revert_all db es') s.
Proof.
  revert s. induction es as [|e es IH]; intros s; [done|]. cbn [revert_all app].
  unfold mbind, stM_bind in *. destruct (revert db e s) as [[[]| | |] s1]; try done. apply IH.
Qed.

(** ** Journaled changes *)

Definition log_of (s : StateDB) : list journalEntry := entries (s_journal s).

(** [s'] differs from [s] by changes that the new entries of its journal undo. *)
Record delta (s s' : StateDB) : Prop := {
  dl_undo : ∃ es s'', log_of s' = log_of s ++ es ∧ revert_all db (rev es) s' = (Ok tt, s'') ∧ equiv s'' s;
  dl_revisions : validRevisions s' = validRevisions s;
  dl_next : nextRevisionId s' = nextRevisionId s
}.

Lemma delta_equiv s s' : equiv s' s → log_of s' = log_of s → validRevisions s' = validRevisions s →
  nextRevisionId s' = nextRevisionId s → delta s s'.
Proof. intros. split; [|done|done]. exists [], s'. by rewrite app_nil_r. Qed.

Lemma delta_loads s s' : loads s s' → delta s s'.
Proof.
  intros Hl. pose proof (loads_equiv _ _ Hl). destruct Hl as [Hs _].
  apply delta_equiv; [done|by rewrite Hs..].
Qed.

Lemma delta_trans s1 s2 s3 : delta s1 s2 → delta s2 s3 → delta s1 s3.
Proof.
  intros [(es1 & t1 & Hl1 & Hr1 & He1) ??] [(es2 & t2 & Hl2 & Hr2 & He2) ??].
  split; [|congruence|congruence]. symmetry in He2.
  destruct (revert_all_equiv _ _ _ _ He2 Hr1) as (t3 & Hr3 & He3).
  exists (es1 ++ es2), t3. rewrite Hl2, Hl1, rev_app_distr, revert_all_app, app_assoc.
  split; [done|]. unfold mbind, stM_bind. rewrite Hr2. split; [done|]. by rewrite <- He3.
Qed.

(** One entry. *)
Lemma delta_entry e s s' s'' : log_of s' = log_of s ++ [e] → validRevisions s' = validRevisions s →
  nextRevisionId s' = nextRevisionId s → revert db e s' = (Ok tt, s'') → equiv s'' s → delta s s'.
Proof.
  intros Hl ?? Hr He. split; [|done|done]. exists [e], (with_journal (undirty e (s_journal s'')) s'').
  split; [done|]. cbn [rev app revert_all]. unfold mbind, stM_bind. rewrite Hr.
  split; [done|]. by rewrite equiv_journal.
Qed.

Lemma update_object_live g a s o : stateObjects s !! a = Some o → deleted o = false →
  update_object db g a s = (Ok tt, setStateObject (g o) s).
Proof.
  intros Hs Hd. unfold update_object, getStateObject, getDeletedStateObject, mbind, stM_bind.
  by rewrite Hs, Hd.
Qed.

(** A change of one object whose entry writes the old value back. *)
Lemma delta_change e f g a s o : revert db e = update_object db g a → live s a = Some o →
  o_address o = a → o_address (f o) = a → deleted (f o) = false → obj_equiv (g (f o)) o →
  delta s (setStateObject (f o) (append e s)).
Proof.
  intros Hr Hl Ha Hfa Hfd Hgf.
  eapply (delta_entry e); [done|done|done| |].
  - rewrite Hr. apply update_object_live; [|exact Hfd]. cbn. rewrite Hfa. apply lookup_insert_eq.
  - split; try done. intros b. rewrite !obj_at_set, (oe_address _ _ Hgf), Ha, Hfa.
    case_decide as Hb; [|done]. subst b. unfold live in Hl.
    destruct (obj_at s a) as [o'|]; [|done]. cbn in Hl. unfold alive in Hl.
    destruct (deleted o'); simplify_eq. by constructor.
Qed.

(** ** Worlds *)

(** An object and the account that it stands for. *)
Record acc_rel (o : stateObject) (x : Account) : Prop := {
  ar_nonce : o_Nonce o = acc_nonce x;
  ar_balance : o_Balance o = acc_balance x;
  ar_code : code_view o = acc_code x;
  ar_hash : o_CodeHash o = fb (keccak256 (default [] (acc_code x)));
  ar_state : ∀ k, state_view o k = default (zero_fixed 32) (acc_storage x !! k);
  ar_committed : ∀ k, committed_view o k = default (zero_fixed 32) (acc_committed x !! k);
  ar_suicided : suicided o = acc_suicided x
}.

(** An access list and the sets that it stands for: an address refers to no set of slots or to
    one of its own, which is not empty. *)
Record access_rel (al : accessList) (A : gset Address) (S : gset (Address * Hash)) : Prop := {
  al_addresses : ∀ a, is_Some (addresses al !! a) ↔ a ∈ A;
  al_slots : ∀ a k, (a, k) ∈ S ↔
    ∃ i m, addresses al !! a = Some (Z.of_nat i) ∧ slots al !! i = Some m ∧ k ∈ m;
  al_index : ∀ a z, addresses al !! a = Some z →
    z = -1 ∨ ∃ i m, z = Z.of_nat i ∧ slots al !! i = Some m ∧ m ≠ ∅;
  al_own : ∀ a b i, addresses al !! a = Some (Z.of_nat i) → addresses al !! b = Some (Z.of_nat i) → a = b
}.

Record world_rel (s : StateDB) (w : World) : Prop := {
  wr_accounts : ∀ a, option_Forall2 acc_rel (live s a) (accounts w !! a);
  wr_objects : ∀ a o, obj_at s a = Some o → o_address o = a ∧ fakeStorage o = None;
  wr_refund : s_refund s = refund w;
  wr_logs : logs w = map l_log (default [] (s_logs s !! thash s));
  wr_logs_some : ∀ h, s_logs s !! h ≠ Some [];
  wr_logSize : is_u64 (logSize s);
  wr_access : access_rel (s_accessList s) (access_addresses w) (access_slots w)
}.

Lemma acc_rel_equiv o o' x : obj_equiv o o' → acc_rel o' x → acc_rel o x.
Proof. intros [] []. split; intros; etrans; eauto. Qed.

Lemma world_rel_equiv s s' w : equiv s s' → world_rel s' w → world_rel s w.
Proof.
  intros He [Ha Ho Hr Hl Hls Hsz Hac]. split.
  - intros a. specialize (Ha a). destruct (live_equiv s s' a He) as [o o' Hoe|]; inversion Ha; subst;
      constructor. by eapply acc_rel_equiv.
  - intros a o Hs. pose proof (eq_objects _ _ He a) as Heq. rewrite Hs in Heq.
    inversion Heq as [? o' Hoe HA HB|]; subst. symmetry in HB. destruct (Ho a o' HB).
    rewrite (oe_address _ _ Hoe), (oe_fake _ _ Hoe). done.
  - by rewrite (eq_refund _ _ He).
  - by rewrite (eq_logs _ _ He), (eq_thash _ _ He).
  - by rewrite (eq_logs _ _ He).
  - by rewrite (eq_logSize _ _ He).
  - by rewrite (eq_access _ _ He).
Qed.

Lemma world_rel_live s w a o : world_rel s w → live s a = Some o →
  obj_at s a = Some o ∧ o_address o = a ∧ deleted o = false ∧ fakeStorage o = None ∧
  ∃ x, accounts w !! a = Some x ∧ acc_rel o x.
Proof.
  intros Hw Hl. pose proof (wr_accounts _ _ Hw a) as Ha. rewrite Hl in Ha.
  inversion Ha as [? x Hx HA HB|]; subst.
  unfold live in Hl. destruct (obj_at s a) as [o'|] eqn:Ho; [|done]. cbn in Hl. unfold alive in Hl.
  destruct (deleted o') eqn:Hd; simplify_eq. destruct (wr_objects _ _ Hw a o Ho). eauto 10.
Qed.

Lemma world_rel_cases s w a : world_rel s w →
  (∃ o x, live s a = Some o ∧ accounts w !! a = Some x ∧ acc_rel o x) ∨
  (live s a = None ∧ accounts w !! a = None).
Proof.
  intros Hw. destruct (wr_accounts _ _ Hw a) as [o x Hx|]; [left; by exists o, x|by right].
Qed.

(** Writing an object is writing the account. *)
Lemma world_rel_set o x a s w : world_rel s w → o_address o = a → deleted o = false →
  fakeStorage o = None → acc_rel o x →
  world_rel (setStateObject o s) (set_accounts (<[a := x]> (accounts w)) w).
Proof.
  intros [] Ha Hd Hf Hx. split; try done.
  - intros b. unfold live. rewrite obj_at_set, Ha. cbn [accounts set_accounts].
    destruct (decide (a = b)) as [<-|Hb].
    + rewrite lookup_insert_eq. cbn. unfold alive. rewrite Hd. by constructor.
    + rewrite lookup_insert_ne by done. apply wr_accounts0.
  - intros b o'. rewrite obj_at_set, Ha. case_decide; [intros [= <-]; by subst|eauto].
Qed.

Lemma world_rel_append e s w : world_rel s w → world_rel (append e s) w.
Proof. apply world_rel_equiv. apply equiv_journal. Qed.

(** ** Operations on accounts *)

(** The operation returns [r] and leads to the world [w]. *)
Definition good {A} (m : stM StateDB A) (r : A) (s : StateDB) (w : World) : Prop :=
  ∃ s', m s = (Ok r, s') ∧ world_rel s' w ∧ delta s s'.

Lemma good_ret {A} (r : A) s w : world_rel s w → good (mret r) r s w.
Proof. intros Hw. exists s. split_and!; [done|done|]. by apply delta_equiv. Qed.

Lemma world_rel_loads s s' w : loads s s' → world_rel s w → world_rel s' w.
Proof. intros Hl. apply world_rel_equiv. by apply loads_equiv. Qed.

Lemma live_loads s s' a : loads s s' → live s' a = live s a.
Proof. intros [_ Hl]. unfold live. by rewrite Hl. Qed.

Lemma getter_good {A} (none : A) f a s w :
  (∀ o, ∃ o', f o = ((f o).1, o') ∧ obj_equiv o' o) → world_rel s w →
  good (getter db none f a) (match live s a with None => none | Some o => (f o).1 end) s w.
Proof.
  intros Hf Hw. destruct (getStateObject_spec a s) as (s1 & Hs1 & Hl).
  unfold good, getter, mbind, stM_bind. rewrite Hs1. destruct (live s a) as [o|] eqn:Ho.
  - destruct (Hf o) as (o' & Hfo & Hoe). destruct (f o) as [v o'']. injection Hfo as ->.
    destruct (world_rel_live s w a o Hw Ho) as (Hat & Ha & _).
    assert (equiv (setStateObject o' s1) s) as He.
    { etrans; [apply (equiv_set s1 s1 o' o); done|]. rewrite <- (loads_equiv _ _ Hl). split; try done.
      intros b. rewrite obj_at_set, Ha. case_decide; [|done]. subst b. destruct Hl as [_ Hl]. by rewrite Hl, Hat. }
    eexists. split; [done|]. split; [by eapply world_rel_equiv|]. apply delta_equiv; [done|..];
      destruct Hl as [Hs _]; by rewrite Hs.
  - exists s1. split; [done|]. split; [by eapply world_rel_loads|by apply delta_loads].
Qed.

(** *** Creating objects *)

Lemma setStateObject_twice o o' s : o_address o = o_address o' →
  setStateObject o (setStateObject o' s) = setStateObject o s.
Proof.
  intros Ha. unfold setStateObject. cbn [stateObjects with_objects]. by rewrite Ha, insert_insert_eq.
Qed.

Definition create_entry (a : Address) (prev : option stateObject) : journalEntry :=
  match prev with
  | None => createObjectChange a
  | Some p => resetObjectChange p
  end.

Lemma delta_create a o s : o_address o = a → (∀ p, obj_at s a = Some p → o_address p = a) →
  delta s (setStateObject o (append (create_entry a (obj_at s a)) s)).
Proof.
  intros Ha Hp. destruct (obj_at s a) as [p|] eqn:Hat; cbn [create_entry];
    (eapply delta_entry; [done|done|done|done|]); split; try done; intros b.
  - rewrite !obj_at_set, Ha, (Hp p) by done. case_decide; [|done]. subst b. rewrite Hat. by constructor.
  - unfold obj_at in *. cbn [stateObjects with_marks with_objects setStateObject append with_journal]. rewrite Ha.
    destruct (decide (a = b)) as [<-|Hb].
    + rewrite lookup_delete_eq. destruct (stateObjects s !! a); [done|]. rewrite Hat. constructor.
    + by rewrite lookup_delete_ne, lookup_insert_ne.
Qed.

Abbreviation new_object a := (newObject a (MkStateAccount 0 None (zero_fixed 32) None)).

Lemma createObject_spec a s : ∃ s1,
  createObject db a s =
    (Ok (new_object a, live s a), setStateObject (new_object a) (append (create_entry a (obj_at s a)) s1)) ∧
  loads s s1.
Proof.
  destruct (getDeletedStateObject_spec a s) as (s1 & Hs & Hl). exists s1. split; [|done].
  unfold createObject, mbind, stM_bind. rewrite Hs. unfold live. by destruct (obj_at s a).
Qed.

Hypothesis empty_trie : ∀ a k, StorageTryGet db a emptyRoot k = zero_fixed 32.

Lemma new_object_rel a b : acc_rel (setBalance b (new_object a)) (set_balance b empty_account).
Proof.
  split; try done.
  - unfold code_view. cbn. by rewrite decide_True.
  - intros k. unfold state_view, committed_view. cbn. rewrite !lookup_empty. apply empty_trie.
  - intros k. unfold committed_view. cbn. rewrite !lookup_empty. apply empty_trie.
Qed.

(** The object that was created may get a balance before anything else happens to it. *)
Lemma create_good a b s w s1 : world_rel s w → loads s s1 →
  let s' := setStateObject (setBalance b (new_object a)) (append (create_entry a (obj_at s a)) s1) in
  world_rel s' (set_accounts (<[a := set_balance b empty_account]> (accounts w)) w) ∧ delta s s'.
Proof.
  intros Hw Hl s'. split.
  - apply world_rel_set; [|done|done|done|apply new_object_rel].
    apply world_rel_append. by eapply world_rel_loads.
  - eapply delta_trans; [by apply delta_loads|]. subst s'. destruct (Hl) as [_ Hat]. rewrite <- Hat.
    apply delta_create; [done|]. rewrite Hat. intros p Hp. by destruct (wr_objects _ _ Hw a p Hp).
Qed.

Lemma CreateAccount_good a s w : world_rel s w → good (CreateAccount db a) tt s (World.CreateAccount a w).
Proof.
  intros Hw. destruct (createObject_spec a s) as (s1 & Hs & Hl).
  assert (World.GetBalance w a = match live s a with Some o => o_Balance o | None => 0 end) as Hb.
  { Transparent World.GetBalance. unfold World.GetBalance, account. Opaque World.GetBalance.
    destruct (wr_accounts _ _ Hw a) as [o x Hx|]; [by rewrite (ar_balance _ _ Hx)|done]. }
  unfold good, CreateAccount, mbind, stM_bind. rewrite Hs. unfold World.CreateAccount. rewrite Hb.
  destruct (live s a) as [o|].
  - eexists. split; [done|]. rewrite setStateObject_twice by done. by apply create_good.
  - eexists. split; [done|]. by apply (create_good a 0 s w).
Qed.

(** An account that exists is not changed by writing it back. *)
Lemma set_accounts_id a x w : accounts w !! a = Some x → set_accounts (<[a := x]> (accounts w)) w = w.
Proof. intros Hx. unfold set_accounts. rewrite insert_id by done. by destruct w. Qed.

Lemma GetOrNewStateObject_good a s w : world_rel s w → ∃ o s',
  GetOrNewStateObject db a s = (Ok o, s') ∧ world_rel s' (update_account id a w) ∧ delta s s' ∧ live s' a = Some o.
Proof.
  intros Hw. unfold GetOrNewStateObject, mbind, stM_bind.
  destruct (getStateObject_spec a s) as (s1 & -> & Hl). pose proof (world_rel_loads _ _ _ Hl Hw) as Hw1.
  unfold update_account, account.
  destruct (world_rel_cases s w a Hw) as [(o & x & Ho & Hx & _)|[Ho ->]]; cbn [default id].
  - exists o, s1. rewrite Ho, Hx. cbn [default id]. rewrite set_accounts_id by done.
    split_and!; [done|done|by apply delta_loads|]. by rewrite (live_loads s).
  - rewrite Ho. destruct (createObject_spec a s1) as (s2 & -> & Hl2).
    destruct (create_good a 0 s1 w s2 Hw1 Hl2) as [Hw2 Hd].
    eexists _, _. split; [done|]. split; [exact Hw2|]. split; [eapply delta_trans; [by apply delta_loads|exact Hd]|].
    unfold live. rewrite obj_at_set. by rewrite decide_True.
Qed.

(** A change of an account, which is created if needed. *)
Lemma change_good a (m : stateObject → stM StateDB unit) fw s w :
  (∀ o x s w, world_rel s w → live s a = Some o → accounts w !! a = Some x → acc_rel o x →
     good (m o) tt s (set_accounts (<[a := fw x]> (accounts w)) w)) →
  world_rel s w → good (o ← GetOrNewStateObject db a; m o) tt s (update_account fw a w).
Proof.
  intros Hm Hw. destruct (GetOrNewStateObject_good a s w Hw) as (o & s1 & Hg & Hw1 & Hd1 & Ho).
  destruct (world_rel_live _ _ a o Hw1 Ho) as (_ & _ & _ & _ & x & Hx & Hox).
  destruct (Hm o x s1 _ Hw1 Ho Hx Hox) as (s2 & Hs2 & Hw2 & Hd2).
  exists s2. unfold mbind, stM_bind. rewrite Hg. split; [done|]. split; [|by eapply delta_trans].
  unfold update_account in Hx, Hw2 |- *. cbn [accounts set_accounts] in Hx, Hw2.
  rewrite lookup_insert_eq in Hx. injection Hx as <-. rewrite insert_insert_eq in Hw2. exact Hw2.
Qed.

(** The usual change: an entry and a new value of a field. *)
Lemma field_good a e f g o fx s w :
  revert db e = update_object db g a → world_rel s w → live s a = Some o →
  o_address (f o) = o_address o → deleted (f o) = deleted o → fakeStorage (f o) = fakeStorage o →
  obj_equiv (g (f o)) o → acc_rel (f o) fx →
  good (_ ← modify (append e); modify (setStateObject (f o))) tt s (set_accounts (<[a := fx]> (accounts w)) w).
Proof.
  intros Hr Hw Ho Hfa Hfd Hff Hgf Hfx.
  destruct (world_rel_live s w a o Hw Ho) as (_ & Ha & Hd & Hf & _).
  eexists. split; [done|]. split.
  - apply world_rel_set; [by apply world_rel_append|congruence|congruence|congruence|done].
  - apply (delta_change e f g a); congruence || done.
Qed.

Lemma setBalance_good a v o x s w : world_rel s w → live s a = Some o → acc_rel o x →
  good (obj_SetBalance v o) tt s (set_accounts (<[a := set_balance v x]> (accounts w)) w).
Proof.
  intros Hw Ho Hx. destruct (world_rel_live s w a o Hw Ho) as (_ & Ha & _).
  unfold obj_SetBalance. rewrite Ha.
  apply (field_good a _ (setBalance v) (setBalance (o_Balance o)) o); try done.
  by destruct Hx.
Qed.

Lemma SetBalance_good a v s w : world_rel s w → good (SetBalance db a v) tt s (World.SetBalance a v w).
Proof. intros. apply change_good; [|done]. intros. by apply setBalance_good. Qed.

Lemma touch_good o s w : world_rel s w → good (touch o) tt s w.
Proof.
  intros Hw. unfold touch, mbind, stM_bind, modify.
  case_decide; (eexists; split; [done|]); (split; [eapply world_rel_equiv; [|exact Hw]; by split|]);
    (eapply delta_entry; [done|done|done|done|]); by split.
Qed.

Lemma same_balance x v : v = 0 → set_balance (acc_balance x + v) x = x ∧ set_balance (acc_balance x - v) x = x.
Proof. intros ->. destruct x. unfold set_balance. simpl. split; f_equal; lia. Qed.

Transparent World.AddBalance World.SubBalance World.SetNonce World.SetCode.

Lemma AddBalance_good a v s w : world_rel s w → good (AddBalance db a v) tt s (World.AddBalance a v w).
Proof.
  intros Hw. apply change_good; [|done]. clear s w Hw. intros o x s w Hw Ho Ha Hx. unfold obj_AddBalance.
  destruct (Z.eqb_spec v 0) as [Hv|Hv].
  - destruct (same_balance x v Hv) as [-> _]. rewrite set_accounts_id by done.
    destruct (empty o); [by apply touch_good|by apply good_ret].
  - rewrite (ar_balance _ _ Hx). by apply setBalance_good.
Qed.

Lemma SubBalance_good a v s w : world_rel s w → good (SubBalance db a v) tt s (World.SubBalance a v w).
Proof.
  intros Hw. apply change_good; [|done]. clear s w Hw. intros o x s w Hw Ho Ha Hx. unfold obj_SubBalance.
  destruct (Z.eqb_spec v 0) as [Hv|Hv].
  - destruct (same_balance x v Hv) as [_ ->]. rewrite set_accounts_id by done. by apply good_ret.
  - rewrite (ar_balance _ _ Hx). by apply setBalance_good.
Qed.

Lemma SetNonce_good a n s w : world_rel s w → good (SetNonce db a n) tt s (World.SetNonce a n w).
Proof.
  intros Hw. apply change_good; [|done]. clear s w Hw. intros o x s w Hw Ho Ha Hx.
  destruct (world_rel_live s w a o Hw Ho) as (_ & Hoa & _). unfold obj_SetNonce. rewrite Hoa.
  apply (field_good a _ (setNonce n) (setNonce (o_Nonce o)) o); try done.
  by destruct Hx.
Qed.

(** A live object stays the same when its caches change. *)
Lemma world_rel_cached a o o' s w : world_rel s w → live s a = Some o → obj_equiv o' o →
  world_rel (setStateObject o' s) w ∧ equiv (setStateObject o' s) s ∧ live (setStateObject o' s) a = Some o'.
Proof.
  intros Hw Ho Hoe. destruct (world_rel_live s w a o Hw Ho) as (Hat & Ha & Hd & _).
  assert (equiv (setStateObject o' s) s) as He.
  { split; try done. intros b. rewrite obj_at_set, (oe_address _ _ Hoe), Ha.
    case_decide; [|done]. subst b. rewrite Hat. by constructor. }
  split; [by eapply world_rel_equiv|]. split; [done|].
  unfold live. rewrite obj_at_set, (oe_address _ _ Hoe), Ha, decide_True by done.
  cbn. unfold alive. by rewrite (oe_deleted _ _ Hoe), Hd.
Qed.

Lemma SetCode_good a c s w : world_rel s w → good (SetCode db a c) tt s (World.SetCode a c w).
Proof.
  intros Hw. apply change_good; [|done]. clear s w Hw. intros o x s w Hw Ho Ha Hx.
  unfold obj_SetCode. destruct (obj_Code_view o) as (o' & -> & Hoe).
  destruct (world_rel_live s w a o Hw Ho) as (Hat & Hoa & Hd & Hf & _).
  pose proof (acc_rel_equiv _ _ _ Hoe Hx) as Hx'.
  pose proof (oe_address _ _ Hoe) as Hoa'. pose proof (oe_deleted _ _ Hoe) as Hd'.
  pose proof (oe_fake _ _ Hoe) as Hf'.
  eexists. split; [done|]. split.
  { apply world_rel_set; [by apply world_rel_append|simpl; congruence|simpl; congruence|simpl; congruence|]. by destruct Hx'. }
  eapply delta_entry; [done|done|done| |].
  - cbn [revert]. apply update_object_live; [apply lookup_insert_eq|simpl; congruence].
  - split; try done. intros b. rewrite !obj_at_set. cbn [o_address setCode]. rewrite Hoa', Hoa.
    case_decide; [|done]. subst b. rewrite Hat. constructor. rewrite (ar_hash _ _ Hx'), BytesToFixed_fb.
    destruct Hoe. split; try done; cbn [o_CodeHash setCode].
    + by rewrite <- (ar_hash _ _ Hx').
    + unfold code_view at 1. cbn [o_code setCode]. destruct (code_view o) eqn:Hc; [done|].
      cbn [o_CodeHash setCode]. rewrite <- (ar_code _ _ Hx), Hc. by rewrite decide_True.
Qed.

Lemma set_slot_rel k v o x : fakeStorage o = None → acc_rel o x → acc_rel (setState k v o) (set_slot k v x).
Proof.
  intros Hf []. split; try done. intros k'. rewrite state_view_set by done. cbn [acc_storage set_slot].
  case_decide as Hk; [subst; by rewrite lookup_insert_eq|by rewrite lookup_insert_ne].
Qed.

Lemma same_slot_rel k o x : acc_rel o x → acc_rel o (set_slot k (state_view o k) x).
Proof.
  intros []. split; try done. intros k'. cbn [acc_storage set_slot].
  destruct (decide (k = k')) as [<-|Hk]; [by rewrite lookup_insert_eq|by rewrite lookup_insert_ne].
Qed.

Lemma SetState_good a k v s w : world_rel s w → good (SetState db a k v) tt s (World.SetState a k v w).
Proof.
  intros Hw. apply change_good; [|done]. clear s w Hw. intros o x s w Hw Ho Ha Hx.
  destruct (world_rel_live s w a o Hw Ho) as (Hat & Hoa & Hd & Hf & _).
  unfold obj_SetState. rewrite Hf. destruct (obj_GetState_view k o) as (o' & -> & Hoe).
  pose proof (acc_rel_equiv _ _ _ Hoe Hx) as Hx'. pose proof (oe_address _ _ Hoe) as Hoa'.
  pose proof (oe_deleted _ _ Hoe) as Hd'. pose proof (oe_fake _ _ Hoe) as Hf'.
  case_decide as Hv.
  - subst v. destruct (world_rel_cached a o o' s w Hw Ho Hoe) as (_ & He & _).
    eexists. split; [done|]. split; [|by apply delta_equiv].
    apply world_rel_set; [done|simpl; congruence|simpl; congruence|simpl; congruence|]. rewrite <- (oe_state _ _ Hoe).
    by apply same_slot_rel.
  - eexists. split; [done|]. split.
    { apply world_rel_set; [by apply world_rel_append|simpl; congruence|simpl; congruence|simpl; congruence|].
      apply set_slot_rel; [simpl; congruence|done]. }
    eapply delta_entry; [done|done|done| |].
    + cbn [revert]. apply update_object_live; [apply lookup_insert_eq|simpl; congruence].
    + split; try done. intros b. rewrite !obj_at_set. cbn [o_address setState]. rewrite Hoa', Hoa.
      case_decide; [|done]. subst b. rewrite Hat. constructor. rewrite <- (oe_state _ _ Hoe).
      assert (fakeStorage o' = None) as Hfo by congruence.
      etrans; [|exact Hoe]. split; try done. intros k'. rewrite !state_view_set by done. by case_decide; subst.
Qed.

Lemma Suicide_good a s w : world_rel s w →
  good (Suicide db a) (World.Suicide a w).1 s (World.Suicide a w).2.
Proof.
  intros Hw. unfold Suicide, mbind, stM_bind. destruct (getStateObject_spec a s) as (s1 & Hs & Hl).
  pose proof (world_rel_loads _ _ _ Hl Hw) as Hw1. unfold good, World.Suicide, World.Exist. rewrite Hs.
  destruct (world_rel_cases s w a Hw) as [(o & x & Ho & Hx & Hox)|[Ho Hx]]; rewrite Ho, Hx.
  2: { rewrite bool_decide_eq_false_2 by (by intros []). exists s1. split; [done|].
       split; [done|by apply delta_loads]. }
  rewrite bool_decide_eq_true_2 by done. eexists. split; [done|]. cbn [snd].
  destruct (world_rel_live s w a o Hw Ho) as (Hat & Hoa & Hd & Hf & _). destruct Hl as [Hl1 Hl2].
  split.
  - unfold update_account, account. rewrite Hx. apply world_rel_set; try done; [by apply world_rel_append|].
    destruct Hox. by split.
  - eapply delta_trans; [apply delta_loads; split; [exact Hl1|exact Hl2]|]. eapply delta_entry; [done|done|done| |].
    + cbn [revert]. unfold mbind, stM_bind, getStateObject, getDeletedStateObject, mbind, stM_bind.
      cbn. rewrite Hoa, lookup_insert_eq. cbn. rewrite Hd. done.
    + split; try done. intros b. rewrite !obj_at_set. cbn [o_address setBalance setSuicided]. rewrite Hoa.
      case_decide; [|done]. subst b. rewrite Hl2, Hat. constructor. by destruct o.
Qed.

(** ** The other operations *)

Lemma world_rel_other s s' w w' : (∀ a, obj_at s' a = obj_at s a) → accounts w' = accounts w →
  s_refund s' = refund w' → logs w' = map l_log (default [] (s_logs s' !! thash s')) →
  (∀ h, s_logs s' !! h ≠ Some []) → is_u64 (logSize s') →
  access_rel (s_accessList s') (access_addresses w') (access_slots w') →
  world_rel s w → world_rel s' w'.
Proof.
  intros Ho Ha ????? []. split; try done.
  - intros a. unfold live. rewrite Ho, Ha. apply wr_accounts0.
  - intros a o. rewrite Ho. eauto.
Qed.

Lemma AddRefund_good g s w : world_rel s w → good (AddRefund g) tt s (World.AddRefund g w).
Proof.
  intros Hw. eexists. split; [done|]. split.
  - destruct (Hw). apply (world_rel_other s _ w); try done. cbn. by rewrite wr_refund0.
  - eapply delta_entry; [done|done|done|done|]. by split.
Qed.

Lemma SubRefund_good g s w : world_rel s w → g ≤ refund w →
  good (SubRefund g) tt s (set_refund (refund w - g) w).
Proof.
  intros Hw Hg. unfold good, SubRefund, mbind, stM_bind, modify, getS. cbn [s_refund append with_journal].
  rewrite (wr_refund _ _ Hw). destruct (Z.ltb_spec (refund w) g); [lia|].
  eexists. split; [done|]. split.
  - destruct (Hw). by apply (world_rel_other s _ w).
  - eapply delta_entry; [done|done|done|done|]. split; try done. cbn. by destruct Hw.
Qed.

Lemma SubRefund_panic g s w : world_rel s w → refund w < g → ∃ s', SubRefund g s = (Panic, s').
Proof.
  intros Hw Hg. unfold SubRefund, mbind, stM_bind, modify, getS. cbn [s_refund append with_journal].
  rewrite (wr_refund _ _ Hw). destruct (Z.ltb_spec (refund w) g); [|lia]. by eexists.
Qed.

Lemma removeLog_add h x m : m !! h ≠ Some [] →
  removeLog h (<[h := default [] (m !! h) ++ [x]]> m) = Ok m.
Proof.
  intros Hm. unfold removeLog. rewrite lookup_insert_eq. cbn [default id]. rewrite length_app. cbn [length].
  destruct (m !! h) as [l|] eqn:Hl; cbn [default id].
  - destruct l as [|y l]; [done|]. cbn [length Nat.add Nat.eqb Nat.sub]. rewrite Nat.add_1_r. cbn [Nat.eqb Nat.sub].
    rewrite insert_insert_eq. f_equal. apply insert_id. rewrite Hl. f_equal.
    symmetry. apply (take_app_length' (y :: l)). done.
  - cbn. f_equal. by apply delete_insert_id.
Qed.

Lemma AddLog_good l s w : world_rel s w → good (AddLog l) tt s (World.AddLog l w).
Proof.
  intros Hw. eexists. split; [done|]. destruct (Hw). split.
  - apply (world_rel_other s _ w); try done; cbn [s_logs with_logs thash append with_journal logSize].
    + rewrite lookup_insert_eq. cbn [default id logs World.AddLog]. by rewrite wr_logs0, map_app.
    + intros h. destruct (decide (thash s = h)) as [<-|Hh].
      * rewrite lookup_insert_eq. by destruct (default [] _).
      * by rewrite lookup_insert_ne.
    + unfold u64, is_u64, two64. apply Z.mod_pos_bound. lia.
  - eapply delta_entry; [done|done|done| |].
    + cbn [revert]. unfold mbind, stM_bind, getS, liftR, modify. cbn [s_logs with_logs thash append with_journal].
      rewrite removeLog_add by done. done.
    + split; try done. cbn [logSize with_logs append with_journal]. unfold u64, is_u64, two64 in *. dlia.
Qed.

Lemma AddPreimage_good h b s w : world_rel s w → good (AddPreimage h b) tt s w.
Proof.
  intros Hw. unfold good, AddPreimage, mbind, stM_bind, getS, modify.
  destruct (preimages s !! h) eqn:Hp; [by apply (good_ret tt)|]. eexists. split; [done|]. split.
  - destruct (Hw). by apply (world_rel_other s _ w).
  - eapply delta_entry; [done|done|done|done|]. split; try done. cbn. by apply delete_insert_id.
Qed.

(** *** The access list *)

Lemma AddAddress_rel a al A S : access_rel al A S →
  access_rel (AddAddress a al).2 ({[a]} ∪ A) S.
Proof.
  intros [Ha Hs Hi Ho]. unfold AddAddress. destruct (addresses al !! a) as [z|] eqn:Haz; cbn [snd].
  - split; try done. intros b. rewrite elem_of_union, elem_of_singleton, <- Ha.
    split; [by right|]. intros [->|Hb]; [by rewrite Haz|done].
  - split; cbn [addresses slots].
    + intros b. rewrite elem_of_union, elem_of_singleton, <- Ha, lookup_insert_is_Some'. naive_solver.
    + intros b k. rewrite Hs. destruct (decide (a = b)) as [<-|Hb].
      * rewrite lookup_insert_eq, Haz. split; [by intros (?&?&?&?)|]. intros (i & ? & ? & ?). exfalso. simplify_eq. lia.
      * by rewrite lookup_insert_ne.
    + intros b z. destruct (decide (a = b)) as [<-|Hb].
      * rewrite lookup_insert_eq. intros [= <-]. by left.
      * rewrite lookup_insert_ne by done. apply Hi.
    + intros b c i. destruct (decide (a = b)) as [<-|Hb]; [rewrite lookup_insert_eq; intros; exfalso; simplify_eq; lia|].
      destruct (decide (a = c)) as [<-|Hc]; [rewrite lookup_insert_eq; intros; exfalso; simplify_eq; lia|].
      rewrite !lookup_insert_ne by done. apply Ho.
Qed.

Lemma AddAddressToAccessList_good a s w : world_rel s w →
  good (AddAddressToAccessList a) tt s (World.AddAddressToAccessList a w).
Proof.
  intros Hw. pose proof (AddAddress_rel a _ _ _ (wr_access _ _ Hw)) as Ha.
  unfold good, AddAddressToAccessList, mbind, stM_bind, getS, modify, AddAddress in *.
  destruct (addresses (s_accessList s) !! a) as [z|] eqn:Haz; (eexists; split; [done|]); split.
  - destruct (Hw). by apply (world_rel_other s _ w).
  - by apply delta_equiv.
  - destruct (Hw). by apply (world_rel_other s _ w).
  - eapply delta_entry; [done|done|done|done|]. split; try done. cbn. unfold DeleteAddress. cbn.
    rewrite delete_insert_id by done. by destruct (s_accessList s).
Qed.

(** What the entries of [AddSlotToAccessList] undo. *)
Definition slot_undone (a : Address) (k : Hash) (addrMod slotMod : bool) (al al' : accessList) : Prop :=
  if slotMod then
    ∃ al'', DeleteSlot a k al' = Ok al'' ∧ (if addrMod then DeleteAddress a al'' else al'') = al
  else addrMod = false ∧ al' = al.

(** A new set of slots. *)
Lemma fresh_slot_rel a k al A S : access_rel al A S →
  addresses al !! a = None ∨ addresses al !! a = Some (-1) →
  access_rel (MkAccessList (<[a := Z.of_nat (length (slots al))]> (addresses al)) (slots al ++ [{[k]}]))
    ({[a]} ∪ A) ({[(a, k)]} ∪ S).
Proof.
  intros [Ha Hs Hi Ho] Hno. split; cbn [addresses slots].
  - intros b. rewrite elem_of_union, elem_of_singleton, <- Ha, lookup_insert_is_Some'. naive_solver.
  - intros b k'. rewrite elem_of_union, elem_of_singleton, Hs. destruct (decide (a = b)) as [<-|Hb].
    + rewrite lookup_insert_eq. split.
      * intros [[= ->]|(i & m & Hai & _)]; [|exfalso; destruct Hno as [Hno|Hno]; rewrite Hno in Hai; simplify_eq; lia].
        eexists _, _. split; [done|]. rewrite list_lookup_middle by done. split; [done|]. set_solver.
      * intros (i & m & Hi' & Hm & Hk). assert (i = length (slots al)) as -> by (simplify_eq; lia).
        rewrite list_lookup_middle in Hm by done. left. set_solver.
    + rewrite lookup_insert_ne by done. split.
      * intros [?|(i & m & Hai & Hm & Hk)]; [congruence|]. exists i, m. split_and!; [done| |done].
        by apply lookup_app_l_Some.
      * intros (i & m & Hai & Hm & Hk). right. exists i, m. split_and!; [done| |done].
        destruct (Hi b _ Hai) as [?|(j & m' & Hj & Hm' & _)]; [lia|]. assert (i = j) as -> by lia.
        rewrite lookup_app_l in Hm by (eapply lookup_lt_Some; exact Hm'). done.
  - intros b z. destruct (decide (a = b)) as [<-|Hb].
    + rewrite lookup_insert_eq. intros [= <-]. right. eexists _, _. split; [done|].
      rewrite list_lookup_middle by done. split; [done|]. set_solver.
    + rewrite lookup_insert_ne by done. intros Hz. destruct (Hi b z Hz) as [->|(i & m & -> & Hm & Hne)]; [by left|].
      right. exists i, m. split_and!; [done| |done]. by apply lookup_app_l_Some.
  - assert (∀ b i, a ≠ b → addresses al !! b = Some (Z.of_nat i) → i ≠ length (slots al)) as Hlt.
    { intros b i Hb Hai ->. destruct (Hi b _ Hai) as [?|(j & m' & Hj & Hm' & _)]; [lia|].
      apply lookup_lt_Some in Hm'. lia. }
    intros b c i. destruct (decide (a = b)) as [<-|Hb], (decide (a = c)) as [<-|Hc];
      rewrite ?lookup_insert_eq, ?lookup_insert_ne by done; intros H1 H2; try done.
    + exfalso. apply (Hlt c i Hc H2). simplify_eq. lia.
    + exfalso. apply (Hlt b i Hb H1). simplify_eq. lia.
    + by eapply Ho.
Qed.

(** A new slot in the set of the address. *)
Lemma more_slot_rel a k al A S i m : access_rel al A S →
  addresses al !! a = Some (Z.of_nat i) → slots al !! i = Some m →
  access_rel (MkAccessList (addresses al) (<[i := {[k]} ∪ m]> (slots al))) ({[a]} ∪ A) ({[(a, k)]} ∪ S).
Proof.
  intros [Ha Hs Hi Ho] Hai Hm. pose proof (lookup_lt_Some _ _ _ Hm) as Hlt. split; cbn [addresses slots].
  - intros b. rewrite elem_of_union, elem_of_singleton, <- Ha. split; [by right|].
    intros [->|Hb]; [by rewrite Hai|done].
  - intros b k'. rewrite elem_of_union, elem_of_singleton, Hs. split.
    + intros [[= -> ->]|(j & m' & Hbj & Hm' & Hk)].
      * exists i, ({[k]} ∪ m). rewrite list_lookup_insert_eq by done. split_and!; [done|done|set_solver].
      * destruct (decide (i = j)) as [<-|Hij].
        -- assert (m' = m) as -> by congruence. exists i, ({[k]} ∪ m). rewrite list_lookup_insert_eq by done. set_solver.
        -- exists j, m'. by rewrite list_lookup_insert_ne.
    + intros (j & m' & Hbj & Hm' & Hk). destruct (decide (i = j)) as [<-|Hij].
      * rewrite list_lookup_insert_eq in Hm' by done. injection Hm' as <-. assert (b = a) as -> by by eapply Ho.
        apply elem_of_union in Hk as [Hk|Hk]; [left; set_solver|right; eauto].
      * rewrite list_lookup_insert_ne in Hm' by done. right. eauto.
  - intros b z Hz. destruct (Hi b z Hz) as [->|(j & m' & -> & Hm' & Hne)]; [by left|]. right.
    destruct (decide (i = j)) as [<-|Hij].
    + exists i, ({[k]} ∪ m). rewrite list_lookup_insert_eq by done. split_and!; [done|done|set_solver].
    + exists j, m'. by rewrite list_lookup_insert_ne.
  - exact Ho.
Qed.

Lemma AddSlot_rel a k al A S : access_rel al A S → ∃ am sm al', AddSlot a k al = Ok (am, sm, al') ∧
  access_rel al' ({[a]} ∪ A) ({[(a, k)]} ∪ S) ∧ slot_undone a k am sm al al'.
Proof.
  intros Hr. pose proof (fresh_slot_rel a k al A S Hr) as Hfresh. unfold AddSlot.
  assert (∀ n : nat, Z.of_nat n <? 0 = false) as Hpos by (intros; apply Z.ltb_ge; lia).
  assert (∀ d, addresses al !! a = d →
    DeleteSlot a k (MkAccessList (<[a := Z.of_nat (length (slots al))]> (addresses al)) (slots al ++ [{[k]}])) =
    Ok (MkAccessList (<[a := -1]> (addresses al)) (slots al))) as Hdel.
  { intros d _. unfold DeleteSlot. cbn [addresses slots]. rewrite lookup_insert_eq. cbn. rewrite Hpos, Nat2Z.id.
    unfold go_index. rewrite list_lookup_middle by done. cbn. rewrite difference_diag_L, size_empty. cbn.
    by rewrite insert_insert_eq, take_app_length. }
  destruct (addresses al !! a) as [z|] eqn:Haz.
  2: { eexists _, _, _. split; [done|]. split; [by apply Hfresh; left|]. cbn.
       eexists. split; [by apply (Hdel None)|]. unfold DeleteAddress. cbn. rewrite delete_insert_id by done. by destruct al. }
  destruct (al_index _ _ _ Hr a z Haz) as [->|(i & m & -> & Hm & Hne)]; cbn [Z.eqb].
  { eexists _, _, _. split; [done|]. split; [by apply Hfresh; right|]. cbn.
    eexists. split; [by apply (Hdel (Some (-1)))|]. rewrite insert_id by done. by destruct al. }
  replace (Z.of_nat i =? -1) with false by (symmetry; apply Z.eqb_neq; lia).
  rewrite Nat2Z.id. unfold go_index. rewrite Hm. cbn [deref mbind go_res_bind].
  pose proof (more_slot_rel a k al A S i m Hr Haz Hm) as Hmore. case_decide as Hk.
  - eexists _, _, _. split; [done|]. split; [|done].
    replace ({[k]} ∪ m) with m in Hmore by set_solver. rewrite list_insert_id in Hmore by done. by destruct al.
  - eexists _, _, _. split; [done|]. split; [done|]. cbn. eexists. unfold DeleteSlot. cbn [addresses slots].
    rewrite Haz. cbn. rewrite Hpos, Nat2Z.id. unfold go_index.
    rewrite list_lookup_insert_eq by (by eapply lookup_lt_Some). cbn.
    replace (({[k]} ∪ m) ∖ {[k]}) with m by set_solver.
    replace (Nat.eqb (size m) 0) with false
      by (symmetry; apply Nat.eqb_neq; intros Hz%size_empty_inv; apply Hne; by apply leibniz_equiv).
    split; [done|]. rewrite list_insert_insert_eq, list_insert_id by done. by destruct al.
Qed.

Lemma AddSlotToAccessList_good a k s w : world_rel s w →
  good (AddSlotToAccessList a k) tt s (World.AddSlotToAccessList a k w).
Proof.
  intros Hw. destruct (AddSlot_rel a k _ _ _ (wr_access _ _ Hw)) as (am & sm & al & Hal & Hrel & Hundo).
  unfold good, AddSlotToAccessList, mbind, stM_bind, getS, liftR, modify. rewrite Hal.
  assert (∀ j, world_rel (with_journal j (with_access al s)) (World.AddSlotToAccessList a k w)) as Hwr
    by (intros; destruct (Hw); by apply (world_rel_other s _ w)).
  unfold slot_undone in Hundo. destruct sm.
  - destruct Hundo as (al'' & Hd & Hback). destruct am; (eexists; split; [done|]); (split; [apply Hwr|]).
    + split; [|done|done]. eexists [_; _], _. split; [unfold log_of; cbn; by rewrite <- app_assoc|]. cbn [rev app revert_all revert].
      unfold mbind, stM_bind, getS, liftR, modify. cbn. rewrite Hd. split; [done|]. by split.
    + eapply delta_entry; [done|done|done| |]; [cbn; unfold mbind, stM_bind, getS, liftR; cbn; by rewrite Hd|]. by split.
  - destruct Hundo as [-> ->]. eexists. split; [done|]. split; [apply (Hwr (s_journal s))|]. by apply delta_equiv.
Qed.

(** ** Snapshots *)

(** Undoing the journal down to the revision leads to the world of the snapshot. *)
Definition snap_rel (s : StateDB) (r : Z * nat) (x : Z * World) : Prop :=
  r.1 = x.1 ∧ (r.2 ≤ length (log_of s))%nat ∧
  ∃ s', revert_all db (rev (drop r.2 (log_of s))) s = (Ok tt, s') ∧ world_rel s' x.2.

Definition before (r r' : Z * nat) : Prop := r.1 < r'.1 ∧ (r.2 ≤ r'.2)%nat.

Record refines (s : StateDB) (m : Machine) : Prop := {
  rf_world : world_rel s (m_world m);
  rf_next : nextRevisionId s = m_next m;
  rf_snaps : Forall2 (snap_rel s) (validRevisions s) (m_snaps m);
  rf_sorted : StronglySorted before (validRevisions s);
  rf_ids : Forall (λ r, r.1 < nextRevisionId s) (validRevisions s)
}.

Lemma snap_rel_delta s s' r x : delta s s' → snap_rel s r x → snap_rel s' r x.
Proof.
  intros [(es & t & Hl & Hr & He) _ _] (Hid & Hle & s1 & Hs1 & Hw). split; [done|].
  rewrite Hl, length_app. split; [lia|]. rewrite drop_app_le, rev_app_distr, revert_all_app by done.
  unfold mbind, stM_bind. rewrite Hr. symmetry in He.
  destruct (revert_all_equiv _ _ _ _ He Hs1) as (t' & -> & He'). exists t'. split; [done|].
  eapply world_rel_equiv; [symmetry; exact He'|done].
Qed.

Lemma refines_delta s s' m w : refines s m → delta s s' → world_rel s' w →
  refines s' (MkMachine w (m_snaps m) (m_next m)).
Proof.
  intros [] Hd Hw. pose proof (dl_revisions _ _ Hd) as Hv. pose proof (dl_next _ _ Hd) as Hn.
  split; cbn; rewrite ?Hv, ?Hn; try done. eapply Forall2_impl; [done|]. intros. by eapply snap_rel_delta.
Qed.

Lemma sorted_snoc l r : StronglySorted before l → Forall (λ r', before r' r) l →
  StronglySorted before (l ++ [r]).
Proof.
  induction 1 as [|r' l Hs IH Hf]; intros Hr; cbn; [by repeat constructor|].
  inversion Hr; subst. constructor; [by apply IH|]. apply Forall_app. split; [done|by constructor].
Qed.

(** Taking a snapshot. *)
Lemma Snapshot_refines s m : refines s m → ∃ s',
  Snapshot s = (Ok (m_next m), s') ∧
  refines s' (MkMachine (m_world m) (m_snaps m ++ [(m_next m, m_world m)]) (m_next m + 1)).
Proof.
  intros [Hw Hn Hs Hso Hid]. unfold Snapshot, mbind, stM_bind, getS, modify. rewrite Hn.
  eexists. split; [done|].
  set (s' := with_revisions _ _ s). assert (equiv s' s) as He by by split.
  assert (world_rel s' (m_world m)) as Hw' by by eapply world_rel_equiv.
  assert (∀ r x, snap_rel s r x → snap_rel s' r x) as Hsnap.
  { intros r x (? & ? & s1 & Hr & Hw1). split; [done|]. split; [done|]. symmetry in He.
    destruct (revert_all_equiv _ _ _ _ He Hr) as (t & Ht & He1). exists t. split; [done|].
    eapply world_rel_equiv; [symmetry; exact He1|done]. }
  split; cbn.
  - done.
  - done.
  - apply Forall2_app; [eapply Forall2_impl; eauto|]. constructor; [|constructor]. split; [done|].
    split; [done|]. cbn. exists s'. rewrite drop_all. split; [done|]. done.
  - apply sorted_snoc; [done|]. rewrite Hn in Hid. clear - Hid Hs.
    induction Hs as [|r x ?? (_ & Hle & _)]; inversion Hid; constructor; [done|auto].
  - apply Forall_app. split; [|repeat constructor; cbn; lia]. rewrite Hn in Hid.
    eapply Forall_impl; [done|]. cbn. lia.
Qed.

(** *** Going back *)

Lemma revert_keeps e s r s' : revert db e s = (r, s') →
  validRevisions s' = validRevisions s ∧ nextRevisionId s' = nextRevisionId s.
Proof.
  assert (∀ a s1, (∃ r, getStateObject db a s = (r, s1)) →
    validRevisions s1 = validRevisions s ∧ nextRevisionId s1 = nextRevisionId s) as Hg.
  { intros a s1 (r1 & Hs1). destruct (getStateObject_spec a s) as (s2 & Hs2 & [Hl _]).
    rewrite Hs1 in Hs2. injection Hs2 as -> ->. rewrite Hl. done. }
  destruct e as [a|p|a b z|a b|a n|a k v|a c h|p|h|h|a|a|a k]; cbn [revert];
    unfold update_object, mbind, stM_bind, getS, liftR, modify, mret, stM_ret; intros Hr; simplify_eq; try done.
  1-5: destruct (getStateObject db a s) as [r1 s1] eqn:Hs1; destruct (Hg a s1 ltac:(by eexists)) as [<- <-];
    destruct r1 as [[o|]| | |]; cbn in Hr; by simplify_eq.
  - destruct (removeLog _ _); by simplify_eq.
  - destruct (DeleteSlot _ _ _); by simplify_eq.
Qed.

Lemma revert_all_keeps es : ∀ s r s', revert_all db es s = (r, s') →
  validRevisions s' = validRevisions s ∧ nextRevisionId s' = nextRevisionId s.
Proof.
  induction es as [|e es IH]; intros s r s'; cbn [revert_all]; unfold mbind, stM_bind, modify.
  { by intros [= _ <-]. }
  destruct (revert db e s) as [r1 s1] eqn:He. destruct (revert_keeps _ _ _ _ He) as [<- <-].
  destruct r1; intros Hr; simplify_eq; [|done..]. by apply IH in Hr.
Qed.

Lemma sorted_lookup l : StronglySorted before l → ∀ j k r r', (j < k)%nat → l !! j = Some r →
  l !! k = Some r' → before r r'.
Proof.
  induction 1 as [|x l Hs IH Hf]; intros [|j] [|k] r r' Hjk Hj Hk; try lia; simplify_eq/=.
  - by eapply Forall_lookup_1.
  - eapply IH; [|done|done]. lia.
Qed.

(** The binary search finds the revision that a search from the start finds. *)
Lemma Search_revision l id : StronglySorted before l →
  let i := Search (length l) (λ i, match l !! i with Some r => id <=? r.1 | None => true end) in
  (∃ r, l !! i = Some r ∧ r.1 = id ∧ ∀ j r', (j < i)%nat → l !! j = Some r' → r'.1 ≠ id) ∨
  (∀ r, l !! i = Some r → r.1 ≠ id) ∧ ∀ j r', l !! j = Some r' → r'.1 ≠ id.
Proof.
  intros Hs i.
  assert (∀ j k r r', (j < k)%nat → l !! j = Some r → l !! k = Some r' → r.1 < r'.1) as Hlt.
  { intros j k r r' Hjk Hj Hk. by apply (sorted_lookup l Hs j k r r'). }
  destruct (Search_spec (length l) (λ i, match l !! i with Some r => id <=? r.1 | None => true end)) as (Hn & Hlow & Hhigh).
  { intros j k Hjk. destruct (l !! j) as [r|] eqn:Hj, (l !! k) as [r'|] eqn:Hk; try done.
    - destruct (decide (j = k)) as [->|Hne]; [by simplify_eq|]. pose proof (Hlt j k r r' ltac:(lia) Hj Hk). lia.
    - apply lookup_ge_None in Hj. lia. }
  fold i in Hn, Hlow, Hhigh.
  assert (∀ j r', (j < i)%nat → l !! j = Some r' → r'.1 ≠ id) as Hlow'.
  { intros j r' Hj Hr'. specialize (Hlow j Hj). cbv beta in Hlow. rewrite Hr' in Hlow. lia. }
  destruct (l !! i) as [r|] eqn:Hi.
  - destruct (decide (r.1 = id)) as [Heq|Hne]; [left; eauto|right]. split; [congruence|].
    intros j r' Hr'. destruct (Nat.lt_trichotomy j i) as [Hj|[->|Hj]]; [eauto|congruence|].
    pose proof (Hlt i j r r' Hj Hi Hr'). specialize (Hhigh i ltac:(split; [done|by eapply lookup_lt_Some])).
    cbv beta in Hhigh. rewrite Hi in Hhigh. lia.
  - right. split; [done|]. intros j r' Hr'. apply (Hlow' j); [|done].
    apply lookup_ge_None in Hi. apply lookup_lt_Some in Hr'. lia.
Qed.

Lemma sorted_take i l : StronglySorted before l → StronglySorted before (take i l).
Proof.
  intros Hs. revert i. induction Hs as [|x l Hs IH Hf]; intros [|i]; cbn; try constructor; [done|].
  by apply Forall_take.
Qed.

Lemma RevertToSnapshot_refines s m id i w : refines s m →
  list_find (λ x, x.1 = id) (m_snaps m) = Some (i, (id, w)) → ∃ s',
  RevertToSnapshot db id s = (Ok tt, s') ∧ refines s' (MkMachine w (take i (m_snaps m)) (m_next m)).
Proof.
  intros [Hw Hn Hs Hso Hid] (Hi & _ & Hfirst)%list_find_Some.
  destruct (Forall2_lookup_r _ _ _ _ _ Hs Hi) as ((id' & n) & Hr & Hsnap).
  destruct (Hsnap) as (Hid' & Hle & s1 & Hs1 & Hw1). cbn [fst snd] in *. subst id'.
  unfold RevertToSnapshot, mbind, stM_bind, getS, liftR. set (k := Search _ _).
  assert (k = i) as ->.
  { pose proof (Search_revision (validRevisions s) id Hso) as Hk. cbv zeta in Hk. fold k in Hk. clearbody k.
    destruct Hk as [(r & Hk & Hrid & Hmin)|[_ Hno]]; [|by destruct (Hno i _ Hr)].
    destruct (Nat.lt_trichotomy k i) as [Hlt|[Heq|Hlt]]; [|exact Heq|].
    - destruct (Forall2_lookup_l _ _ _ _ _ Hs Hk) as (x & Hx & Hxid & _).
      destruct (Hfirst _ _ Hx Hlt). congruence.
    - by destruct (Hmin i _ Hlt Hr). }
  rewrite Hr. cbn [deref fst snd]. rewrite Z.eqb_refl. cbn [negb].
  unfold journal_revert, mbind, stM_bind, getS, liftR, modify.
  fold (log_of s). rewrite Hs1. unfold go_slice.
  replace (Nat.leb 0 n && Nat.leb n (length (log_of s))) with true
    by (symmetry; apply andb_true_intro; split; [done|by apply Nat.leb_le]).
  rewrite Nat.sub_0_r, drop_0. destruct (revert_all_keeps _ _ _ _ Hs1) as [Hv1 Hn1].
  eexists. split; [done|]. set (s' := with_revisions _ _ _).
  assert (equiv s1 s') as He by by split.
  split; cbn; rewrite ?Hv1, ?Hn1.
  - eapply world_rel_equiv; [symmetry; exact He|done].
  - done.
  - apply Forall2_lookup. intros j. destruct (decide (j < i)%nat) as [Hj|Hj].
    2: { rewrite !lookup_take_ge by lia. constructor. }
    rewrite !lookup_take_lt by done. pose proof (proj1 (Forall2_lookup _ _ _) Hs j) as Hrel.
    destruct (validRevisions s !! j) as [r|] eqn:Hrj; inversion Hrel as [? x Hx HA HB|]; subst; constructor.
    pose proof (sorted_lookup _ Hso j i _ _ Hj Hrj Hr) as [_ Hjn]. cbn in Hjn.
    destruct Hx as (Hxid & Hxle & s2 & Hs2 & Hw2). split; [done|].
    change (log_of s') with (take n (log_of s)). rewrite length_take. split; [lia|].
    rewrite <- (take_drop n (log_of s)), drop_app_le, rev_app_distr, revert_all_app in Hs2
      by (rewrite length_take; lia).
    unfold mbind, stM_bind in Hs2. rewrite Hs1 in Hs2.
    destruct (revert_all_equiv _ _ _ _ He Hs2) as (t & Ht & He2). exists t. split; [done|].
    eapply world_rel_equiv; [symmetry; exact He2|done].
  - by apply sorted_take.
  - by apply Forall_take.
Qed.

Lemma RevertToSnapshot_panic s m id : refines s m →
  list_find (λ x, x.1 = id) (m_snaps m) = None → ∃ s', RevertToSnapshot db id s = (Panic, s').
Proof.
  intros [Hw Hn Hs Hso Hid] Hno%list_find_None.
  assert (∀ j r, validRevisions s !! j = Some r → r.1 ≠ id) as Hne.
  { intros j r Hr. destruct (Forall2_lookup_l _ _ _ _ _ Hs Hr) as (x & Hx & -> & _). by eapply Forall_lookup_1 in Hno. }
  unfold RevertToSnapshot, mbind, stM_bind, getS, liftR.
  destruct (validRevisions s !! _) as [r|] eqn:Hr; [|by eexists].
  cbn [deref]. apply Hne, Z.eqb_neq in Hr. rewrite Hr. by eexists.
Qed.

(** ** Refinement *)

Lemma good_step {A} (f : A → answer) (m : stM StateDB A) r s M w : refines s M → good m r s w → ∃ s',
  ans f m s = (Ok (f r), s') ∧ refines s' (MkMachine w (m_snaps M) (m_next M)).
Proof.
  intros Hr (s' & Hm & Hw & Hd). exists s'. unfold ans, mbind, stM_bind. rewrite Hm. split; [done|].
  by eapply refines_delta.
Qed.

Transparent World.GetBalance World.GetNonce World.GetCode.

(** The reads of an account. *)
Lemma getter_step {A} (none : A) (g : stateObject → A * stateObject) (f : A → answer) a s M r :
  (∀ o, ∃ o', g o = ((g o).1, o') ∧ obj_equiv o' o) →
  (accounts (m_world M) !! a = None → none = r) →
  (∀ o x, accounts (m_world M) !! a = Some x → acc_rel o x → (g o).1 = r) →
  refines s M → ∃ s', ans f (getter db none g a) s = (Ok (f r), s') ∧ refines s' M.
Proof.
  intros Hg Hn Hs Hr. pose proof (rf_world _ _ Hr) as Hw.
  pose proof (getter_good none g a s _ Hg Hw) as Hgood.
  replace (match live s a with None => none | Some o => (g o).1 end) with r in Hgood.
  2: { destruct (world_rel_cases s _ a Hw) as [(o & x & -> & Hx & Hox)|[-> Hx]]; symmetry; eauto. }
  destruct (good_step f _ r s M _ Hr Hgood) as (s' & Hs' & Hr'). exists s'. split; [done|]. by destruct M.
Qed.

Lemma viewed {A} (f : stateObject → A * stateObject) (v : A) o : (∃ o', f o = (v, o') ∧ obj_equiv o' o) →
  ∃ o', f o = ((f o).1, o') ∧ obj_equiv o' o.
Proof. intros (o' & Hf & Ho). exists o'. by rewrite Hf. Qed.

Lemma view_fst {A} (f : stateObject → A * stateObject) (v : A) o : (∃ o', f o = (v, o') ∧ obj_equiv o' o) → (f o).1 = v.
Proof. intros (o' & -> & _). done. Qed.

Lemma GetCode_step (f : option bytes → answer) a s M : refines s M → ∃ s',
  ans f (GetCode db a) s = (Ok (f (World.GetCode (m_world M) a)), s') ∧ refines s' M.
Proof.
  apply getter_step; [intros o; apply (viewed _ _ _ (obj_Code_view o))|..];
    unfold World.GetCode, account; [by intros ->|].
  intros o x -> Hx. rewrite (view_fst _ _ _ (obj_Code_view o)). apply Hx.
Qed.

Lemma IsValidatorAddress_step a s M : refines s M → ∃ s',
  ans ABool (IsValidatorAddress db a) s = (Ok (ABool (World.IsValidatorAddress (m_world M) a)), s') ∧ refines s' M.
Proof.
  intros Hr. destruct (GetCode_step ACode a s M Hr) as (s' & Hs & Hr'). exists s'. split; [|done].
  unfold ans, mbind, stM_bind in *. unfold IsValidatorAddress, mbind, stM_bind.
  destruct (GetCode db a s) as [[c| | |] s1]; try done. injection Hs as -> ->.
  unfold World.IsValidatorAddress. destruct (World.GetCode (m_world M) a) as [c|]; [|done]. cbn [default id].
  destruct (Nat.ltb_spec (length c) 20), (Nat.leb_spec 20 (length c)); try lia; done.
Qed.

Lemma empty_view o x : acc_rel o x →
  empty o = (acc_nonce x =? 0) && (acc_balance x =? 0) &&
            bool_decide (keccak256 (default [] (acc_code x)) = keccak256 []).
Proof.
  intros []. unfold empty, emptyCodeHash. rewrite ar_nonce0, ar_balance0, ar_hash0. f_equal.
  apply bool_decide_ext. split; [apply fixed_eq|congruence].
Qed.

Lemma size_view o x : acc_rel o x → obj_CodeSize db o = Z.of_nat (length (default [] (acc_code x))).
Proof.
  intros Hx. rewrite <- (ar_code _ _ Hx). unfold obj_CodeSize, code_view.
  destruct (o_code o); [done|]. by case_decide.
Qed.

(** The reads, of which only the answers need a proof. *)
Lemma read_step o s M : refines s M →
  match o with
  | OpExist _ | OpEmpty _ | OpGetBalance _ | OpGetNonce _ | OpGetCode _ | OpGetCodeSize _ | OpGetCodeHash _
  | OpGetState _ _ | OpGetCommittedState _ _ | OpHasSuicided _ | OpIsValidatorAddress _ =>
      ∃ s', db_step o s = ((machine_step o M).1, s') ∧ refines s' M
  | _ => True
  end.
Proof.
  intros Hr. destruct o as [a|a|a|a|a|a|a|a k|a k|a|a| |a|a k|a|a v|a v|a v|a n|a c|a k v|a|g|g|l|h b|a|a k| |id]; try done;
    cbn [db_step machine_step reads gets fst].
  5: by apply (GetCode_step ACode).
  10: by apply IsValidatorAddress_step.
  all: apply getter_step; [..|exact Hr]; unfold World.Exist, World.Empty, World.GetBalance, World.GetNonce,
    World.GetCodeSize, World.GetCodeHash, World.GetState, World.GetCommittedState, World.HasSuicided,
    World.GetCode, World.GetNonce, World.GetBalance, World.Exist, account.
  all: try (intros o; by exists o).
  all: try (intros ->; done).
  all: try (intros o x -> Hx; apply Hx).
  - by intros o x -> _.
  - intros o x -> Hx. by apply empty_view.
  - intros o x -> Hx. by apply size_view.
  - intros o x -> Hx. cbn. rewrite (ar_hash _ _ Hx). apply BytesToFixed_fb.
  - intros o. apply (viewed _ _ _ (obj_GetState_view k o)).
  - intros o x -> Hx. rewrite (view_fst _ _ _ (obj_GetState_view k o)). apply Hx.
  - intros o. apply (viewed _ _ _ (obj_GetCommittedState_view k o)).
  - intros o x -> Hx. rewrite (view_fst _ _ _ (obj_GetCommittedState_view k o)). apply Hx.
Qed.

Lemma access_step a k s M : refines s M →
  (∃ s', db_step (OpAddressInAccessList a) s = ((machine_step (OpAddressInAccessList a) M).1, s') ∧ refines s' M) ∧
  (∃ s', db_step (OpSlotInAccessList a k) s = ((machine_step (OpSlotInAccessList a k) M).1, s') ∧ refines s' M).
Proof.
  intros Hr. destruct (wr_access _ _ (rf_world _ _ Hr)) as [Ha Hs Hi Ho].
  assert (ContainsAddress (s_accessList s) a = World.AddressInAccessList (m_world M) a) as Hc
    by (apply bool_decide_ext, Ha).
  split; exists s; (split; [|done]); cbn [db_step machine_step reads gets fst];
    unfold ans, mbind, stM_bind, gets; cbn.
  { by rewrite Hc. }
  unfold SlotInAccessList, mbind, stM_bind, getS, liftR, Contains. rewrite <- Hc. unfold ContainsAddress.
  destruct (addresses (s_accessList s) !! a) as [z|] eqn:Haz.
  2: { cbn. rewrite (bool_decide_eq_false_2 ((a, k) ∈ _)); [done|]. rewrite Hs. intros (i & m & ? & _). congruence. }
  destruct (Hi a z Haz) as [->|(i & m & -> & Hm & _)]; cbn [Z.eqb].
  { cbn. rewrite (bool_decide_eq_false_2 ((a, k) ∈ _)); [done|]. rewrite Hs. intros (i & m & Hai & _).
    rewrite Haz in Hai. simplify_eq. lia. }
  replace (Z.of_nat i =? -1) with false by (symmetry; apply Z.eqb_neq; lia).
  rewrite Nat2Z.id. unfold go_index. rewrite Hm. cbn. unfold mret, stM_ret. do 3 f_equal. apply bool_decide_ext. rewrite Hs. split.
  - intros Hk. eauto.
  - intros (j & m' & Hj & Hm' & Hk). rewrite Haz in Hj. assert (i = j) as -> by (simplify_eq; lia). congruence.
Qed.

Lemma db_step_refines o s M : refines s M → ∃ s', db_step o s = ((machine_step o M).1, s') ∧
  (∀ x, (machine_step o M).1 = Ok x → refines s' (machine_step o M).2).
Proof.
  intros Hr. pose proof (read_step o s M Hr) as Hread. pose proof (rf_world _ _ Hr) as Hw.
  assert (∀ m w, good m tt s w → ∃ s', ans ignore m s = (Ok ADone, s') ∧ refines s' (MkMachine w (m_snaps M) (m_next M))) as Hgood
    by (intros m w; by apply good_step).
  assert (∀ m w, good m tt s w → ∃ s', ans ignore m s = (Ok ADone, s') ∧
    (∀ x, Ok ADone = Ok x → refines s' (MkMachine w (m_snaps M) (m_next M)))) as Hgood'
    by (intros m w Hg; destruct (Hgood m w Hg) as (s' & ? & ?); by exists s').
  destruct o as [a|a|a|a|a|a|a|a k|a k|a|a| |a|a k|a|a v|a v|a v|a n|a c|a k v|a|g|g|l|h b|a|a k| |id].
  1-11: destruct Hread as (s' & -> & Hr'); exists s'; by split.
  all: cbn [db_step machine_step writes fst snd].
  4-10: apply Hgood'; eauto using CreateAccount_good, AddBalance_good, SubBalance_good, SetBalance_good, SetNonce_good,
    SetCode_good, SetState_good.
  - exists s. unfold ans, mbind, stM_bind, GetRefund, gets. rewrite (wr_refund _ _ Hw). by split.
  - destruct (access_step a (zero_fixed 32) s M Hr) as [(s' & Hs & Hr') _]. exists s'. by split.
  - destruct (access_step a k s M Hr) as [_ (s' & Hs & Hr')]. exists s'. by split.
  - destruct (good_step ABool _ _ s M _ Hr (Suicide_good a s _ Hw)) as (s' & -> & Hr').
    exists s'. destruct (World.Suicide a (m_world M)). by split.
  - apply Hgood'. by apply AddRefund_good.
  - unfold World.SubRefund. destruct (Z.ltb_spec (refund (m_world M)) g).
    + destruct (SubRefund_panic g s _ Hw) as (s' & Hs); [done|]. exists s'. unfold ans, mbind, stM_bind.
      rewrite Hs. by split.
    + cbn. apply Hgood'. by apply SubRefund_good.
  - apply Hgood'. by apply AddLog_good.
  - apply Hgood'. by apply AddPreimage_good.
  - apply Hgood'. by apply AddAddressToAccessList_good.
  - apply Hgood'. by apply AddSlotToAccessList_good.
  - destruct (Snapshot_refines s M Hr) as (s' & Hs & Hr'). exists s'. unfold ans, mbind, stM_bind.
    rewrite Hs. by split.
  - destruct (list_find (λ x, x.1 = id) (m_snaps M)) as [[i [id' w]]|] eqn:Hf.
    + assert (id' = id) as -> by (by apply list_find_Some in Hf as (_ & ? & _)).
      destruct (RevertToSnapshot_refines s M id i w Hr Hf) as (s' & Hs & Hr'). exists s'.
      unfold ans, mbind, stM_bind. rewrite Hs. by split.
    + destruct (RevertToSnapshot_panic s M id Hr Hf) as (s' & Hs). exists s'.
      unfold ans, mbind, stM_bind. rewrite Hs. by split.
Qed.

Lemma run_refines ops : ∀ s M, refines s M → (run db_step ops s).1 = (run machine_step ops M).1.
Proof.
  induction ops as [|o ops IH]; intros s M Hr; [done|]. cbn [run]. unfold mbind, stM_bind.
  destruct (db_step_refines o s M Hr) as (s' & -> & Hr').
  destruct (machine_step o M) as [[x| | |] M']; try done. specialize (IH s' M' (Hr' x eq_refl)).
  destruct (run db_step ops s') as [[l| | |] s2], (run machine_step ops M') as [[l'| | |] M2]; cbn in IH; by simplify_eq.
Qed.

(** The tries and the codes hold the accounts of the world. *)
Definition db_holds (w : World) : Prop :=
  (∀ a, option_Forall2 acc_rel (newObject a <$> TryGet db a) (accounts w !! a)) ∧
  logs w = [] ∧ refund w = 0 ∧ access_addresses w = ∅ ∧ access_slots w = ∅.

Lemma New_refines w : db_holds w → refines New (MkMachine w [] 0).
Proof.
  intros (Ha & Hl & Hrf & Haa & Has). split; cbn; try constructor; cbn; try done.
  - intros a. specialize (Ha a). unfold live, obj_at. cbn. rewrite lookup_empty. by destruct (TryGet db a).
  - intros a o. unfold obj_at. cbn. rewrite lookup_empty. by destruct (TryGet db a); [intros [= <-]|].
  - rewrite Haa, Has. split; cbn.
    + intros a. rewrite lookup_empty. split; [by intros []|]. set_solver.
    + intros a k. split; [set_solver|]. intros (i & m & Hi & _). by rewrite lookup_empty in Hi.
    + intros a z Hz. by rewrite lookup_empty in Hz.
    + intros a b i Hi. by rewrite lookup_empty in Hi.
Qed.

(** C2: The journaled database implements worlds with snapshots. Started from the same accounts, a
    sequence of operations of the interface, reads, changes, snapshots and reverts in any order,
    gets the same answers from the database, which loads objects lazily, caches what it reads and
    undoes its journal, as from the machine that keeps a copy of the world per snapshot, and one
    panics if and only if the other does. *)
Theorem statedb_refines ops w : db_holds w →
  (run db_step ops New).1 = (run machine_step ops (MkMachine w [] 0)).1.
Proof. intros Hw. by apply run_refines, New_refines. Qed.
End refine.

(** ** Witness *)

#[local] Instance toy_keccak : Crypto := {| keccak256 := λ b, BytesToHash b |}.

(** One account with a code and a slot in the tries. *)
Definition toy_account : Address := BytesToAddress [x0a].
Definition toy_db : Database := {|
  TryGet := λ a, if decide (a = toy_account)
                 then Some (MkStateAccount 1 (Some 50) (BytesToHash [x01]) (Some (fb (BytesToHash [x60; x00])))) else None;
  StorageTryGet := λ _ root k, if decide (root = BytesToHash [x01] ∧ k = BytesToHash [x05]) then BytesToHash [x07] else zero_fixed 32;
  ContractCode := λ h, if decide (h = BytesToHash [x60; x00]) then Some [x60; x00] else None
|}.
Definition toy_storage : gmap Hash Hash := {[ BytesToHash [x05] := BytesToHash [x07] ]}.
Definition toy_world : World :=
  MkWorld {[ toy_account := MkAccount 1 50 (Some [x60; x00]) toy_storage toy_storage false ]} [] 0 ∅ ∅.

Definition toy_ops : list op :=
  [OpSubBalance toy_account 20; OpSnapshot; OpSetState toy_account (BytesToHash [x05]) (BytesToHash [x09]);
   OpSetCode toy_account []; OpSuicide toy_account; OpGetState toy_account (BytesToHash [x05]);
   OpAddSlotToAccessList toy_account (BytesToHash [x05]); OpRevertToSnapshot 0; OpGetBalance toy_account;
   OpGetState toy_account (BytesToHash [x05]); OpGetCode toy_account; OpAddressInAccessList toy_account;
   OpRevertToSnapshot 0].

Lemma toy_storage_view k :
  StorageTryGet toy_db toy_account (BytesToHash [x01]) k = default (zero_fixed 32) (toy_storage !! k).
Proof.
  unfold toy_storage. cbn [StorageTryGet toy_db]. destruct (decide (k = BytesToHash [x05])) as [->|Hk].
  - rewrite lookup_singleton_eq, decide_True by done. done.
  - rewrite lookup_singleton_ne, decide_False by naive_solver. done.
Qed.

Lemma toy_db_holds : db_holds toy_db toy_world.
Proof.
  split; [|done]. intros a. cbn [TryGet toy_db accounts toy_world].
  destruct (decide (a = toy_account)) as [->|Ha]; [|rewrite lookup_singleton_ne by done; constructor].
  rewrite lookup_singleton_eq. constructor. split; try (vm_compute; reflexivity); intros k;
    rewrite <- toy_storage_view; unfold state_view, committed_view;
    cbn [fakeStorage dirtyStorage pendingStorage originStorage newObject]; rewrite !lookup_empty;
    cbn [o_address newObject]; f_equal; vm_compute; reflexivity.
Qed.

Lemma statedb_refines_witness :
  (run (db_step toy_db) (take 12 toy_ops) New).1 =
    Ok [ADone; AZ 0; ADone; ADone; ABool true; AHash (BytesToHash [x09]); ADone; ADone; AZ 30;
        AHash (BytesToHash [x07]); ACode (Some [x60; x00]); ABool false] ∧
  (run (db_step toy_db) toy_ops New).1 = Panic.
Proof.
  split; (rewrite (statedb_refines toy_db) with (w := toy_world); [vm_compute; reflexivity| |exact toy_db_holds]);
    intros a k; cbn [StorageTryGet toy_db]; rewrite decide_False; [done| |done|];
    intros [He _]; apply (f_equal fb) in He; vm_compute in He; discriminate He.
Defined.
