(* ===== verification/Hex.v ===== *)
(** * Hexadecimal strings and the order of hashes

    [hexutil.Encode], [common.FromHex], [HexToHash] (src/common/hexutil/hexutil.go,
    src/common/bytes.go, src/common/types.go) and [HashArray.Sort], which sorts hashes by
    their hexadecimal spelling. Go strings are byte strings. The main lemma is
    [hash_Sort_spec]: the round trip through strings loses nothing, and the result is the
    list in the numerical order of the hashes. *)

From Stdlib Require Import ZArith Lia Strings.Byte Sorting.Sorted Sorting.Permutation.
From stdpp Require Import base tactics option numbers list gmap strings sorting.
From S2P Require Import Prelude Common GoMap.

(** ** Digits *)

(** The table of [encoding/hex]. *)
Definition hex_digits : bytes :=
  [x30; x31; x32; x33; x34; x35; x36; x37; x38; x39; x61; x62; x63; x64; x65; x66].

Definition hex_digit (n : Z) : byte := nth (Z.to_nat n) hex_digits x00.

(** [fromHexChar] of [encoding/hex] *)
Definition fromHexChar (c : byte) : option Z :=
  let v := b2z c in
  if (48 <=? v) && (v <=? 57) then Some (v - 48)
  else if (97 <=? v) && (v <=? 102) then Some (v - 87)
  else if (65 <=? v) && (v <=? 70) then Some (v - 55)
  else None.

(** [hex.Encode] *)
Definition hex_encode (b : bytes) : bytes :=
  concat (map (λ x, [hex_digit (b2z x / 16); hex_digit (b2z x mod 16)]) b).

(** [hex.DecodeString] with the error dropped: the bytes before the first bad digit. *)
Fixpoint Hex2Bytes (s : bytes) : bytes :=
  match s with
  | h :: l :: t =>
      match fromHexChar h, fromHexChar l with
      | Some a, Some b => z2b (16 * a + b) :: Hex2Bytes t
      | _, _ => []
      end
  | _ => []
  end.

(** [hexutil.Encode] *)
Definition hexutil_Encode (b : bytes) : bytes := x30 :: x78 :: hex_encode b.

Definition has0xPrefix (s : bytes) : bool :=
  match s with
  | c :: d :: _ => bool_decide (c = x30) && (bool_decide (d = x78) || bool_decide (d = x58))
  | _ => false
  end.

Definition FromHex (s : bytes) : bytes :=
  let s := if has0xPrefix s then drop 2 s else s in
  let s := if Nat.odd (length s) then x30 :: s else s in
  Hex2Bytes s.

(** ** Hashes *)

Definition HexToHash (s : bytes) : Hash := BytesToHash (FromHex s).
Definition hash_String (h : Hash) : bytes := hexutil_Encode (fb h).

(** The order of Go strings. *)
Definition str_le (a b : bytes) : Prop := bytes_compare a b ≠ Gt.

#[export] Instance str_le_dec a b : Decision (str_le a b).
Proof. unfold str_le. apply _. Defined.

(** [HashArray.Sort]: [sort.Strings] on the spellings. Equal strings are the same value, so
    the result does not depend on the sorting algorithm. *)
Definition hash_Sort (ha : list Hash) : list Hash :=
  map HexToHash (merge_sort str_le (map hash_String ha)).

(** ** Round trip *)

Lemma length_hex_encode b : length (hex_encode b) = (2 * length b)%nat.
Proof. unfold hex_encode. induction b as [|x b IH]; simpl; [done|]. simpl in IH. lia. Qed.

(** A property of all sixteen digits, checked one by one. *)
Lemma digit_cases (P : Z → Prop) :
  Forall P (seqZ 0 16) → ∀ n, 0 ≤ n < 16 → P n.
Proof. rewrite Forall_forall. intros HP n Hn. apply HP, elem_of_seqZ. lia. Qed.

Lemma fromHexChar_digit n : 0 ≤ n < 16 → fromHexChar (hex_digit n) = Some n.
Proof. intros Hn. pattern n. revert n Hn. apply digit_cases. repeat constructor. Qed.

Lemma hex_digit_mono n m :
  0 ≤ n < 16 → 0 ≤ m < 16 → (b2z (hex_digit n) ?= b2z (hex_digit m)) = (n ?= m).
Proof.
  intros Hn Hm. revert m Hm. pattern n. revert n Hn. apply digit_cases.
  repeat (constructor; [apply digit_cases; repeat constructor|]). constructor.
Qed.

Lemma Hex2Bytes_encode b : Hex2Bytes (hex_encode b) = b.
Proof.
  induction b as [|x b IH]; [done|]. unfold hex_encode in *. simpl.
  pose proof (b2z_range x).
  rewrite !fromHexChar_digit by dlia. rewrite IH. f_equal.
  replace (16 * (b2z x / 16) + b2z x mod 16) with (b2z x) by dlia. apply z2b_b2z.
Qed.

Lemma FromHex_Encode b : FromHex (hexutil_Encode b) = b.
Proof.
  unfold FromHex, hexutil_Encode. simpl. rewrite drop_0.
  rewrite length_hex_encode, Nat.odd_mul. simpl. apply Hex2Bytes_encode.
Qed.

Lemma HexToHash_String h : HexToHash (hash_String h) = h.
Proof. unfold HexToHash, hash_String. rewrite FromHex_Encode. apply BytesToFixed_fb. Qed.

(** ** Order *)

(** The spelling is monotone: hexadecimal strings compare as the bytes do. *)
Lemma bytes_compare_hex a : ∀ b, bytes_compare (hex_encode a) (hex_encode b) = bytes_compare a b.
Proof.
  unfold hex_encode. induction a as [|x a IH]; intros [|y b]; [done..|]. simpl.
  pose proof (b2z_range x). pose proof (b2z_range y).
  rewrite !hex_digit_mono, IH by dlia.
  destruct (Z.compare_spec (b2z x / 16) (b2z y / 16)) as [E|L|G];
    destruct (Z.compare_spec (b2z x) (b2z y)) as [E'|L'|G']; try dlia; try done;
    destruct (Z.compare_spec (b2z x mod 16) (b2z y mod 16)); try dlia; done.
Qed.

Definition hash_val (h : Hash) : Z := be_val (fb h).
Definition hash_le (a b : Hash) : Prop := hash_val a ≤ hash_val b.

#[export] Instance hash_le_dec a b : Decision (hash_le a b).
Proof. unfold hash_le. apply _. Defined.

Lemma str_le_hash a b : str_le (hash_String a) (hash_String b) ↔ hash_le a b.
Proof.
  unfold str_le, hash_String, hexutil_Encode. simpl.
  rewrite bytes_compare_hex, bytes_compare_val by by rewrite !length_fb. done.
Qed.

#[export] Instance str_le_total : Total str_le.
Proof.
  unfold str_le. intros a. induction a as [|x a IH]; intros [|y b]; simpl; [naive_solver..|].
  destruct (Z.compare_spec (b2z x) (b2z y)), (Z.compare_spec (b2z y) (b2z x)); try lia;
    naive_solver.
Qed.

#[export] Instance str_le_trans : Transitive str_le.
Proof.
  unfold str_le. intros a. induction a as [|x a IH]; intros [|y b] [|z c]; simpl; try done.
  destruct (Z.compare_spec (b2z x) (b2z y)), (Z.compare_spec (b2z y) (b2z z)),
    (Z.compare_spec (b2z x) (b2z z)); try lia; try done. apply IH.
Qed.

(** The result of [Sort] has the same hashes, in ascending order. *)
Lemma hash_Sort_spec ha : hash_Sort ha ≡ₚ ha ∧ StronglySorted hash_le (hash_Sort ha).
Proof.
  assert (∀ l, (∀ s, s ∈ l → ∃ h, s = hash_String h) →
    StronglySorted str_le l → StronglySorted hash_le (map HexToHash l)) as Hmono.
  { intros l Hl. induction 1 as [|s l _ IH Hall]; simpl; constructor.
    - apply IH. set_solver.
    - destruct (Hl s) as [h ->]; [set_solver|]. rewrite HexToHash_String.
      apply Forall_forall. intros k Hk. apply list_elem_of_fmap in Hk as (s & -> & Hs).
      destruct (Hl s) as [k ->]; [set_solver|]. rewrite HexToHash_String.
      rewrite Forall_forall in Hall. by apply str_le_hash, Hall. }
  unfold hash_Sort. split.
  - rewrite (merge_sort_Permutation str_le), map_map.
    apply reflexive_eq. rewrite <- (map_id ha) at 2. apply map_ext, HexToHash_String.
  - apply Hmono; [|apply (StronglySorted_merge_sort str_le)].
    intros s Hs. rewrite (merge_sort_Permutation str_le) in Hs.
    apply list_elem_of_fmap in Hs as (h & -> & _). by exists h.
Qed.

#[export] Instance hash_le_antisymm : AntiSymm (=) hash_le.
Proof.
  intros a b Hab Hba. unfold hash_le, hash_val in *. apply fixed_eq, be_val_inj; [|lia].
  by rewrite !length_fb.
Qed.

#[export] Instance hash_le_trans : Transitive hash_le.
Proof. intros a b c. unfold hash_le. lia. Qed.

(** The order of the input does not matter. *)
Lemma hash_Sort_unique l k : l ≡ₚ k → hash_Sort l = hash_Sort k.
Proof.
  intros Hp. destruct (hash_Sort_spec l) as [Hl Hls], (hash_Sort_spec k) as [Hk Hks].
  apply (StronglySorted_unique hash_le); [done|done|]. by rewrite Hl, Hk.
Qed.
