(* ===== verification/TxLog.v ===== *)
(** * Logs of validator operations

    Package txlog (src/validator/txlog): the data of the logs of the validator operations, the
    functions that pack and unpack it, and the emitter that appends logs to the world. The
    round-trip lemmas say that a consumer that unpacks a log gets the fields that were packed;
    [delegating_log_roundtrip] covers the list of payouts, which is sorted by address with
    [sort.Slice], an algorithm that is not stable ([SortSlice]). *)

From Stdlib Require Import ZArith Lia Strings.Byte Sorting.Sorted Sorting.Permutation.
From stdpp Require Import base tactics option numbers list gmap strings sorting.
From S2P Require Import Prelude Common RlpEnc RlpDec GoMap DelegRules ValOps World Hex.

Definition txlog_ErrNoAmount : error := Error "txlog.ErrNoAmount".

(** ** Deposit *)

Definition DepositLogDataLength : nat := 48 + 20 + 20 + 8 + 96 + 8.

(** [big.Int.Uint64] of a non-negative integer: its low 64 bits. *)
Definition PackDepositLogData (pubkey : BlsPubKey) (creatorAddress withdrawalAddress : Address)
    (amount : option Z) (signature : BlsSignature) (depositIndex : Z) : bytes :=
  let amount := match amount with
                | None => 1000000000
                | Some a => if a <? 0 then 1000000000 else a
                end in
  let amntGwei := u64 (amount / BigGwei) in
  fb pubkey ++ fb creatorAddress ++ fb withdrawalAddress ++ Uint64ToBytes amntGwei ++
  fb signature ++ Uint64ToBytes depositIndex.

Record depositLog := MkDepositLog {
  dl_pubkey : BlsPubKey;
  dl_creatorAddress : Address;
  dl_withdrawalAddress : Address;
  dl_amount : Z;
  dl_signature : BlsSignature;
  dl_depositIndex : Z
}.

Definition UnpackDepositLogData (data : bytes) : go_res depositLog :=
  if decide (length data ≠ DepositLogDataLength) then Err ErrBadDataLen
  else
    pubkey ← go_slice 0 48 data;
    creatorAddress ← go_slice 48 68 data;
    withdrawalAddress ← go_slice 68 88 data;
    amount ← (b ← go_slice 88 96 data; BytesToUint64 b);
    signature ← go_slice 96 192 data;
    depositIndex ← (b ← go_slice 192 200 data; BytesToUint64 b);
    Ok (MkDepositLog (BytesToBlsPubKey pubkey) (BytesToAddress creatorAddress)
          (BytesToAddress withdrawalAddress) amount (BytesToBlsSig signature) depositIndex).

(** ** Exit *)

Definition MinExitRequestLogDataLength : nat := 48 + 20 + 8.

Definition PackExitRequestLogData (pubkey : BlsPubKey) (creatorAddress : Address) (valIndex : Z)
    (exitAfterEpoch : option Z) : bytes :=
  fb pubkey ++ fb creatorAddress ++ Uint64ToBytes valIndex ++
  match exitAfterEpoch with Some e => Uint64ToBytes e | None => [] end.

Record exitLog := MkExitLog {
  el_pubkey : BlsPubKey;
  el_creatorAddress : Address;
  el_valIndex : Z;
  el_exitAfterEpoch : option Z
}.

Definition UnpackExitRequestLogData (data : bytes) : go_res exitLog :=
  if decide (length data ≠ MinExitRequestLogDataLength ∧
             length data ≠ (MinExitRequestLogDataLength + Uint64Size)%nat) then Err ErrBadDataLen
  else
    pubkey ← go_slice 0 48 data;
    creatorAddress ← go_slice 48 68 data;
    valIndex ← (b ← go_slice 68 76 data; BytesToUint64 b);
    let rawExitEpoch := drop 76 data in
    exitAfterEpoch ← (if decide (length rawExitEpoch = Uint64Size)
                      then e ← BytesToUint64 rawExitEpoch; Ok (Some e) else Ok None);
    Ok (MkExitLog (BytesToBlsPubKey pubkey) (BytesToAddress creatorAddress) valIndex exitAfterEpoch).

(** ** Withdrawal *)

Definition WithdrawalLogDataLength : nat := 48 + 20 + 8 + 8.

Definition PackWithdrawalLogData (pubkey : BlsPubKey) (creatorAddress : Address)
    (valIndex amtGwei : Z) : bytes :=
  fb pubkey ++ fb creatorAddress ++ Uint64ToBytes valIndex ++ Uint64ToBytes amtGwei.

Record withdrawalLog := MkWithdrawalLog {
  wl_pubkey : BlsPubKey;
  wl_creatorAddress : Address;
  wl_valIndex : Z;
  wl_amtGwei : Z
}.

Definition UnpackWithdrawalLogData (data : bytes) : go_res withdrawalLog :=
  if decide (length data ≠ WithdrawalLogDataLength) then Err ErrBadDataLen
  else
    pubkey ← go_slice 0 48 data;
    creatorAddress ← go_slice 48 68 data;
    valIndex ← (b ← go_slice 68 76 data; BytesToUint64 b);
    amtGwei ← (b ← go_slice 76 84 data; BytesToUint64 b);
    Ok (MkWithdrawalLog (BytesToBlsPubKey pubkey) (BytesToAddress creatorAddress) valIndex amtGwei).

(** ** Activation and deactivation *)

(** [ActivateLogData] and [DeactivateLogData], two types with the same fields. *)
Record ActivateLogData := MkActivateLog {
  al_InitTxHash : Hash;
  al_CreatorAddress : Address;
  al_ProcEpoch : Z;
  al_ValidatorIndex : Z
}.

Definition activate_type : rtype := TStruct [TArray 32; TArray 20; TUint 64; TUint 64].

Definition activate_MarshalBinary (d : ActivateLogData) : go_res bytes :=
  EncodeToBytes activate_type
    (VStruct [VArray (fb (al_InitTxHash d)); VArray (fb (al_CreatorAddress d));
              VUint (al_ProcEpoch d); VUint (al_ValidatorIndex d)]).

Definition activate_UnmarshalBinary (b : bytes) : go_res ActivateLogData :=
  v ← DecodeBytes activate_type b;
  match v with
  | VStruct [VArray h; VArray a; VUint e; VUint i] =>
      Ok (MkActivateLog (BytesToHash h) (BytesToAddress a) e i)
  | _ => Panic
  end.

Definition PackActivateLogData (initTxHash : Hash) (creatorAddress : Address)
    (procEpoch validatorIndex : Z) : go_res bytes :=
  activate_MarshalBinary (MkActivateLog initTxHash creatorAddress procEpoch validatorIndex).
Definition UnpackActivateLogData (bin : bytes) : go_res ActivateLogData :=
  activate_UnmarshalBinary bin.

Definition PackDeactivateLogData (initTxHash : Hash) (creatorAddress : Address)
    (procEpoch validatorIndex : Z) : go_res bytes :=
  activate_MarshalBinary (MkActivateLog initTxHash creatorAddress procEpoch validatorIndex).
Definition UnpackDeactivateLogData (bin : bytes) : go_res ActivateLogData :=
  activate_UnmarshalBinary bin.

(** ** Update of a balance *)

Record UpdateBalanceLogData := MkUpdateBalanceLog {
  ul_InitTxHash : Hash;
  ul_CreatorAddress : Address;
  ul_ProcEpoch : Z;
  ul_Amount : option Z
}.

Definition update_type : rtype := TStruct [TArray 32; TArray 20; TUint 64; TBigInt].

(** A nil amount is written as zero. *)
Definition update_MarshalBinary (d : UpdateBalanceLogData) : go_res bytes :=
  EncodeToBytes update_type
    (VStruct [VArray (fb (ul_InitTxHash d)); VArray (fb (ul_CreatorAddress d));
              VUint (ul_ProcEpoch d); VBig (default 0 (ul_Amount d))]).

Definition update_UnmarshalBinary (b : bytes) : go_res UpdateBalanceLogData :=
  v ← DecodeBytes update_type b;
  match v with
  | VStruct [VArray h; VArray a; VUint e; VBig z] =>
      Ok (MkUpdateBalanceLog (BytesToHash h) (BytesToAddress a) e (Some z))
  | _ => Panic
  end.

Definition PackUpdateBalanceLogData (initTxHash : Hash) (creatorAddress : Address) (procEpoch : Z)
    (amount : option Z) : go_res bytes :=
  match amount with
  | None => Err txlog_ErrNoAmount
  | Some _ => update_MarshalBinary (MkUpdateBalanceLog initTxHash creatorAddress procEpoch amount)
  end.
Definition UnpackUpdateBalanceLogData (bin : bytes) : go_res UpdateBalanceLogData :=
  update_UnmarshalBinary bin.

(** ** Payouts of delegated stake *)

Definition NoRule : Z := 0.
Definition RuleProfitShare : Z := 1.
Definition RuleStakeShare : Z := 2.

Record ShareRuleApplying := MkShare {
  sr_Address : Address;
  sr_RuleType : Z;
  sr_IsTrial : bool;
  sr_Amount : option Z
}.

(** The elements of [DelegatingStakeLogData] are pointers that are never nil. *)
Abbreviation DelegatingStakeLogData := (list ShareRuleApplying).

(** [sort.Slice] by a key of type [Address]: a permutation in ascending order. Elements with
    equal keys may come in any order. *)
Class SortSlice := {
  sort_slice : ∀ {A}, (A → Address) → list A → list A;
  sort_slice_perm : ∀ {A} (key : A → Address) l, sort_slice key l ≡ₚ l;
  sort_slice_sorted : ∀ {A} (key : A → Address) l,
    StronglySorted (λ x y, addr_le (key x) (key y)) (sort_slice key l)
}.

Definition shares_Sort `{!SortSlice} (d : DelegatingStakeLogData) : DelegatingStakeLogData :=
  sort_slice sr_Address d.

Definition shares_Topics (d : DelegatingStakeLogData) : list Hash :=
  hash_Sort (Deduplicate (map (λ v, AddressHash (sr_Address v)) d)).

Definition share_type : rtype := TStruct [TArray 20; TUint 8; TBool; TBigInt].
Definition shares_type : rtype := TSlice (TPtr share_type).

Definition share_value (v : ShareRuleApplying) : rvalue :=
  VPtr (VStruct [VArray (fb (sr_Address v)); VUint (sr_RuleType v); VBool (sr_IsTrial v);
                 VBig (default 0 (sr_Amount v))]).

Definition share_of_value (v : rvalue) : ShareRuleApplying :=
  match v with
  | VPtr (VStruct [VArray a; VUint t; VBool b; VBig z]) => MkShare (BytesToAddress a) t b (Some z)
  | _ => MkShare (zero_fixed 20) 0 false None
  end.

Definition shares_MarshalBinary (d : DelegatingStakeLogData) : go_res bytes :=
  EncodeToBytes shares_type (VSlice (map share_value d)).

Definition shares_UnmarshalBinary (b : bytes) : go_res DelegatingStakeLogData :=
  v ← DecodeBytes shares_type b;
  match v with VSlice l => Ok (map share_of_value l) | _ => Panic end.

(** A nil slice gives no data. *)
Definition PackDelegatingStakeLogData `{!SortSlice} (data : option DelegatingStakeLogData) :
    go_res bytes :=
  match data with
  | None => Ok []
  | Some d =>
      let sorted := shares_Sort d in
      if existsb (λ v, bool_decide (sr_Amount v = None)) sorted then Err txlog_ErrNoAmount
      else shares_MarshalBinary sorted
  end.

Definition UnpackDelegatingStakeLogData (bin : bytes) : go_res (option DelegatingStakeLogData) :=
  match bin with
  | [] => Ok None
  | _ => d ← shares_UnmarshalBinary bin; Ok (Some d)
  end.

(** ** Emitter *)

(** [logEntry] *)
Record logEntry := MkLogEntry {
  le_indexed : bool;
  le_data : bytes
}.

Section emitter.
Context `{!Crypto}.

Definition EvtDepositLogSignature : Hash := keccak256 (str "DepositLog").
Definition EvtExitReqLogSignature : Hash := keccak256 (str "ExitRequestLog").
Definition EvtWithdrawalLogSignature : Hash := keccak256 (str "WithdrawaRequestLog").
Definition EvtActivateLogSignature : Hash := keccak256 (str "activate").
Definition EvtDeactivateLogSignature : Hash := keccak256 (str "deactivate").
Definition EvtUpdateBalanceLogSignature : Hash := keccak256 (str "update-balance").
Definition EvtDelegatingStakeSignature : Hash := keccak256 (str "delegating-stake").

(** The emitter holds the state it appends to; its methods are changes of the world. *)
Definition addLog (targetAddr : Address) (signature : Hash) (data : bytes)
    (logsEntries : list logEntry) : World → World :=
  let '(topics, data) :=
    foldl (λ '(topics, data) entry,
             if le_indexed entry then (topics ++ [BytesToHash (le_data entry)], data)
             else (topics, data ++ le_data entry))
          ([signature], data) logsEntries in
  AddLog (MkLog targetAddr topics data).

Definition emit_Deposit (evtAddr : Address) (data : bytes) : World → World :=
  addLog evtAddr EvtDepositLogSignature data [].
Definition emit_ExitRequest (evtAddr : Address) (data : bytes) : World → World :=
  addLog evtAddr EvtExitReqLogSignature data [].
Definition emit_WithdrawalRequest (evtAddr : Address) (data : bytes) : World → World :=
  addLog evtAddr EvtWithdrawalLogSignature data [].

Definition AddActivateLog (stateValAdr : Address) (data : bytes) (creatorAdr : Address)
    (initTxHash : Hash) : World → World :=
  AddLog (MkLog stateValAdr [EvtActivateLogSignature; AddressHash creatorAdr; initTxHash] data).

Definition AddDeactivateLog (stateValAdr : Address) (data : bytes) (creatorAdr : Address)
    (initTxHash : Hash) : World → World :=
  AddLog (MkLog stateValAdr [EvtDeactivateLogSignature; AddressHash creatorAdr; initTxHash] data).

Definition AddUpdateBalanceLog (stateValAdr : Address) (data : bytes) (creatorAdr : Address)
    (initTxHash : Hash) (withdrawalAdr : option Address) : World → World :=
  let topics := [EvtUpdateBalanceLogSignature; AddressHash creatorAdr; initTxHash] in
  let topics := match withdrawalAdr with Some a => topics ++ [AddressHash a] | None => topics end in
  AddLog (MkLog stateValAdr topics data).

Definition AddDelegatingStakeLog (stateValAdr : Address) (data : bytes) (topics : list Hash) :
    World → World :=
  AddLog (MkLog stateValAdr (EvtDelegatingStakeSignature :: topics) data).

End emitter.

(** ** Round trips *)

Lemma BytesToUint64_put u : is_u64 u → BytesToUint64 (Uint64ToBytes u) = Ok u.
Proof. intros Hu. rewrite <- (app_nil_r (Uint64ToBytes u)). by apply Uint64_roundtrip. Qed.

(** The fixed layouts: the amount of a deposit is logged in Gwei. *)
Lemma deposit_log_roundtrip pk cr wd am sg ix :
  0 ≤ am → am / BigGwei < two64 → is_u64 ix →
  UnpackDepositLogData (PackDepositLogData pk cr wd (Some am) sg ix) =
  Ok (MkDepositLog pk cr wd (am / BigGwei) sg ix).
Proof.
  intros Ham0 Ham Hix. unfold UnpackDepositLogData, PackDepositLogData.
  destruct (Z.ltb_spec am 0); [lia|].
  assert (is_u64 (am / BigGwei)) by (split; [unfold BigGwei; dlia|done]).
  rewrite u64_small by done.
  rewrite decide_False.
  2:{ rewrite !length_app, !length_Uint64ToBytes, !length_fb. intros Hl. by apply Hl. }
  rewrite <- (app_nil_r (Uint64ToBytes ix)). take_fields.
  by rewrite !BytesToUint64_put, !Ok_bind, !BytesToFixed_fb by done.
Qed.

Lemma exit_log_roundtrip pk cr ix after :
  is_u64 ix → (∀ e, after = Some e → is_u64 e) →
  UnpackExitRequestLogData (PackExitRequestLogData pk cr ix after) = Ok (MkExitLog pk cr ix after).
Proof.
  intros Hix Ha. unfold UnpackExitRequestLogData, PackExitRequestLogData.
  rewrite decide_False.
  2:{ rewrite !length_app, !length_Uint64ToBytes, !length_fb.
      unfold MinExitRequestLogDataLength, Uint64Size.
      destruct after; rewrite ?length_Uint64ToBytes; simpl; lia. }
  take_fields. rewrite !BytesToUint64_put, !Ok_bind, !BytesToFixed_fb by done.
  rewrite !drop_app_ge by (rewrite ?length_fb, ?length_Uint64ToBytes; simpl; lia).
  rewrite !length_fb, length_Uint64ToBytes. simpl Nat.sub. rewrite drop_0. destruct after as [e|].
  - rewrite decide_True by by rewrite length_Uint64ToBytes. by rewrite BytesToUint64_put by auto.
  - done.
Qed.

Lemma withdrawal_log_roundtrip pk cr ix am :
  is_u64 ix → is_u64 am →
  UnpackWithdrawalLogData (PackWithdrawalLogData pk cr ix am) = Ok (MkWithdrawalLog pk cr ix am).
Proof.
  intros Hix Ham. unfold UnpackWithdrawalLogData, PackWithdrawalLogData.
  rewrite decide_False.
  2:{ rewrite !length_app, !length_Uint64ToBytes, !length_fb. intros Hl. by apply Hl. }
  rewrite <- (app_nil_r (Uint64ToBytes am)). take_fields.
  by rewrite !BytesToUint64_put, !Ok_bind, !BytesToFixed_fb by done.
Qed.

Lemma activate_log_roundtrip h a e i :
  is_u64 e → is_u64 i →
  ∃ b, PackActivateLogData h a e i = Ok b ∧ UnpackActivateLogData b = Ok (MkActivateLog h a e i).
Proof.
  intros He Hi.
  destruct (Encode_Decode_size activate_type
    (VStruct [VArray (fb h); VArray (fb a); VUint e; VUint i])) as (b & Hb & Hd & _).
  { simpl. rewrite !length_fb. unfold good_bits, is_u64, two64 in *. split_and!; try done; lia. }
  { simpl. rewrite !length_fb. unfold two64. lia. }
  exists b. split; [done|]. unfold UnpackActivateLogData, activate_UnmarshalBinary.
  rewrite Hd, Ok_bind. by rewrite !BytesToFixed_fb.
Qed.

Lemma update_log_roundtrip h a e am :
  is_u64 e → 0 ≤ am < 2 ^ 256 →
  ∃ b, PackUpdateBalanceLogData h a e (Some am) = Ok b ∧
    UnpackUpdateBalanceLogData b = Ok (MkUpdateBalanceLog h a e (Some am)).
Proof.
  intros He Ham. pose proof (nbytes_le am 32 ltac:(lia) ltac:(lia)).
  destruct (Encode_Decode_size update_type
    (VStruct [VArray (fb h); VArray (fb a); VUint e; VBig am])) as (b & Hb & Hd & _).
  { simpl. rewrite !length_fb. unfold good_bits, is_u64, two64 in *. split_and!; try done; lia. }
  { simpl. rewrite !length_fb, Z.abs_eq by lia. unfold two64. lia. }
  exists b. split; [done|]. unfold UnpackUpdateBalanceLogData, update_UnmarshalBinary.
  rewrite Hd, Ok_bind. by rewrite !BytesToFixed_fb.
Qed.

(** *** Payouts *)

(** Payouts that a log can hold. *)
Definition share_fits (v : ShareRuleApplying) : Prop :=
  0 ≤ sr_RuleType v < 256 ∧ ∃ am, sr_Amount v = Some am ∧ 0 ≤ am < 2 ^ 256.

Definition shares_fit (d : DelegatingStakeLogData) : Prop :=
  Forall share_fits d ∧ Z.of_nat (length d) < 2 ^ 56.

Lemma share_value_fits v :
  share_fits v →
  typed true (TPtr share_type) (share_value v) ∧ (vsize (share_value v) ≤ 97)%nat ∧
  share_of_value (share_value v) = v ∧ bool_decide (sr_Amount v = None) = false.
Proof.
  intros (Ht & am & Hs & Ham). destruct v as [a t b am']. simpl in *. subst am'. simpl.
  pose proof (nbytes_le am 32 ltac:(lia) ltac:(lia)).
  rewrite !length_fb, BytesToFixed_fb, Z.abs_eq by lia. unfold good_bits.
  change (2 ^ 8) with 256. split_and!; (done || lia).
Qed.

Lemma shares_typed d : Forall share_fits d → typed true shares_type (VSlice (map share_value d)).
Proof.
  simpl. induction 1 as [|v d Hv _ IH]; [done|]. split; [|done].
  apply (share_value_fits v Hv).
Qed.

Lemma shares_vsize d :
  Forall share_fits d → (vsize (VSlice (map share_value d)) ≤ 9 + 97 * length d)%nat.
Proof.
  intros Hd. cbn [vsize]. induction Hd as [|v d Hv _ IH]; cbn [map list_sum fold_right length] in *;
    [lia|]. destruct (share_value_fits v Hv) as (_ & Hs & _).
  unfold list_sum in IH. lia.
Qed.

Lemma shares_of_values d : Forall share_fits d → map share_of_value (map share_value d) = d.
Proof.
  induction 1 as [|v d Hv _ IH]; [done|]. simpl. f_equal; [|done].
  apply (share_value_fits v Hv).
Qed.

Lemma shares_have_amounts d :
  Forall share_fits d → existsb (λ v, bool_decide (sr_Amount v = None)) d = false.
Proof.
  induction 1 as [|v d Hv _ IH]; [done|]. simpl. rewrite IH, orb_false_r.
  apply (share_value_fits v Hv).
Qed.

Lemma shares_Sort_fit `{!SortSlice} d : shares_fit d → shares_fit (shares_Sort d).
Proof.
  unfold shares_fit, shares_Sort. intros [Hf Hl].
  by rewrite (sort_slice_perm sr_Address d).
Qed.

(** A packed list unpacks to the list in the order it was sorted. *)
Lemma shares_roundtrip `{!SortSlice} d :
  shares_fit d →
  ∃ b, PackDelegatingStakeLogData (Some d) = Ok b ∧
    UnpackDelegatingStakeLogData b = Ok (Some (shares_Sort d)).
Proof.
  intros Hd. apply shares_Sort_fit in Hd as [Hf Hl].
  unfold PackDelegatingStakeLogData. generalize dependent (shares_Sort d). intros s Hf Hl.
  destruct (Encode_Decode_size shares_type (VSlice (map share_value s))) as (b & Hb & Hdec & _ & Hr).
  { by apply shares_typed. }
  { pose proof (shares_vsize s Hf). unfold two64. lia. }
  exists b. rewrite shares_have_amounts by done.
  split; [done|]. unfold UnpackDelegatingStakeLogData, shares_UnmarshalBinary.
  rewrite Hdec, Ok_bind, shares_of_values by done. apply ref_ne in Hr. by destruct b.
Qed.

(** A sorted list is determined by its elements when no two of them have the same key. *)
Lemma keyed_perm_eq {A B} (key : A → B) l : ∀ k,
  l ≡ₚ k → map key l = map key k → NoDup (map key l) → l = k.
Proof.
  induction l as [|x l IH]; intros [|y k] Hp Hk Hnd; [done..|]. simpl in *.
  injection Hk as Hxy Hk.
  assert (x = y) as ->.
  { assert (x ∈ y :: k) as Hx by (rewrite <- Hp; left).
    apply elem_of_cons in Hx as [|Hx]; [done|]. exfalso. apply NoDup_cons in Hnd as [Hn _].
    apply Hn. rewrite Hk. by apply list_elem_of_fmap_2. }
  f_equal. apply IH; [by apply Permutation_cons_inv in Hp|done|by apply NoDup_cons in Hnd as [_ ?]].
Qed.

Lemma sorted_keys {A} (key : A → Address) l :
  StronglySorted (λ x y, addr_le (key x) (key y)) l → StronglySorted addr_le (map key l).
Proof.
  induction 1 as [|x l _ IH Hx]; simpl; constructor; [done|]. by apply Forall_map.
Qed.

Lemma sort_slice_unique (s1 s2 : SortSlice) {A} (key : A → Address) l k :
  l ≡ₚ k → NoDup (map key l) → @sort_slice s1 A key l = @sort_slice s2 A key k.
Proof.
  intros Hp Hnd.
  pose proof (@sort_slice_perm s1 A key l) as H1. pose proof (@sort_slice_perm s2 A key k) as H2.
  apply (keyed_perm_eq key).
  - by rewrite H1, H2.
  - apply (StronglySorted_unique addr_le).
    + apply sorted_keys, sort_slice_sorted.
    + apply sorted_keys, sort_slice_sorted.
    + apply Permutation_map. by rewrite H1, H2.
  - by rewrite H1.
Qed.

(** ** Properties *)

(** The logs of a deposit, an exit and a withdrawal unpack to the fields that were packed
    (the amount of a deposit in Gwei), for every amount that the code lets into a log. *)
Theorem fixed_logs_roundtrip pk cr wd am sg ix after gwei :
  0 ≤ am → BnCanCastToUint64 (Some (am / BigGwei)) = true → is_u64 ix → is_u64 gwei →
  (∀ e, after = Some e → is_u64 e) →
  UnpackDepositLogData (PackDepositLogData pk cr wd (Some am) sg ix) =
    Ok (MkDepositLog pk cr wd (am / BigGwei) sg ix) ∧
  UnpackExitRequestLogData (PackExitRequestLogData pk cr ix after) = Ok (MkExitLog pk cr ix after) ∧
  UnpackWithdrawalLogData (PackWithdrawalLogData pk cr ix gwei) = Ok (MkWithdrawalLog pk cr ix gwei).
Proof.
  intros Ham Hc Hix Hg Ha.
  split_and!; [|by apply exit_log_roundtrip|by apply withdrawal_log_roundtrip].
  apply deposit_log_roundtrip; [done| |done].
  by apply BnCanCastToUint64_true in Hc as [_ ?].
Qed.

(** The data of a delegated payout log unpacks to the payouts that were packed, sorted by
    address; it has the same payouts, none lost and none added. *)
Theorem delegating_log_roundtrip (s : SortSlice) d :
  shares_fit d →
  ∃ b d', PackDelegatingStakeLogData (Some d) = Ok b ∧
    UnpackDelegatingStakeLogData b = Ok (Some d') ∧
    d' ≡ₚ d ∧ StronglySorted (λ x y, addr_le (sr_Address x) (sr_Address y)) d'.
Proof.
  intros Hd. destruct (shares_roundtrip d Hd) as (b & Hb & Hu).
  exists b, (shares_Sort d).
  split_and!; [done|done|apply sort_slice_perm|apply sort_slice_sorted].
Qed.

(** When no address is paid twice, the bytes of the payout log depend neither on the order
    in which the payouts were collected from a map nor on the sorting algorithm. The topics
    never depend on that order. *)
Theorem delegating_log_deterministic (s1 s2 : SortSlice) d d' :
  d ≡ₚ d' →
  shares_Topics d = shares_Topics d' ∧
  (NoDup (map sr_Address d) →
   @PackDelegatingStakeLogData s1 (Some d) = @PackDelegatingStakeLogData s2 (Some d')).
Proof.
  intros Hp. split.
  - unfold shares_Topics. apply hash_Sort_unique. rewrite !Deduplicate_Uniq.
    apply Uniq_perm, Permutation_map, Hp.
  - intros Hnd. unfold PackDelegatingStakeLogData, shares_Sort.
    by rewrite (sort_slice_unique s1 s2 sr_Address d d').
Qed.

(** ** Witnesses *)

(** Merge sort is one possible [sort.Slice]. *)
Definition key_le {A} (key : A → Address) (x y : A) : Prop := addr_le (key x) (key y).

#[export] Instance key_le_dec {A} (key : A → Address) x y : Decision (key_le key x y).
Proof. unfold key_le. apply _. Defined.

#[export] Instance key_le_trans {A} (key : A → Address) : Transitive (key_le key).
Proof. intros x y z. unfold key_le. apply addr_le_trans. Qed.

#[export] Instance key_le_total {A} (key : A → Address) : Total (key_le key).
Proof. intros x y. unfold key_le. apply addr_le_total. Qed.

Definition merge_slice : SortSlice := {|
  sort_slice := λ A key l, merge_sort (key_le key) l;
  sort_slice_perm := λ A key l, merge_sort_Permutation (key_le key) l;
  sort_slice_sorted := λ A key l, StronglySorted_merge_sort (key_le key) l
|}.
