(* ===== verification/Validator.v ===== *)
(** * Validator records

    The record the state keeps for a validator, its stake and its binary form
    (src/validator/storage/validator.go). Pointers that may be nil are options; the elements of
    the stake are pointers that are never nil, with amounts that are never nil. The main lemma is
    [validator_roundtrip]: reading back what [MarshalBinary] wrote gives the record in the normal
    form [stored]. *)

From Stdlib Require Import ZArith Lia Strings.Byte.
From stdpp Require Import base tactics option numbers list gmap strings.
From S2P Require Import Prelude Common RlpEnc RlpDec GoMap DelegRules ValOps World.

Definition errBadBinaryData : error := Error "storage.errBadBinaryData".
Definition errValidatorVersion : error := Error "invalid Validator version".
Definition errSubtractStake : error := Error "cannot subtract more than the existing stake".
Definition errNoStake : error := Error "no stake found for the provided address".

(** ** Data *)

Record StakeByAddress := MkStake {
  sa_Address : Address;
  sa_Sum : Z
}.

Record Validator := MkValidator {
  v_Address : Address;
  v_PubKey : BlsPubKey;
  v_WithdrawalAddress : option Address;
  v_Index : Z;
  v_ActivationEra : Z;
  v_ExitEra : Z;
  v_Stake : list StakeByAddress;
  v_DelegatingStake : option DelegatingStakeData;
  v_Ver : option Z;
  v_DepositTxs : HashArray;
  v_WithdrawalTx : option Hash;
  v_ExitTx : option Hash
}.

(** [new(Validator)] *)
Definition zero_validator : Validator :=
  MkValidator (zero_fixed 20) (zero_fixed 48) None 0 0 0 [] None None [] None None.

Definition NewValidator (pubKey : BlsPubKey) (address : Address) (withdrawal : option Address) :
    Validator :=
  MkValidator address pubKey withdrawal MaxUint64 MaxUint64 MaxUint64 [] None None [] None None.

(** [Copy] keeps neither the delegated stake nor the versioned data. *)
Definition validator_Copy (v : Validator) : Validator :=
  MkValidator (v_Address v) (v_PubKey v) (v_WithdrawalAddress v) (v_Index v) (v_ActivationEra v)
    (v_ExitEra v) (v_Stake v) None None [] None None.

(** ** Fields *)

Definition SetIndex (i : Z) (v : Validator) : Validator :=
  MkValidator (v_Address v) (v_PubKey v) (v_WithdrawalAddress v) i (v_ActivationEra v)
    (v_ExitEra v) (v_Stake v) (v_DelegatingStake v) (v_Ver v) (v_DepositTxs v) (v_WithdrawalTx v)
    (v_ExitTx v).
Definition SetActivationEra (era : Z) (v : Validator) : Validator :=
  MkValidator (v_Address v) (v_PubKey v) (v_WithdrawalAddress v) (v_Index v) era
    (v_ExitEra v) (v_Stake v) (v_DelegatingStake v) (v_Ver v) (v_DepositTxs v) (v_WithdrawalTx v)
    (v_ExitTx v).
Definition SetExitEra (era : Z) (v : Validator) : Validator :=
  MkValidator (v_Address v) (v_PubKey v) (v_WithdrawalAddress v) (v_Index v) (v_ActivationEra v)
    era (v_Stake v) (v_DelegatingStake v) (v_Ver v) (v_DepositTxs v) (v_WithdrawalTx v)
    (v_ExitTx v).
Definition set_Stakes (s : list StakeByAddress) (v : Validator) : Validator :=
  MkValidator (v_Address v) (v_PubKey v) (v_WithdrawalAddress v) (v_Index v) (v_ActivationEra v)
    (v_ExitEra v) s (v_DelegatingStake v) (v_Ver v) (v_DepositTxs v) (v_WithdrawalTx v)
    (v_ExitTx v).
Definition set_Delegating (d : option DelegatingStakeData) (v : Validator) : Validator :=
  MkValidator (v_Address v) (v_PubKey v) (v_WithdrawalAddress v) (v_Index v) (v_ActivationEra v)
    (v_ExitEra v) (v_Stake v) d (v_Ver v) (v_DepositTxs v) (v_WithdrawalTx v) (v_ExitTx v).
Definition set_Ver (ver : option Z) (v : Validator) : Validator :=
  MkValidator (v_Address v) (v_PubKey v) (v_WithdrawalAddress v) (v_Index v) (v_ActivationEra v)
    (v_ExitEra v) (v_Stake v) (v_DelegatingStake v) ver (v_DepositTxs v) (v_WithdrawalTx v)
    (v_ExitTx v).
Definition set_DepositTxs (txs : HashArray) (v : Validator) : Validator :=
  MkValidator (v_Address v) (v_PubKey v) (v_WithdrawalAddress v) (v_Index v) (v_ActivationEra v)
    (v_ExitEra v) (v_Stake v) (v_DelegatingStake v) (v_Ver v) txs (v_WithdrawalTx v) (v_ExitTx v).
Definition set_WithdrawalTx (tx : option Hash) (v : Validator) : Validator :=
  MkValidator (v_Address v) (v_PubKey v) (v_WithdrawalAddress v) (v_Index v) (v_ActivationEra v)
    (v_ExitEra v) (v_Stake v) (v_DelegatingStake v) (v_Ver v) (v_DepositTxs v) tx (v_ExitTx v).
Definition set_ExitTx (tx : option Hash) (v : Validator) : Validator :=
  MkValidator (v_Address v) (v_PubKey v) (v_WithdrawalAddress v) (v_Index v) (v_ActivationEra v)
    (v_ExitEra v) (v_Stake v) (v_DelegatingStake v) (v_Ver v) (v_DepositTxs v) (v_WithdrawalTx v) tx.

(** *** Version *)

Definition Version (v : Validator) : Z := default NoVer (v_Ver v).

(** The assignment of nil is overwritten by the one that follows. *)
Definition validator_SetVersion (version : Z) (v : Validator) : Validator :=
  let v := if version =? NoVer then set_Ver None v else v in
  set_Ver (Some version) v.

Definition hasExtendedData (v : Validator) : bool :=
  bool_decide (v_DelegatingStake v ≠ None) || negb (Version v =? NoVer).

(** [HasDelegatingStake] *)
Definition HasDelegatingStake `{!Bitlist} (v : Validator) : go_res bool :=
  b ← stake_IsEmpty (v_DelegatingStake v); Ok (negb b).

(** *** Transactions that are tracked for a validator *)

(** [version == NoVer || tx != nil && *tx == (common.Hash{})] *)
Definition no_tx (v : Validator) (tx : option Hash) : bool :=
  (Version v =? NoVer) || bool_decide (tx = Some (zero_fixed 32)).

Definition GetWithdrawalTx (v : Validator) : option Hash :=
  if no_tx v (v_WithdrawalTx v) then None else v_WithdrawalTx v.
Definition SetWithdrawalTx (tx : option Hash) (v : Validator) : Validator :=
  if no_tx v tx then set_WithdrawalTx None v else set_WithdrawalTx tx v.
Definition GetExitTx (v : Validator) : option Hash :=
  if no_tx v (v_ExitTx v) then None else v_ExitTx v.
Definition SetExitTx (tx : option Hash) (v : Validator) : Validator :=
  if no_tx v tx then set_ExitTx None v else set_ExitTx tx v.

Definition GetDepositTxs (v : Validator) : HashArray :=
  if Version v =? NoVer then [] else v_DepositTxs v.
Definition setDepositTxs (txs : HashArray) (v : Validator) : Validator :=
  if Version v =? NoVer then set_DepositTxs [] v else set_DepositTxs (Deduplicate txs) v.
Definition AddDepositTxs (txHash : Hash) (v : Validator) : Validator :=
  if Version v =? NoVer then set_DepositTxs [] v
  else set_DepositTxs (Deduplicate (GetDepositTxs v ++ [txHash])) v.
Definition ResetDepositTxs (v : Validator) : Validator := set_DepositTxs [] v.

(** ** Stake *)

Fixpoint add_stake (address : Address) (sum : Z) (l : list StakeByAddress) : list StakeByAddress :=
  match l with
  | [] => [MkStake address sum]
  | s :: l' =>
      if decide (sa_Address s = address) then MkStake (sa_Address s) (sa_Sum s + sum) :: l'
      else s :: add_stake address sum l'
  end.

Definition AddStake (address : Address) (sum : Z) (v : Validator) : Validator :=
  set_Stakes (add_stake address sum (v_Stake v)) v.

(** The new sum and the new list. *)
Fixpoint subtract_stake (address : Address) (sum : Z) (l : list StakeByAddress) :
    go_res (Z * list StakeByAddress) :=
  match l with
  | [] => Err errNoStake
  | s :: l' =>
      if decide (sa_Address s = address) then
        if sa_Sum s <? sum then Err errSubtractStake
        else Ok (sa_Sum s - sum, MkStake (sa_Address s) (sa_Sum s - sum) :: l')
      else
        '(r, l'') ← subtract_stake address sum l'; Ok (r, s :: l'')
  end.

Definition SubtractStake (address : Address) (sum : Z) (v : Validator) : go_res (Z * Validator) :=
  '(r, l) ← subtract_stake address sum (v_Stake v); Ok (r, set_Stakes l v).

Definition TotalStake (v : Validator) : Z := foldl (λ total s, total + sa_Sum s) 0 (v_Stake v).

Fixpoint find_stake (address : Address) (l : list StakeByAddress) : Z :=
  match l with
  | [] => 0
  | s :: l' => if decide (sa_Address s = address) then sa_Sum s else find_stake address l'
  end.
Definition GetStakeByAddress (v : Validator) (address : Address) : Z := find_stake address (v_Stake v).

Definition RmStakeByAddress (address : Address) (v : Validator) : Validator :=
  set_Stakes (filter (λ s, sa_Address s ≠ address) (v_Stake v)) v.

Definition UnsetStake (v : Validator) : Validator := set_Stakes [] v.

(** ** Binary form *)

(** [rlpBaseValidator] and [rlpVer1] *)
Definition stake_entry_type : rtype := TStruct [TArray 20; TBigInt].
Definition base_type : rtype :=
  TStruct [TArray 48; TPtr (TArray 20); TUint 64; TUint 64; TUint 64; TSlice (TPtr stake_entry_type)].
Definition ver1_type : rtype := TStruct [TSlice (TArray 32); TPtr (TArray 32); TPtr (TArray 32)].

Definition stake_entry_value (s : StakeByAddress) : rvalue :=
  VPtr (VStruct [VArray (fb (sa_Address s)); VBig (sa_Sum s)]).
Definition stake_of_value (v : rvalue) : StakeByAddress :=
  match v with
  | VPtr (VStruct [VArray a; VBig z]) => MkStake (BytesToAddress a) z
  | _ => MkStake (zero_fixed 20) 0
  end.
Definition hash_of_value (v : rvalue) : Hash :=
  match v with VArray b => BytesToHash b | _ => zero_fixed 32 end.

Definition base_value (v : Validator) : rvalue :=
  VStruct [VArray (fb (v_PubKey v)); VPtr (VArray (fb (default (zero_fixed 20) (v_WithdrawalAddress v))));
           VUint (v_Index v); VUint (v_ActivationEra v); VUint (v_ExitEra v);
           VSlice (map stake_entry_value (v_Stake v))].
Definition ver1_value (v : Validator) : rvalue :=
  VStruct [VSlice (map (λ h, VArray (fb h)) (GetDepositTxs v));
           VPtr (VArray (fb (default (zero_fixed 32) (GetWithdrawalTx v))));
           VPtr (VArray (fb (default (zero_fixed 32) (GetExitTx v))))].

Definition validator_MarshalBinary (v : Validator) : go_res bytes :=
  baseData ← EncodeToBytes base_type (base_value v);
  '(delegateBin, versionData) ←
    (if hasExtendedData v then
       delegateBin ← stake_MarshalBinary (v_DelegatingStake v);
       versionData ← (if NoVer <? Version v then
                        if Version v =? Ver1 then EncodeToBytes ver1_type (ver1_value v)
                        else Err errValidatorVersion
                      else Ok []);
       Ok (delegateBin, versionData)
     else Ok ([], []));
  let binData := fb (v_Address v) ++ PutUint32BE (Z.of_nat (length baseData)) ++ baseData in
  if negb (hasExtendedData v) then Ok binData
  else
    let binData := binData ++ PutUint32BE (Z.of_nat (length delegateBin)) ++ delegateBin in
    if Version v =? NoVer then Ok binData
    else Ok (binData ++ PutUint16BE (Version v) ++ versionData).

(** The versioned part. *)
Definition unmarshal_version (versionedData : bytes) (v : Validator) : go_res Validator :=
  head ← go_slice 0 Uint16Size versionedData;
  version ← Uint16BE head;
  let v := validator_SetVersion version v in
  if Version v =? Ver1 then
    d ← DecodeBytes ver1_type (drop Uint16Size versionedData);
    match d with
    | VStruct [VSlice txs; VPtr wtx; VPtr etx] =>
        Ok (SetExitTx (Some (hash_of_value etx))
             (SetWithdrawalTx (Some (hash_of_value wtx))
               (setDepositTxs (map hash_of_value txs) v)))
    | _ => Panic
    end
  else Err errValidatorVersion.

(** The extended part: delegated stake and versioned data. *)
Definition unmarshal_extended (extendedData : bytes) (v : Validator) : go_res Validator :=
  head ← go_slice 0 Uint32Size extendedData;
  delegateDataLen ← Uint32BE head;
  if Z.of_nat (length (drop Uint32Size extendedData)) <? delegateDataLen then Err errBadBinaryData
  else
    let endOfset := (Uint32Size + Z.to_nat delegateDataLen)%nat in
    data ← go_slice Uint32Size endOfset extendedData;
    delegatingStake ← NewDelegatingStakeDataFromBinary data;
    let v := set_Delegating delegatingStake v in
    let versionedData := drop endOfset extendedData in
    if Nat.ltb 0 (length versionedData) then unmarshal_version versionedData v else Ok v.

Definition validator_UnmarshalBinary (data : bytes) (v : Validator) : go_res Validator :=
  address ← go_slice 0 20 data;
  head ← go_slice 20 24 data;
  baseDataLen ← Uint32BE head;
  if Z.of_nat (length (drop 24 data)) <? baseDataLen then Err errBadBinaryData
  else
    let endOfset := (24 + Z.to_nat baseDataLen)%nat in
    baseData ← go_slice 24 endOfset data;
    base ← DecodeBytes base_type baseData;
    match base with
    | VStruct [VArray pk; VPtr (VArray wa); VUint ix; VUint ae; VUint ee; VSlice stakes] =>
        let wa := BytesToAddress wa in
        let v := MkValidator (BytesToAddress address) (BytesToBlsPubKey pk)
                   (if decide (wa = zero_fixed 20) then None else Some wa) ix ae ee
                   (map stake_of_value stakes) (v_DelegatingStake v) (v_Ver v) (v_DepositTxs v)
                   (v_WithdrawalTx v) (v_ExitTx v) in
        let extendedData := drop endOfset data in
        if Nat.ltb 0 (length extendedData) then unmarshal_extended extendedData v else Ok v
    | _ => Panic
    end.

Definition ToValidator (vb : bytes) : go_res Validator := validator_UnmarshalBinary vb zero_validator.

(** The conditional setters change one field. *)
Lemma SetVersion_eq ver v : validator_SetVersion ver v = set_Ver (Some ver) v.
Proof. unfold validator_SetVersion. by destruct (ver =? NoVer). Qed.

Lemma SetWithdrawalTx_eq tx v :
  SetWithdrawalTx tx v = set_WithdrawalTx (if no_tx v tx then None else tx) v.
Proof. unfold SetWithdrawalTx. by destruct (no_tx v tx). Qed.

Lemma SetExitTx_eq tx v : SetExitTx tx v = set_ExitTx (if no_tx v tx then None else tx) v.
Proof. unfold SetExitTx. by destruct (no_tx v tx). Qed.

Lemma AddDepositTxs_eq tx v :
  AddDepositTxs tx v =
  set_DepositTxs (if Version v =? NoVer then [] else Uniq (GetDepositTxs v ++ [tx])) v.
Proof. unfold AddDepositTxs. rewrite Deduplicate_Uniq. by destruct (Version v =? NoVer). Qed.

(** ** What a record is after it was written and read *)

(** A zero withdrawal address is read as nil, and so are zero transaction hashes; versioned data
    is kept only for a record with a version, with the deposits without repetitions. *)
Definition stored (v : Validator) : Validator :=
  MkValidator (v_Address v) (v_PubKey v)
    (match v_WithdrawalAddress v with
     | Some a => if decide (a = zero_fixed 20) then None else Some a
     | None => None
     end)
    (v_Index v) (v_ActivationEra v) (v_ExitEra v) (v_Stake v) (v_DelegatingStake v)
    (if Version v =? NoVer then None else Some (Version v))
    (Uniq (GetDepositTxs v)) (GetWithdrawalTx v) (GetExitTx v).

(** A record whose fields are in the range of their types and whose encoding is not longer than
    the four bytes for its length can say. *)
Record validator_fits (v : Validator) : Prop := {
  vf_index : is_u64 (v_Index v);
  vf_activation : is_u64 (v_ActivationEra v);
  vf_exit : is_u64 (v_ExitEra v);
  vf_stake : Forall (λ s, 0 ≤ sa_Sum s) (v_Stake v);
  vf_base : Z.of_nat (vsize (base_value v)) < 2 ^ 32;
  vf_delegate : ∀ d, v_DelegatingStake v = Some d → stake_fits d;
  vf_version : Version v = NoVer ∨ Version v = Ver1;
  vf_txs : Z.of_nat (vsize (ver1_value v)) < two64
}.

(** *** The parts of the encoding *)

Lemma stake_of_entry_values l : map stake_of_value (map stake_entry_value l) = l.
Proof.
  rewrite map_map. rewrite <- (map_id l) at 2. apply map_ext. intros [a s]. simpl.
  by rewrite BytesToFixed_fb.
Qed.

Lemma hash_of_values l : map hash_of_value (map (λ h, VArray (fb h)) l) = l.
Proof.
  rewrite map_map. rewrite <- (map_id l) at 2. apply map_ext. intros h. simpl.
  by rewrite BytesToFixed_fb.
Qed.

Lemma base_roundtrip v :
  validator_fits v →
  ∃ b, EncodeToBytes base_type (base_value v) = Ok b ∧ DecodeBytes base_type b = Ok (base_value v) ∧
    Z.of_nat (length b) < 2 ^ 32.
Proof.
  intros []. destruct (Encode_Decode_size base_type (base_value v)) as (b & He & Hd & Hl & _).
  - simpl. rewrite !length_fb. unfold is_u64, good_bits, two64 in *. split_and!; try done; try lia.
    clear -vf_stake0. induction vf_stake0 as [|s l Hs _ IH]; simpl; [done|].
    by rewrite length_fb.
  - unfold two64. lia.
  - exists b. split_and!; [done|done|lia].
Qed.

Lemma ver1_roundtrip v :
  validator_fits v →
  ∃ b, EncodeToBytes ver1_type (ver1_value v) = Ok b ∧ DecodeBytes ver1_type b = Ok (ver1_value v).
Proof.
  intros []. destruct (Encode_Decode_size ver1_type (ver1_value v)) as (b & He & Hd & Hl & _).
  - simpl. rewrite !length_fb. split_and!; try done.
    induction (GetDepositTxs v) as [|h l IH]; simpl; [done|]. by rewrite length_fb.
  - done.
  - by exists b.
Qed.

Lemma delegate_roundtrip dl :
  (∀ d, dl = Some d → stake_fits d) →
  ∃ b, stake_MarshalBinary dl = Ok b ∧ NewDelegatingStakeDataFromBinary b = Ok dl ∧
    Z.of_nat (length b) < 2 ^ 32.
Proof.
  intros Hd. destruct dl as [d|].
  - destruct (stake_roundtrip d (Hd d eq_refl)) as (b & ? & ? & ? & _). by exists b.
  - by exists (replicate Uint32Size x00).
Qed.

(** *** Reading the parts *)

Lemma Uint16BE_put u : 0 ≤ u < 2 ^ 16 → Uint16BE (PutUint16BE u) = Ok u.
Proof.
  intros Hu. rewrite <- (app_nil_r (PutUint16BE u)). by apply (UintBE_roundtrip 2).
Qed.

Lemma length_PutUint16BE u : length (PutUint16BE u) = 2%nat.
Proof. apply length_be_bytes. Qed.

Lemma unmarshal_version_put b txs wtx etx v :
  DecodeBytes ver1_type b = Ok (VStruct [VSlice txs; VPtr wtx; VPtr etx]) →
  unmarshal_version (PutUint16BE Ver1 ++ b) v =
  Ok (SetExitTx (Some (hash_of_value etx))
       (SetWithdrawalTx (Some (hash_of_value wtx))
         (setDepositTxs (map hash_of_value txs) (validator_SetVersion Ver1 v)))).
Proof.
  intros Hb. unfold unmarshal_version. rewrite go_slice_prefix by by rewrite length_PutUint16BE.
  rewrite Ok_bind, Uint16BE_put, Ok_bind by done.
  rewrite drop_app_length' by by rewrite length_PutUint16BE. by rewrite Hb.
Qed.

Lemma unmarshal_extended_put db dl vd v :
  NewDelegatingStakeDataFromBinary db = Ok dl → Z.of_nat (length db) < 2 ^ 32 →
  unmarshal_extended (PutUint32BE (Z.of_nat (length db)) ++ db ++ vd) v =
  if Nat.ltb 0 (length vd) then unmarshal_version vd (set_Delegating dl v)
  else Ok (set_Delegating dl v).
Proof.
  intros Hdb Hl. unfold unmarshal_extended.
  rewrite go_slice_prefix by by rewrite length_PutUint32BE.
  rewrite Ok_bind, Uint32BE_put, Ok_bind by lia.
  rewrite drop_app_length' by by rewrite length_PutUint32BE. rewrite length_app.
  destruct (Z.ltb_spec (Z.of_nat (length db + length vd)) (Z.of_nat (length db))); [lia|].
  rewrite Nat2Z.id.
  rewrite go_slice_app by (rewrite length_PutUint32BE; done).
  rewrite Ok_bind, Hdb, Ok_bind.
  by rewrite app_assoc, drop_app_length' by by rewrite length_app, length_PutUint32BE.
Qed.

Lemma unmarshal_base_put v b ext v0 :
  DecodeBytes base_type b = Ok (base_value v) → Z.of_nat (length b) < 2 ^ 32 →
  let v1 := MkValidator (v_Address v) (v_PubKey v) (v_WithdrawalAddress (stored v)) (v_Index v)
              (v_ActivationEra v) (v_ExitEra v) (v_Stake v) (v_DelegatingStake v0) (v_Ver v0)
              (v_DepositTxs v0) (v_WithdrawalTx v0) (v_ExitTx v0) in
  validator_UnmarshalBinary (fb (v_Address v) ++ PutUint32BE (Z.of_nat (length b)) ++ b ++ ext) v0 =
  if Nat.ltb 0 (length ext) then unmarshal_extended ext v1 else Ok v1.
Proof.
  intros Hb Hl v1. unfold validator_UnmarshalBinary. take_fields.
  rewrite Uint32BE_put, Ok_bind by lia.
  rewrite app_assoc, drop_app_length' by by rewrite length_app, length_fb, length_PutUint32BE.
  rewrite length_app.
  destruct (Z.ltb_spec (Z.of_nat (length b + length ext)) (Z.of_nat (length b))); [lia|].
  rewrite Nat2Z.id.
  rewrite go_slice_app by (rewrite length_app, length_fb, length_PutUint32BE; done).
  rewrite Ok_bind, Hb, Ok_bind. unfold base_value at 1. cbv iota beta.
  rewrite app_assoc, drop_app_length' by by rewrite !length_app, length_fb, length_PutUint32BE.
  rewrite stake_of_entry_values, !BytesToFixed_fb.
  assert ((if decide (default (zero_fixed 20) (v_WithdrawalAddress v) = zero_fixed 20) then None
           else Some (default (zero_fixed 20) (v_WithdrawalAddress v))) =
          v_WithdrawalAddress (stored v)) as ->; [|done].
  unfold stored. cbn [v_WithdrawalAddress].
  destruct (v_WithdrawalAddress v); [done|]. by apply decide_True.
Qed.

(** *** The round trip *)

(** A transaction that is read back from a pointer that is never nil. *)
Lemma no_tx_default v w tx :
  Version v = Ver1 → Version w = Ver1 →
  let t := if no_tx v tx then None else tx in
  (if no_tx w (Some (default (zero_fixed 32) t)) then None else Some (default (zero_fixed 32) t)) = t.
Proof.
  intros Hv Hw. unfold no_tx. rewrite Hv, Hw. change (Ver1 =? NoVer) with false.
  rewrite !orb_false_l. destruct tx as [h|]; [|done].
  destruct (decide (h = zero_fixed 32)) as [->|Hh]; [done|].
  cbv zeta. rewrite (bool_decide_false (Some h = _)) by naive_solver. cbn [default].
  by rewrite bool_decide_false by naive_solver.
Qed.

Lemma SetWithdrawalTx_stored v w :
  Version v = Ver1 → Version w = Ver1 →
  SetWithdrawalTx (Some (default (zero_fixed 32) (GetWithdrawalTx v))) w =
  set_WithdrawalTx (GetWithdrawalTx v) w.
Proof.
  intros Hv Hw. rewrite <- (no_tx_default v w (v_WithdrawalTx v)) at 2 by done.
  unfold SetWithdrawalTx, GetWithdrawalTx. cbv zeta. by destruct (no_tx w _).
Qed.

Lemma SetExitTx_stored v w :
  Version v = Ver1 → Version w = Ver1 →
  SetExitTx (Some (default (zero_fixed 32) (GetExitTx v))) w = set_ExitTx (GetExitTx v) w.
Proof.
  intros Hv Hw. rewrite <- (no_tx_default v w (v_ExitTx v)) at 2 by done.
  unfold SetExitTx, GetExitTx. cbv zeta. by destruct (no_tx w _).
Qed.

(** What reading the extended part changes. *)
Definition with_extended (v v1 : Validator) : Validator :=
  if hasExtendedData v then
    if Version v =? NoVer then set_Delegating (v_DelegatingStake v) v1
    else set_ExitTx (GetExitTx v) (set_WithdrawalTx (GetWithdrawalTx v)
          (set_DepositTxs (Uniq (GetDepositTxs v))
            (set_Ver (Some (Version v)) (set_Delegating (v_DelegatingStake v) v1))))
  else v1.

Lemma extended_roundtrip v b :
  validator_fits v → EncodeToBytes base_type (base_value v) = Ok b →
  ∃ ext, validator_MarshalBinary v =
      Ok (fb (v_Address v) ++ PutUint32BE (Z.of_nat (length b)) ++ b ++ ext) ∧
    ∀ v1, (if Nat.ltb 0 (length ext) then unmarshal_extended ext v1 else Ok v1) =
      Ok (with_extended v v1).
Proof.
  intros Hv He. destruct (delegate_roundtrip (v_DelegatingStake v)) as (db & Hdb & Hud & Hdl);
    [by apply vf_delegate|].
  unfold validator_MarshalBinary, with_extended. rewrite He, Ok_bind.
  destruct (hasExtendedData v) eqn:Hx; cbn [negb]; cycle 1.
  { exists []. rewrite app_nil_r. done. }
  rewrite Hdb, Ok_bind. destruct (vf_version v Hv) as [HV|HV]; rewrite HV.
  - exists (PutUint32BE (Z.of_nat (length db)) ++ db). split.
    + change (NoVer <? NoVer) with false. change (NoVer =? NoVer) with true.
      cbv iota. by rewrite !Ok_bind, <- !app_assoc.
    + intros v1. rewrite length_app, length_PutUint32BE. cbn [Nat.ltb Nat.leb Nat.add].
      rewrite <- (app_nil_r db) at 2. by rewrite (unmarshal_extended_put db (v_DelegatingStake v)).
  - destruct (ver1_roundtrip v Hv) as (vb & Hve & Hvd).
    exists (PutUint32BE (Z.of_nat (length db)) ++ db ++ PutUint16BE Ver1 ++ vb). split.
    + change (NoVer <? Ver1) with true. change (Ver1 =? Ver1) with true. cbv iota.
      by rewrite Hve, !Ok_bind, <- !app_assoc.
    + intros v1. rewrite length_app, length_PutUint32BE. cbn [Nat.ltb Nat.leb Nat.add].
      rewrite (unmarshal_extended_put db (v_DelegatingStake v)) by done.
      rewrite length_app, length_PutUint16BE. cbn [Nat.ltb Nat.leb Nat.add].
      erewrite unmarshal_version_put by exact Hvd. cbn [hash_of_value].
      unfold setDepositTxs. rewrite !BytesToFixed_fb, hash_of_values, Deduplicate_Uniq.
      by rewrite SetWithdrawalTx_stored, SetExitTx_stored by done.
Qed.

Lemma with_extended_stored v :
  Version v = NoVer ∨ Version v = Ver1 →
  with_extended v (MkValidator (v_Address v) (v_PubKey v) (v_WithdrawalAddress (stored v)) (v_Index v)
    (v_ActivationEra v) (v_ExitEra v) (v_Stake v) None None [] None None) = stored v.
Proof.
  intros HV. unfold with_extended, stored, hasExtendedData, GetDepositTxs, GetWithdrawalTx, GetExitTx, no_tx.
  destruct HV as [-> | ->]; [|by rewrite orb_true_r].
  rewrite orb_false_r. by destruct (v_DelegatingStake v).
Qed.

Lemma validator_roundtrip v :
  validator_fits v →
  ∃ b, validator_MarshalBinary v = Ok b ∧ ToValidator b = Ok (stored v) ∧
    (24 ≤ length b)%nat ∧ take 20 b = fb (v_Address v).
Proof.
  intros Hv. destruct (base_roundtrip v Hv) as (b & He & Hd & Hl).
  destruct (extended_roundtrip v b Hv He) as (ext & Hm & Hext).
  eexists. split; [exact Hm|]. rewrite !length_app, length_fb, length_PutUint32BE.
  split_and!; [|lia|by rewrite take_app_length' by by rewrite length_fb].
  unfold ToValidator. rewrite unmarshal_base_put by done. rewrite Hext. f_equal.
  apply with_extended_stored, Hv.
Qed.

(** *** The normal form *)

Lemma Version_stored v : Version (stored v) = Version v.
Proof. unfold stored, Version at 1. simpl. by destruct (Z.eqb_spec (Version v) NoVer) as [->|]. Qed.

Lemma GetDepositTxs_stored v : GetDepositTxs (stored v) = Uniq (GetDepositTxs v).
Proof.
  unfold GetDepositTxs at 1. rewrite Version_stored. simpl. unfold GetDepositTxs.
  by destruct (Version v =? NoVer).
Qed.

Lemma no_tx_idem v w tx :
  Version w = Version v →
  let t := if no_tx v tx then None else tx in (if no_tx w t then None else t) = t.
Proof.
  intros Hw. unfold no_tx. rewrite Hw. destruct (Version v =? NoVer); [done|]. rewrite !orb_false_l.
  cbv zeta. destruct (bool_decide_reflect (tx = Some (zero_fixed 32))); [done|].
  by rewrite bool_decide_false.
Qed.

Lemma GetWithdrawalTx_stored v : GetWithdrawalTx (stored v) = GetWithdrawalTx v.
Proof. apply no_tx_idem, Version_stored. Qed.

Lemma GetExitTx_stored v : GetExitTx (stored v) = GetExitTx v.
Proof. apply no_tx_idem, Version_stored. Qed.

Lemma stored_stored v : stored (stored v) = stored v.
Proof.
  unfold stored at 1. rewrite Version_stored, GetDepositTxs_stored, GetWithdrawalTx_stored, GetExitTx_stored.
  rewrite (Uniq_id (Uniq _)) by apply Uniq_NoDup. unfold stored. simpl. f_equal.
  destruct (v_WithdrawalAddress v) as [a|]; [|done].
  destruct (decide (a = zero_fixed 20)); [done|]. by rewrite decide_False.
Qed.

Lemma base_value_stored v : base_value (stored v) = base_value v.
Proof.
  unfold base_value, stored. cbn [v_PubKey v_WithdrawalAddress v_Index v_ActivationEra v_ExitEra v_Stake].
  destruct (v_WithdrawalAddress v) as [a|]; [|done].
  by destruct (decide (a = zero_fixed 20)) as [->|].
Qed.

Lemma vsize_hashes l : list_sum (map vsize (map (λ h : Hash, VArray (fb h)) l)) = (41 * length l)%nat.
Proof.
  induction l as [|h l IH]; [done|]. unfold list_sum in *. cbn [map fold_right vsize length].
  rewrite IH, length_fb. lia.
Qed.

Lemma vsize_ver1_value v :
  vsize (ver1_value v) = (9 + (9 + 41 * length (GetDepositTxs v) + (41 + (41 + 0))))%nat.
Proof.
  unfold ver1_value. cbn [vsize map list_sum fold_right].
  rewrite !length_fb. change (fold_right Nat.add 0%nat) with list_sum. rewrite vsize_hashes. done.
Qed.

Lemma validator_fits_stored v : validator_fits v → validator_fits (stored v).
Proof.
  intros [H1 H2 H3 H4 H5 H6 H7 H8]. split; try done.
  - by rewrite base_value_stored.
  - by rewrite Version_stored.
  - rewrite vsize_ver1_value in *. rewrite GetDepositTxs_stored.
    pose proof (Uniq_length (GetDepositTxs v)). lia.
Qed.

(** ** The ledger of deposits *)

(** The depositors of a validator are listed once. *)
Definition stake_wf (v : Validator) : Prop :=
  NoDup (map sa_Address (v_Stake v)) ∧ Forall (λ s, 0 ≤ sa_Sum s) (v_Stake v).

Fixpoint stake_total (l : list StakeByAddress) : Z :=
  match l with [] => 0 | s :: l' => sa_Sum s + stake_total l' end.

Lemma TotalStake_eq v : TotalStake v = stake_total (v_Stake v).
Proof.
  unfold TotalStake. enough (∀ l n, foldl (λ t s, t + sa_Sum s) n l = n + stake_total l) as ->; [lia|].
  intros l. induction l as [|s l IH]; intros n; simpl; [lia|]. rewrite IH. lia.
Qed.

Lemma add_stake_total a s l : stake_total (add_stake a s l) = stake_total l + s.
Proof. induction l as [|x l IH]; simpl; [lia|]. case_decide; simpl; lia. Qed.

Lemma find_stake_add a s l b :
  find_stake b (add_stake a s l) = find_stake b l + if decide (a = b) then s else 0.
Proof.
  induction l as [|x l IH]; simpl; [by repeat case_decide|].
  destruct (decide (sa_Address x = a)) as [Ha|Ha]; simpl; rewrite ?IH;
    repeat case_decide; congruence || lia.
Qed.

Lemma elem_of_add_stake a s l b :
  b ∈ map sa_Address (add_stake a s l) ↔ b = a ∨ b ∈ map sa_Address l.
Proof.
  induction l as [|x l IH]; simpl; [set_solver|].
  case_decide; simpl; rewrite !elem_of_cons, ?IH; naive_solver.
Qed.

Lemma add_stake_wf a s v : 0 ≤ s → stake_wf v → stake_wf (AddStake a s v).
Proof.
  intros Hs [Hn Hf]. unfold stake_wf, AddStake. simpl. split.
  - clear Hf. induction (v_Stake v) as [|x l IH]; simpl in *; [repeat constructor; set_solver|].
    apply NoDup_cons in Hn as [Hx Hn]. case_decide; simpl; apply NoDup_cons; [done|].
    split; [|auto]. rewrite elem_of_add_stake. naive_solver.
  - induction Hf as [|x l Hx Hl IH]; simpl; [by repeat constructor|].
    apply NoDup_cons in Hn as [_ Hn]. case_decide; constructor; simpl; [lia|done|done|auto].
Qed.

Lemma subtract_stake_Ok a s l r l' :
  subtract_stake a s l = Ok (r, l') →
  r = find_stake a l - s ∧ s ≤ find_stake a l ∧ stake_total l' = stake_total l - s ∧
  map sa_Address l' = map sa_Address l ∧
  (∀ b, find_stake b l' = find_stake b l - if decide (a = b) then s else 0) ∧
  (Forall (λ x, 0 ≤ sa_Sum x) l → Forall (λ x, 0 ≤ sa_Sum x) l').
Proof.
  revert r l'. induction l as [|x l IH]; intros r l' Hs; simpl in *; [done|].
  destruct (decide (sa_Address x = a)) as [Ha|Ha].
  - destruct (Z.ltb_spec (sa_Sum x) s); [done|]. simplify_eq/=. split_and!; try done; try lia.
    + intros b. case_decide; lia.
    + intros Hf. apply Forall_cons in Hf as [??]. constructor; simpl; [lia|done].
  - destruct (subtract_stake a s l) as [[r1 l1]| | |]; [|done..]. simplify_eq/=.
    destruct (IH _ _ eq_refl) as (-> & Hle & Ht & Hm & Hfi & Hfo). rewrite Hm. split_and!; try done; try lia.
    + intros b. rewrite Hfi. repeat case_decide; congruence || lia.
    + intros Hf. apply Forall_cons in Hf as [??]. constructor; auto.
Qed.

(** Subtraction fails exactly when there is no such depositor or not enough stake. *)
Lemma subtract_stake_defined a s l :
  a ∈ map sa_Address l → s ≤ find_stake a l → ∃ r, subtract_stake a s l = Ok r.
Proof.
  induction l as [|x l IH]; simpl; [set_solver|]. intros Ha Hs.
  destruct (decide (sa_Address x = a)).
  - destruct (Z.ltb_spec (sa_Sum x) s); [lia|]. by eexists.
  - apply elem_of_cons in Ha as [|Ha]; [congruence|]. destruct (IH Ha Hs) as [[r l'] ->]. by eexists.
Qed.

Lemma find_stake_absent a l : a ∉ map sa_Address l → find_stake a l = 0.
Proof.
  induction l as [|x l IH]; simpl; [done|]. intros Ha. rewrite not_elem_of_cons in Ha.
  case_decide; naive_solver.
Qed.

(** Removing a depositor removes that stake. *)
Lemma rm_stake_total a l :
  NoDup (map sa_Address l) →
  stake_total (filter (λ s, sa_Address s ≠ a) l) = stake_total l - find_stake a l.
Proof.
  induction l as [|x l IH]; simpl; [done|]. intros Hn. apply NoDup_cons in Hn as [Hx Hn].
  destruct (decide (sa_Address x = a)) as [Ha|Ha].
  - rewrite filter_cons_False by naive_solver. rewrite IH by done.
    rewrite find_stake_absent by congruence. lia.
  - rewrite filter_cons_True by done. simpl. rewrite IH by done. lia.
Qed.

Lemma find_stake_rm a l b :
  find_stake b (filter (λ s, sa_Address s ≠ a) l) = if decide (a = b) then 0 else find_stake b l.
Proof.
  induction l as [|x l IH]; simpl; [by case_decide|].
  destruct (decide (sa_Address x = a)) as [Ha|Ha].
  - rewrite filter_cons_False, IH by naive_solver. repeat case_decide; congruence.
  - rewrite filter_cons_True by done. simpl. rewrite IH. repeat case_decide; congruence.
Qed.

Lemma rm_stake_wf a v : stake_wf v → stake_wf (RmStakeByAddress a v).
Proof.
  intros [Hn Hf]. unfold stake_wf, RmStakeByAddress. simpl. split.
  - clear Hf. induction (v_Stake v) as [|x l IH]; [done|]. simpl in Hn.
    apply NoDup_cons in Hn as [Hx Hn].
    destruct (decide (sa_Address x ≠ a)).
    + rewrite filter_cons_True by done. apply NoDup_cons. split; [|auto].
      intros Hin. apply Hx. apply list_elem_of_fmap in Hin as (y & -> & Hy).
      apply list_elem_of_fmap_2. by apply list_elem_of_filter in Hy as [_ ?].
    + rewrite filter_cons_False by done. auto.
  - rewrite Forall_forall in *. intros x Hx. apply Hf. by apply list_elem_of_filter in Hx as [_ ?].
Qed.

Lemma find_stake_nonneg a l : Forall (λ s, 0 ≤ sa_Sum s) l → 0 ≤ find_stake a l.
Proof. induction 1; simpl; [lia|]. by case_decide. Qed.

Lemma SubtractStake_Ok a s v r v' :
  SubtractStake a s v = Ok (r, v') → stake_wf v →
  v' = set_Stakes (v_Stake v') v ∧ r = GetStakeByAddress v a - s ∧ 0 ≤ r ∧
  TotalStake v' = TotalStake v - s ∧ stake_wf v' ∧
  ∀ b, GetStakeByAddress v' b = GetStakeByAddress v b - if decide (a = b) then s else 0.
Proof.
  unfold SubtractStake. intros Hs [Hn Hf].
  destruct (subtract_stake a s (v_Stake v)) as [[r1 l1]| | |] eqn:Hl; [|done..]. simplify_eq/=.
  apply subtract_stake_Ok in Hl as (-> & Hle & Ht & Hm & Hfi & Hfo).
  rewrite !TotalStake_eq. unfold stake_wf, GetStakeByAddress. simpl. rewrite Hm.
  split_and!; (done || lia || auto).
Qed.

(** ** Properties *)

(** C30: A record that is written and read back is the same record in normal form, and its bytes
    start with its address, as [IsValidatorAddress] expects; the normal form is stable. *)
Theorem validator_binary_roundtrip v :
  validator_fits v →
  ∃ b, validator_MarshalBinary v = Ok b ∧ ToValidator b = Ok (stored v) ∧
    (∀ w, IsValidatorAddress (SetCode (v_Address v) b w) (v_Address v) = true) ∧
    stored (stored v) = stored v ∧ validator_fits (stored v).
Proof.
  intros Hv. destruct (validator_roundtrip v Hv) as (b & Hm & Ht & Hl & Ha). exists b.
  split_and!; [done|done| |apply stored_stored|by apply validator_fits_stored].
  intros w. unfold IsValidatorAddress. rewrite GetCode_SetCode, decide_True by done. rewrite Ha.
  destruct (Nat.leb_spec 20 (length b)); [|lia]. by rewrite bool_decide_true.
Qed.

(** The stake of a validator is a ledger: a deposit adds to the depositor and to the total, a
    withdrawal of at most a depositor's stake takes it from both and is refused otherwise, and
    removing a depositor removes exactly that stake; depositors stay listed once, with amounts
    that are not negative. *)
Theorem stake_ledger v a s :
  stake_wf v → 0 ≤ s →
  (let v' := AddStake a s v in
   stake_wf v' ∧ TotalStake v' = TotalStake v + s ∧
   ∀ b, GetStakeByAddress v' b = GetStakeByAddress v b + if decide (a = b) then s else 0) ∧
  (∀ r v', SubtractStake a s v = Ok (r, v') →
     stake_wf v' ∧ r = GetStakeByAddress v a - s ∧ 0 ≤ r ∧ TotalStake v' = TotalStake v - s ∧
     ∀ b, GetStakeByAddress v' b = GetStakeByAddress v b - if decide (a = b) then s else 0) ∧
  (0 < s → (∃ r, SubtractStake a s v = Ok r) ↔ s ≤ GetStakeByAddress v a) ∧
  (let v' := RmStakeByAddress a v in
   stake_wf v' ∧ TotalStake v' = TotalStake v - GetStakeByAddress v a ∧
   ∀ b, GetStakeByAddress v' b = if decide (a = b) then 0 else GetStakeByAddress v b).
Proof.
  intros Hwf Hs. split_and!.
  - split_and!; [by apply add_stake_wf|rewrite !TotalStake_eq; apply add_stake_total|].
    intros b. apply find_stake_add.
  - intros r v' Hr. apply SubtractStake_Ok in Hr as (_ & ? & ? & ? & ? & ?); done.
  - intros Hpos. split.
    + intros [[r v'] Hr]. apply SubtractStake_Ok in Hr as (_ & -> & ? & _); [lia|done].
    + intros Hle. destruct (subtract_stake_defined a s (v_Stake v)) as [[r l] Hr]; [|done|].
      * destruct (decide (a ∈ map sa_Address (v_Stake v))) as [|Hn]; [done|].
        unfold GetStakeByAddress in Hle. rewrite find_stake_absent in Hle by done. lia.
      * unfold SubtractStake. rewrite Hr. by eexists.
  - split_and!; [by apply rm_stake_wf| |intros b; apply find_stake_rm].
    rewrite !TotalStake_eq. apply rm_stake_total, Hwf.
Qed.

(** ** Witnesses *)

(** A validator with delegated stake, two depositors and tracked transactions. *)
Definition toy_validator : Validator :=
  MkValidator (toy_addr x09) (BytesToBlsPubKey [x01]) (Some (toy_addr x0a)) 4 MaxUint64 MaxUint64
    [MkStake (toy_addr x03) 20000000000000000000; MkStake (toy_addr x05) 10000000000000000000]
    (Some (MkStakeData toy_rules 10 empty_rules)) (Some Ver1)
    [BytesToHash [x01]; BytesToHash [x02]; BytesToHash [x01]] (Some (BytesToHash [x03])) None.

Lemma toy_validator_fits : validator_fits toy_validator.
Proof.
  split.
  - split; vm_compute; congruence.
  - split; vm_compute; congruence.
  - split; vm_compute; congruence.
  - unfold toy_validator. cbn [v_Stake]. rewrite !Forall_cons, Forall_nil. simpl. lia.
  - vm_compute. reflexivity.
  - intros d [= <-]. split; vm_compute; intuition congruence.
  - by right.
  - vm_compute. reflexivity.
Qed.

Lemma validator_binary_roundtrip_witness :
  ∃ b, validator_MarshalBinary toy_validator = Ok b ∧ ToValidator b = Ok (stored toy_validator).
Proof.
  destruct (validator_binary_roundtrip toy_validator) as (b & Hm & Ht & _).
  - apply toy_validator_fits.
  - exists b. exact (conj Hm Ht).
Defined.

