(* ===== verification/ValStorage.v ===== *)
(** * Storage of validators

    The validators in the state (src/validator/storage/storage.go): the record of a validator is
    the code of its account, and the code of the validators state address holds the number of
    deposits (eight bytes, big-endian) and the list of the addresses of the validators. *)

From Stdlib Require Import ZArith Lia Strings.Byte.
From stdpp Require Import base tactics option numbers list gmap strings.
From S2P Require Import Prelude Common RlpEnc RlpDec Chain GoMap DelegRules ValOps World Validator.

Definition ErrNoStateValidatorInfo : error := Error "storage.ErrNoStateValidatorInfo".

(** ** Records *)

Definition SetValidator (val : Validator) : stM World unit :=
  valData ← liftR (validator_MarshalBinary val);
  modify (SetCode (v_Address val) valData).

Definition GetValidator (w : World) (address : Address) : go_res Validator :=
  match GetCode w address with
  | None => Err ErrNoStateValidatorInfo
  | Some valData => ToValidator valData
  end.

Section storage.
Context (config : ChainConfig).

(** [*s.ValidatorsStateAddress()] *)
Definition stateAddress : go_res Address := deref (ValidatorsStateAddress config).

(** [GetCode] of the state address, with nil and empty told apart. *)
Definition getList (w : World) : go_res (option bytes) :=
  a ← stateAddress; Ok (GetCode w a).

(** ** The list of validators and the number of deposits *)

Definition SetValidatorsList (list : list Address) : stM World unit :=
  w ← getS;
  currentList ← liftR (getList w);
  let currentList := default [] currentList in
  depositCount ← liftR (if Nat.ltb 0 (length currentList)
                        then head ← go_slice 0 Uint64Size currentList; Uint64BE head
                        else Ok 0);
  a ← liftR stateAddress;
  modify (SetCode a (PutUint64BE depositCount ++ concat (map fb list))).

(** The loop of [GetValidatorsList] over the positions [i], [i + 20], ...; the bytes of the
    buffer bound the number of its steps. *)
Fixpoint readList (fuel : nat) (buf : bytes) (i : nat) : go_res (list Address) :=
  match fuel with
  | O => NoFuel
  | S fuel' =>
      if Nat.leb (i + AddressLength) (length buf) then
        b ← go_slice i (i + AddressLength) buf;
        rest ← readList fuel' buf (i + AddressLength);
        let a := BytesToAddress b in
        Ok (if decide (a ≠ zero_fixed 20) then a :: rest else rest)
      else Ok []
  end.

Definition GetValidatorsList (w : World) : go_res (list Address) :=
  buf ← getList w;
  let buf := default [] buf in
  readList (S (length buf)) buf Uint64Size.

Definition GetDepositCount (w : World) : go_res Z :=
  buf ← getList w;
  match buf with
  | None => Ok 0
  | Some buf => head ← go_slice 0 Uint64Size buf; Uint64BE head
  end.

(** The buffer that [GetCode] returns is changed in place and then set as the new code. A code of the
    world is a value: that the journal, for a revert of this [SetCode], and copies of the state database
    share the buffer is not represented. In a call nothing that can fail comes after it. *)
Definition IncrementDepositCount : stM World unit :=
  w ← getS;
  buf ← liftR (getList w);
  let buf := default (replicate Uint64Size x00) buf in
  currentCount ← liftR (head ← go_slice 0 Uint64Size buf; Uint64BE head);
  let currentCount := u64 (currentCount + 1) in
  a ← liftR stateAddress;
  modify (SetCode a (PutUint64BE currentCount ++ drop Uint64Size buf)).

(** [for uint64(len(list)) <= index { list = append(list, common.Address{}) }] *)
Fixpoint extendList (fuel : nat) (l : list Address) (index : Z) : go_res (list Address) :=
  if Z.of_nat (length l) <=? index then
    match fuel with
    | O => NoFuel
    | S fuel' => extendList fuel' (l ++ [zero_fixed 20]) index
    end
  else Ok l.

Definition AddValidatorToList (index : Z) (validator : Address) : stM World unit :=
  w ← getS;
  list ← liftR (GetValidatorsList w);
  if bool_decide (validator ∈ list) then mret tt
  else
    list ← liftR (extendList (S (Z.to_nat index)) list index);
    _ ← liftR (go_index list (Z.to_nat index));
    SetValidatorsList (<[Z.to_nat index := validator]> list).
End storage.

(** ** Lemmas *)

Definition nonzero (l : list Address) : list Address := filter (λ a, a ≠ zero_fixed 20) l.

(** The code of the state address for [n] deposits and the list [l]. *)
Definition list_code (n : Z) (l : list Address) : bytes := PutUint64BE n ++ concat (map fb l).

Lemma length_concat_fb (l : list Address) : length (concat (map fb l)) = (20 * length l)%nat.
Proof. induction l as [|a l IH]; simpl; [done|]. rewrite length_app, length_fb, IH. lia. Qed.

Lemma readList_spec l : ∀ fuel pre i,
  i = length pre → (length l < fuel)%nat →
  readList fuel (pre ++ concat (map fb l)) i = Ok (nonzero l).
Proof.
  induction l as [|a l IH]; intros [|fuel] pre i -> Hf; simpl in Hf; try lia.
  - simpl. rewrite app_nil_r. destruct (Nat.leb_spec (length pre + AddressLength) (length pre)) as [Hl|];
      [unfold AddressLength in Hl; lia|done].
  - cbn [readList map concat]. rewrite !length_app, length_fb.
    destruct (Nat.leb_spec (length pre + AddressLength) (length pre + (20 + length (concat (map fb l)))))
      as [_|Hl]; [|unfold AddressLength in Hl; lia].
    rewrite go_slice_app by (rewrite ?length_fb; done). rewrite Ok_bind.
    rewrite app_assoc, IH by (rewrite ?length_app, ?length_fb; done || lia).
    rewrite Ok_bind, BytesToFixed_fb. unfold nonzero. rewrite filter_cons. by case_decide.
Qed.

Lemma extendList_spec fuel : ∀ l index,
  0 ≤ index → (Z.to_nat index < fuel + length l)%nat →
  extendList fuel l index =
  Ok (l ++ replicate (S (Z.to_nat index) - length l) (zero_fixed 20)).
Proof.
  induction fuel as [|fuel IH]; intros l index Hi Hf; simpl;
    destruct (Z.leb_spec (Z.of_nat (length l)) index); try lia.
  - replace (_ - length l)%nat with 0%nat by lia. by rewrite app_nil_r.
  - rewrite IH by (rewrite ?length_app; simpl; lia). rewrite length_app. simpl length.
    replace (S (Z.to_nat index) - length l)%nat with (S (S (Z.to_nat index) - (length l + 1))) by lia.
    by rewrite <- app_assoc.
  - replace (_ - length l)%nat with 0%nat by lia. by rewrite app_nil_r.
Qed.

Section list_state.
Context (config : ChainConfig) (sa : Address) (Hsa : ValidatorsStateAddress config = Some sa).

(** The state has [n] deposits and the list [l]; before the first change there is no code. *)
Definition list_state (w : World) (n : Z) (l : list Address) : Prop :=
  is_u64 n ∧ ((GetCode w sa = None ∧ n = 0 ∧ l = []) ∨ GetCode w sa = Some (list_code n l)).

Lemma getList_eq w : getList config w = Ok (GetCode w sa).
Proof. unfold getList, stateAddress. by rewrite Hsa. Qed.

Lemma list_code_head n l : is_u64 n →
  (head ← go_slice 0 Uint64Size (list_code n l); Uint64BE head) = Ok n.
Proof.
  intros Hn. unfold list_code. rewrite go_slice_prefix by by rewrite length_PutUint64BE.
  by rewrite Ok_bind, Uint64BE_put.
Qed.

Lemma GetValidatorsList_spec w n l : list_state w n l → GetValidatorsList config w = Ok (nonzero l).
Proof.
  intros [Hn Hc]. unfold GetValidatorsList. rewrite getList_eq, Ok_bind.
  destruct Hc as [(-> & -> & ->)| -> ]; [done|]. cbn [from_option id]. unfold list_code.
  apply readList_spec; [by rewrite length_PutUint64BE|].
  rewrite length_app, length_PutUint64BE, length_concat_fb. lia.
Qed.

Lemma GetDepositCount_spec w n l : list_state w n l → GetDepositCount config w = Ok n.
Proof.
  intros [Hn Hc]. unfold GetDepositCount. rewrite getList_eq, Ok_bind.
  destruct Hc as [(-> & -> & ->)| -> ]; [done|]. by apply list_code_head.
Qed.

(** Only the code of the state address changes. *)
Definition list_update (w w' : World) : Prop := ∃ c, w' = SetCode sa c w.

Lemma SetValidatorsList_spec w n l l' :
  list_state w n l →
  ∃ w', SetValidatorsList config l' w = (Ok tt, w') ∧ list_state w' n l' ∧ list_update w w'.
Proof.
  intros [Hn Hc]. unfold SetValidatorsList. st_step. rewrite getList_eq. st_step.
  set (code := GetCode w sa) in *.
  assert ((if Nat.ltb 0 (length (default [] code))
           then head ← go_slice 0 Uint64Size (default [] code); Uint64BE head else Ok 0) = Ok n) as ->.
  { destruct Hc as [(-> & -> & ->)| -> ]; [done|]. cbn [from_option id].
    assert (Nat.ltb 0 (length (list_code n l)) = true) as ->; [|by apply list_code_head].
    unfold list_code. rewrite length_app, length_PutUint64BE. done. }
  st_step. unfold stateAddress. rewrite Hsa. cbn [deref]. st_step.
  eexists. split; [reflexivity|]. split; [|by eexists].
  split; [done|]. right. by rewrite GetCode_SetCode, decide_True.
Qed.

Lemma IncrementDepositCount_spec w n l :
  list_state w n l →
  ∃ w', IncrementDepositCount config w = (Ok tt, w') ∧ list_state w' (u64 (n + 1)) l ∧
    list_update w w'.
Proof.
  intros [Hn Hc]. unfold IncrementDepositCount. st_step. rewrite getList_eq. st_step.
  assert (default (replicate Uint64Size x00) (GetCode w sa) = list_code n l) as ->.
  { by destruct Hc as [(-> & -> & ->)| -> ]. }
  cbv zeta. rewrite list_code_head by done. st_step. unfold stateAddress. rewrite Hsa.
  cbn [deref]. st_step.
  eexists. split; [reflexivity|]. split; [|by eexists].
  split; [unfold u64, is_u64, two64; dlia|].
  right. rewrite GetCode_SetCode, decide_True by done. unfold list_code.
  by rewrite drop_app_length' by by rewrite length_PutUint64BE.
Qed.

(** Adding a validator at an index: a validator that is in the list stays where it is; an index
    behind the list appends; an index inside the list replaces what is there. *)
Definition add_to_list (index : Z) (v : Address) (l : list Address) : list Address :=
  if decide (v ∈ nonzero l) then l
  else <[Z.to_nat index := v]> (nonzero l ++ replicate (S (Z.to_nat index) - length (nonzero l)) (zero_fixed 20)).

Lemma AddValidatorToList_spec w n l index v :
  list_state w n l → 0 ≤ index →
  ∃ w', AddValidatorToList config index v w = (Ok tt, w') ∧
    list_state w' n (add_to_list index v l) ∧ (w' = w ∨ list_update w w').
Proof.
  intros Hs Hi. unfold AddValidatorToList. st_step.
  rewrite (GetValidatorsList_spec w n l Hs). st_step. unfold add_to_list.
  destruct (decide (v ∈ nonzero l)) as [Hv|Hv].
  - rewrite bool_decide_true by done. exists w. split_and!; [done|done|by left].
  - rewrite bool_decide_false by done. rewrite extendList_spec by lia. st_step.
    set (l' := nonzero l ++ _). assert (is_Some (l' !! Z.to_nat index)) as [x Hx].
    { apply lookup_lt_is_Some. unfold l'. rewrite length_app, length_replicate. lia. }
    unfold go_index. rewrite Hx. cbn [deref]. st_step.
    destruct (SetValidatorsList_spec w n l (<[Z.to_nat index:=v]> l') Hs) as (w' & -> & ? & ?).
    exists w'. split_and!; [done|done|by right].
Qed.
End list_state.

(** A record that was set is read in normal form; the other accounts are as before. *)
Lemma SetValidator_spec v w :
  validator_fits v →
  ∃ c, SetValidator v w = (Ok tt, SetCode (v_Address v) c w) ∧
    ∀ w', GetCode w' (v_Address v) = Some c → GetValidator w' (v_Address v) = Ok (stored v).
Proof.
  intros Hv. destruct (validator_roundtrip v Hv) as (c & Hm & Ht & _). exists c.
  unfold SetValidator. rewrite Hm. split; [done|]. intros w' Hw'. unfold GetValidator. by rewrite Hw'.
Qed.

Lemma SetValidator_Ok v w u w' :
  SetValidator v w = (Ok u, w') →
  ∃ c, validator_MarshalBinary v = Ok c ∧ w' = SetCode (v_Address v) c w.
Proof.
  unfold SetValidator. intros H. destruct (validator_MarshalBinary v) as [c| | |]; [|done..].
  injection H as _ <-. by exists c.
Qed.

Lemma nonzero_nonzero l : nonzero (nonzero l) = nonzero l.
Proof. apply filter_Forall, Forall_filter_self. Qed.

Lemma nonzero_zeros n : nonzero (replicate n (zero_fixed 20)) = [].
Proof.
  unfold nonzero. induction n as [|n IH]; simpl; [done|]. rewrite filter_cons_False by naive_solver.
  done.
Qed.

Lemma nonzero_app l k : nonzero (l ++ k) = nonzero l ++ nonzero k.
Proof. apply filter_app. Qed.

(** What a reader of the list sees after a validator was added. *)
Lemma nonzero_add_to_list index v l :
  0 ≤ index → v ≠ zero_fixed 20 → v ∉ nonzero l →
  nonzero (add_to_list index v l) =
  if Z.of_nat (length (nonzero l)) <=? index then nonzero l ++ [v]
  else <[Z.to_nat index := v]> (nonzero l).
Proof.
  intros Hi Hv Hl. unfold add_to_list. rewrite decide_False by done.
  pose proof (nonzero_nonzero l) as Hk. set (k := nonzero l) in *. clearbody k.
  destruct (Z.leb_spec (Z.of_nat (length k)) index) as [H|H].
  - replace (Z.to_nat index) with (length k + (Z.to_nat index - length k))%nat at 1 by lia.
    rewrite insert_app_r, nonzero_app, Hk. f_equal.
    replace (S (Z.to_nat index) - length k)%nat with (Z.to_nat index - length k + 1)%nat by lia.
    rewrite replicate_add, insert_app_r_alt by (rewrite length_replicate; lia).
    rewrite length_replicate, Nat.sub_diag, nonzero_app, nonzero_zeros. simpl.
    unfold nonzero. by rewrite filter_cons_True.
  - replace (S (Z.to_nat index) - length k)%nat with 0%nat by lia. simpl. rewrite app_nil_r.
    apply filter_Forall, Forall_insert; [|done]. rewrite <- Hk. apply Forall_filter_self.
Qed.

(** ** Properties *)

(** The list of validators and the number of deposits share one code and do not disturb each
    other: setting the list keeps the number, counting a deposit keeps the list, and a validator
    that is added behind the list is appended to what readers see, once. *)
Theorem validators_list_spec config sa w n l :
  ValidatorsStateAddress config = Some sa → list_state sa w n l →
  GetValidatorsList config w = Ok (nonzero l) ∧ GetDepositCount config w = Ok n ∧
  (∀ l', ∃ w', SetValidatorsList config l' w = (Ok tt, w') ∧
     GetValidatorsList config w' = Ok (nonzero l') ∧ GetDepositCount config w' = Ok n) ∧
  (∃ w', IncrementDepositCount config w = (Ok tt, w') ∧
     GetValidatorsList config w' = Ok (nonzero l) ∧ GetDepositCount config w' = Ok (u64 (n + 1))) ∧
  (∀ index v, v ≠ zero_fixed 20 → Z.of_nat (length (nonzero l)) ≤ index →
     ∃ w', AddValidatorToList config index v w = (Ok tt, w') ∧
       GetValidatorsList config w' =
         Ok (if decide (v ∈ nonzero l) then nonzero l else nonzero l ++ [v]) ∧
       GetDepositCount config w' = Ok n).
Proof.
  intros Hsa Hs. split_and!.
  - by eapply GetValidatorsList_spec.
  - by eapply GetDepositCount_spec.
  - intros l'. destruct (SetValidatorsList_spec config sa Hsa w n l l' Hs) as (w' & Hw & Hs' & _).
    exists w'. split_and!; [done|by eapply GetValidatorsList_spec|by eapply GetDepositCount_spec].
  - destruct (IncrementDepositCount_spec config sa Hsa w n l Hs) as (w' & Hw & Hs' & _).
    exists w'. split_and!; [done|by eapply GetValidatorsList_spec|by eapply GetDepositCount_spec].
  - intros index v Hv Hi.
    destruct (AddValidatorToList_spec config sa Hsa w n l index v Hs) as (w' & Hw & Hs' & _); [lia|].
    exists w'. split_and!; [done| |by eapply GetDepositCount_spec].
    rewrite (GetValidatorsList_spec config sa Hsa w' n _ Hs'). f_equal.
    destruct (decide (v ∈ nonzero l)) as [Hl|Hl].
    + unfold add_to_list. by rewrite decide_True.
    + rewrite nonzero_add_to_list by (done || lia).
      destruct (Z.leb_spec (Z.of_nat (length (nonzero l))) index); [done|lia].
Qed.

(** Readers of the list skip empty places, so a validator that is activated before the one
    with the preceding index is dropped from the list when that one is activated: with [n]
    validators in the list, adding [v] at index [n + 1] and then [x] at index [n] leaves [x] in
    the place of [v]. *)
Theorem list_drops_validator config sa w n l v x :
  ValidatorsStateAddress config = Some sa → list_state sa w n l → nonzero l = l →
  v ≠ zero_fixed 20 → x ≠ zero_fixed 20 → v ∉ l → x ∉ v :: l →
  let index := Z.of_nat (length l) in
  ∃ w1 w2, AddValidatorToList config (index + 1) v w = (Ok tt, w1) ∧
    AddValidatorToList config index x w1 = (Ok tt, w2) ∧
    GetValidatorsList config w1 = Ok (l ++ [v]) ∧ GetValidatorsList config w2 = Ok (l ++ [x]).
Proof.
  intros Hsa Hs Hl Hv Hx Hvl Hxl index.
  destruct (AddValidatorToList_spec config sa Hsa w n l (index + 1) v Hs) as (w1 & Hw1 & Hs1 & _); [lia|].
  destruct (AddValidatorToList_spec config sa Hsa w1 n _ index x Hs1) as (w2 & Hw2 & Hs2 & _); [lia|].
  assert (nonzero (add_to_list (index + 1) v l) = l ++ [v]) as Hl1.
  { rewrite nonzero_add_to_list, Hl by (rewrite ?Hl; done || lia).
    destruct (Z.leb_spec (Z.of_nat (length l)) (index + 1)); [done|lia]. }
  exists w1, w2. split_and!; [done|done| |].
  - by rewrite (GetValidatorsList_spec config sa Hsa w1 n _ Hs1), Hl1.
  - rewrite (GetValidatorsList_spec config sa Hsa w2 n _ Hs2).
    rewrite nonzero_add_to_list, Hl1 by (rewrite ?Hl1; set_solver || lia).
    rewrite length_app. simpl. destruct (Z.leb_spec (Z.of_nat (length l + 1)) index); [lia|].
    unfold index. rewrite Nat2Z.id. f_equal.
    replace (length l) with (length l + 0)%nat by lia. by rewrite insert_app_r.
Qed.

(** ** Witnesses *)

Definition toy_vsa : Address := toy_addr x99.
Definition toy_vconfig : ChainConfig :=
  MkChainConfig 1 4 32 10 2 (Some toy_vsa) 4 (Some 3200) 1000 0 0 0 0 0 0 0 0.

Definition toy_world : World :=
  SetCode toy_vsa (list_code 2 [toy_addr x01; toy_addr x02]) empty_world.
