(* ===== verification/ValCache.v ===== *)
(** * Active validators, creators of a slot and their cache

    The cache of validators (src/validator/storage/validators_cache.go) and the queries of
    src/validator/storage/storage.go that go through it: the active validators of an era, their
    number, and the creators of a slot. The mutexes serialise the operations on the cache, so the
    model runs one operation at a time. The chain is an interface ([StorageChain]).

    [creators_ref] is the specification: the creators of a slot as a function of the chain. The
    queries, with any cache that was filled by them, refine it. *)

From Stdlib Require Import ZArith Lia Strings.Byte.
From stdpp Require Import base tactics option numbers list gmap strings.
From S2P Require Import Prelude Common Chain Era GoMap DelegRules Shuffle World Validator ValStorage.

Definition ErrInvalidValidatorsFilter : error := Error "storage.ErrInvalidValidatorsFilter".
Definition errNoSubnetValidators : error := Error "storage.errNoSubnetValidators".
Definition errNoEraValidators : error := Error "storage.errNoEraValidators".
Definition errTransitionTimeout : error :=
  Error "check transition processing failed, timeout expired".
Definition errEpochNotFound : error := Error "epoch not found".

(** ** Cache *)

Definition cacheCapacity : nat := 3.

(** A list that is in the cache is never a nil slice: an entry is there or not. *)
Record ValidatorsCache := MkCache {
  allActiveValidatorsCache : gmap Z (list Address);
  subnetValidatorsCache : gmap Z (gmap Z (list Address));
  shuffledValidatorsCache : gmap Z (list (list Address));
  shuffledSubnetValidatorsCache : gmap Z (gmap Z (list (list Address)))
}.

Definition NewCache : ValidatorsCache := MkCache ∅ ∅ ∅ ∅.

(** The least key, found by a loop over the map that starts at the largest [uint64]. *)
Definition needDel {A} (m : gmap Z A) : Z :=
  map_fold (λ e _ acc, if e <? acc then e else acc) MaxUint64 m.

(** [if len(m) == cacheCapacity { ... delete(m, needDel) }] *)
Definition evict {A} (m : gmap Z A) : gmap Z A :=
  if Nat.eqb (size m) cacheCapacity then delete (needDel m) m else m.

Definition addAllActiveValidatorsByEra (era : Z) (validatorsList : list Address)
    (c : ValidatorsCache) : ValidatorsCache :=
  MkCache (<[era := validatorsList]> (evict (allActiveValidatorsCache c)))
    (subnetValidatorsCache c) (shuffledValidatorsCache c) (shuffledSubnetValidatorsCache c).

Definition getAllActiveValidatorsByEra (c : ValidatorsCache) (era : Z) : option (list Address) :=
  allActiveValidatorsCache c !! era.

Definition addSubnetValidators (epoch subnet : Z) (validators : list Address)
    (c : ValidatorsCache) : ValidatorsCache :=
  let m := default ∅ (subnetValidatorsCache c !! epoch) in
  MkCache (allActiveValidatorsCache c)
    (<[epoch := <[subnet := validators]> m]> (subnetValidatorsCache c))
    (shuffledValidatorsCache c) (shuffledSubnetValidatorsCache c).

Definition getSubnetValidators (c : ValidatorsCache) (epoch subnet : Z) : go_res (list Address) :=
  match subnetValidatorsCache c !! epoch with
  | None => Err errNoEraValidators
  | Some epochValidators =>
      match epochValidators !! subnet with
      | None => Err errNoSubnetValidators
      | Some subnetValidators => Ok subnetValidators
      end
  end.

Definition addValidator (addr : Address) (era : Z) (c : ValidatorsCache) : ValidatorsCache :=
  let l := default [] (allActiveValidatorsCache c !! era) in
  MkCache (<[era := l ++ [addr]]> (allActiveValidatorsCache c))
    (subnetValidatorsCache c) (shuffledValidatorsCache c) (shuffledSubnetValidatorsCache c).

(** [switch len(filter)]: one number for an epoch, two for an epoch and a subnet. *)
Definition addShuffledValidators (shuffledValidators : list (list Address)) (filter : list Z) :
    stM ValidatorsCache unit :=
  match filter with
  | [epoch] =>
      modify (λ c, MkCache (allActiveValidatorsCache c) (subnetValidatorsCache c)
        (<[epoch := shuffledValidators]> (evict (shuffledValidatorsCache c)))
        (shuffledSubnetValidatorsCache c))
  | [epoch; subnet] =>
      modify (λ c,
        let m := evict (shuffledSubnetValidatorsCache c) in
        MkCache (allActiveValidatorsCache c) (subnetValidatorsCache c) (shuffledValidatorsCache c)
          (<[epoch := <[subnet := shuffledValidators]> (default ∅ (m !! epoch))]> m))
  | _ => liftR (Err ErrInvalidValidatorsFilter)
  end.

Definition getShuffledValidators (c : ValidatorsCache) (filter : list Z) : go_res (list Address) :=
  match filter with
  | [epoch; slot] =>
      match shuffledValidatorsCache c !! epoch with
      | None => Err errNoEraValidators
      | Some epochValidators => go_index epochValidators (Z.to_nat slot)
      end
  | [epoch; slot; subnet] =>
      match shuffledSubnetValidatorsCache c !! epoch with
      | None => Err errNoEraValidators
      | Some epochValidators =>
          match epochValidators !! subnet with
          | None => Err errNoSubnetValidators
          | Some subnetValidators => go_index subnetValidators (Z.to_nat slot)
          end
      end
  | _ => Err ErrInvalidValidatorsFilter
  end.

(** ** Queries *)

(** What the storage asks of the blockchain. *)
Record StorageChain := MkStorageChain {
  sc_GetSlotInfo : SlotInfo;
  sc_EpochToEra : Z → go_res (option Era);
  sc_StateAt : Hash → option World;
  sc_GetEpoch : Z → Hash
}.

(** [storage], with the eras whose preparation is under way. *)
Record storage := MkStorage {
  validatorsCache : ValidatorsCache;
  processTransition : gset Z
}.

Definition NewStorage : storage := MkStorage NewCache ∅.

Definition on_cache (f : ValidatorsCache → ValidatorsCache) : stM storage unit :=
  modify (λ s, MkStorage (f (validatorsCache s)) (processTransition s)).

(** [Bytes8] *)
Definition Bytes8 (x : Z) : bytes := le_bytes 8 x.

(** [for i := 0; i+validatorsPerSlot <= len(validators); i += validatorsPerSlot]. A step either
    moves [i] forward or adds a chunk to fewer than [slotsPerEpoch] ones, which bounds the fuel. *)
Fixpoint breakLoop (fuel : nat) (validators : list Address) (validatorsPerSlot slotsPerEpoch i : Z)
    (chunks : list (list Address)) : go_res (list (list Address)) :=
  match fuel with
  | O => NoFuel
  | S fuel' =>
      if u64 (i + validatorsPerSlot) <=? Z.of_nat (length validators) then
        let end_ := u64 (i + validatorsPerSlot) in
        slotValidators ← go_slice (Z.to_nat i) (Z.to_nat end_) validators;
        let chunks := chunks ++ [slotValidators] in
        if Z.of_nat (length chunks) =? int64 slotsPerEpoch then Ok chunks
        else breakLoop fuel' validators validatorsPerSlot slotsPerEpoch end_ chunks
      else Ok chunks
  end.

Definition breakByValidatorsBySlotCount (validators : list Address)
    (validatorsPerSlot slotsPerEpoch : Z) : go_res (list (list Address)) :=
  breakLoop (S (length validators + Z.to_nat slotsPerEpoch)) validators validatorsPerSlot
    slotsPerEpoch 0 [].

(** The loop over the list of validators that keeps those with [cond]; a validator that cannot be
    read is skipped. *)
Fixpoint selectValidators (cond : Validator → bool) (w : World) (valList : list Address) :
    go_res (list Validator) :=
  match valList with
  | [] => Ok []
  | valAddress :: rest =>
      match GetValidator w valAddress with
      | Err _ => selectValidators cond w rest
      | Ok val => l ← selectValidators cond w rest; Ok (if cond val then val :: l else l)
      | Panic => Panic
      | NoFuel => NoFuel
      end
  end.

Section storage.
Context `{!Crypto} (sha256 : bytes → Hash) (config : ChainConfig) (bc : StorageChain).

(** The seed for the shuffle of an epoch. *)
Definition seed (epoch : Z) (firstEpochBlockHash : Hash) : Hash :=
  BytesToHash (fb (keccak256 (fb firstEpochBlockHash ++ Bytes8 epoch))).

(** [checkTransitionProcessing] waits for another goroutine that prepares the era; [ends] says
    whether it ends within a minute. *)
Definition checkTransitionProcessing (ends : bool) (era : Z) : stM storage unit :=
  s ← getS;
  if bool_decide (era ∈ processTransition s) && negb ends
  then liftR (Err errTransitionTimeout) else mret tt.

Definition slotEra (slot : Z) : go_res (Z * Era) :=
  slotEpoch ← SlotToEpoch (sc_GetSlotInfo bc) slot;
  era ← sc_EpochToEra bc slotEpoch;
  era ← deref era;
  Ok (slotEpoch, era).

Definition isActive (era : Z) (val : Validator) : bool :=
  (v_ActivationEra val <=? era) && (era <? v_ExitEra val).

(** The validators of the state of an era that satisfy a condition. *)
Definition eraValidators (cond : Validator → bool) (era : Era) : go_res (list Validator) :=
  stateDb ← deref (sc_StateAt bc (Root era));
  valList ← GetValidatorsList config stateDb;
  selectValidators cond stateDb valList.

Definition GetValidators (ends : bool) (slot : Z) : stM storage (list Address) :=
  '(slotEpoch, era) ← liftR (slotEra slot);
  _ ← checkTransitionProcessing ends (Number era);
  s ← getS;
  match getAllActiveValidatorsByEra (validatorsCache s) (Number era) with
  | Some validators => mret validators
  | None =>
      vals ← liftR (eraValidators (isActive (Number era)) era);
      let addresses := map v_Address vals in
      _ ← on_cache (addAllActiveValidatorsByEra (Number era) addresses);
      mret addresses
  end.

Definition GetActiveValidatorsCount (ends : bool) (slot : Z) : stM storage Z :=
  '(slotEpoch, era) ← liftR (slotEra slot);
  _ ← checkTransitionProcessing ends (Number era);
  s ← getS;
  match allActiveValidatorsCache (validatorsCache s) !! Number era with
  | Some vals => mret (Z.of_nat (length vals))
  | None =>
      vals ← liftR (eraValidators (λ val, (v_ActivationEra val <=? u64 (Number era + 1)) &&
                                          (Number era <? v_ExitEra val)) era);
      mret (Z.of_nat (length vals))
  end.

(** The era is marked while its validators are collected. *)
Definition PrepareNextEraValidators (era : Era) : stM storage unit :=
  _ ← modify (λ s, MkStorage (validatorsCache s) ({[Number era]} ∪ processTransition s));
  vals ← liftR (eraValidators (isActive (Number era)) era);
  _ ← on_cache (λ c, foldl (λ c val, addValidator (v_Address val) (Number era) c) c vals);
  modify (λ s, MkStorage (validatorsCache s) (processTransition s ∖ {[Number era]})).

(** The loop that shuffles again until every slot of the epoch has its creators. *)
Fixpoint fillSlots (fuel : nat) (sd : Hash) (shuffledValidators : list Address)
    (bySlots : list (list Address)) : go_res (list (list Address)) :=
  if Z.of_nat (length bySlots) <? SlotsPerEpoch config then
    match fuel with
    | O => NoFuel
    | S fuel' =>
        shuffledValidators ← ShuffleValidators sha256 shuffledValidators sd;
        more ← breakByValidatorsBySlotCount shuffledValidators (ValidatorsPerSlot config)
                 (SlotsPerEpoch config);
        fillSlots fuel' sd shuffledValidators (bySlots ++ more)
    end
  else Ok bySlots.

Definition GetCreatorsBySlot (ends : bool) (filter : list Z) : stM storage (list Address) :=
  if Nat.ltb 2 (length filter) then liftR (Err ErrInvalidValidatorsFilter)
  else
    slot ← liftR (go_index filter 0);
    slotEpoch ← liftR (SlotToEpoch (sc_GetSlotInfo bc) slot);
    slotInEpoch ← liftR (SlotInEpoch (sc_GetSlotInfo bc) slot);
    let params := [slotEpoch; slotInEpoch] ++ drop 1 filter in
    s ← getS;
    match getShuffledValidators (validatorsCache s) params with
    | Ok validators => mret validators
    | Panic => liftR Panic
    | NoFuel => liftR NoFuel
    | Err e =>
        if decide (e = ErrInvalidValidatorsFilter) then liftR (Err e)
        else
          allValidators ← GetValidators ends slot;
          if Nat.eqb (length allValidators) 0 then mret []
          else
            let spineEpoch := if 0 <? slotEpoch then slotEpoch - 1 else 0 in
            let epochSpine := sc_GetEpoch bc spineEpoch in
            if decide (epochSpine = zero_fixed 32) then liftR (Err errEpochNotFound)
            else
              let sd := seed slotEpoch epochSpine in
              shuffledValidators ← liftR (ShuffleValidators sha256 allValidators sd);
              bySlots ← liftR (breakByValidatorsBySlotCount shuffledValidators
                                 (ValidatorsPerSlot config) (SlotsPerEpoch config));
              bySlots ← liftR (fillSlots (S (Z.to_nat (SlotsPerEpoch config))) sd
                                 shuffledValidators bySlots);
              _ ← (λ s, let '(r, c) := addShuffledValidators bySlots [slotEpoch] (validatorsCache s) in
                        (r, MkStorage c (processTransition s)));
              s ← getS;
              liftR (getShuffledValidators (validatorsCache s) params)
    end.
End storage.

(** ** Chunks of a shuffled list *)

(** A slot's creators: [vps] validators of the list. *)
Definition good_chunk (vs : list Address) (vps : Z) (c : list Address) : Prop :=
  Z.of_nat (length c) = vps ∧ c ⊆+ vs.

Lemma go_slice_submseteq {A} lo hi (l c : list A) :
  go_slice lo hi l = Ok c → c ⊆+ l ∧ length c = (hi - lo)%nat.
Proof.
  intros H. apply go_slice_Ok in H as [Hb ->]. split.
  - apply sublist_submseteq. etrans; [apply sublist_take|apply sublist_drop].
  - rewrite length_take, length_drop. lia.
Qed.

Lemma breakLoop_spec vs vps spe : ∀ fuel i chunks,
  0 < vps → vps + Z.of_nat (length vs) < two64 → 0 ≤ i ≤ Z.of_nat (length vs) →
  Z.of_nat (length vs) - i < Z.of_nat fuel →
  ∃ more, breakLoop fuel vs vps spe i chunks = Ok (chunks ++ more) ∧ Forall (good_chunk vs vps) more ∧
    (i + vps ≤ Z.of_nat (length vs) → more ≠ []).
Proof.
  induction fuel as [|fuel IH]; intros i chunks Hv Hn Hi Hf; [lia|]. cbn [breakLoop].
  rewrite u64_small by (unfold is_u64; lia).
  destruct (Z.leb_spec (i + vps) (Z.of_nat (length vs))) as [Hle|Hgt].
  2:{ exists []. rewrite app_nil_r. split_and!; [done|constructor|lia]. }
  destruct (go_slice (Z.to_nat i) (Z.to_nat (i + vps)) vs) as [c| | |] eqn:Hc.
  2-4: unfold go_slice in Hc; destruct (Nat.leb_spec (Z.to_nat i) (Z.to_nat (i + vps))),
         (Nat.leb_spec (Z.to_nat (i + vps)) (length vs)); simpl in Hc; done || lia.
  apply go_slice_submseteq in Hc as [Hsub Hlen]. rewrite Ok_bind.
  assert (good_chunk vs vps c) as Hg by (split; [lia|done]).
  destruct (_ =? int64 spe).
  - exists [c]. split_and!; [done|by apply Forall_singleton|done].
  - destruct (IH (i + vps) (chunks ++ [c])) as (more & Hm & Hfm & _); [lia..|].
    exists (c :: more). rewrite Hm, <- app_assoc. split_and!; [done|by constructor|done].
Qed.

Lemma break_spec vs vps spe :
  0 < vps → vps + Z.of_nat (length vs) < two64 →
  ∃ chunks, breakByValidatorsBySlotCount vs vps spe = Ok chunks ∧ Forall (good_chunk vs vps) chunks ∧
    (vps ≤ Z.of_nat (length vs) → chunks ≠ []).
Proof.
  intros Hv Hn. unfold breakByValidatorsBySlotCount.
  destruct (breakLoop_spec vs vps spe (S (length vs + Z.to_nat spe)) 0 []) as (more & Hm & Hf & Hne); [lia..|].
  exists more. split_and!; [done|done|]. intros. apply Hne. lia.
Qed.

Lemma good_chunk_perm vs vs' vps c : vs ≡ₚ vs' → good_chunk vs vps c → good_chunk vs' vps c.
Proof. intros Hp [Hl Hs]. split; [done|]. by rewrite <- Hp. Qed.

Lemma ShuffleValidators_spec sha256 vs sd :
  Z.of_nat (length vs) ≤ maxShuffleListSize →
  ∃ vs', ShuffleValidators sha256 vs sd = Ok vs' ∧ vs' ≡ₚ vs.
Proof.
  intros Hn. destruct (innerShuffleList_index sha256 sd vs false Hn) as (vs' & H & _).
  exists vs'. split; [done|]. by eapply innerShuffleList_Permutation.
Qed.

(** ** The queries without a cache *)

Section specification.
Context `{!Crypto} (sha256 : bytes → Hash) (config : ChainConfig) (bc : StorageChain).

Definition era_of_epoch (epoch : Z) : go_res Era :=
  era ← sc_EpochToEra bc epoch; deref era.

(** The addresses of the active validators of an era. *)
Definition active_ref (era : Era) : go_res (list Address) :=
  vals ← eraValidators config bc (isActive (Number era)) era; Ok (map v_Address vals).

(** The creators of all slots of an epoch; no creators when there are no validators. *)
Definition slots_ref (epoch : Z) : go_res (option (list (list Address))) :=
  era ← era_of_epoch epoch;
  allValidators ← active_ref era;
  if Nat.eqb (length allValidators) 0 then Ok None
  else
    let epochSpine := sc_GetEpoch bc (if 0 <? epoch then epoch - 1 else 0) in
    if decide (epochSpine = zero_fixed 32) then Err errEpochNotFound
    else
      let sd := seed epoch epochSpine in
      shuffled ← ShuffleValidators sha256 allValidators sd;
      bySlots ← breakByValidatorsBySlotCount shuffled (ValidatorsPerSlot config) (SlotsPerEpoch config);
      bySlots ← fillSlots sha256 config (S (Z.to_nat (SlotsPerEpoch config))) sd shuffled bySlots;
      Ok (Some bySlots).

Definition creators_ref (slot : Z) : go_res (list Address) :=
  epoch ← SlotToEpoch (sc_GetSlotInfo bc) slot;
  slotInEpoch ← SlotInEpoch (sc_GetSlotInfo bc) slot;
  bySlots ← slots_ref epoch;
  match bySlots with
  | None => Ok []
  | Some bySlots => go_index bySlots (Z.to_nat slotInEpoch)
  end.

(** What is in the cache is what the queries would compute. *)
Record coherent (s : storage) : Prop := {
  coh_active : ∀ n l epoch era, allActiveValidatorsCache (validatorsCache s) !! n = Some l →
    sc_EpochToEra bc epoch = Ok (Some era) → Number era = n → active_ref era = Ok l;
  coh_shuffled : ∀ epoch l, shuffledValidatorsCache (validatorsCache s) !! epoch = Some l →
    slots_ref epoch = Ok (Some l);
  coh_idle : processTransition s = ∅
}.

Lemma evict_subseteq {A} (m : gmap Z A) : evict m ⊆ m.
Proof. unfold evict. destruct (Nat.eqb _ _); [apply delete_subseteq|done]. Qed.

Lemma coherent_new : coherent NewStorage.
Proof. split; [intros n l epoch era Hl|intros epoch l Hl|done]; simpl in Hl;
  by rewrite lookup_empty in Hl. Qed.

(** What the storage relies on: an era is known by its number. *)
Definition eras_numbered : Prop := ∀ epoch era epoch' era',
  sc_EpochToEra bc epoch = Ok (Some era) → sc_EpochToEra bc epoch' = Ok (Some era') →
  Number era = Number era' → era = era'.

Lemma coherent_add_active s epoch era l :
  eras_numbered → coherent s → sc_EpochToEra bc epoch = Ok (Some era) → active_ref era = Ok l →
  coherent (MkStorage (addAllActiveValidatorsByEra (Number era) l (validatorsCache s)) (processTransition s)).
Proof.
  intros Huniq [Ha Hs Hi] Hera Hl. split; [|done|done]. simpl. intros n l' epoch' era' Hn He Hnum.
  destruct (decide (Number era = n)) as [<-|Hne].
  - rewrite lookup_insert_eq in Hn. injection Hn as <-. by rewrite (Huniq epoch' era' epoch era).
  - rewrite lookup_insert_ne in Hn by done. eapply Ha; [|done|done].
    by eapply lookup_weaken; [|apply evict_subseteq].
Qed.

Lemma coherent_add_shuffled s epoch l :
  coherent s → slots_ref epoch = Ok (Some l) →
  let '(r, c) := addShuffledValidators l [epoch] (validatorsCache s) in
  r = Ok tt ∧ coherent (MkStorage c (processTransition s)) ∧ shuffledValidatorsCache c !! epoch = Some l.
Proof.
  intros [Ha Hs Hi] Hl. simpl. split_and!; [done| |apply lookup_insert_eq].
  split; [done| |done]. simpl. intros epoch' l' He.
  destruct (decide (epoch = epoch')) as [<-|Hne].
  - rewrite lookup_insert_eq in He. by injection He as <-.
  - rewrite lookup_insert_ne in He by done. apply Hs.
    by eapply lookup_weaken; [|apply evict_subseteq].
Qed.

Lemma checkTransition_idle ends n s :
  processTransition s = ∅ → checkTransitionProcessing ends n s = (Ok tt, s).
Proof.
  intros Hi. unfold checkTransitionProcessing. st_step. rewrite Hi.
  by rewrite bool_decide_false by set_solver.
Qed.

(** The active validators, with the cache and without. *)
Lemma GetValidators_refines ends slot s :
  eras_numbered → coherent s →
  ∃ s', GetValidators config bc ends slot s =
      ((epoch ← SlotToEpoch (sc_GetSlotInfo bc) slot; era ← era_of_epoch epoch; active_ref era), s') ∧
    coherent s'.
Proof.
  intros Hnum Hc. unfold GetValidators, slotEra, era_of_epoch.
  destruct (SlotToEpoch _ slot) as [epoch| | |]; [|by exists s..]. rewrite !Ok_bind.
  destruct (sc_EpochToEra bc epoch) as [[era|]| | |] eqn:Hera; [|by exists s..].
  rewrite !Ok_bind. cbn [deref]. rewrite !Ok_bind. st_step.
  erewrite stM_Ok_bind by apply checkTransition_idle, Hc. cbv beta. st_step.
  unfold getAllActiveValidatorsByEra. destruct (_ !! Number era) as [l|] eqn:Hl.
  - exists s. split; [|done]. by rewrite (coh_active s Hc _ _ _ _ Hl Hera eq_refl).
  - unfold active_ref. destruct (eraValidators _ _ _ era) as [vals| | |] eqn:Hv; [|by exists s..].
    rewrite Ok_bind. st_step. eexists. split; [reflexivity|].
    eapply coherent_add_active; [done|done|done|]. unfold active_ref. by rewrite Hv.
Qed.

Lemma slots_ref_active epoch :
  slots_ref epoch =
  (allValidators ← (era ← era_of_epoch epoch; active_ref era);
   if Nat.eqb (length allValidators) 0 then Ok None
   else
     let epochSpine := sc_GetEpoch bc (if 0 <? epoch then epoch - 1 else 0) in
     if decide (epochSpine = zero_fixed 32) then Err errEpochNotFound
     else
       let sd := seed epoch epochSpine in
       shuffled ← ShuffleValidators sha256 allValidators sd;
       bySlots ← breakByValidatorsBySlotCount shuffled (ValidatorsPerSlot config) (SlotsPerEpoch config);
       bySlots ← fillSlots sha256 config (S (Z.to_nat (SlotsPerEpoch config))) sd shuffled bySlots;
       Ok (Some bySlots)).
Proof. unfold slots_ref. by destruct (era_of_epoch epoch). Qed.

(** The creators of a slot, with the cache and without. *)
Lemma GetCreatorsBySlot_refines ends slot s :
  eras_numbered → coherent s →
  ∃ s', GetCreatorsBySlot sha256 config bc ends [slot] s = (creators_ref slot, s') ∧ coherent s'.
Proof.
  intros Hnum Hc. unfold GetCreatorsBySlot, creators_ref. cbn [length Nat.ltb Nat.leb go_index deref lookup].
  change (go_index [slot] 0) with (Ok slot). st_step.
  destruct (SlotToEpoch _ slot) as [epoch| | |] eqn:Hep; [|by exists s..]. st_step.
  destruct (SlotInEpoch _ slot) as [ix| | |] eqn:Hix; [|by exists s..]. st_step. st_step.
  rewrite !Ok_bind. cbn [drop app getShuffledValidators].
  destruct (shuffledValidatorsCache (validatorsCache s) !! epoch) as [l|] eqn:Hl.
  { rewrite (coh_shuffled s Hc _ _ Hl), Ok_bind. exists s.
    unfold go_index. by destruct (l !! Z.to_nat ix). }
  rewrite decide_False by done.
  destruct (GetValidators_refines ends slot s Hnum Hc) as (s1 & Hgv & Hc1).
  rewrite Hep, Ok_bind in Hgv. unfold mbind at 1, stM_bind at 1. rewrite Hgv.
  pose proof (slots_ref_active epoch) as Hsl.
  destruct (era ← era_of_epoch epoch; active_ref era) as [l| | |]; rewrite Hsl; [|by exists s1..].
  rewrite Ok_bind in Hsl |- *. cbv beta zeta in Hsl |- *.
  destruct (Nat.eqb (length l) 0); [by exists s1|].
  destruct (decide _) as [|Hsp]; [by exists s1|].
  destruct (ShuffleValidators sha256 l _) as [sv| | |] eqn:E1; [|by exists s1..]. rewrite Ok_bind in *. st_step.
  destruct (breakByValidatorsBySlotCount sv _ _) as [b1| | |] eqn:E2; [|by exists s1..].
  rewrite Ok_bind in *. st_step.
  destruct (fillSlots _ _ _ _ sv b1) as [b2| | |] eqn:E3; [|by exists s1..]. rewrite Ok_bind in *. st_step.
  destruct (coherent_add_shuffled s1 epoch b2 Hc1 Hsl) as (_ & Hc2 & Hlk).
  eexists. split; [|exact Hc2]. unfold mbind, stM_bind, getS, liftR. cbn [getShuffledValidators].
  simpl in Hlk |- *. by rewrite Hlk.
Qed.
(** Preparing an era fills its place in the cache, if it was empty, with the active validators. *)
Lemma addValidators_cache vals n : ∀ c,
  foldl (λ c val, addValidator (v_Address val) n c) c vals =
  match vals with
  | [] => c
  | _ => MkCache (<[n := default [] (allActiveValidatorsCache c !! n) ++ map v_Address vals]>
                   (allActiveValidatorsCache c))
           (subnetValidatorsCache c) (shuffledValidatorsCache c) (shuffledSubnetValidatorsCache c)
  end.
Proof.
  induction vals as [|v vals IH]; intros c; [done|]. cbn [foldl]. rewrite IH.
  destruct vals as [|v' vals]; [done|]. unfold addValidator. simpl.
  rewrite lookup_insert_eq, insert_insert_eq. cbn [from_option]. unfold id.
  by rewrite <- app_assoc.
Qed.

Lemma PrepareNextEraValidators_coherent era epoch s vals :
  eras_numbered → coherent s → sc_EpochToEra bc epoch = Ok (Some era) →
  allActiveValidatorsCache (validatorsCache s) !! Number era = None →
  eraValidators config bc (isActive (Number era)) era = Ok vals →
  ∃ s', PrepareNextEraValidators config bc era s = (Ok tt, s') ∧ coherent s'.
Proof.
  intros Hnum [Ha Hs Hi] Hera Hnone Hv. unfold PrepareNextEraValidators. st_step. rewrite Hv. st_step.
  unfold on_cache. st_step. rewrite addValidators_cache. eexists. split; [reflexivity|]. split; simpl.
  - intros n l epoch' era' Hl He Hn. destruct vals as [|v vals]; [by eapply Ha|]. simpl in Hl.
    rewrite Hnone in Hl. destruct (decide (Number era = n)) as [<-|Hne].
    + rewrite lookup_insert_eq in Hl. injection Hl as <-.
      rewrite (Hnum epoch' era' epoch era) by done. unfold active_ref. by rewrite Hv.
    + rewrite lookup_insert_ne in Hl by done. by eapply Ha.
  - intros epoch' l Hl. apply Hs. by destruct vals.
  - rewrite Hi. set_solver.
Qed.

(** ** The loop that fills the slots *)

Lemma fillSlots_spec sd vps vs0 : ∀ fuel vs b,
  ValidatorsPerSlot config = vps → 0 < vps ≤ Z.of_nat (length vs) →
  Z.of_nat (length vs) ≤ maxShuffleListSize → vs ≡ₚ vs0 → Forall (good_chunk vs0 vps) b →
  SlotsPerEpoch config - Z.of_nat (length b) ≤ Z.of_nat fuel →
  ∃ b', fillSlots sha256 config fuel sd vs b = Ok b' ∧ Forall (good_chunk vs0 vps) b' ∧
    SlotsPerEpoch config ≤ Z.of_nat (length b').
Proof.
  intros fuel. induction fuel as [|fuel IH]; intros vs b Hvps Hv Hn Hp Hb Hf; cbn [fillSlots];
    destruct (Z.ltb_spec (Z.of_nat (length b)) (SlotsPerEpoch config)); try lia; [by exists b| |by exists b].
  destruct (ShuffleValidators_spec sha256 vs sd Hn) as (vs' & -> & Hp'). rewrite Ok_bind.
  pose proof (Permutation_length Hp') as Hl'.
  assert (maxShuffleListSize = 2 ^ 40) as Hmax by done.
  destruct (break_spec vs' vps (SlotsPerEpoch config)) as (more & Hm & Hg & Hne);
    [lia|rewrite Hl'; unfold two64; lia|].
  rewrite Hvps, Hm, Ok_bind. apply IH; [done|lia|lia|by rewrite Hp'| |].
  - apply Forall_app. split; [done|]. eapply Forall_impl; [exact Hg|].
    intros c. apply good_chunk_perm. by rewrite Hp'.
  - rewrite length_app. specialize (Hne ltac:(lia)). destruct more; [done|]. simpl. lia.
Qed.

(** Every slot of an epoch gets its creators. *)
Lemma slots_ref_spec epoch era l :
  sc_EpochToEra bc epoch = Ok (Some era) → active_ref era = Ok l →
  0 < ValidatorsPerSlot config ≤ Z.of_nat (length l) → Z.of_nat (length l) ≤ maxShuffleListSize →
  sc_GetEpoch bc (if 0 <? epoch then epoch - 1 else 0) ≠ zero_fixed 32 →
  ∃ b, slots_ref epoch = Ok (Some b) ∧ Forall (good_chunk l (ValidatorsPerSlot config)) b ∧
    SlotsPerEpoch config ≤ Z.of_nat (length b).
Proof.
  intros Hera Hl Hv Hn Hsp. unfold slots_ref, era_of_epoch. rewrite Hera, Ok_bind. cbn [deref].
  rewrite Ok_bind, Hl, Ok_bind. destruct (Nat.eqb_spec (length l) 0); [lia|].
  cbv zeta. rewrite decide_False by done.
  destruct (ShuffleValidators_spec sha256 l
    (seed epoch (sc_GetEpoch bc (if 0 <? epoch then epoch - 1 else 0))) Hn) as (vs & -> & Hp).
  rewrite Ok_bind. pose proof (Permutation_length Hp) as Hl'.
  assert (maxShuffleListSize = 2 ^ 40) as Hmax by done.
  destruct (break_spec vs (ValidatorsPerSlot config) (SlotsPerEpoch config)) as (b1 & -> & Hg & _);
    [lia|rewrite Hl'; unfold two64; lia|].
  rewrite Ok_bind.
  destruct (fillSlots_spec (seed epoch (sc_GetEpoch bc (if 0 <? epoch then epoch - 1 else 0)))
    (ValidatorsPerSlot config) l (S (Z.to_nat (SlotsPerEpoch config))) vs b1) as (b & -> & Hb & Hlb);
    [done|lia|lia|done| |lia|].
  - eapply Forall_impl; [exact Hg|]. intros c. by apply good_chunk_perm.
  - rewrite Ok_bind. by exists b.
Qed.

(** With fewer validators than a slot needs, there is no chunk to add, and the loop goes on. *)
Lemma break_too_few vs :
  Z.of_nat (length vs) < ValidatorsPerSlot config < two64 →
  breakByValidatorsBySlotCount vs (ValidatorsPerSlot config) (SlotsPerEpoch config) = Ok [].
Proof.
  intros Hv. unfold breakByValidatorsBySlotCount. cbn [breakLoop].
  rewrite u64_small by (unfold is_u64; lia).
  destruct (Z.leb_spec (0 + ValidatorsPerSlot config) (Z.of_nat (length vs))); [lia|done].
Qed.

Lemma fillSlots_diverges sd : ∀ fuel vs,
  Z.of_nat (length vs) < ValidatorsPerSlot config < two64 → 0 < SlotsPerEpoch config →
  Z.of_nat (length vs) ≤ maxShuffleListSize →
  fillSlots sha256 config fuel sd vs [] = NoFuel.
Proof.
  intros fuel. induction fuel as [|fuel IH]; intros vs Hv Hs Hn; cbn [fillSlots length];
    (destruct (Z.ltb_spec (Z.of_nat 0) (SlotsPerEpoch config)); [|lia]); [done|].
  destruct (ShuffleValidators_spec sha256 vs sd Hn) as (vs' & -> & Hp).
  pose proof (Permutation_length Hp) as Hl. rewrite Ok_bind, break_too_few, Ok_bind by lia.
  apply IH; lia.
Qed.
End specification.

(** ** Properties *)

(** C18: The creators of a slot and the active validators of a slot's era are functions of the
    chain: with whatever an earlier use of the queries left in the cache, they return (or fail
    with) what the computation without a cache gives, and leave the cache in such a state. *)
Theorem creators_refine `{!Crypto} sha256 config bc ends slot s :
  eras_numbered bc → coherent sha256 config bc s →
  (∃ s', GetCreatorsBySlot sha256 config bc ends [slot] s = (creators_ref sha256 config bc slot, s') ∧
     coherent sha256 config bc s') ∧
  (∃ s', GetValidators config bc ends slot s =
       ((epoch ← SlotToEpoch (sc_GetSlotInfo bc) slot; era ← era_of_epoch bc epoch;
         active_ref config bc era), s') ∧
     coherent sha256 config bc s').
Proof.
  intros Hn Hc. split; [by apply GetCreatorsBySlot_refines|by apply GetValidators_refines].
Qed.

(** C31: With at least as many active validators as a slot needs, and not more than the shuffle takes,
    the query returns for every slot exactly [ValidatorsPerSlot] of them, and no validator twice when
    the list of the active validators has no duplicates. The hash of the epoch that seeds the shuffle
    is known, and the era of the slot too. *)
Theorem creators_valid `{!Crypto} sha256 config bc ends slot s epoch era l :
  eras_numbered bc → coherent sha256 config bc s →
  si_SlotsPerEpoch (sc_GetSlotInfo bc) = SlotsPerEpoch config → 0 < SlotsPerEpoch config →
  SlotToEpoch (sc_GetSlotInfo bc) slot = Ok epoch → 
  sc_EpochToEra bc epoch = Ok (Some era) → active_ref config bc era = Ok l →
  0 < ValidatorsPerSlot config ≤ Z.of_nat (length l) → Z.of_nat (length l) ≤ maxShuffleListSize →
  sc_GetEpoch bc (if 0 <? epoch then epoch - 1 else 0) ≠ zero_fixed 32 →
  ∃ cs s', GetCreatorsBySlot sha256 config bc ends [slot] s = (Ok cs, s') ∧
    Z.of_nat (length cs) = ValidatorsPerSlot config ∧ (∀ a, a ∈ cs → a ∈ l) ∧ (NoDup l → NoDup cs).
Proof.
  intros Hn Hc Hsi Hspe Hep Hera Hl Hv Hmax Hsp.
  destruct (GetCreatorsBySlot_refines sha256 config bc ends slot s Hn Hc) as (s' & Hr & _).
  destruct (slots_ref_spec sha256 config bc epoch era l) as (b & Hb & Hg & Hlb); [done..|].
  assert (∃ ix, SlotInEpoch (sc_GetSlotInfo bc) slot = Ok ix ∧ 0 ≤ ix < SlotsPerEpoch config)
    as (ix & Hix & Hixb).
  { unfold SlotInEpoch, go_mod. rewrite Hsi. destruct (Z.eqb_spec (SlotsPerEpoch config) 0); [lia|].
    eexists. split; [done|]. apply Z.mod_pos_bound. lia. }
  unfold creators_ref in Hr. rewrite Hep, Ok_bind, Hix, Ok_bind, Hb, Ok_bind in Hr.
  destruct (lookup_lt_is_Some_2 b (Z.to_nat ix)) as [cs Hcs]; [lia|].
  unfold go_index in Hr. rewrite Hcs in Hr. rewrite Forall_forall in Hg.
  destruct (Hg cs) as [Hlen Hsub]; [by eapply list_elem_of_lookup_2|].
  exists cs, s'. split_and!; [done|done| |].
  - intros a Ha. by eapply elem_of_submseteq.
  - intros Hnd. apply submseteq_Permutation in Hsub as [k Hk]. rewrite Hk in Hnd.
    by apply NoDup_app in Hnd as [? _].
Qed.

(** With fewer validators than a slot needs (but at least one), the loop that fills the slots
    never ends: it runs out of any number of steps. *)
Theorem creators_loop sha256 config sd vs fuel :
  0 < Z.of_nat (length vs) → Z.of_nat (length vs) < ValidatorsPerSlot config < two64 →
  0 < SlotsPerEpoch config → Z.of_nat (length vs) ≤ maxShuffleListSize →
  breakByValidatorsBySlotCount vs (ValidatorsPerSlot config) (SlotsPerEpoch config) = Ok [] ∧
  fillSlots sha256 config fuel sd vs [] = NoFuel.
Proof.
  intros _ Hv Hs Hn. split; [by apply break_too_few|by apply fillSlots_diverges].
Qed.

(** The number of active validators depends on the cache: a fresh storage counts the validators
    of the next era too, and after a query for the validators of the same slot it does not. *)
Theorem active_count_depends_on_cache config bc ends slot epoch era vals vals' :
  SlotToEpoch (sc_GetSlotInfo bc) slot = Ok epoch → sc_EpochToEra bc epoch = Ok (Some era) →
  eraValidators config bc (isActive (Number era)) era = Ok vals →
  eraValidators config bc (λ val, (v_ActivationEra val <=? u64 (Number era + 1)) &&
                                  (Number era <? v_ExitEra val)) era = Ok vals' →
  GetActiveValidatorsCount config bc ends slot NewStorage = (Ok (Z.of_nat (length vals')), NewStorage) ∧
  ∃ s', GetValidators config bc ends slot NewStorage = (Ok (map v_Address vals), s') ∧
    GetActiveValidatorsCount config bc ends slot s' = (Ok (Z.of_nat (length vals)), s').
Proof.
  intros Hep Hera Hv Hv'.
  assert (slotEra bc slot = Ok (epoch, era)) as Hse.
  { unfold slotEra. by rewrite Hep, Ok_bind, Hera. }
  split; [|eexists; split].
  - unfold GetActiveValidatorsCount. rewrite Hse. st_step.
    erewrite stM_Ok_bind by by apply checkTransition_idle. cbv beta. st_step.
    cbn [NewStorage NewCache validatorsCache allActiveValidatorsCache]. by rewrite lookup_empty, Hv'.
  - unfold GetValidators. rewrite Hse. st_step.
    erewrite stM_Ok_bind by by apply checkTransition_idle. cbv beta. st_step.
    unfold getAllActiveValidatorsByEra. cbn [NewStorage NewCache validatorsCache allActiveValidatorsCache].
    rewrite lookup_empty, Hv. st_step. reflexivity.
  - unfold GetActiveValidatorsCount. rewrite Hse. st_step.
    erewrite stM_Ok_bind by by apply checkTransition_idle. cbv beta. st_step.
    cbn [validatorsCache allActiveValidatorsCache addAllActiveValidatorsByEra].
    by rewrite lookup_insert_eq, length_map.
Qed.

(** ** Witnesses *)

(** Five validators, active from era 3; one more, active from era 6. *)
Definition toy_member (era : Z) (c : byte) : Validator :=
  SetActivationEra era (NewValidator (BytesToBlsPubKey [c]) (toy_addr c) (Some (toy_addr c))).
Definition toy_members : list Validator :=
  toy_member 6 x06 :: map (toy_member 3) [x01; x02; x03; x04; x05].
Definition toy_members_world : World :=
  foldr (λ v w, snd (SetValidator v w))
    (SetCode toy_vsa (list_code 6 (map v_Address toy_members)) empty_world) toy_members.

Definition toy_era5 : Era := MkEra 5 0 1000 (zero_fixed 32) (zero_fixed 32).
Definition toy_schain : StorageChain :=
  MkStorageChain (MkSlotInfo 0 4 32) (λ _, Ok (Some toy_era5)) (λ _, Some toy_members_world)
    (λ _, BytesToHash [x01]).
#[export] Instance toy_crypto : Crypto := {| keccak256 := toy_hash |}.

Definition toy_active : list Address := map toy_addr [x01; x02; x03; x04; x05].

Lemma toy_eras_numbered : eras_numbered toy_schain.
Proof. intros e era e' era' H H' _. simpl in *. congruence. Qed.

Lemma creators_refine_witness :
  ∃ s', GetCreatorsBySlot toy_hash toy_vconfig toy_schain true [70] NewStorage =
      (creators_ref toy_hash toy_vconfig toy_schain 70, s') ∧
    coherent toy_hash toy_vconfig toy_schain s'.
Proof.
  destruct (creators_refine toy_hash toy_vconfig toy_schain true 70 NewStorage) as [Hc _].
  - apply toy_eras_numbered.
  - apply coherent_new.
  - exact Hc.
Defined.

Lemma creators_valid_witness :
  ∃ cs s', GetCreatorsBySlot toy_hash toy_vconfig toy_schain true [70] NewStorage = (Ok cs, s') ∧
    Z.of_nat (length cs) = 4 ∧ (∀ a, a ∈ cs → a ∈ toy_active) ∧ (NoDup toy_active → NoDup cs).
Proof.
  apply (creators_valid toy_hash toy_vconfig toy_schain true 70 NewStorage 2 toy_era5 toy_active).
  - apply toy_eras_numbered.
  - apply coherent_new.
  - reflexivity.
  - reflexivity.
  - reflexivity.
  - reflexivity.
  - vm_compute. reflexivity.
  - split; vm_compute; congruence.
  - vm_compute. congruence.
  - apply (bool_decide_unpack _). vm_compute. exact I.
Defined.


