(* ===== verification/DepositSig.v ===== *)
(** * Signatures of deposits

    [VerifyDepositSig] (src/validator/operation/deposit_signature.go): the message that is signed
    and the check. The hash tree of an SSZ container (package fastssz) and the BLS verification
    (package blst behind src/crypto/bls_sig) are parameters; nothing is assumed of them. *)

From Stdlib Require Import ZArith Lia Strings.Byte.
From stdpp Require Import base tactics option numbers list gmap strings.
From S2P Require Import Prelude Common DelegRules.

(** A field that is put into the hasher. *)
Inductive ssz_field :=
| PutBytes (b : bytes)
| PutUint64 (u : Z).

Class SigScheme := {
  (** [Merkleize] of the fields put since [Index], with the error of the hasher *)
  ssz_Merkleize : list ssz_field → go_res Hash;
  (** [bls_sig.VerifyCompressed] *)
  VerifyCompressed : bytes → bytes → bytes → bool
}.

Definition ErrBytesLength : error := Error "ssz.ErrBytesLength".

Record DepositMessage := MkDepositMessage {
  dm_PublicKey : bytes;
  dm_CreatorAddress : bytes;
  dm_WithdrawalCredentials : bytes;
  dm_Amount : Z
}.

Record SigningData := MkSigningData {
  sd_ObjectRoot : bytes;
  sd_Domain : bytes
}.

Section signature.
Context `{!SigScheme}.

Definition DepositMessage_HashTreeRoot (d : DepositMessage) : go_res Hash :=
  if decide (length (dm_PublicKey d) ≠ 48%nat) then Err ErrBytesLength
  else if decide (length (dm_CreatorAddress d) ≠ 20%nat) then Err ErrBytesLength
  else if decide (length (dm_WithdrawalCredentials d) ≠ 20%nat) then Err ErrBytesLength
  else ssz_Merkleize [PutBytes (dm_PublicKey d); PutBytes (dm_CreatorAddress d);
                      PutBytes (dm_WithdrawalCredentials d); PutUint64 (dm_Amount d)].

Definition SigningData_HashTreeRoot (s : SigningData) : go_res Hash :=
  if decide (length (sd_ObjectRoot s) ≠ 32%nat) then Err ErrBytesLength
  else if decide (length (sd_Domain s) ≠ 32%nat) then Err ErrBytesLength
  else ssz_Merkleize [PutBytes (sd_ObjectRoot s); PutBytes (sd_Domain s)].

Definition depositDomain : bytes :=
  [x03; x00; x00; x00; xf5; xa5; xfd; x42; xd1; x6a; x20; x30; x27; x98; xef; x6e;
   xd3; x09; x97; x9b; x43; x00; x3d; x23; x20; xd9; xf0; xe8; xea; x98; x31; xa9].

Definition VerifyDepositSig (sig : BlsSignature) (pk : BlsPubKey) (creatorAddr withdrawalCred : Address) :
    go_res unit :=
  let sigData := MkDepositMessage (fb pk) (fb creatorAddr) (fb withdrawalCred) 0 in
  sigDataRoot ← DepositMessage_HashTreeRoot sigData;
  root ← SigningData_HashTreeRoot (MkSigningData (fb sigDataRoot) depositDomain);
  if VerifyCompressed (fb sig) (fb pk) (fb root) then Ok tt else Err ErrInvalidDepositSig.
End signature.
