(* ===== verification/ValProcessor.v ===== *)
(** * The validator processor

    [Processor] of src/validator/processor.go: the handlers of the validator operations and
    [Call], which decodes an operation, counts the nonce of the caller, runs the handler and goes
    back to the snapshot when it fails. A handler is a computation on [World]; the rest of the
    node is an interface ([Blockchain]), and so are the hash functions and the signature scheme.
    The lines that only write to the log of the node are left out. *)

From Stdlib Require Import ZArith Lia Strings.Byte.
From stdpp Require Import base tactics option numbers list gmap strings.
From S2P Require Import Prelude Common RlpEnc RlpDec Chain Era GoMap DelegRules ValOps World Hex.
From S2P Require Import TxLog DepositSig Validator ValStorage.

(** ** Errors and constants *)

Definition ErrTooLowDepositValue : error := Error "validator.ErrTooLowDepositValue".
Definition ErrInsufficientFundsForOp : error := Error "validator.ErrInsufficientFundsForOp".
Definition ErrInvalidFromAddresses : error := Error "validator.ErrInvalidFromAddresses".
Definition ErrUnknownValidator : error := Error "validator.ErrUnknownValidator".
Definition ErrNoWithdrawalCred : error := Error "validator.ErrNoWithdrawalCred".
Definition ErrMismatchPulicKey : error := Error "validator.ErrMismatchPulicKey".
Definition ErrNotActivatedValidator : error := Error "validator.ErrNotActivatedValidator".
Definition ErrValidatorActivated : error := Error "validator.ErrValidatorActivated".
Definition ErrValidatorIsOut : error := Error "validator.ErrValidatorIsOut".
Definition ErrInvalidToAddress : error := Error "validator.ErrInvalidToAddress".
Definition ErrNoSavedValSyncOp : error := Error "validator.ErrNoSavedValSyncOp".
Definition ErrValSyncTxExists : error := Error "validator.ErrValSyncTxExists".
Definition ErrValOpBlocked : error := Error "validator.ErrValOpBlocked".
Definition ErrNoActiveWithdrawalOp : error := Error "validator.ErrNoActiveWithdrawalOp".
Definition ErrMismatchValSyncOp : error := Error "validator.ErrMismatchValSyncOp".
Definition ErrInvalidOpEpoch : error := Error "validator.ErrInvalidOpEpoch".
Definition ErrTxNF : error := Error "validator.ErrTxNF".
Definition ErrReceiptNF : error := Error "validator.ErrReceiptNF".
Definition ErrInvalidReceiptStatus : error := Error "validator.ErrInvalidReceiptStatus".
Definition ErrInvalidOpCode : error := Error "validator.ErrInvalidOpCode".
Definition ErrInvalidCreator : error := Error "validator.ErrInvalidCreator".
Definition ErrInvalidAmount : error := Error "validator.ErrInvalidAmount".
Definition ErrMismatchDelegateData : error := Error "validator.ErrMismatchDelegateData".
Definition ErrSenderRejByDelegate : error := Error "validator.ErrSenderRejByDelegate".
Definition errDepositActivated : error := Error "validator deposit failed (validator already activated)".
Definition errDepositPubKey : error := Error "validator deposit failed (mismatch public key)".
Definition errDepositWithdrawal : error := Error "validator deposit failed (mismatch withdrawal address)".
Definition errInitTxReceiptNF : error := Error "initTx receipt not found".
Definition errInitTxReceiptFailed : error := Error "initTx receipt status is failed".
Definition errPartialCreator : error := Error "mismatch validator creator address".
Definition errPartialPubKey : error := Error "mismatch validator public key".
Definition errPartialWithdrawal : error := Error "mismatch validator withdrawal address".
Definition errPartialDelegate : error := Error "mismatch validator delegating stake rules".

Definition postpone : Z := 2.
Definition MinDepositVal : Z := 10000000000000000000.

(** ** The rest of the node *)

(** [types.ValidatorSync] *)
Record ValidatorSync := MkValidatorSync {
  vs_InitTxHash : Hash;
  vs_OpType : Z;
  vs_ProcEpoch : Z;
  vs_Index : Z;
  vs_Creator : Address;
  vs_Amount : option Z;
  vs_TxHash : option Hash;
  vs_Balance : option Z
}.

Definition ReceiptStatusSuccessful : Z := 1.

(** What the processor asks of the blockchain. A transaction is its data and the sender that
    [types.Sender] recovers; a header is its slot; a receipt is its status. *)
Record Blockchain := MkBlockchain {
  bc_Config : ChainConfig;
  bc_GetSlotInfo : SlotInfo;
  bc_Now : Z;
  bc_GetEraInfo : EraInfo;
  bc_EpochToEra : Z → go_res (option Era);
  bc_Database : KV;
  bc_GetValidatorSyncData : Hash → option ValidatorSync;
  bc_GetTransaction : Hash → option (bytes * Address);
  bc_GetTransactionReceipt : Hash → option Z * Hash;
  bc_GetHeaderByHash : Hash → option Z
}.

(** The fields of [vm.BlockContext] that the processor reads. *)
Record BlockContext := MkBlockContext {
  ctx_Slot : Z;
  ctx_Era : Z;
  ctx_BlockHash : Hash
}.

(** [if cond { return nil, err }] *)
Definition guard {S} (b : bool) (e : error) : stM S unit := liftR (fail_if b e).

Section processor.
Context `{!Bitlist, !MapRange, !SortSlice, !Crypto, !SigScheme}.
Context (bc : Blockchain) (ctx : BlockContext).

Definition config : ChainConfig := bc_Config bc.

Definition GetValidatorsStateAddress : Address :=
  default (zero_fixed 20) (ValidatorsStateAddress config).

Definition IsValidatorOp (addrTo : option Address) : bool :=
  match addrTo with
  | None => false
  | Some a => bool_decide (a = GetValidatorsStateAddress)
  end.

(** [effectiveBalanceWei] *)
Definition effectiveBalanceWei : go_res Z :=
  eb ← deref (EffectiveBalance config); Ok (eb * BigWat).

(** The fork decides which version of the record is written. *)
Definition updateValidatorVersionBySlot (v : Validator) : Validator :=
  validator_SetVersion (if IsForkSlotValOpTracking config (ctx_Slot ctx) then Ver1 else NoVer) v.

(** A successful transaction in a block whose slot is not yet expired. *)
Definition notExpired (rc : option Z) (blHash : Hash) : bool :=
  bool_decide (rc = Some ReceiptStatusSuccessful) &&
  match bc_GetHeaderByHash bc blHash with
  | Some slot => ctx_Slot ctx <? u64 (slot + ValidatorOpExpireSlots config)
  | None => false
  end.

(** The check that deposits, exits and withdrawals make for a transaction [prevOpTx] that is still
    tracked: it is in this block, or it succeeded and is not expired. *)
Definition blockedBy (prevOpTx : option Hash) : bool :=
  match prevOpTx with
  | None => false
  | Some tx =>
      let '(rc, blHash) := bc_GetTransactionReceipt bc tx in
      (bool_decide (blHash ≠ zero_fixed 32) && bool_decide (blHash = ctx_BlockHash ctx)) ||
      notExpired rc blHash
  end.

(** [isValidatorTrialPeriod] *)
Definition isValidatorTrialPeriod (v : Validator) : go_res bool :=
  if ctx_Era ctx <? v_ActivationEra v then Ok true
  else
    activationEra ← deref (ReadEra (bc_Database bc) (v_ActivationEra v));
    activationSlot ← SlotOfEpochStart (bc_GetSlotInfo bc) (From activationEra);
    d ← deref (v_DelegatingStake v);
    let endTrialSlot := u64 (activationSlot + TrialPeriod d) in
    if ctx_Slot ctx <=? endTrialSlot then Ok true
    else if v_ExitEra v <=? ctx_Era ctx then
      exitEra ← deref (ReadEra (bc_Database bc) (v_ExitEra v));
      exitSlot ← SlotOfEpochStart (bc_GetSlotInfo bc) (From exitEra);
      Ok (exitSlot <=? endTrialSlot)
    else Ok false.

(** The rules that are in force. *)
Definition pickRules (isTrial : bool) (d : DelegatingStakeData) : DelegatingStakeRules :=
  if isTrial then TrialRules d else Rules d.

Definition actualRules (v : Validator) : go_res (bool * DelegatingStakeRules) :=
  d ← deref (v_DelegatingStake v);
  isTrial ← isValidatorTrialPeriod v;
  Ok (isTrial, pickRules isTrial d).

(** ** Deposit *)

(** The delegated stake of the operation, checked again for the new record. *)
Definition depositDelegate (op : depositOperation) : go_res (option DelegatingStakeData) :=
  dlg ← deposit_DelegatingStake op;
  match dlg with
  | None => Ok None
  | Some d =>
      if negb (IsForkSlotDelegate config (ctx_Slot ctx)) then Err ErrDelegateForkRequire
      else
        _ ← Validate (Rules d);
        d' ← NewDelegatingStakeData (Some (Rules d)) (TrialPeriod d) (Some (TrialRules d));
        Ok (Some d')
  end.

(** [currValidator, _ := GetValidator(...)]: an error is dropped. *)
Definition currentValidator (w : World) (creator : Address) : go_res (option Validator) :=
  match GetValidator w creator with
  | Ok v => Ok (Some v)
  | Err _ => Ok None
  | Panic => Panic
  | NoFuel => NoFuel
  end.

(** A deposit for a validator that exists has to agree with it. *)
Definition checkDeposit (curr : Validator) (op : depositOperation) : go_res unit :=
  if v_ActivationEra curr <? MaxUint64 then Err errDepositActivated
  else if decide (v_PubKey curr ≠ d_pubkey op) then Err errDepositPubKey
  else
    wa ← deref (v_WithdrawalAddress curr);
    if decide (wa ≠ d_withdrawal_address op) then Err errDepositWithdrawal
    else
      curDlg ← stake_MarshalBinary (v_DelegatingStake curr);
      dlg ← deposit_DelegatingStake op;
      opDlg ← stake_MarshalBinary dlg;
      if decide (curDlg ≠ opDlg) then Err ErrMismatchDelegateData else Ok tt.

Definition validatorDeposit (from toAddr : Address) (value : option Z) (op : depositOperation)
    (txHash : Hash) : stM World bytes :=
  _ ← guard (negb (IsValidatorOp (Some toAddr))) ErrInvalidToAddress;
  _ ← liftR (VerifyDepositSig (d_signature op) (d_pubkey op) (d_creator_address op)
               (d_withdrawal_address op));
  value ← liftR (match value with
                 | None => Err ErrTooLowDepositValue
                 | Some v => if v <? MinDepositVal then Err ErrTooLowDepositValue else Ok v
                 end);
  _ ← guard (negb (BnCanCastToUint64 (Some (value / BigGwei)))) ErrInvalidAmount;
  w ← getS;
  _ ← guard (GetBalance w from <? value) (Wrapped "address" ErrInsufficientFundsForOp);
  dlg ← liftR (depositDelegate op);
  let validator :=
    set_Delegating dlg (NewValidator (d_pubkey op) (d_creator_address op)
                          (Some (d_withdrawal_address op))) in
  curr ← liftR (currentValidator w (d_creator_address op));
  validator ← liftR (match curr with
                     | None => Ok validator
                     | Some curr => _ ← checkDeposit curr op; Ok curr
                     end);
  _ ← guard ((Ver1 <=? Version validator) && blockedBy (GetWithdrawalTx validator)) ErrValOpBlocked;
  let validator := updateValidatorVersionBySlot validator in
  let validator := AddDepositTxs txHash validator in
  let validator := AddStake from value validator in
  _ ← SetValidator validator;
  w ← getS;
  depositCount ← liftR (GetDepositCount config w);
  let logData := PackDepositLogData (d_pubkey op) (d_creator_address op) (d_withdrawal_address op)
                   (Some value) (d_signature op) depositCount in
  _ ← modify (emit_Deposit toAddr logData);
  _ ← IncrementDepositCount config;
  _ ← modify (SubBalance from value);
  liftR (FillBytes 32 value).

(** ** Exit *)

(** Whether the sender may act for a validator: by the roles of the delegated stake, or as the
    withdrawal address. *)
Definition checkSender (roles : DelegatingStakeRules → go_res (list Address)) (from : Address)
    (v : Validator) : go_res unit :=
  HasDelegatingStake v ≫= λ delegating : bool,
  if delegating then
    '(_, rules) ← actualRules v;
    allowedAddrs ← roles rules;
    if bool_decide (from ∈ allowedAddrs) then Ok tt else Err ErrSenderRejByDelegate
  else
    wa ← deref (v_WithdrawalAddress v);
    fail_if (bool_decide (from ≠ wa)) ErrInvalidFromAddresses.

Definition exitEpoch (op : exitOperation) : go_res Z :=
  match e_exitAfterEpoch op with
  | Some e => Ok e
  | None =>
      slot ← CurrentSlot (bc_GetSlotInfo bc) (bc_Now bc);
      epoch ← SlotToEpoch (bc_GetSlotInfo bc) slot;
      Ok (u64 (epoch + 1))
  end.

Definition validatorExit (from toAddr : Address) (op : exitOperation) (txHash : Hash) :
    stM World bytes :=
  _ ← guard (negb (IsValidatorOp (Some toAddr))) ErrInvalidToAddress;
  w ← getS;
  validator ← liftR (GetValidator w (e_creatorAddress op));
  _ ← guard (bool_decide (v_PubKey validator ≠ e_pubKey op)) ErrMismatchPulicKey;
  exitAftEpoch ← liftR (exitEpoch op);
  eraNumber ← liftR (ei_Number (bc_GetEraInfo bc));
  _ ← guard (eraNumber <? v_ActivationEra validator) ErrNotActivatedValidator;
  _ ← guard (negb (v_ExitEra validator =? MaxUint64)) ErrValidatorIsOut;
  _ ← liftR (checkSender Exit from validator);
  _ ← guard ((Ver1 <=? Version validator) && blockedBy (GetExitTx validator)) ErrValOpBlocked;
  let validator := updateValidatorVersionBySlot validator in
  let validator := SetExitTx (Some txHash) validator in
  _ ← SetValidator validator;
  let logData := PackExitRequestLogData (e_pubKey op) (e_creatorAddress op) (v_Index validator)
                   (Some exitAftEpoch) in
  _ ← modify (emit_ExitRequest toAddr logData);
  mret (fb (e_creatorAddress op)).

(** ** Withdrawal *)

(** The deposits are not enough to activate the validator, so they can be withdrawn. *)
Definition refundable (effectiveBalance : Z) (v : Validator) : bool :=
  (v_ActivationEra v =? MaxUint64) && (TotalStake v <? effectiveBalance).

(** [SubtractStake], and [RmStakeByAddress] if nothing is left. *)
Definition takeStake (from : Address) (amount : Z) (v : Validator) : go_res Validator :=
  '(newStake, v) ← SubtractStake from amount v;
  Ok (if newStake =? 0 then RmStakeByAddress from v else v).

(** The refund of a deposit: the amount (all of the stake for an amount of zero) and the record,
    from which the stake is taken right away before the fork. *)
Definition refundRequest (from : Address) (opAmount : Z) (v : Validator) : go_res (Z * Validator) :=
  let stakeByAddr := GetStakeByAddress v from in
  if stakeByAddr =? 0 then Err ErrInvalidFromAddresses
  else if stakeByAddr <? opAmount then Err ErrInsufficientFundsForOp
  else
    let opAmount := if opAmount =? 0 then stakeByAddr else opAmount in
    if negb (IsForkSlotValOpTracking config (ctx_Slot ctx))
    then v ← takeStake from opAmount v; Ok (opAmount, v)
    else Ok (opAmount, v).

Definition validatorWithdrawal (from toAddr : Address) (op : withdrawalOperation) (txHash : Hash) :
    stM World bytes :=
  _ ← guard (negb (IsValidatorOp (Some toAddr))) ErrInvalidToAddress;
  let opAmount := w_amount op in
  _ ← guard (negb (BnCanCastToUint64 (Some (opAmount / BigGwei)))) ErrInvalidAmount;
  w ← getS;
  validator ← liftR (GetValidator w (w_creatorAddress op));
  _ ← guard ((Ver1 <=? Version validator) && blockedBy (GetWithdrawalTx validator)) ErrValOpBlocked;
  let validator := updateValidatorVersionBySlot validator in
  let validator := SetWithdrawalTx (Some txHash) validator in
  eb ← liftR effectiveBalanceWei;
  '(opAmount, validator) ← liftR
    (if refundable eb validator then refundRequest from opAmount validator
     else _ ← checkSender Withdrawal from validator; Ok (opAmount, validator));
  _ ← SetValidator validator;
  let amtGwei := u64 (opAmount / BigGwei) in
  let logData := PackWithdrawalLogData (v_PubKey validator) (w_creatorAddress op) (v_Index validator)
                   amtGwei in
  _ ← modify (emit_WithdrawalRequest toAddr logData);
  mret (fb (w_creatorAddress op)).

(** ** Operations of the coordinating network *)

Definition CompareValSync (saved : ValidatorSync) (input : validatorSyncOperation)
    (isForkDelegate : bool) : bool :=
  if decide (vs_InitTxHash saved ≠ s_initTxHash input) then false
  else if decide (vs_OpType saved ≠ s_opType input) then false
  else if decide (vs_Creator saved ≠ s_creator input) then false
  else if decide (vs_Index saved ≠ s_index input) then false
  else if negb isForkDelegate && (s_procEpoch input <? vs_ProcEpoch saved) then false
  else
    match vs_Amount saved, sync_Amount input with
    | Some a, Some b => a =? b
    | None, None => true
    | _, _ => false
    end.

(** The transaction that initialised the operation. *)
Definition checkInitTx (op : validatorSyncOperation) : go_res unit :=
  match bc_GetTransaction bc (s_initTxHash op) with
  | None => Err ErrTxNF
  | Some (data, _) =>
      iop ← DecodeOperation data;
      _ ← match iop with
          | OpDeposit d =>
              if sync_OpCode op =? DepositCode then Err ErrInvalidOpCode
              else fail_if (bool_decide (d_creator_address d ≠ s_creator op)) ErrInvalidCreator
          | OpExit e =>
              if sync_OpCode op =? ExitCode then Err ErrInvalidOpCode
              else if decide (e_creatorAddress e ≠ s_creator op) then Err ErrInvalidCreator
              else
                match e_exitAfterEpoch e with
                | Some epoch => fail_if (s_procEpoch op <? epoch) ErrInvalidOpEpoch
                | None => Ok tt
                end
          | OpWithdrawal wd =>
              if sync_OpCode op =? WithdrawalCode then Err ErrInvalidOpCode
              else if decide (w_creatorAddress wd ≠ s_creator op) then Err ErrInvalidCreator
              else fail_if ((s_version op =? Ver1) && bool_decide (s_balance op = None)) ErrNoBalance
          | OpSync _ => Err ErrInvalidOpCode
          end;
      match (bc_GetTransactionReceipt bc (s_initTxHash op)).1 with
      | None => Err ErrReceiptNF
      | Some status => fail_if (negb (status =? ReceiptStatusSuccessful)) ErrInvalidReceiptStatus
      end
  end.

Definition ValidateValidatorSyncOp (op : validatorSyncOperation) (applySlot : Z) (txHash : Hash) :
    go_res unit :=
  match bc_GetValidatorSyncData bc (s_initTxHash op) with
  | None => Err ErrNoSavedValSyncOp
  | Some saved =>
      let isForkDelegate := IsForkSlotDelegate config applySlot in
      _ ← (if negb isForkDelegate then
             blockEpoch ← SlotToEpoch (bc_GetSlotInfo bc) applySlot;
             fail_if (s_procEpoch op <? blockEpoch) ErrInvalidOpEpoch
           else Ok tt);
      _ ← fail_if (negb (CompareValSync saved op isForkDelegate)) ErrMismatchValSyncOp;
      _ ← match vs_TxHash saved with
          | Some savedTx =>
              if decide (savedTx ≠ txHash) then
                if negb isForkDelegate then Err ErrValSyncTxExists
                else fail_if (bool_decide ((bc_GetTransactionReceipt bc savedTx).1 =
                                           Some ReceiptStatusSuccessful)) ErrValSyncTxExists
              else Ok tt
          | None => Ok tt
          end;
      if decide (take 20 (fb (s_initTxHash op)) = fb (s_creator op)) then Ok tt
      else checkInitTx op
  end.

Definition validatorActivate (op : validatorSyncOperation) : stM World bytes :=
  w ← getS;
  validator ← liftR (GetValidator w (s_creator op));
  _ ← guard (IsForkSlotValOpTracking config (ctx_Slot ctx) &&
             negb (v_ActivationEra validator =? MaxUint64)) ErrValidatorActivated;
  let validator := updateValidatorVersionBySlot validator in
  let validator := ResetDepositTxs validator in
  opEra ← liftR (e ← bc_EpochToEra bc (s_procEpoch op); deref e);
  let validator := SetActivationEra (u64 (Number opEra + postpone)) validator in
  let validator := SetIndex (s_index op) validator in
  let validator := UnsetStake validator in
  _ ← SetValidator validator;
  _ ← AddValidatorToList config (s_index op) (s_creator op);
  _ ← (if IsForkSlotDelegate config (ctx_Slot ctx) then
         logData ← liftR (PackActivateLogData (s_initTxHash op) (s_creator op) (s_procEpoch op)
                            (s_index op));
         modify (AddActivateLog GetValidatorsStateAddress logData (s_creator op) (s_initTxHash op))
       else mret tt);
  mret (fb (s_creator op)).

Definition validatorDeactivate (op : validatorSyncOperation) : stM World bytes :=
  w ← getS;
  validator ← liftR (GetValidator w (s_creator op));
  _ ← guard (negb (v_ExitEra validator =? MaxUint64)) ErrValidatorIsOut;
  opEra ← liftR (e ← bc_EpochToEra bc (s_procEpoch op); deref e);
  let opEraNr := if IsForkSlotValSyncProc config (ctx_Slot ctx) then ctx_Era ctx else Number opEra in
  _ ← guard (opEraNr <=? v_ActivationEra validator) ErrNotActivatedValidator;
  let validator := updateValidatorVersionBySlot validator in
  let validator := SetExitTx None validator in
  let validator := SetExitEra (u64 (Number opEra + postpone)) validator in
  _ ← SetValidator validator;
  _ ← (if IsForkSlotDelegate config (ctx_Slot ctx) then
         logData ← liftR (PackDeactivateLogData (s_initTxHash op) (s_creator op) (s_procEpoch op)
                            (s_index op));
         modify (AddDeactivateLog GetValidatorsStateAddress logData (s_creator op) (s_initTxHash op))
       else mret tt);
  mret (fb (s_creator op)).

(** *** Payment to a validator *)

(** The withdrawal that is tracked for the record has to be the one of the operation, or expired;
    if none is tracked, the operation has to be older than the fork. *)
Definition checkWithdrawalOp (op : validatorSyncOperation) (v : Validator) : go_res unit :=
  if Ver1 <=? Version v then
    match GetWithdrawalTx v with
    | None =>
        let expiration := ValidatorOpExpireSlots config in
        let checkSlot := if expiration <? ctx_Slot ctx then ctx_Slot ctx - expiration else 0 in
        if IsForkSlotValOpTracking config checkSlot then Err ErrNoActiveWithdrawalOp
        else
          let '(rc, blHash) := bc_GetTransactionReceipt bc (s_initTxHash op) in
          match rc with
          | None => Err errInitTxReceiptNF
          | Some status =>
              if negb (status =? ReceiptStatusSuccessful) then Err errInitTxReceiptFailed
              else
                initTxSlot ← deref (bc_GetHeaderByHash bc blHash);
                fail_if (IsForkSlotValOpTracking config initTxSlot) ErrNoActiveWithdrawalOp
          end
    | Some prevOpTx =>
        if decide (prevOpTx ≠ s_initTxHash op) then
          let '(rc, blHash) := bc_GetTransactionReceipt bc prevOpTx in
          fail_if (notExpired rc blHash) ErrValOpBlocked
        else Ok tt
    end
  else Ok tt.

(** The refund of deposits goes to the sender of the withdrawal; after the fork the stake is taken
    from the record here, at most all of it. *)
Definition refundPayment (op : validatorSyncOperation) (v : Validator) :
    go_res (Address * Validator) :=
  match bc_GetTransaction bc (s_initTxHash op) with
  | None => Err ErrTxNF
  | Some (data, iTxFrom) =>
      iop ← DecodeOperation data;
      if negb (OpCode iop =? WithdrawalCode) then Err ErrInvalidOpCode
      else if IsForkSlotValOpTracking config (ctx_Slot ctx) then
        wDepositAmt ← deref (sync_Amount op);
        let curDepositStake := GetStakeByAddress v iTxFrom in
        let wDepositAmt := if curDepositStake <? wDepositAmt then curDepositStake else wDepositAmt in
        v ← takeStake iTxFrom wDepositAmt v;
        Ok (iTxFrom, v)
      else Ok (iTxFrom, v)
  end.

(** The amounts to share: what is above the effective balance is profit. *)
Definition shareAmounts (balance amount effectiveBalance : Z) : Z * Z :=
  let opBalance := balance + amount in
  let profitBalance := opBalance - effectiveBalance in
  let profitBalance := if profitBalance <? 0 then 0 else profitBalance in
  let profitOpAmt := profitBalance - amount in
  if profitOpAmt <=? 0 then (profitBalance, amount - profitBalance) else (profitOpAmt, 0).

(** One of the two loops: the payouts of an amount by a map of shares in percent. *)
Definition payouts (ruleType : Z) (isTrial : bool) (amount : Z) (shares : gmap Address Z) :
    DelegatingStakeLogData :=
  if 0 <? amount then
    map (λ '(adr, share), MkShare adr ruleType isTrial (Some (amount / 100 * share))) (range shares)
  else [].

(** [AddBalance] for every payout. *)
Definition pay (d : DelegatingStakeLogData) (w : World) : World :=
  foldl (λ w v, AddBalance (sr_Address v) (default 0 (sr_Amount v)) w) w d.

Definition applyDelegatingStakeRules (op : validatorSyncOperation) (v : Validator) : stM World bytes :=
  _ ← guard (negb (IsForkSlotDelegate config (ctx_Slot ctx))) ErrDelegateForkRequire;
  '(isTrial, rules) ← liftR (actualRules v);
  balance ← liftR (deref (s_balance op));
  amount ← liftR (deref (sync_Amount op));
  eb ← liftR effectiveBalanceWei;
  let '(profitOpAmt, stakeOpAmt) := shareAmounts balance amount eb in
  stakeShares ← liftR (StakeShare rules);
  profitShares ← liftR (ProfitShare rules);
  let upBalInfo := payouts RuleProfitShare isTrial profitOpAmt profitShares ++
                   payouts RuleStakeShare isTrial stakeOpAmt stakeShares in
  _ ← modify (pay upBalInfo);
  logData ← liftR (PackUpdateBalanceLogData (s_initTxHash op) (s_creator op) (s_procEpoch op)
                     (Some amount));
  _ ← modify (AddUpdateBalanceLog GetValidatorsStateAddress logData (s_creator op) (s_initTxHash op) None);
  logData ← liftR (PackDelegatingStakeLogData (Some upBalInfo));
  _ ← modify (AddDelegatingStakeLog GetValidatorsStateAddress logData (shares_Topics upBalInfo));
  mret (fb (s_creator op)).

(** The record is written and the amount is paid to [withdrawalTo]. *)
Definition payValidator (op : validatorSyncOperation) (withdrawalTo : Address) (v : Validator) :
    stM World bytes :=
  _ ← SetValidator v;
  amount ← liftR (deref (sync_Amount op));
  _ ← modify (AddBalance withdrawalTo amount);
  _ ← (if IsForkSlotDelegate config (ctx_Slot ctx) then
         logData ← liftR (PackUpdateBalanceLogData (s_initTxHash op) (s_creator op) (s_procEpoch op)
                            (Some amount));
         modify (AddUpdateBalanceLog GetValidatorsStateAddress logData (s_creator op) (s_initTxHash op)
                   (Some withdrawalTo))
       else mret tt);
  mret (fb (s_creator op)).

Definition validatorUpdateBalance (op : validatorSyncOperation) : stM World bytes :=
  w ← getS;
  validator ← liftR (GetValidator w (s_creator op));
  _ ← liftR (checkWithdrawalOp op validator);
  let validator := updateValidatorVersionBySlot validator in
  let validator := SetWithdrawalTx None validator in
  eb ← liftR effectiveBalanceWei;
  if refundable eb validator then
    '(withdrawalTo, validator) ← liftR (refundPayment op validator);
    payValidator op withdrawalTo validator
  else
    liftR (HasDelegatingStake validator) ≫= λ delegating : bool,
    if delegating then applyDelegatingStakeRules op validator
    else
      match v_WithdrawalAddress validator with
      | None => liftR (Err ErrNoWithdrawalCred)
      | Some withdrawalTo => payValidator op withdrawalTo validator
      end.

Definition syncOpProcessing (op : validatorSyncOperation) (txHash : Hash) : stM World bytes :=
  _ ← liftR (ValidateValidatorSyncOp op (ctx_Slot ctx) txHash);
  if sync_OpCode op =? ActivateCode then validatorActivate op
  else if sync_OpCode op =? DeactivateCode then validatorDeactivate op
  else if sync_OpCode op =? UpdateBalanceCode then validatorUpdateBalance op
  else mret [].

(** ** Call *)

Definition handle (caller toAddr : Address) (value : option Z) (op : Operation) (txHash : Hash) :
    stM World bytes :=
  match op with
  | OpDeposit d => validatorDeposit caller toAddr value d txHash
  | OpSync s => syncOpProcessing s txHash
  | OpExit e => validatorExit caller toAddr e txHash
  | OpWithdrawal wd => validatorWithdrawal caller toAddr wd txHash
  end.

(** [RevertToSnapshot] when the handler returns an error; a panic is not caught here. *)
Definition revertOnError {A} (m : stM World A) : stM World A := λ snapshot,
  match m snapshot with
  | (Err e, _) => (Err e, snapshot)
  | r => r
  end.

Definition Call (caller toAddr : Address) (value : option Z) (data : bytes) (txHash : Hash) :
    stM World bytes :=
  op ← liftR (DecodeOperation data);
  _ ← modify (λ w, SetNonce caller (u64 (GetNonce w caller + 1)) w);
  revertOnError (handle caller toAddr value op txHash).
End processor.

(** [ValidatePartialDepositOp], the check that the transaction pool makes for a deposit. *)
Definition ValidatePartialDepositOp `{!Bitlist} (v : Validator) (op : depositOperation) : go_res unit :=
  if decide (v_Address v ≠ d_creator_address op) then Err errPartialCreator
  else if decide (v_PubKey v ≠ d_pubkey op) then Err errPartialPubKey
  else
    _ ← match v_WithdrawalAddress v with
        | Some wa => fail_if (bool_decide (wa ≠ d_withdrawal_address op)) errPartialWithdrawal
        | None => Ok tt
        end;
    valBin ← stake_MarshalBinary (v_DelegatingStake v);
    dlg ← deposit_DelegatingStake op;
    opBin ← stake_MarshalBinary dlg;
    if decide (valBin ≠ opBin) then Err errPartialDelegate else Ok tt.
