(* ===== verification/ValProcFacts.v ===== *)
(** * Lemmas on the validator processor

    What the handlers leave alone, and their exact effects on the world. *)

From Stdlib Require Import ZArith Lia Strings.Byte.
From stdpp Require Import base tactics option numbers list gmap strings.
From S2P Require Import Prelude Common RlpEnc RlpDec Chain Era GoMap DelegRules ValOps World Hex.
From S2P Require Import TxLog DepositSig Validator ValStorage ValProcessor.

(** ** What the handlers leave alone *)

Definition same_nonces (w w' : World) : Prop := ∀ a, GetNonce w' a = GetNonce w a.
Definition same_balances (w w' : World) : Prop := ∀ a, GetBalance w' a = GetBalance w a.

#[export] Instance same_nonces_refl : Reflexive same_nonces.
Proof. by intros w a. Qed.
#[export] Instance same_nonces_trans : Transitive same_nonces.
Proof. intros w1 w2 w3 H1 H2 a. by rewrite H2, H1. Qed.
#[export] Instance same_balances_refl : Reflexive same_balances.
Proof. by intros w a. Qed.
#[export] Instance same_balances_trans : Transitive same_balances.
Proof. intros w1 w2 w3 H1 H2 a. by rewrite H2, H1. Qed.

Lemma frame_guard {S} (R : S → S → Prop) `{!Reflexive R} b e : frame R (guard b e).
Proof. apply frame_liftR, _. Qed.
#[export] Hint Resolve frame_guard : frame.

Ltac frame := repeat frame_step.

Section frames.
Context (R : World → World → Prop) `{!Reflexive R, !Transitive R}.
Context (HSetCode : ∀ a c w, R w (SetCode a c w)).

Lemma frame_SetValidator v : frame R (SetValidator v).
Proof. unfold SetValidator. frame. apply HSetCode. Qed.

Lemma frame_IncrementDepositCount c : frame R (IncrementDepositCount c).
Proof. unfold IncrementDepositCount. frame. apply HSetCode. Qed.

Lemma frame_SetValidatorsList c l : frame R (SetValidatorsList c l).
Proof. unfold SetValidatorsList. frame. apply HSetCode. Qed.

Lemma frame_AddValidatorToList c i v : frame R (AddValidatorToList c i v).
Proof.
  unfold AddValidatorToList. frame. apply frame_SetValidatorsList.
Qed.
End frames.

(** The logs that are emitted are appended; nothing else changes. *)
Lemma emit_Deposit_eq `{!Crypto} a data :
  emit_Deposit a data = AddLog (MkLog a [EvtDepositLogSignature] data).
Proof. done. Qed.
Lemma emit_ExitRequest_eq `{!Crypto} a data :
  emit_ExitRequest a data = AddLog (MkLog a [EvtExitReqLogSignature] data).
Proof. done. Qed.
Lemma emit_WithdrawalRequest_eq `{!Crypto} a data :
  emit_WithdrawalRequest a data = AddLog (MkLog a [EvtWithdrawalLogSignature] data).
Proof. done. Qed.

Ltac world_simpl :=
  rewrite ?emit_Deposit_eq, ?emit_ExitRequest_eq, ?emit_WithdrawalRequest_eq;
  unfold AddActivateLog, AddDeactivateLog, AddUpdateBalanceLog, AddDelegatingStakeLog;
  autorewrite with world.

Lemma pay_nonce d : ∀ w a, GetNonce (pay d w) a = GetNonce w a.
Proof. induction d as [|x d IH]; intros w a; simpl; [done|]. rewrite IH. apply GetNonce_AddBalance. Qed.

Lemma pay_code d : ∀ w a, GetCode (pay d w) a = GetCode w a.
Proof. induction d as [|x d IH]; intros w a; simpl; [done|]. rewrite IH. apply GetCode_AddBalance. Qed.

Lemma pay_logs d : ∀ w, logs (pay d w) = logs w.
Proof. induction d as [|x d IH]; intros w; simpl; [done|]. rewrite IH. apply logs_AddBalance. Qed.

#[export] Hint Rewrite pay_nonce pay_code pay_logs : world.

Section processor_facts.
Context `{!Bitlist, !MapRange, !SortSlice, !Crypto, !SigScheme}.
Context (bc : Blockchain) (ctx : BlockContext).

(** What all the changes that a handler can make leave alone. *)
Lemma handle_frame (R : World → World → Prop) caller toAddr value op txHash : Reflexive R → Transitive R →
  (∀ a c w, R w (SetCode a c w)) → (∀ l w, R w (AddLog l w)) → (∀ a v w, R w (AddBalance a v w)) →
  (∀ a v w, R w (SubBalance a v w)) → frame R (handle bc ctx caller toAddr value op txHash).
Proof.
  intros Hr Ht Hc Hl Ha Hs.
  assert (∀ d w, R w (pay d w)) as Hp.
  { intros d. induction d as [|x d IH]; intros w; simpl; [done|]. etrans; [apply Ha|apply IH]. }
  assert (∀ v, frame R (SetValidator v)) as HV by (intros; apply frame_SetValidator; (apply _ || done)).
  assert (∀ c i v, frame R (AddValidatorToList c i v)) as HL
    by (intros; apply frame_AddValidatorToList; (apply _ || done)).
  assert (∀ c, frame R (IncrementDepositCount c)) as HI
    by (intros; apply frame_IncrementDepositCount; (apply _ || done)).
  unfold handle, validatorDeposit, syncOpProcessing, validatorActivate, validatorDeactivate,
    validatorUpdateBalance, applyDelegatingStakeRules, payValidator, validatorExit, validatorWithdrawal.
  frame; try done; try apply HV; try apply HL; try apply HI; world_simpl; eauto.
Qed.

Lemma handle_same_nonces caller toAddr value op txHash :
  frame same_nonces (handle bc ctx caller toAddr value op txHash).
Proof. apply handle_frame; [apply _|apply _|..]; intros; intros ?; by autorewrite with world. Qed.

(** What no handler changes: the storage of the accounts, the refund counter and the access list. *)
Record same_rest (w w' : World) : Prop := {
  sr_storage a : acc_storage (account w' a) = acc_storage (account w a);
  sr_committed a : acc_committed (account w' a) = acc_committed (account w a);
  sr_suicided a : acc_suicided (account w' a) = acc_suicided (account w a);
  sr_refund : refund w' = refund w;
  sr_access : access_addresses w' = access_addresses w ∧ access_slots w' = access_slots w
}.

#[export] Instance same_rest_refl : Reflexive same_rest.
Proof. by split. Qed.
#[export] Instance same_rest_trans : Transitive same_rest.
Proof.
  intros w1 w2 w3 [Hs Hc Hd Hr [Ha Hk]] [Hs' Hc' Hd' Hr' [Ha' Hk']]. split; [intros a..|congruence|split; congruence].
  - by rewrite Hs', Hs.
  - by rewrite Hc', Hc.
  - by rewrite Hd', Hd.
Qed.

Transparent SetNonce SetCode AddBalance SubBalance.
Lemma same_rest_update f a w : (∀ x, acc_storage (f x) = acc_storage x ∧ acc_committed (f x) = acc_committed x ∧
  acc_suicided (f x) = acc_suicided x) → same_rest w (update_account f a w).
Proof.
  intros Hf. split; try done; intros b; rewrite account_update; case_decide; try done; subst;
    by destruct (Hf (account w b)) as (? & ? & ?).
Qed.

Lemma SetNonce_same_rest a n w : same_rest w (SetNonce a n w).
Proof. by apply same_rest_update. Qed.

Lemma handle_same_rest caller toAddr value op txHash : frame same_rest (handle bc ctx caller toAddr value op txHash).
Proof. apply handle_frame; [apply _|apply _|..]; intros; first [by split|by apply same_rest_update]. Qed.
Opaque SetNonce SetCode AddBalance SubBalance.

(** ** The effects of the handlers *)

(** The record a deposit starts from: the one in the state, or a new one. *)
Definition deposit_base (w : World) (op : depositOperation) (v0 : Validator) : Prop :=
  (GetValidator w (d_creator_address op) = Ok v0 ∧ checkDeposit v0 op = Ok tt) ∨
  (∃ e dlg, GetValidator w (d_creator_address op) = Err e ∧ depositDelegate bc ctx op = Ok dlg ∧
     v0 = set_Delegating dlg (NewValidator (d_pubkey op) (d_creator_address op)
                                (Some (d_withdrawal_address op)))).

Definition deposited (from : Address) (value : Z) (txHash : Hash) (v0 : Validator) : Validator :=
  AddStake from value (AddDepositTxs txHash (updateValidatorVersionBySlot bc ctx v0)).

Lemma deposited_Address from val txHash v0 :
  v_Address (AddStake from val (AddDepositTxs txHash (updateValidatorVersionBySlot bc ctx v0))) = v_Address v0.
Proof.
  unfold updateValidatorVersionBySlot. by rewrite AddDepositTxs_eq, SetVersion_eq.
Qed.

Lemma validatorDeposit_Ok from toAddr value op txHash w ret w' :
  validatorDeposit bc ctx from toAddr value op txHash w = (Ok ret, w') →
  ∃ val v0 c count w2,
    value = Some val ∧ MinDepositVal ≤ val ∧ is_u64 (val / BigGwei) ∧ val ≤ GetBalance w from ∧
    toAddr = GetValidatorsStateAddress bc ∧
    VerifyDepositSig (d_signature op) (d_pubkey op) (d_creator_address op) (d_withdrawal_address op) = Ok tt ∧
    deposit_base w op v0 ∧
    (Version v0 < Ver1 ∨ blockedBy bc ctx (GetWithdrawalTx v0) = false) ∧
    validator_MarshalBinary (deposited from val txHash v0) = Ok c ∧
    let w1 := SetCode (v_Address v0) c w in
    GetDepositCount (config bc) w1 = Ok count ∧
    IncrementDepositCount (config bc)
      (AddLog (MkLog toAddr [EvtDepositLogSignature]
        (PackDepositLogData (d_pubkey op) (d_creator_address op) (d_withdrawal_address op) (Some val)
           (d_signature op) count)) w1) = (Ok tt, w2) ∧
    w' = SubBalance from val w2 ∧ FillBytes 32 val = Ok ret.
Proof.
  intros Hd. unfold validatorDeposit in Hd. st_inv Hd. rename x6 into v0.
  apply liftR_inv in Hd as [Hret ->]. destruct x0.
  apply negb_false_iff in Hm, Hm2. apply bool_decide_eq_true in Hm.
  apply BnCanCastToUint64_true in Hm2. apply Z.ltb_ge in Hm3.
  destruct value as [val|]; [|done]. destruct (Z.ltb_spec val MinDepositVal); [done|]. simplify_eq.
  apply SetValidator_Ok in Hm8 as (c & Hc & ->). destruct x11.
  exists x1, v0, c, x9, s0. rewrite deposited_Address in *. split_and!; try done.
  - unfold deposit_base, currentValidator in *.
    destruct (GetValidator w (d_creator_address op)) as [v| | |]; simplify_eq/=.
    + left. destruct (checkDeposit v op) as [[]| | |] eqn:Hck; [|done..].
      injection Hm6 as <-. done.
    + right. naive_solver.
  - apply andb_false_iff in Hm7 as [Hv|Hv]; [left; by apply Z.leb_gt|by right].
Qed.
Lemma validatorExit_Ok from toAddr op txHash w ret w' :
  validatorExit bc ctx from toAddr op txHash w = (Ok ret, w') →
  ∃ v exitAftEpoch era c,
    let v' := SetExitTx (Some txHash) (updateValidatorVersionBySlot bc ctx v) in
    toAddr = GetValidatorsStateAddress bc ∧
    GetValidator w (e_creatorAddress op) = Ok v ∧ v_PubKey v = e_pubKey op ∧
    exitEpoch bc op = Ok exitAftEpoch ∧
    ei_Number (bc_GetEraInfo bc) = Ok era ∧ v_ActivationEra v ≤ era ∧ v_ExitEra v = MaxUint64 ∧
    checkSender bc ctx Exit from v = Ok tt ∧
    (Version v < Ver1 ∨ blockedBy bc ctx (GetExitTx v) = false) ∧
    validator_MarshalBinary v' = Ok c ∧
    w' = AddLog (MkLog toAddr [EvtExitReqLogSignature]
           (PackExitRequestLogData (e_pubKey op) (e_creatorAddress op) (v_Index v) (Some exitAftEpoch)))
           (SetCode (v_Address v) c w) ∧
    ret = fb (e_creatorAddress op).
Proof.
  intros He. unfold validatorExit in He. st_inv He. apply mret_inv in He as [-> ->].
  rename x0 into v. apply negb_false_iff in Hm, Hm5. apply bool_decide_eq_true in Hm.
  apply bool_decide_eq_false in Hm1. apply dec_stable in Hm1. apply Z.ltb_ge in Hm4.
  apply Z.eqb_eq in Hm5. destruct x6. apply SetValidator_Ok in Hm8 as (c & Hc & ->).
  exists v, x2, x3, c. rewrite SetExitTx_eq in *. unfold updateValidatorVersionBySlot in *.
  rewrite SetVersion_eq in *. split_and!; try done.
  apply andb_false_iff in Hm7 as [Hv|Hv]; [left; by apply Z.leb_gt|by right].
Qed.

(** The record after a withdrawal request. *)
Definition requested (txHash : Hash) (v : Validator) : Validator :=
  SetWithdrawalTx (Some txHash) (updateValidatorVersionBySlot bc ctx v).

Lemma validatorWithdrawal_Ok from toAddr op txHash w ret w' :
  validatorWithdrawal bc ctx from toAddr op txHash w = (Ok ret, w') →
  ∃ v eb amount v' c,
    toAddr = GetValidatorsStateAddress bc ∧ is_u64 (w_amount op / BigGwei) ∧
    GetValidator w (w_creatorAddress op) = Ok v ∧
    (Version v < Ver1 ∨ blockedBy bc ctx (GetWithdrawalTx v) = false) ∧
    effectiveBalanceWei bc = Ok eb ∧
    (if refundable eb (requested txHash v)
     then refundRequest bc ctx from (w_amount op) (requested txHash v) = Ok (amount, v')
     else checkSender bc ctx Withdrawal from (requested txHash v) = Ok tt ∧ amount = w_amount op ∧
          v' = requested txHash v) ∧
    validator_MarshalBinary v' = Ok c ∧
    w' = AddLog (MkLog toAddr [EvtWithdrawalLogSignature]
           (PackWithdrawalLogData (v_PubKey v') (w_creatorAddress op) (v_Index v') (u64 (amount / BigGwei))))
           (SetCode (v_Address v') c w) ∧
    ret = fb (w_creatorAddress op).
Proof.
  intros He. unfold validatorWithdrawal in He. st_inv He. destruct x4 as [amount v']. st_inv He.
  apply mret_inv in He as [-> ->]. rename x1 into v. apply negb_false_iff in Hm, Hm0.
  apply bool_decide_eq_true in Hm. apply BnCanCastToUint64_true in Hm0.
  apply SetValidator_Ok in Hm5 as (c & Hc & ->). exists v, x3, amount, v', c.
  fold (requested txHash v) in Hm4. split_and!; try done.
  - apply andb_false_iff in Hm2 as [Hv|Hv]; [left; by apply Z.leb_gt|by right].
  - destruct (refundable x3 (requested txHash v)); [done|]. apply bind_Ok in Hm4 as ([] & ? & Hm4).
    naive_solver.
Qed.

(** The record after an activation. *)
Definition activated (op : validatorSyncOperation) (era : Era) (v : Validator) : Validator :=
  UnsetStake (SetIndex (s_index op) (SetActivationEra (u64 (Number era + postpone))
    (ResetDepositTxs (updateValidatorVersionBySlot bc ctx v)))).

(** The log of an activation or a deactivation, after the fork. *)
Definition sync_log (pack : go_res bytes) (sig : Hash) (op : validatorSyncOperation) (w w' : World) : Prop :=
  if IsForkSlotDelegate (config bc) (ctx_Slot ctx) then
    ∃ data, pack = Ok data ∧
      w' = AddLog (MkLog (GetValidatorsStateAddress bc)
             [sig; AddressHash (s_creator op); s_initTxHash op] data) w
  else w' = w.

Lemma validatorActivate_Ok op w ret w' :
  validatorActivate bc ctx op w = (Ok ret, w') →
  ∃ v era c w2,
    GetValidator w (s_creator op) = Ok v ∧
    (IsForkSlotValOpTracking (config bc) (ctx_Slot ctx) = true → v_ActivationEra v = MaxUint64) ∧
    bc_EpochToEra bc (s_procEpoch op) = Ok (Some era) ∧
    validator_MarshalBinary (activated op era v) = Ok c ∧
    AddValidatorToList (config bc) (s_index op) (s_creator op) (SetCode (v_Address v) c w) = (Ok tt, w2) ∧
    sync_log (PackActivateLogData (s_initTxHash op) (s_creator op) (s_procEpoch op) (s_index op))
      EvtActivateLogSignature op w2 w' ∧
    ret = fb (s_creator op).
Proof.
  intros He. unfold validatorActivate in He. st_inv He. apply mret_inv in He as [-> ->].
  rename x into v. apply bind_Ok in Hm1 as (oe & He & Hoe). apply deref_Ok in Hoe as ->.
  apply SetValidator_Ok in Hm2 as (c & Hc & ->). destruct x3.
  exists v, x1, c, s0. unfold sync_log. split_and!; try done.
  - intros HF. rewrite HF in Hm0. simpl in Hm0. apply negb_false_iff in Hm0. by apply Z.eqb_eq.
  - unfold updateValidatorVersionBySlot in Hm3. by rewrite SetVersion_eq in Hm3.
  - destruct (IsForkSlotDelegate _ _).
    + st_inv_step Hm4. apply modify_inv in Hm4 as ->. by eexists.
    + by apply mret_inv in Hm4 as [_ ->].
Qed.

(** The record after a deactivation. *)
Definition deactivated (era : Era) (v : Validator) : Validator :=
  SetExitEra (u64 (Number era + postpone)) (SetExitTx None (updateValidatorVersionBySlot bc ctx v)).

Lemma validatorDeactivate_Ok op w ret w' :
  validatorDeactivate bc ctx op w = (Ok ret, w') →
  ∃ v era c,
    GetValidator w (s_creator op) = Ok v ∧ v_ExitEra v = MaxUint64 ∧
    bc_EpochToEra bc (s_procEpoch op) = Ok (Some era) ∧
    v_ActivationEra v <
      (if IsForkSlotValSyncProc (config bc) (ctx_Slot ctx) then ctx_Era ctx else Number era) ∧
    validator_MarshalBinary (deactivated era v) = Ok c ∧
    sync_log (PackDeactivateLogData (s_initTxHash op) (s_creator op) (s_procEpoch op) (s_index op))
      EvtDeactivateLogSignature op (SetCode (v_Address v) c w) w' ∧
    ret = fb (s_creator op).
Proof.
  intros He. unfold validatorDeactivate in He. st_inv He. apply mret_inv in He as [-> ->].
  rename x into v. apply bind_Ok in Hm1 as (oe & He & Hoe). apply deref_Ok in Hoe as ->.
  apply SetValidator_Ok in Hm3 as (c & Hc & ->). apply Z.leb_gt in Hm2.
  apply negb_false_iff, Z.eqb_eq in Hm0.
  exists v, x1, c. unfold sync_log. split_and!; try done.
  unfold updateValidatorVersionBySlot in Hm4. rewrite SetExitTx_eq, SetVersion_eq in Hm4.
  destruct (IsForkSlotDelegate _ _).
  - st_inv_step Hm4. apply modify_inv in Hm4 as ->. by eexists.
  - by apply mret_inv in Hm4 as [_ ->].
Qed.
(** *** Payments *)

Lemma payValidator_Ok op to v w ret w' :
  payValidator bc ctx op to v w = (Ok ret, w') →
  ∃ c amount,
    let w1 := AddBalance to amount (SetCode (v_Address v) c w) in
    validator_MarshalBinary v = Ok c ∧ sync_Amount op = Some amount ∧
    (if IsForkSlotDelegate (config bc) (ctx_Slot ctx) then
       ∃ data, PackUpdateBalanceLogData (s_initTxHash op) (s_creator op) (s_procEpoch op) (Some amount) = Ok data ∧
         w' = AddLog (MkLog (GetValidatorsStateAddress bc)
                [EvtUpdateBalanceLogSignature; AddressHash (s_creator op); s_initTxHash op; AddressHash to]
                data) w1
     else w' = w1) ∧
    ret = fb (s_creator op).
Proof.
  intros He. unfold payValidator in He. st_inv He. apply mret_inv in He as [-> ->].
  apply SetValidator_Ok in Hm as (c & Hc & ->). apply deref_Ok in Hm0. exists c, x0.
  split_and!; try done. destruct (IsForkSlotDelegate _ _).
  - st_inv_step Hm1. apply modify_inv in Hm1 as ->. by eexists.
  - by apply mret_inv in Hm1 as [_ ->].
Qed.

Lemma applyDelegatingStakeRules_Ok op v w ret w' :
  applyDelegatingStakeRules bc ctx op v w = (Ok ret, w') →
  ∃ isTrial rules balance amount eb ss ps data1 data2,
    let '(profitOpAmt, stakeOpAmt) := shareAmounts balance amount eb in
    let up := payouts RuleProfitShare isTrial profitOpAmt ps ++
              payouts RuleStakeShare isTrial stakeOpAmt ss in
    IsForkSlotDelegate (config bc) (ctx_Slot ctx) = true ∧
    actualRules bc ctx v = Ok (isTrial, rules) ∧ s_balance op = Some balance ∧
    sync_Amount op = Some amount ∧ effectiveBalanceWei bc = Ok eb ∧
    StakeShare rules = Ok ss ∧ ProfitShare rules = Ok ps ∧
    PackUpdateBalanceLogData (s_initTxHash op) (s_creator op) (s_procEpoch op) (Some amount) = Ok data1 ∧
    PackDelegatingStakeLogData (Some up) = Ok data2 ∧
    w' = AddLog (MkLog (GetValidatorsStateAddress bc) (EvtDelegatingStakeSignature :: shares_Topics up) data2)
           (AddLog (MkLog (GetValidatorsStateAddress bc)
              [EvtUpdateBalanceLogSignature; AddressHash (s_creator op); s_initTxHash op] data1)
              (pay up w)) ∧
    ret = fb (s_creator op).
Proof.
  intros He. unfold applyDelegatingStakeRules in He. st_inv He. destruct x0 as [isTrial rules].
  st_inv He. destruct (shareAmounts x0 x1 x2) as [p q] eqn:Hsh. st_inv He.
  apply mret_inv in He as [-> ->]. apply deref_Ok in Hm1, Hm2. apply negb_false_iff in Hm.
  exists isTrial, rules, x0, x1, x2, x3, x4, x6, x8. rewrite Hsh. by split_and!.
Qed.

(** The record a payment starts from. *)
Definition settled (v : Validator) : Validator :=
  SetWithdrawalTx None (updateValidatorVersionBySlot bc ctx v).

Lemma validatorUpdateBalance_Ok op w ret w' :
  validatorUpdateBalance bc ctx op w = (Ok ret, w') →
  ∃ v eb, GetValidator w (s_creator op) = Ok v ∧ checkWithdrawalOp bc ctx op v = Ok tt ∧
    effectiveBalanceWei bc = Ok eb ∧
    if refundable eb (settled v) then
      ∃ to v', refundPayment bc ctx op (settled v) = Ok (to, v') ∧
        payValidator bc ctx op to v' w = (Ok ret, w')
    else
      (HasDelegatingStake v = Ok true ∧
       applyDelegatingStakeRules bc ctx op (settled v) w = (Ok ret, w')) ∨
      (HasDelegatingStake v = Ok false ∧
       ∃ to, v_WithdrawalAddress v = Some to ∧ payValidator bc ctx op to (settled v) w = (Ok ret, w')).
Proof.
  intros He. unfold validatorUpdateBalance in He. st_inv He. rename x into v.
  fold (settled v) in He. destruct x0. exists v, x1. split_and!; try done.
  destruct (refundable x1 (settled v)).
  - st_inv_step He. destruct x as [to v']. by exists to, v'.
  - st_inv_step He. assert (HasDelegatingStake (settled v) = HasDelegatingStake v) as Hs.
    { unfold settled, updateValidatorVersionBySlot. by rewrite SetWithdrawalTx_eq, SetVersion_eq. }
    rewrite Hs in Hm2. destruct x; [by left|right]. split; [done|].
    assert (v_WithdrawalAddress (settled v) = v_WithdrawalAddress v) as Hw.
    { unfold settled, updateValidatorVersionBySlot. by rewrite SetWithdrawalTx_eq, SetVersion_eq. }
    rewrite Hw in He. destruct (v_WithdrawalAddress v) as [to|]; [by exists to|done].
Qed.
End processor_facts.
