(* ===== verification/ValInv.v ===== *)
(** * The invariant of the validator state

    [world_ok n w]: the state address holds a list and a number of deposits, and every record that
    can be read belongs to its address, is in normal form and is small enough to be written and
    read again; [n] bounds the number of depositors and of tracked deposits of a record. A call
    keeps the invariant and adds at most one to the bound. *)

From Stdlib Require Import ZArith Lia Strings.Byte.
From stdpp Require Import base tactics option numbers list gmap strings.
From S2P Require Import Prelude Common RlpEnc RlpDec Chain Era GoMap DelegRules ValOps World Hex.
From S2P Require Import TxLog DepositSig Validator ValStorage ValProcessor ValProcFacts.

(** ** Records *)

(** Deposits are below [2^96]: their amount in Gwei is a [uint64]. *)
Record record_ok (n : nat) (v : Validator) : Prop := {
  ro_index : is_u64 (v_Index v);
  ro_activation : is_u64 (v_ActivationEra v);
  ro_exit : is_u64 (v_ExitEra v);
  ro_stake : stake_wf v;
  ro_depositors : (length (v_Stake v) ≤ n)%nat;
  ro_sums : Forall (λ s, sa_Sum s ≤ Z.of_nat n * 2 ^ 96) (v_Stake v);
  ro_delegate : ∀ d, v_DelegatingStake v = Some d → stake_fits d;
  ro_version : Version v = NoVer ∨ Version v = Ver1;
  ro_txs : (length (v_DepositTxs v) ≤ n)%nat;
  ro_order : v_ActivationEra v = MaxUint64 → v_ExitEra v = MaxUint64
}.

(** The largest bound for which records are known to fit. *)
Definition max_ops : nat := Z.to_nat (2 ^ 24).

Lemma max_ops_Z n : (n ≤ max_ops)%nat → Z.of_nat n ≤ 2 ^ 24.
Proof. unfold max_ops. lia. Qed.

Lemma vsize_stakes l :
  Forall (λ s, 0 ≤ sa_Sum s < 2 ^ 256) l →
  (list_sum (map vsize (map stake_entry_value l)) ≤ 79 * length l)%nat.
Proof.
  induction 1 as [|s l Hs _ IH]; [done|]. unfold list_sum in *.
  cbn [map fold_right vsize length stake_entry_value list_sum]. rewrite length_fb.
  pose proof (nbytes_le (sa_Sum s) 32 ltac:(lia) ltac:(lia)). rewrite Z.abs_eq by lia.
  lia.
Qed.

Lemma record_fits n v : (n ≤ max_ops)%nat → record_ok n v → validator_fits v.
Proof.
  intros Hn%max_ops_Z [H1 H2 H3 [H4 H4'] H5 H6 H7 H8 H9 H10]. split; try done.
  - assert (Forall (λ s, 0 ≤ sa_Sum s < 2 ^ 256) (v_Stake v)) as Hs.
    { rewrite Forall_forall in *. intros s Hs. specialize (H4' s Hs). specialize (H6 s Hs). simpl in *. lia. }
    apply vsize_stakes in Hs. unfold base_value. cbn [vsize map list_sum fold_right].
    rewrite !length_fb. change (fold_right Nat.add 0%nat) with list_sum. lia.
  - rewrite vsize_ver1_value. assert (length (GetDepositTxs v) ≤ n)%nat.
    { unfold GetDepositTxs. destruct (_ =? _); simpl; lia. }
    unfold two64. lia.
Qed.

Lemma record_ok_mono n m v : (n ≤ m)%nat → record_ok n v → record_ok m v.
Proof.
  intros Hm [H1 H2 H3 H4 H5 H6 H7 H8 H9 H10]. split; try done; try lia.
  eapply Forall_impl; [exact H6|]. simpl. intros. nia.
Qed.

Lemma record_ok_stored n v : record_ok n v → record_ok n (stored v).
Proof.
  intros [H1 H2 H3 H4 H5 H6 H7 H8 H9 H10]. split; try done.
  - by rewrite Version_stored.
  - cbn [stored v_DepositTxs]. pose proof (Uniq_length (GetDepositTxs v)).
    unfold GetDepositTxs in *. destruct (Version v =? NoVer); simpl in *; lia.
Qed.

(** Changes of single fields. *)
Lemma record_ok_set_Ver n v ver :
  record_ok n v → ver = NoVer ∨ ver = Ver1 → record_ok n (set_Ver (Some ver) v).
Proof. by intros []; split. Qed.

Lemma record_ok_set_WithdrawalTx n v tx : record_ok n v → record_ok n (set_WithdrawalTx tx v).
Proof. by intros []; split. Qed.

Lemma record_ok_set_ExitTx n v tx : record_ok n v → record_ok n (set_ExitTx tx v).
Proof. by intros []; split. Qed.

Lemma record_ok_set_DepositTxs n v txs :
  record_ok n v → (length txs ≤ n)%nat → record_ok n (set_DepositTxs txs v).
Proof. by intros []; split. Qed.

Lemma record_ok_SetExitEra n v e :
  record_ok n v → is_u64 e → v_ActivationEra v ≠ MaxUint64 → record_ok n (SetExitEra e v).
Proof. by intros []; split. Qed.

Lemma record_ok_SetActivationEra n v e :
  record_ok n v → is_u64 e → e ≠ MaxUint64 → record_ok n (SetActivationEra e v).
Proof. by intros []; split. Qed.

Lemma record_ok_SetIndex n v e : record_ok n v → is_u64 e → record_ok n (SetIndex e v).
Proof. by intros []; split. Qed.

Lemma record_ok_UnsetStake n v : record_ok n v → record_ok n (UnsetStake v).
Proof. intros []; split; try done; simpl; try lia. split; [apply NoDup_nil_2|done]. Qed.

Lemma length_add_stake a s l : (length (add_stake a s l) ≤ S (length l))%nat.
Proof. induction l as [|x l IH]; simpl; [done|]. case_decide; simpl; lia. Qed.

Lemma add_stake_sums n a s l :
  0 ≤ s ≤ 2 ^ 96 → Forall (λ x, sa_Sum x ≤ Z.of_nat n * 2 ^ 96) l →
  Forall (λ x, sa_Sum x ≤ Z.of_nat (S n) * 2 ^ 96) (add_stake a s l).
Proof.
  intros Hs. induction 1 as [|x l Hx Hl IH]; simpl; [constructor; simpl; [lia|done]|].
  case_decide; constructor; simpl; try lia; [|done].
  eapply Forall_impl; [exact Hl|]. simpl. lia.
Qed.

Lemma subtract_stake_sums n a s l r l' :
  0 ≤ s → Forall (λ x, sa_Sum x ≤ n) l → subtract_stake a s l = Ok (r, l') →
  Forall (λ x, sa_Sum x ≤ n) l'.
Proof.
  intros Hs Hl. revert r l'. induction Hl as [|x l Hx Hl IH]; intros r l' H; simpl in H; [done|].
  destruct (decide (sa_Address x = a)).
  - destruct (sa_Sum x <? s); [done|]. simplify_eq. constructor; simpl; [lia|done].
  - destruct (subtract_stake a s l) as [[r1 l1]| | |]; [|done..]. simplify_eq/=. constructor; eauto.
Qed.

Section records.
Context (bc : Blockchain) (ctx : BlockContext).

Lemma record_ok_version n v : record_ok n v → record_ok n (updateValidatorVersionBySlot bc ctx v).
Proof.
  intros Hv. unfold updateValidatorVersionBySlot. rewrite SetVersion_eq. apply record_ok_set_Ver; [done|].
  destruct (IsForkSlotValOpTracking _ _); auto.
Qed.

Lemma record_ok_deposited n from val tx v :
  0 ≤ val ≤ 2 ^ 96 → record_ok n v → record_ok (S n) (deposited bc ctx from val tx v).
Proof.
  intros Hval Hv. unfold deposited. apply record_ok_version in Hv.
  set (v1 := updateValidatorVersionBySlot bc ctx v) in *. clearbody v1.
  assert (record_ok (S n) (AddDepositTxs tx v1)) as Hv2.
  { rewrite AddDepositTxs_eq. apply record_ok_set_DepositTxs; [by eapply record_ok_mono; [|done]; lia|].
    destruct (Version v1 =? NoVer) eqn:HV; simpl; [lia|].
    etrans; [apply Uniq_length|]. rewrite length_app. unfold GetDepositTxs. rewrite HV. simpl.
    pose proof (ro_txs n v1 Hv). lia. }
  destruct Hv2. destruct Hv. rewrite AddDepositTxs_eq in *. simpl in *. split; try done; simpl.
  - apply add_stake_wf; [lia|done].
  - pose proof (length_add_stake from val (v_Stake v1)). lia.
  - by apply add_stake_sums.
Qed.

Lemma record_ok_takeStake n from s v v' :
  0 ≤ s → record_ok n v → takeStake from s v = Ok v' → record_ok n v' ∧ v_Address v' = v_Address v.
Proof.
  intros Hs Hv Ht. unfold takeStake in Ht.
  destruct (SubtractStake from s v) as [[r v1]| | |] eqn:Hsub; [|done..]. rewrite Ok_bind in Ht.
  pose proof Hsub as Hsub'. unfold SubtractStake in Hsub'.
  destruct (subtract_stake from s (v_Stake v)) as [[r1 l]| | |] eqn:Hl; [|done..]. simplify_eq/=.
  pose proof (SubtractStake_Ok _ _ _ _ _ Hsub (ro_stake n v Hv)) as (_ & _ & _ & _ & Hwf & _).
  pose proof Hl as Hl'. apply subtract_stake_Ok in Hl' as (_ & _ & _ & Hm & _).
  apply (f_equal length) in Hm. rewrite !length_map in Hm.
  assert (record_ok n (set_Stakes l v)) as Hr.
  { destruct Hv. split; try done; simpl; [lia|]. by eapply subtract_stake_sums. }
  destruct (r =? 0); [|done]. split; [|done]. destruct Hr. split; try done; simpl.
  - by apply rm_stake_wf.
  - etrans; [apply length_filter|done].
  - rewrite Forall_forall in *. intros x Hx. apply ro_sums0. by apply list_elem_of_filter in Hx as [_ ?].
Qed.
End records.

(** ** Decoded operations *)

Lemma Uint64BE_range b u : Uint64BE b = Ok u → is_u64 u.
Proof.
  unfold Uint64BE, UintBE. destruct (Nat.ltb_spec (length b) 8); [done|]. intros [= <-].
  pose proof (be_val_range (take 8 b)) as Hr. rewrite length_take_le in Hr by lia. done.
Qed.

Lemma ref_string_length_le b : (length b ≤ length (ref_string b))%nat.
Proof.
  destruct b as [|x [|y b]]; [simpl; lia| |].
  - destruct (string_cases [x]) as [(c & [= ->] & Hc)|Hb].
    + by rewrite ref_string_byte.
    + rewrite ref_string_head, length_app by done. simpl. lia.
  - pose proof (ref_string_length_ge (x :: y :: b)). simpl in *. lia.
Qed.

(** The integers of a decoded operation are in range. *)
Record sync_ranges (op : validatorSyncOperation) : Prop := {
  sr_index : is_u64 (s_index op);
  sr_epoch : is_u64 (s_procEpoch op);
  sr_amount : ∀ a, s_amount op = Some a → 0 ≤ a
}.

Lemma sync_init_ranges ver ty h ep ix cr am wa ba op :
  sync_init ver ty h ep ix cr am wa ba = Ok op → is_u64 ix → is_u64 ep →
  (∀ a, am = Some a → 0 ≤ a) → sync_ranges op.
Proof.
  intros Hi Hix Hep Ham. apply sync_init_inv in Hi as (_ & _ & _ & ->).
  destruct (ty =? UpdateBalance); by split.
Qed.

Lemma unwrap_length b ver data :
  Z.of_nat (length b) < two64 → unwrapVersionedData b = Ok (ver, data) →
  (length data ≤ length b)%nat.
Proof.
  intros Hb Hu. unfold unwrapVersionedData in Hu. apply bind_Ok in Hu as (v & Hd & Hu).
  apply DecodeBytes_ref in Hd as [Hr Ht]; [|simpl; unfold good_bits; tauto|done].
  destruct v as [| | | | | |[|[] [|[] []]]| |]; simplify_eq/=.
  unfold ref_list. rewrite !length_app. pose proof (ref_string_length_le data). simpl. lia.
Qed.

(** Takes the first field off a list of fields of known types. *)
Ltac typed_field Ht :=
  match type of Ht with
  | typed_fields _ _ ?l =>
      let x := fresh "x" in let Hx := fresh "Hx" in
      destruct l as [|x l]; [done|]; cbn [typed_fields] in Ht; destruct Ht as [Hx Ht];
      destruct x; try done; cbn [typed] in Hx
  end.

Lemma sync_Unmarshal_ranges b op :
  Z.of_nat (length b) < two64 → sync_UnmarshalBinary b = Ok op → sync_ranges op.
Proof.
  intros Hb Hu. unfold sync_UnmarshalBinary in Hu.
  destruct (unwrapVersionedData b) as [[ver data]|e| |] eqn:Hw; [| |done..].
  - apply unwrap_length in Hw; [|done]. destruct (ver =? Ver1); [|done].
    apply bind_Ok in Hu as (v & Hd & Hu).
    apply DecodeBytes_ref in Hd as [_ Ht]; [|simpl; unfold good_bits; tauto|lia].
    destruct v as [| | | | | |l| |]; try done.
    cbn [typed sync_type] in Ht. do 8 typed_field Ht. destruct l; [|done].
    eapply sync_init_ranges; [exact Hu| | |]; unfold is_u64, two64 in *; [lia|lia|].
    intros a [= <-]. lia.
  - unfold unmarshalBinaryLegacy in Hu. destruct (Nat.ltb _ _); [done|]. go_inv.
    destruct a7 as [am wa].
    apply Uint64BE_range in H3, H5. eapply sync_init_ranges; [exact Hu|done|done|].
    intros z ->. destruct (_ =? _); go_inv; [|done]. pose proof (be_val_range (drop 96 b)). lia.
Qed.

(** *** Delegated stakes *)

(** The number of addresses of rules bounds the size of a copy of them, and the size of the data
    they are decoded from bounds the number. Transactions are far smaller than [2^24] bytes. *)
Definition max_addrs : Z := 2 ^ 24.

Record delegate_small (d : DelegatingStakeData) : Prop := {
  ds_trial : is_u64 (TrialPeriod d);
  ds_rules : Z.of_nat (length (addrs (Rules d))) ≤ max_addrs;
  ds_trialRules : Z.of_nat (length (addrs (TrialRules d))) ≤ max_addrs
}.

Lemma ref_elems_length_ge t l : ∀ p, ref_elems (ref t) l = Ok p → (length l ≤ length p)%nat.
Proof.
  induction l as [|x l IH]; intros p Hp; [simpl; lia|].
  rewrite ref_elems_cons in Hp. apply bind_Ok in Hp as (b & Hb & Hp).
  apply bind_Ok in Hp as (r & Hr & Hp). injection Hp as <-. rewrite length_app.
  apply ref_ne in Hb. apply IH in Hr. destruct b; [done|]. simpl. lia.
Qed.

Lemma rules_Unmarshal_addrs b dr :
  Z.of_nat (length b) < two64 → rules_UnmarshalBinary b = Ok dr → (length (addrs dr) ≤ length b)%nat.
Proof.
  intros Hb Hu. unfold rules_UnmarshalBinary in Hu. apply bind_Ok in Hu as (v & Hd & Hu).
  apply DecodeBytes_ref in Hd as [Hr Ht]; [|simpl; tauto|done]. injection Hu as <-.
  destruct v as [| | | | | |l| |]; try done. cbn [typed rules_type] in Ht. do 5 typed_field Ht.
  destruct l; [|done]. rename l0 into xs. cbn [rules_of_value addrs]. rewrite length_map.
  cbn [ref rules_type] in Hr. apply bind_Ok in Hr as (p & Hp & [= <-]).
  rewrite ref_fields_cons in Hp. apply bind_Ok in Hp as (q & Hq & Hp).
  apply bind_Ok in Hp as (r & _ & [= <-]). cbn [ref] in Hq. apply bind_Ok in Hq as (ps & Hps & [= <-]).
  apply ref_elems_length_ge in Hps. unfold ref_list. rewrite !length_app. lia.
Qed.

Section copies.
Context `{!Bitlist}.

Lemma length_copy_bits n b : (length (copy_bits n b) ≤ S (n / 8))%nat.
Proof.
  unfold copy_bits. destruct (Nat.eqb _ _); simpl; [lia|]. by rewrite length_go_copy, NewBitlist_bytes.
Qed.

Lemma rules_Copy_size dr dr' :
  rules_Copy dr = Ok dr' →
  addrs dr' = addrs dr ∧ (vsize (rules_value dr') ≤ 56 + 32 * length (addrs dr))%nat.
Proof.
  unfold rules_Copy. destruct (_ || _); [done|]. intros [= <-]. split; [done|].
  unfold rules_value. cbn [vsize map list_sum fold_right addrs profitShare stakeShare exit withdrawal].
  rewrite !length_take.
  pose proof (length_copy_bits (length (addrs dr)) (exit dr)).
  pose proof (length_copy_bits (length (addrs dr)) (withdrawal dr)).
  pose proof (Nat.div_mod_eq (length (addrs dr)) 8).
  assert (∀ l : list Address, list_sum (map vsize (map (λ a : Address, VArray (fb a)) l)) = 29 * length l)%nat
    as Hs.
  { induction l as [|a l IH]; [done|]. cbn [map list_sum fold_right vsize length]. unfold list_sum in IH.
    rewrite IH, length_fb. lia. }
  change (fold_right Nat.add 0%nat) with list_sum. rewrite Hs. lia.
Qed.

Lemma stake_Copy_small d d' :
  delegate_small d → stake_Copy (Some d) = Ok (Some d') → delegate_small d' ∧ stake_fits d'.
Proof.
  intros [H1 H2 H3] Hc. cbn [stake_Copy] in Hc. apply bind_Ok in Hc as (r & Hr & Hc).
  apply bind_Ok in Hc as (tr & Htr & [= <-]).
  apply rules_Copy_size in Hr as [Hr Hrs], Htr as [Htr Htrs].
  split; [by split; cbn; rewrite ?Hr, ?Htr|]. split; [done|].
  cbn [Rules TrialRules]. unfold max_addrs in *. lia.
Qed.

Lemma stake_Unmarshal_small b d :
  Z.of_nat (length b) ≤ max_addrs → NewDelegatingStakeDataFromBinary b = Ok (Some d) → delegate_small d.
Proof.
  intros Hb Hu. unfold NewDelegatingStakeDataFromBinary in Hu.
  destruct (stake_UnmarshalBinary b) as [d'|e| |] eqn:Hd; try done; [|by case_decide].
  injection Hu as <-. unfold stake_UnmarshalBinary in Hd.
  destruct (Nat.ltb _ _); [by case_decide|]. apply bind_Ok in Hd as (h & _ & Hd).
  apply bind_Ok in Hd as (len & _ & Hd). destruct (_ <? _); [done|].
  apply bind_Ok in Hd as (data & Hdata & Hd). apply bind_Ok in Hd as (v & Hv & Hd).
  assert (Z.of_nat (length data) ≤ max_addrs) as Hl.
  { apply go_slice_Ok in Hdata as (_ & ->). rewrite length_take, length_drop. lia. }
  unfold max_addrs in *.
  apply DecodeBytes_ref in Hv as [Hr Ht]; [|simpl; unfold good_bits; tauto|unfold two64; lia].
  destruct v as [| | | | | |l| |]; try done. cbn [typed stake_type] in Ht. do 3 typed_field Ht.
  destruct l; [|done]. apply bind_Ok in Hd as (r & Hr1 & Hd). apply bind_Ok in Hd as (tr & Hr2 & [= <-]).
  simpl in Hr. injection Hr as <-. unfold ref_list in Hl. rewrite !length_app in Hl.
  pose proof (ref_string_length_le b0). pose proof (ref_string_length_le b1).
  apply rules_Unmarshal_addrs in Hr1, Hr2; [|unfold two64; lia..].
  split; cbn [TrialPeriod Rules TrialRules]; unfold max_addrs, is_u64, two64; lia.
Qed.

Lemma deposit_Unmarshal_small b op d :
  Z.of_nat (length b) ≤ max_addrs → deposit_UnmarshalBinary b = Ok op → d_delegate op = Some d →
  delegate_small d.
Proof.
  intros Hb Hu Hop. unfold deposit_UnmarshalBinary in Hu. destruct (Nat.ltb _ _); [done|].
  apply bind_Ok in Hu as (pk & _ & Hu). apply bind_Ok in Hu as (cr & _ & Hu).
  apply bind_Ok in Hu as (wd & _ & Hu). apply bind_Ok in Hu as (sg & _ & Hu).
  apply bind_Ok in Hu as (ds & Hds & Hu).
  assert (∀ d0, ds = Some d0 → delegate_small d0) as Hsmall.
  { intros d0 ->. destruct (Nat.ltb _ _); [|done]. apply bind_Ok in Hds as (h & _ & Hds).
    apply bind_Ok in Hds as (len & _ & Hds). destruct (_ <? _); [done|].
    apply bind_Ok in Hds as (data & Hdata & Hds). eapply stake_Unmarshal_small; [|exact Hds].
    apply go_slice_Ok in Hdata as (_ & ->). rewrite length_take, !length_drop. lia. }
  unfold deposit_init in Hu. repeat (case_decide; [done|]). destruct ds as [d0|]; [|by injection Hu as <-].
  apply bind_Ok in Hu as (cpy & Hc & Hu). apply bind_Ok in Hu as (d1 & Hd1 & Hu).
  apply deref_Ok in Hd1 as ->. apply bind_Ok in Hu as (? & _ & [= <-]). cbn [d_delegate] in Hop.
  simplify_eq. by eapply stake_Copy_small in Hc as [? _]; [|by apply Hsmall].
Qed.

Lemma depositDelegate_fits bc ctx op d :
  (∀ d0, d_delegate op = Some d0 → delegate_small d0) →
  depositDelegate bc ctx op = Ok (Some d) → stake_fits d.
Proof.
  intros Hs Hd. unfold depositDelegate, deposit_DelegatingStake in Hd.
  apply bind_Ok in Hd as (dlg & Hc & Hd). destruct dlg as [d1|]; [|done].
  destruct (negb _); [done|]. apply bind_Ok in Hd as (? & _ & Hd).
  apply bind_Ok in Hd as (d' & Hn & [= <-]). unfold NewDelegatingStakeData in Hn.
  apply bind_Ok in Hn as (? & _ & Hn). apply bind_Ok in Hn as (? & _ & Hn).
  apply bind_Ok in Hn as (? & _ & [= <-]). destruct (d_delegate op) as [d0|]; [|done].
  apply stake_Copy_small in Hc as [_ Hf]; [|by apply Hs]. by destruct d1.
Qed.
End copies.

(** ** Worlds *)

Section world.
Context `{!Bitlist, !MapRange, !SortSlice, !Crypto, !SigScheme}.
Context (bc : Blockchain) (ctx : BlockContext).
Context (sa : Address) (Hsa : ValidatorsStateAddress (config bc) = Some sa).

(** What the handlers rely on: the era of the block is a [uint64], and eras are numbered far below
    [2^64], where the [MaxUint64] of a validator that is not activated lies. *)
Record chain_ok : Prop := {
  co_era : is_u64 (ctx_Era ctx);
  co_eras : ∀ e era, bc_EpochToEra bc e = Ok (Some era) → 0 ≤ Number era < 2 ^ 63;
  co_current : ∀ k, ei_Number (bc_GetEraInfo bc) = Ok k → k < MaxUint64
}.

Lemma chain_ok_era era e :
  chain_ok → bc_EpochToEra bc e = Ok (Some era) → u64 (Number era + postpone) = Number era + 2.
Proof. intros Hco He. apply (co_eras Hco) in He. unfold postpone. rewrite u64_small; unfold is_u64, two64; lia. Qed.

Record world_ok (n : nat) (w : World) : Prop := {
  wo_list : ∃ count l, list_state sa w count l;
  wo_records : ∀ a v, a ≠ sa → GetValidator w a = Ok v →
    record_ok n v ∧ v_Address v = a ∧ stored v = v
}.

(** The invariant is about codes only. *)
Lemma world_ok_code n w w' :
  (∀ a, GetCode w' a = GetCode w a) → world_ok n w → world_ok n w'.
Proof.
  intros Hc [[count [l [Hn Hl]]] Hr]. split.
  - exists count, l. split; [done|]. by rewrite Hc.
  - intros a v Ha. unfold GetValidator. rewrite Hc. apply Hr, Ha.
Qed.

Lemma world_ok_mono n m w : (n ≤ m)%nat → world_ok n w → world_ok m w.
Proof.
  intros Hm [Hl Hr]. split; [done|]. intros a v Ha Hv. destruct (Hr a v Ha Hv) as (Ho & ? & ?).
  split_and!; [|done|done]. by eapply record_ok_mono.
Qed.

(** A change of the list does not touch the records. *)
Lemma world_ok_list n w w' count l :
  world_ok n w → list_state sa w' count l → list_update sa w w' → world_ok n w'.
Proof.
  intros [_ Hr] Hl [c ->]. split; [by exists count, l|]. intros a v Ha.
  unfold GetValidator. rewrite GetCode_SetCode, decide_False by done. by apply Hr.
Qed.

(** A record that is written. *)
Lemma world_ok_set n w v c :
  (n ≤ max_ops)%nat → world_ok n w → record_ok n v → v_Address v ≠ sa →
  validator_MarshalBinary v = Ok c → world_ok n (SetCode (v_Address v) c w).
Proof.
  intros Hn [[count [l [Hu Hl]]] Hr] Hv Ha Hc. split.
  - exists count, l. split; [done|]. by rewrite GetCode_SetCode, decide_False.
  - intros a v' Ha' Hg. unfold GetValidator in Hg. rewrite GetCode_SetCode in Hg.
    destruct (decide (v_Address v = a)) as [<-|Hne].
    + destruct (validator_roundtrip v (record_fits n v Hn Hv)) as (c' & Hm & Ht & _).
      rewrite Hc in Hm. injection Hm as <-. rewrite Ht in Hg. injection Hg as <-.
      split_and!; [by apply record_ok_stored|done|apply stored_stored].
    + apply (Hr a v' Ha'). done.
Qed.

Lemma world_ok_increment n w w' :
  world_ok n w → IncrementDepositCount (config bc) w = (Ok tt, w') → world_ok n w'.
Proof.
  intros Hw Hi. destruct (wo_list n w Hw) as (count & l & Hl).
  destruct (IncrementDepositCount_spec (config bc) sa Hsa w count l Hl) as (w2 & Hw2 & Hs & Hu).
  rewrite Hi in Hw2. injection Hw2 as <-. by eapply world_ok_list.
Qed.

Lemma world_ok_add_to_list n w w' index v :
  0 ≤ index → world_ok n w → AddValidatorToList (config bc) index v w = (Ok tt, w') → world_ok n w'.
Proof.
  intros Hi Hw Hadd. destruct (wo_list n w Hw) as (count & l & Hl).
  destruct (AddValidatorToList_spec (config bc) sa Hsa w count l index v Hl Hi) as (w2 & Hw2 & Hs & Hu).
  rewrite Hadd in Hw2. injection Hw2 as <-. destruct Hu as [->|Hu]; [done|]. by eapply world_ok_list.
Qed.

(** ** Handlers *)

Lemma deposit_amount_range val : is_u64 (val / BigGwei) → MinDepositVal ≤ val → 0 ≤ val ≤ 2 ^ 96.
Proof. unfold is_u64, two64, BigGwei, MinDepositVal. intros. dlia. Qed.

Lemma NewValidator_ok n pk cr wd dlg :
  (∀ d, dlg = Some d → stake_fits d) → record_ok n (set_Delegating dlg (NewValidator pk cr wd)).
Proof.
  intros Hd. split; simpl; try done; try lia.
  - split; [apply NoDup_nil_2|done].
  - by left.
Qed.

Lemma deposit_base_ok n w op v0 :
  world_ok n w → d_creator_address op ≠ sa →
  (∀ d, depositDelegate bc ctx op = Ok (Some d) → stake_fits d) →
  deposit_base bc ctx w op v0 → record_ok n v0 ∧ v_Address v0 = d_creator_address op.
Proof.
  intros Hw Ha Hd [[Hg _]|(e & dlg & _ & Hdlg & ->)].
  - by destruct (wo_records n w Hw _ _ Ha Hg) as (? & ? & _).
  - split; [|done]. apply NewValidator_ok. intros d ->. by apply Hd.
Qed.

Lemma validatorDeposit_inv n from toAddr value op txHash w ret w' :
  (n < max_ops)%nat → world_ok n w → d_creator_address op ≠ sa →
  (∀ d, depositDelegate bc ctx op = Ok (Some d) → stake_fits d) →
  validatorDeposit bc ctx from toAddr value op txHash w = (Ok ret, w') → world_ok (S n) w'.
Proof.
  intros Hn Hw Ha Hd Hdep.
  apply validatorDeposit_Ok in Hdep as (val & v0 & c & count & w2 & -> & Hmin & Hu & _ & _ & _ & Hb & _ & Hc
    & _ & Hi & -> & _).
  destruct (deposit_base_ok n w op v0 Hw Ha Hd Hb) as [Hr0 Ha0].
  pose proof (deposited_Address bc ctx from val txHash v0) as Hda. fold (deposited bc ctx from val txHash v0) in Hda.
  eapply world_ok_code; [intros a; apply GetCode_SubBalance|].
  eapply world_ok_increment; [|exact Hi].
  eapply world_ok_code; [intros a; apply GetCode_AddLog|]. rewrite <- Hda.
  apply world_ok_set; [lia| | |congruence|done].
  - by eapply world_ok_mono; [|exact Hw]; lia.
  - apply record_ok_deposited; [by apply deposit_amount_range|done].
Qed.

(** A handler that writes back a changed record. *)
Lemma world_ok_write n w a v v' c :
  (n ≤ max_ops)%nat → world_ok n w → a ≠ sa → GetValidator w a = Ok v →
  (record_ok n v → record_ok n v' ∧ v_Address v' = v_Address v) →
  validator_MarshalBinary v' = Ok c → world_ok n (SetCode (v_Address v) c w).
Proof.
  intros Hn Hw Ha Hg Hv' Hc. destruct (wo_records n w Hw a v Ha Hg) as (Hv & Hva & _).
  destruct (Hv' Hv) as [Ho Hva']. rewrite <- Hva'.
  apply (world_ok_set n); congruence.
Qed.

Lemma world_ok_log n w l : world_ok n w → world_ok n (AddLog l w).
Proof. apply world_ok_code. intros a. apply GetCode_AddLog. Qed.

(** The record after an exit request. *)
Definition exiting (txHash : Hash) (v : Validator) : Validator :=
  SetExitTx (Some txHash) (updateValidatorVersionBySlot bc ctx v).

Lemma exiting_ok n txHash v :
  record_ok n v → record_ok n (exiting txHash v) ∧ v_Address (exiting txHash v) = v_Address v.
Proof.
  intros Hv. unfold exiting. rewrite SetExitTx_eq. apply (record_ok_version bc ctx) in Hv.
  split; [by apply record_ok_set_ExitTx|]. unfold updateValidatorVersionBySlot. by rewrite SetVersion_eq.
Qed.

Lemma validatorExit_inv n from toAddr op txHash w ret w' :
  (n ≤ max_ops)%nat → world_ok n w → e_creatorAddress op ≠ sa →
  validatorExit bc ctx from toAddr op txHash w = (Ok ret, w') → world_ok n w'.
Proof.
  intros Hn Hw Ha He.
  apply validatorExit_Ok in He as (v & ep & era & c & _ & Hg & _ & _ & _ & _ & _ & _ & _ & Hc & -> & _).
  apply world_ok_log. eapply world_ok_write; [done|done|done|done|apply exiting_ok|exact Hc].
Qed.

Lemma requested_ok n txHash v :
  record_ok n v → record_ok n (requested bc ctx txHash v) ∧ v_Address (requested bc ctx txHash v) = v_Address v.
Proof.
  intros Hv. unfold requested. rewrite SetWithdrawalTx_eq. apply (record_ok_version bc ctx) in Hv.
  split; [by apply record_ok_set_WithdrawalTx|]. unfold updateValidatorVersionBySlot. by rewrite SetVersion_eq.
Qed.

Lemma refundRequest_ok n from amount v amount' v' :
  0 ≤ amount → record_ok n v → refundRequest bc ctx from amount v = Ok (amount', v') →
  record_ok n v' ∧ v_Address v' = v_Address v.
Proof.
  intros Ham Hv Hr. unfold refundRequest in Hr. destruct (_ =? 0); [done|].
  destruct (_ <? amount); [done|]. destruct (negb _); [|by simplify_eq].
  apply bind_Ok in Hr as (v1 & Ht & [= _ <-]). eapply record_ok_takeStake; [|done|exact Ht].
  destruct (amount =? 0); [|lia]. apply find_stake_nonneg, (ro_stake n v Hv).
Qed.

Lemma validatorWithdrawal_inv n from toAddr op txHash w ret w' :
  (n ≤ max_ops)%nat → world_ok n w → w_creatorAddress op ≠ sa → 0 ≤ w_amount op →
  validatorWithdrawal bc ctx from toAddr op txHash w = (Ok ret, w') → world_ok n w'.
Proof.
  intros Hn Hw Ha Ham He.
  apply validatorWithdrawal_Ok in He as (v & eb & am & v' & c & _ & _ & Hg & _ & _ & Hv' & Hc & -> & _).
  apply world_ok_log.
  assert (record_ok n v → record_ok n v' ∧ v_Address v' = v_Address v) as Hok.
  { intros Hv. destruct (requested_ok n txHash v Hv) as [Hr Hra]. destruct (refundable _ _).
    - rewrite <- Hra. by eapply refundRequest_ok in Hv'.
    - by destruct Hv' as (_ & _ & ->). }
  destruct (wo_records n w Hw _ _ Ha Hg) as (Hv & _). destruct (Hok Hv) as [_ ->].
  by eapply world_ok_write.
Qed.

Lemma sync_log_ok n pack sig op w w' : sync_log bc ctx pack sig op w w' → world_ok n w → world_ok n w'.
Proof.
  unfold sync_log. destruct (IsForkSlotDelegate _ _); [|by intros ->].
  intros (data & _ & ->). apply world_ok_log.
Qed.

Lemma activated_ok n op era v :
  chain_ok → is_u64 (s_index op) → bc_EpochToEra bc (s_procEpoch op) = Ok (Some era) → record_ok n v →
  record_ok n (activated bc ctx op era v) ∧ v_Address (activated bc ctx op era v) = v_Address v.
Proof.
  intros Hco Hi Hera Hv. unfold activated. apply (record_ok_version bc ctx) in Hv. unfold ResetDepositTxs. split.
  - apply record_ok_UnsetStake, record_ok_SetIndex; [|done].
    apply record_ok_SetActivationEra; [|apply is_u64_u64|].
    + apply record_ok_set_DepositTxs; [done|simpl; lia].
    + rewrite (chain_ok_era era _ Hco Hera). apply (co_eras Hco) in Hera. unfold MaxUint64, two64. lia.
  - unfold updateValidatorVersionBySlot. by rewrite SetVersion_eq.
Qed.

Lemma validatorActivate_inv n op w ret w' :
  (n ≤ max_ops)%nat → chain_ok → world_ok n w → s_creator op ≠ sa → is_u64 (s_index op) →
  validatorActivate bc ctx op w = (Ok ret, w') → world_ok n w'.
Proof.
  intros Hn Hco Hw Ha Hi He.
  apply validatorActivate_Ok in He as (v & era & c & w2 & Hg & _ & Hera & Hc & Hl & Hlog & _).
  eapply sync_log_ok; [exact Hlog|]. eapply world_ok_add_to_list; [|idtac|exact Hl]; [unfold is_u64 in Hi; lia|].
  eapply world_ok_write; [done|done|done|done|by apply activated_ok|exact Hc].
Qed.

Lemma deactivated_ok n op era v :
  chain_ok → bc_EpochToEra bc (s_procEpoch op) = Ok (Some era) →
  v_ActivationEra v < (if IsForkSlotValSyncProc (config bc) (ctx_Slot ctx) then ctx_Era ctx else Number era) →
  record_ok n v →
  record_ok n (deactivated bc ctx era v) ∧ v_Address (deactivated bc ctx era v) = v_Address v.
Proof.
  intros Hco Hera Hact Hv. unfold deactivated.
  apply (record_ok_version bc ctx) in Hv. rewrite SetExitTx_eq. split.
  - apply record_ok_SetExitEra; [by apply record_ok_set_ExitTx|apply is_u64_u64|].
    unfold updateValidatorVersionBySlot. rewrite SetVersion_eq. cbn.
    pose proof (co_era Hco) as Hce. apply (co_eras Hco) in Hera. unfold is_u64, MaxUint64, two64 in *.
    destruct (IsForkSlotValSyncProc _ _); lia.
  - unfold updateValidatorVersionBySlot. by rewrite SetVersion_eq.
Qed.

Lemma validatorDeactivate_inv n op w ret w' :
  (n ≤ max_ops)%nat → chain_ok → world_ok n w → s_creator op ≠ sa →
  validatorDeactivate bc ctx op w = (Ok ret, w') → world_ok n w'.
Proof.
  intros Hn Hco Hw Ha He.
  apply validatorDeactivate_Ok in He as (v & era & c & Hg & _ & Hera & Hact & Hc & Hlog & _).
  eapply sync_log_ok; [exact Hlog|].
  eapply world_ok_write; [done|done|done|done|by eapply deactivated_ok|exact Hc].
Qed.

Lemma settled_ok n v :
  record_ok n v → record_ok n (settled bc ctx v) ∧ v_Address (settled bc ctx v) = v_Address v.
Proof.
  intros Hv. unfold settled. rewrite SetWithdrawalTx_eq. apply (record_ok_version bc ctx) in Hv.
  split; [by apply record_ok_set_WithdrawalTx|]. unfold updateValidatorVersionBySlot. by rewrite SetVersion_eq.
Qed.

Lemma sync_Amount_nonneg op a : sync_ranges op → sync_Amount op = Some a → 0 ≤ a.
Proof.
  intros Hr. unfold sync_Amount. pose proof (sr_amount op Hr).
  destruct (s_amount op) as [x|]; [|done]. destruct (_ =? _); naive_solver.
Qed.

Lemma refundPayment_ok n op v to v' :
  sync_ranges op → record_ok n v → refundPayment bc ctx op v = Ok (to, v') →
  record_ok n v' ∧ v_Address v' = v_Address v.
Proof.
  intros Hs Hv Hr. unfold refundPayment in Hr. destruct (bc_GetTransaction _ _) as [[data from]|]; [|done].
  apply bind_Ok in Hr as (iop & _ & Hr). destruct (negb _); [done|].
  destruct (IsForkSlotValOpTracking _ _); [|by simplify_eq].
  apply bind_Ok in Hr as (a & Ha & Hr). apply deref_Ok in Ha. apply bind_Ok in Hr as (v1 & Ht & [= _ <-]).
  eapply record_ok_takeStake; [|done|exact Ht]. pose proof (sync_Amount_nonneg op a Hs Ha).
  pose proof (find_stake_nonneg from (v_Stake v)) as Hf. unfold GetStakeByAddress.
  destruct (_ <? _); [|done]. apply Hf, (ro_stake n v Hv).
Qed.

Lemma payValidator_inv n op to v w ret w' :
  (n ≤ max_ops)%nat → world_ok n w → v_Address v ≠ sa → record_ok n v →
  payValidator bc ctx op to v w = (Ok ret, w') → world_ok n w'.
Proof.
  intros Hn Hw Ha Hv Hp. apply payValidator_Ok in Hp as (c & am & Hc & _ & Hp & _).
  assert (world_ok n (AddBalance to am (SetCode (v_Address v) c w))) as Hw1.
  { eapply world_ok_code; [intros a; apply GetCode_AddBalance|]. by apply (world_ok_set n). }
  destruct (IsForkSlotDelegate _ _); [|by subst]. destruct Hp as (data & _ & ->). by apply world_ok_log.
Qed.

Lemma validatorUpdateBalance_inv n op w ret w' :
  (n ≤ max_ops)%nat → world_ok n w → s_creator op ≠ sa → sync_ranges op →
  validatorUpdateBalance bc ctx op w = (Ok ret, w') → world_ok n w'.
Proof.
  intros Hn Hw Ha Hs He. apply validatorUpdateBalance_Ok in He as (v & eb & Hg & _ & _ & He).
  destruct (wo_records n w Hw _ _ Ha Hg) as (Hv & Hva & _). destruct (settled_ok n v Hv) as [Hr Hra].
  destruct (refundable _ _).
  - destruct He as (to & v' & Hp & He). eapply refundPayment_ok in Hp as [Hv' Hva']; [|done|exact Hr].
    eapply payValidator_inv; [done|done| |exact Hv'|exact He]. congruence.
  - destruct He as [[_ He]|(_ & to & _ & He)].
    + apply applyDelegatingStakeRules_Ok in He as (tr & rules & bal & am & eb' & ss & ps & d1 & d2 & He).
      destruct (shareAmounts bal am eb') as [p q]. destruct He as (_ & _ & _ & _ & _ & _ & _ & _ & _ & -> & _).
      do 2 apply world_ok_log. eapply world_ok_code; [|exact Hw]. intros a. apply pay_code.
    + eapply payValidator_inv; [done|done| |exact Hr|exact He]. congruence.
Qed.

(** ** Calls *)

Definition op_creator (op : Operation) : Address :=
  match op with
  | OpDeposit d => d_creator_address d
  | OpSync s => s_creator s
  | OpExit e => e_creatorAddress e
  | OpWithdrawal wd => w_creatorAddress wd
  end.

Lemma handle_inv n caller toAddr value data op txHash w ret w' :
  (n < max_ops)%nat → chain_ok → world_ok n w → Z.of_nat (length data) ≤ max_addrs →
  DecodeOperation data = Ok op → op_creator op ≠ sa →
  handle bc ctx caller toAddr value op txHash w = (Ok ret, w') → world_ok (S n) w'.
Proof.
  intros Hn Hco Hw Hl Hd Ha He. unfold DecodeOperation in Hd. apply bind_Ok in Hd as (code & _ & Hd).
  assert (Z.of_nat (length (drop 2 data)) ≤ max_addrs) as Hl2 by (rewrite length_drop; lia).
  assert (world_ok n w' → world_ok (S n) w') as Hmono by (apply world_ok_mono; lia).
  assert (n ≤ max_ops)%nat as Hn' by lia.
  destruct (code =? DepositCode); [|destruct (_ || _); [|destruct (code =? ExitCode);
    [|destruct (code =? WithdrawalCode); [|done]]]];
    apply bind_Ok in Hd as (o & Ho & [= <-]); cbn [handle op_creator] in *.
  - eapply validatorDeposit_inv; [done|done|done| |exact He].
    intros d. apply depositDelegate_fits. intros d0. by eapply deposit_Unmarshal_small.
  - apply Hmono. apply sync_Unmarshal_ranges in Ho; [|unfold max_addrs, two64 in *; lia].
    unfold syncOpProcessing in He. st_inv_step He.
    destruct (_ =? ActivateCode); [eapply validatorActivate_inv; eauto using sr_index|].
    destruct (_ =? DeactivateCode); [by eapply validatorDeactivate_inv|].
    destruct (_ =? UpdateBalanceCode); [by eapply validatorUpdateBalance_inv|].
    by apply mret_inv in He as [_ ->].
  - apply Hmono. by eapply validatorExit_inv.
  - apply Hmono. eapply validatorWithdrawal_inv; [done|done|done| |exact He].
    unfold withdrawal_UnmarshalBinary in Ho. apply bind_Ok in Ho as (cr & _ & Ho).
    unfold withdrawal_init in Ho. case_decide; [done|]. cbn in Ho. injection Ho as <-. cbn.
    pose proof (be_val_range (drop 20 (drop 2 data))). lia.
Qed.

Lemma Call_inv n caller toAddr value data txHash w r w' :
  (n < max_ops)%nat → chain_ok → world_ok n w → Z.of_nat (length data) ≤ max_addrs →
  (∀ op, DecodeOperation data = Ok op → op_creator op ≠ sa) →
  Call bc ctx caller toAddr value data txHash w = (r, w') → answers r → world_ok (S n) w'.
Proof.
  intros Hn Hco Hw Hl Ha Hc Hr.
  assert (∀ x, world_ok (S n) (SetNonce caller x w)) as Hnonce.
  { intros x. eapply world_ok_code; [intros a; apply GetCode_SetNonce|].
    eapply world_ok_mono; [|exact Hw]. lia. }
  unfold Call in Hc. destruct (DecodeOperation data) as [op|e| |] eqn:Hd.
  - rewrite liftR_Ok_bind, modify_bind in Hc. unfold revertOnError in Hc.
    set (w1 := SetNonce _ _ w) in *.
    assert (world_ok n w1) as Hw1 by (eapply world_ok_code; [intros a; apply GetCode_SetNonce|done]).
    destruct (handle bc ctx caller toAddr value op txHash w1) as [[ret|e| |] w2] eqn:Hh; simplify_eq; try done.
    by eapply handle_inv; eauto.
  - rewrite liftR_Err_bind in Hc. simplify_eq. eapply world_ok_mono; [|exact Hw]. lia.
  - rewrite liftR_Panic_bind in Hc. by simplify_eq.
  - by cbv [mbind stM_bind liftR] in Hc; simplify_eq.
Qed.
End world.
