(* ===== verification/ValLife.v ===== *)
(** * The life of a validator

    Theorems about [Call]: what it leaves alone, the states that calls reach, the effect of a
    deposit, and the life cycle of a validator as an abstract machine that the calls implement. *)

From Stdlib Require Import ZArith Lia Strings.Byte.
From stdpp Require Import base tactics option numbers list gmap strings.
From S2P Require Import Prelude Common RlpEnc RlpDec Chain Era GoMap DelegRules ValOps World Hex.
From S2P Require Import TxLog DepositSig Validator ValStorage ValCache ValProcessor ValProcFacts ValInv.

(** ** Calls *)

(** A call as a transaction makes it. *)
Record Tx := MkTx {
  tx_from : Address;
  tx_to : Address;
  tx_value : option Z;
  tx_data : bytes;
  tx_hash : Hash
}.

Section calls.
Context `{!Bitlist, !MapRange, !SortSlice, !Crypto, !SigScheme}.

Definition exec (bc : Blockchain) (ctx : BlockContext) (tx : Tx) : stM World bytes :=
  Call bc ctx (tx_from tx) (tx_to tx) (tx_value tx) (tx_data tx) (tx_hash tx).

(** The world in which the handler runs: the nonce of the sender is one higher. *)
Definition bump (tx : Tx) (w : World) : World :=
  SetNonce (tx_from tx) (u64 (GetNonce w (tx_from tx) + 1)) w.

Lemma exec_cases bc ctx tx w :
  exec bc ctx tx w =
  match DecodeOperation (tx_data tx) with
  | Ok op =>
      match handle bc ctx (tx_from tx) (tx_to tx) (tx_value tx) op (tx_hash tx) (bump tx w) with
      | (Err e, _) => (Err e, bump tx w)
      | r => r
      end
  | Err e => (Err e, w)
  | Panic => (Panic, w)
  | NoFuel => (NoFuel, w)
  end.
Proof.
  unfold exec, Call. destruct (DecodeOperation (tx_data tx)) as [op|e| |]; [|reflexivity..].
  rewrite liftR_Ok_bind, modify_bind. unfold revertOnError. fold (bump tx w).
  by destruct (handle _ _ _ _ _ _ _ _) as [[]].
Qed.

Lemma exec_Ok bc ctx tx w ret w' :
  exec bc ctx tx w = (Ok ret, w') →
  ∃ op, DecodeOperation (tx_data tx) = Ok op ∧
    handle bc ctx (tx_from tx) (tx_to tx) (tx_value tx) op (tx_hash tx) (bump tx w) = (Ok ret, w').
Proof.
  rewrite exec_cases. destruct (DecodeOperation (tx_data tx)) as [op|e| |]; [|done..]. intros Hh.
  exists op. split; [done|]. by destruct (handle _ _ _ _ _ _ _ _) as [[] ?].
Qed.

(** The transactions that the invariant is about: data of a size a block can hold, and an
    operation that is not on the state address itself. The code does not check the latter: as
    long as the state address has no code, a deposit for it writes a record to the code that holds the
    list of the validators. *)
Record tx_ok (sa : Address) (tx : Tx) : Prop := {
  to_size : Z.of_nat (length (tx_data tx)) ≤ max_addrs;
  to_creator : ∀ op, DecodeOperation (tx_data tx) = Ok op → op_creator op ≠ sa
}.

(** [runs P sa n w w']: [n] calls in blocks of one network lead from [w] to [w'], in blocks with
    [P]. Chain, block and transaction are different in every step; a call that panics takes the
    node down. *)
Inductive runs (P : Blockchain → BlockContext → Prop) (sa : Address) : nat → World → World → Prop :=
| runs_done w : runs P sa 0 w w
| runs_call n w w1 bc ctx tx r w2 :
    runs P sa n w w1 → P bc ctx → ValidatorsStateAddress (config bc) = Some sa → chain_ok bc ctx →
    tx_ok sa tx → exec bc ctx tx w1 = (r, w2) → answers r → runs P sa (S n) w w2.

Lemma runs_ok P sa k n w w' :
  (k + n ≤ max_ops)%nat → world_ok sa k w → runs P sa n w w' → world_ok sa (k + n) w'.
Proof.
  intros Hn Hw. induction 1 as [|n w w1 bc ctx tx r w2 Hr IH _ Hsa Hco [Hl Ha] He Hans].
  - by rewrite Nat.add_0_r.
  - rewrite Nat.add_succ_r in *. eapply Call_inv; [exact Hsa|lia|exact Hco| |exact Hl|exact Ha|exact He|exact Hans].
    apply IH; [lia|done].
Qed.

Lemma no_code_ok sa w : (∀ a, GetCode w a = None) → world_ok sa 0 w.
Proof.
  intros Hc. split.
  - exists 0, []. split; [done|]. left. by rewrite Hc.
  - intros a v _. unfold GetValidator. by rewrite Hc.
Qed.

(** ** Reading what was written *)

Lemma GetValidator_code w w' a : GetCode w' a = GetCode w a → GetValidator w' a = GetValidator w a.
Proof. unfold GetValidator. by intros ->. Qed.

Lemma GetValidator_written n w a v c :
  (n ≤ max_ops)%nat → record_ok n v → validator_MarshalBinary v = Ok c → GetCode w a = Some c →
  GetValidator w a = Ok (stored v).
Proof.
  intros Hn Hv Hc Hg. unfold GetValidator. rewrite Hg.
  destruct (validator_roundtrip v (record_fits n v Hn Hv)) as (c' & Hm & Ht & _). congruence.
Qed.

Lemma list_state_code sa w w' k l : GetCode w' sa = GetCode w sa → list_state sa w k l → list_state sa w' k l.
Proof. unfold list_state. by intros ->. Qed.

Lemma bump_ok sa n tx w : world_ok sa n w → world_ok sa n (bump tx w).
Proof. apply world_ok_code. intros a. apply GetCode_SetNonce. Qed.

Lemma GetValidator_bump tx w a : GetValidator (bump tx w) a = GetValidator w a.
Proof. apply GetValidator_code, GetCode_SetNonce. Qed.

(** The stake of a depositor in the record of [creator], zero without a record. *)
Definition stake_of (w : World) (creator from : Address) : Z :=
  match GetValidator w creator with Ok v => GetStakeByAddress v from | _ => 0 end.
Definition total_of (w : World) (creator : Address) : Z :=
  match GetValidator w creator with Ok v => TotalStake v | _ => 0 end.

(** ** Decoded operations *)

Lemma decoded_sync_ranges data s :
  Z.of_nat (length data) ≤ max_addrs → DecodeOperation data = Ok (OpSync s) → sync_ranges s.
Proof.
  intros Hl Hd. unfold DecodeOperation in Hd. apply bind_Ok in Hd as (code & _ & Hd).
  repeat case_match; simplify_eq; go_inv; simplify_eq.
  eapply sync_Unmarshal_ranges; [|eassumption]. rewrite length_drop. unfold max_addrs, two64 in *. lia.
Qed.

Lemma decoded_amount data x : DecodeOperation data = Ok (OpWithdrawal x) → 0 ≤ w_amount x.
Proof.
  intros Hd. unfold DecodeOperation in Hd. apply bind_Ok in Hd as (code & _ & Hd).
  repeat case_match; simplify_eq; go_inv; simplify_eq.
  match goal with Hw : withdrawal_UnmarshalBinary _ = _ |- _ =>
    unfold withdrawal_UnmarshalBinary in Hw; apply bind_Ok in Hw as (cr & _ & Ho) end.
  unfold withdrawal_init in Ho. case_decide; [done|]. injection Ho as <-. cbn.
  pose proof (be_val_range (drop 20 (drop 2 data))). lia.
Qed.

Lemma decoded_delegate data op d :
  Z.of_nat (length data) ≤ max_addrs → DecodeOperation data = Ok (OpDeposit op) → d_delegate op = Some d →
  delegate_small d.
Proof.
  intros Hl Hd. unfold DecodeOperation in Hd. apply bind_Ok in Hd as (code & _ & Hd).
  repeat case_match; simplify_eq; go_inv; simplify_eq.
  eapply deposit_Unmarshal_small; [|eassumption]. rewrite length_drop. lia.
Qed.

(** ** Deposits *)

Section deposits.
Context (bc : Blockchain) (ctx : BlockContext).
Context (sa : Address) (Hsa : ValidatorsStateAddress (config bc) = Some sa).

(** The record of a deposit in terms of the record before. *)
Lemma deposit_base_facts n w op v0 :
  world_ok sa n w → d_creator_address op ≠ sa → deposit_base bc ctx w op v0 →
  v_PubKey v0 = d_pubkey op ∧ v_ActivationEra v0 = MaxUint64 ∧
  TotalStake v0 = total_of w (d_creator_address op) ∧
  (∀ a, GetStakeByAddress v0 a = stake_of w (d_creator_address op) a) ∧ v_Address v0 = d_creator_address op.
Proof.
  intros Hw Ha [[Hg Hck]|(e & dlg & Hg & _ & ->)]; unfold total_of, stake_of; rewrite Hg; [|done].
  unfold checkDeposit in Hck. destruct (Z.ltb_spec (v_ActivationEra v0) MaxUint64); [done|].
  case_decide as Hpk; [done|].
  destruct (wo_records sa n w Hw _ _ Ha Hg) as (Hr & Hva & _). pose proof (ro_activation n v0 Hr).
  split_and!; try done. unfold is_u64, MaxUint64, two64 in *. lia.
Qed.

Lemma deposited_facts n from val txHash v0 :
  0 ≤ val → record_ok n v0 →
  let v := stored (deposited bc ctx from val txHash v0) in
  v_PubKey v = v_PubKey v0 ∧ v_ActivationEra v = v_ActivationEra v0 ∧ v_ExitEra v = v_ExitEra v0 ∧
  TotalStake v = TotalStake v0 + val ∧
  (∀ a, GetStakeByAddress v a = GetStakeByAddress v0 a + if decide (a = from) then val else 0) ∧
  v_Address v = v_Address v0 ∧ v_Index v = v_Index v0 ∧ v_WithdrawalAddress v = v_WithdrawalAddress (stored v0) ∧
  v_DelegatingStake v = v_DelegatingStake v0.
Proof.
  intros Hval Hv. unfold deposited, updateValidatorVersionBySlot, AddStake.
  rewrite AddDepositTxs_eq, SetVersion_eq. cbv zeta. rewrite !TotalStake_eq. cbn. split_and!; try done.
  - apply add_stake_total.
  - intros a. unfold GetStakeByAddress. cbn. rewrite find_stake_add. by repeat case_decide; subst.
Qed.

Lemma deposit_Ok n tx op w ret w' :
  (n < max_ops)%nat → world_ok sa n w → tx_ok sa tx → DecodeOperation (tx_data tx) = Ok (OpDeposit op) →
  exec bc ctx tx w = (Ok ret, w') →
  let creator := d_creator_address op in
  ∃ val v v0 count l,
    tx_value tx = Some val ∧ MinDepositVal ≤ val ≤ GetBalance w (tx_from tx) ∧ is_u64 (val / BigGwei) ∧
    FillBytes 32 val = Ok ret ∧ deposit_base bc ctx w op v0 ∧ record_ok n v0 ∧
    v = deposited bc ctx (tx_from tx) val (tx_hash tx) v0 ∧
    list_state sa w count l ∧ list_state sa w' (u64 (count + 1)) l ∧
    GetValidator w' creator = Ok (stored v) ∧
    (∀ a, a ≠ creator → a ≠ sa → GetCode w' a = GetCode w a) ∧
    (∀ a, GetBalance w' a = GetBalance w a - if decide (a = tx_from tx) then val else 0) ∧
    logs w' = logs w ++ [MkLog sa [EvtDepositLogSignature]
      (PackDepositLogData (d_pubkey op) creator (d_withdrawal_address op) (Some val) (d_signature op) count)].
Proof.
  intros Hn Hw [Hsize Hcr] Hd He creator. apply exec_Ok in He as (op' & Hd' & He).
  rewrite Hd in Hd'. injection Hd' as <-. cbn [handle] in He.
  apply validatorDeposit_Ok in He as (val & v0 & c & count & w2 & Hv & Hmin & Hu & Hbal & Hto & _ & Hb & _ & Hc
    & Hcount & Hi & -> & Hret).
  specialize (Hcr _ Hd). cbn [op_creator] in Hcr. pose proof (bump_ok sa n tx w Hw) as Hw1.
  assert (deposit_base bc ctx w op v0) as Hb'.
  { destruct Hb as [[Hg ?]|(e & dlg & Hg & ?)]; rewrite GetValidator_bump in Hg; [by left|].
    right. by exists e, dlg. }
  assert (record_ok n v0 ∧ v_Address v0 = creator) as [Hr0 Ha0].
  { eapply deposit_base_ok; [exact Hw|exact Hcr| |exact Hb'].
    intros d. apply depositDelegate_fits. intros d0. by eapply decoded_delegate. }
  rewrite Ha0 in *. destruct (wo_list sa n w Hw) as (count' & l & Hl).
  assert (list_state sa (SetCode creator c (bump tx w)) count' l) as Hl1.
  { eapply list_state_code; [|exact Hl]. unfold bump. autorewrite with world. by rewrite decide_False. }
  rewrite (GetDepositCount_spec _ _ Hsa _ _ _ Hl1) in Hcount. injection Hcount as <-.
  edestruct (IncrementDepositCount_spec (config bc) sa Hsa) as (w3 & Hw3 & Hl3 & [code Hc3]).
  { eapply list_state_code; [apply GetCode_AddLog|exact Hl1]. }
  rewrite Hi in Hw3. injection Hw3 as <-.
  assert (tx_to tx = sa) as Hto'.
  { rewrite Hto. unfold GetValidatorsStateAddress. by rewrite Hsa. }
  pose proof (record_ok_deposited bc ctx n (tx_from tx) val (tx_hash tx) v0
    ltac:(by apply deposit_amount_range) Hr0) as Hr.
  exists val, (deposited bc ctx (tx_from tx) val (tx_hash tx) v0), v0, count', l.
  rewrite Hto' in *. unfold bump in *. autorewrite with world in Hbal. split_and!; try done.
  - eapply list_state_code; [apply GetCode_SubBalance|exact Hl3].
  - eapply GetValidator_written; [|exact Hr|exact Hc|]; [lia|].
    subst w2. autorewrite with world. by rewrite decide_False, decide_True.
  - intros a Ha Hna. subst w2. autorewrite with world. by rewrite !decide_False.
  - intros a. subst w2. autorewrite with world. repeat case_decide; subst; try done; lia.
  - subst w2. by autorewrite with world.
Qed.
End deposits.

(** ** The life cycle *)

(** What the protocol knows about an address: no validator, deposits that wait for the activation,
    a validator that works from an era on, and one that works until an era. *)
Inductive life :=
| Absent
| Pending
| Active (from : Z)
| Leaving (from until : Z).

Definition life_of_record (v : Validator) : life :=
  if v_ActivationEra v =? MaxUint64 then Pending
  else if v_ExitEra v =? MaxUint64 then Active (v_ActivationEra v)
  else Leaving (v_ActivationEra v) (v_ExitEra v).

Definition life_of (w : World) (a : Address) : life :=
  match GetValidator w a with Ok v => life_of_record v | _ => Absent end.

(** The block is after the fork that tracks operations. *)
Definition tracked (bc : Blockchain) (ctx : BlockContext) : bool := IsForkSlotValOpTracking (config bc) (ctx_Slot ctx).

(** The steps of the abstract machine, with the operation that makes them. Before the fork that
    tracks operations, a validator can be activated again, and the new era replaces the old one. *)
Inductive life_step (bc : Blockchain) (tracked : bool) : Operation → life → life → Prop :=
| ls_first_deposit d : life_step bc tracked (OpDeposit d) Absent Pending
| ls_deposit d : life_step bc tracked (OpDeposit d) Pending Pending
| ls_activate s era :
    sync_OpCode s = ActivateCode → bc_EpochToEra bc (s_procEpoch s) = Ok (Some era) →
    life_step bc tracked (OpSync s) Pending (Active (Number era + 2))
| ls_reactivate s era from : tracked = false →
    sync_OpCode s = ActivateCode → bc_EpochToEra bc (s_procEpoch s) = Ok (Some era) →
    life_step bc tracked (OpSync s) (Active from) (Active (Number era + 2))
| ls_reactivate_leaving s era from until : tracked = false →
    sync_OpCode s = ActivateCode → bc_EpochToEra bc (s_procEpoch s) = Ok (Some era) →
    life_step bc tracked (OpSync s) (Leaving from until) (Leaving (Number era + 2) until)
| ls_deactivate s era from :
    sync_OpCode s = DeactivateCode → bc_EpochToEra bc (s_procEpoch s) = Ok (Some era) →
    life_step bc tracked (OpSync s) (Active from) (Leaving from (Number era + 2))
| ls_payment s l : sync_OpCode s = UpdateBalanceCode → l ≠ Absent → life_step bc tracked (OpSync s) l l
| ls_unknown s l : sync_OpCode s = 0 → life_step bc tracked (OpSync s) l l
| ls_exit e from : life_step bc tracked (OpExit e) (Active from) (Active from)
| ls_withdrawal x l : l ≠ Absent → life_step bc tracked (OpWithdrawal x) l l.

Lemma life_of_stored v : life_of_record (stored v) = life_of_record v.
Proof. done. Qed.

Lemma life_of_code w w' a : GetCode w' a = GetCode w a → life_of w' a = life_of w a.
Proof. intros Hc. unfold life_of. by rewrite (GetValidator_code w w'). Qed.

(** Only the code of [a] and of the state address changed, and [a] has the record [v]. *)
Definition rewrote (sa : Address) (w w' : World) (a : Address) (v : Validator) : Prop :=
  GetValidator w' a = Ok (stored v) ∧ ∀ b, b ≠ a → b ≠ sa → GetCode w' b = GetCode w b.

Lemma rewrote_intro sa n w w' a v c :
  (n ≤ max_ops)%nat → record_ok n v → validator_MarshalBinary v = Ok c → a ≠ sa →
  (∀ b, b ≠ sa → GetCode w' b = if decide (a = b) then Some c else GetCode w b) → rewrote sa w w' a v.
Proof.
  intros Hn Hv Hc Ha Hw'. split.
  - eapply GetValidator_written; [done|done|done|]. by rewrite Hw', decide_True.
  - intros b Hb Hs. by rewrite Hw', decide_False.
Qed.

Lemma sync_log_code bc ctx pack sig op w w' a :
  sync_log bc ctx pack sig op w w' → GetCode w' a = GetCode w a.
Proof.
  unfold sync_log. destruct (IsForkSlotDelegate _ _); [|by intros ->].
  intros (data & _ & ->). apply GetCode_AddLog.
Qed.

(** Taking a stake changes nothing but the stakes. *)
Lemma takeStake_eq from am v v' : takeStake from am v = Ok v' → ∃ l, v' = set_Stakes l v.
Proof.
  unfold takeStake, SubtractStake. destruct (subtract_stake _ _ _) as [[r l]| | |]; [|done..].
  cbn. destruct (r =? 0); intros [= <-]; by eexists.
Qed.

Lemma refundRequest_life bc ctx from am v am' v' :
  refundRequest bc ctx from am v = Ok (am', v') → life_of_record v' = life_of_record v.
Proof.
  unfold refundRequest. destruct (_ =? 0); [done|]. destruct (_ <? am); [done|].
  destruct (negb _); [|by intros [= _ <-]]. intros Hr. apply bind_Ok in Hr as (v1 & Ht & [= _ <-]).
  by apply takeStake_eq in Ht as [l ->].
Qed.

Lemma refundPayment_life bc ctx op v to v' :
  refundPayment bc ctx op v = Ok (to, v') → life_of_record v' = life_of_record v.
Proof.
  unfold refundPayment. destruct (bc_GetTransaction _ _) as [[data from]|]; [|done]. intros Hr.
  apply bind_Ok in Hr as (iop & _ & Hr). destruct (negb _); [done|].
  destruct (IsForkSlotValOpTracking _ _); [|by injection Hr as _ <-].
  apply bind_Ok in Hr as (a & Ha & Hr). apply bind_Ok in Hr as (v1 & Ht & [= _ <-]).
  by apply takeStake_eq in Ht as [l ->].
Qed.

Section life.
Context (bc : Blockchain) (ctx : BlockContext).
Context (sa : Address) (Hsa : ValidatorsStateAddress (config bc) = Some sa).

(** The record that each operation leaves behind. *)
Lemma exit_rewrote n from toAddr op txHash w ret w' :
  (n ≤ max_ops)%nat → world_ok sa n w → e_creatorAddress op ≠ sa →
  validatorExit bc ctx from toAddr op txHash w = (Ok ret, w') →
  ∃ v era, GetValidator w (e_creatorAddress op) = Ok v ∧ ei_Number (bc_GetEraInfo bc) = Ok era ∧
    v_ActivationEra v ≤ era ∧ v_ExitEra v = MaxUint64 ∧
    rewrote sa w w' (e_creatorAddress op) (exiting bc ctx txHash v).
Proof.
  intros Hn Hw Ha He.
  apply validatorExit_Ok in He as (v & ep & era & c & _ & Hg & _ & _ & Hera & Hact & Hex & _ & _ & Hc & -> & _).
  exists v, era. split_and!; try done. destruct (wo_records sa n w Hw _ _ Ha Hg) as (Hv & Hva & _).
  eapply rewrote_intro; [done|by apply exiting_ok|exact Hc|done|].
  intros b _. autorewrite with world. by rewrite Hva.
Qed.

Lemma withdrawal_rewrote n from toAddr op txHash w ret w' :
  (n ≤ max_ops)%nat → world_ok sa n w → w_creatorAddress op ≠ sa → 0 ≤ w_amount op →
  validatorWithdrawal bc ctx from toAddr op txHash w = (Ok ret, w') →
  ∃ v v', GetValidator w (w_creatorAddress op) = Ok v ∧ life_of_record v' = life_of_record v ∧
    rewrote sa w w' (w_creatorAddress op) v'.
Proof.
  intros Hn Hw Ha Ham He.
  apply validatorWithdrawal_Ok in He as (v & eb & am & v' & c & _ & _ & Hg & _ & _ & Hv' & Hc & -> & _).
  destruct (wo_records sa n w Hw _ _ Ha Hg) as (Hv & Hva & _).
  destruct (requested_ok bc ctx n txHash v Hv) as [Hr Hra].
  assert (record_ok n v' ∧ v_Address v' = v_Address (requested bc ctx txHash v) ∧
          life_of_record v' = life_of_record (requested bc ctx txHash v)) as (Hv1 & Hv2 & Hv3).
  { destruct (refundable _ _); [|destruct Hv' as (_ & _ & ->); by split_and!].
    destruct (refundRequest_ok bc ctx n _ _ _ _ _ Ham Hr Hv') as [? ?]. split_and!; try done.
    by eapply refundRequest_life. }
  exists v, v'. split_and!; [done| |].
  - rewrite Hv3. unfold requested, updateValidatorVersionBySlot. by rewrite SetWithdrawalTx_eq, SetVersion_eq.
  - eapply rewrote_intro; [done|done|exact Hc|done|]. intros b _. autorewrite with world. by rewrite Hv2, Hra, Hva.
Qed.

Lemma activate_rewrote n op w ret w' :
  (n ≤ max_ops)%nat → chain_ok bc ctx → world_ok sa n w → s_creator op ≠ sa → is_u64 (s_index op) →
  validatorActivate bc ctx op w = (Ok ret, w') →
  ∃ v era, GetValidator w (s_creator op) = Ok v ∧ bc_EpochToEra bc (s_procEpoch op) = Ok (Some era) ∧
    (IsForkSlotValOpTracking (config bc) (ctx_Slot ctx) = true → v_ActivationEra v = MaxUint64) ∧
    rewrote sa w w' (s_creator op) (activated bc ctx op era v).
Proof.
  intros Hn Hco Hw Ha Hi He.
  apply validatorActivate_Ok in He as (v & era & c & w2 & Hg & Hfork & Hera & Hc & Hl & Hlog & _).
  exists v, era. split_and!; try done. destruct (wo_records sa n w Hw _ _ Ha Hg) as (Hv & Hva & _).
  eapply rewrote_intro; [done|by eapply activated_ok|exact Hc|done|].
  intros b Hb. rewrite (sync_log_code bc ctx _ _ _ _ _ b Hlog).
  destruct (wo_list sa n w Hw) as (k & l & Hls).
  edestruct (AddValidatorToList_spec (config bc) sa Hsa) as (w3 & Hw3 & _ & Hu).
  { eapply (list_state_code sa w (SetCode (v_Address v) c w)); [|exact Hls].
    rewrite GetCode_SetCode, decide_False; [done|congruence]. }
  { apply Hi. }
  rewrite Hl in Hw3. injection Hw3 as <-. rewrite <- Hva.
  destruct Hu as [->|[x ->]]; autorewrite with world; [done|]. by rewrite (decide_False (P := sa = b)) by congruence.
Qed.

Lemma deactivate_rewrote n op w ret w' :
  (n ≤ max_ops)%nat → chain_ok bc ctx → world_ok sa n w → s_creator op ≠ sa →
  validatorDeactivate bc ctx op w = (Ok ret, w') →
  ∃ v era, GetValidator w (s_creator op) = Ok v ∧ bc_EpochToEra bc (s_procEpoch op) = Ok (Some era) ∧
    v_ActivationEra v < MaxUint64 ∧ v_ExitEra v = MaxUint64 ∧
    rewrote sa w w' (s_creator op) (deactivated bc ctx era v).
Proof.
  intros Hn Hco Hw Ha He.
  apply validatorDeactivate_Ok in He as (v & era & c & Hg & Hex & Hera & Hact & Hc & Hlog & _).
  exists v, era. destruct (wo_records sa n w Hw _ _ Ha Hg) as (Hv & Hva & _). split_and!; try done.
  - pose proof (co_era bc ctx Hco) as Hce. apply (co_eras bc ctx Hco) in Hera.
    unfold is_u64, MaxUint64, two64 in *. destruct (IsForkSlotValSyncProc _ _); lia.
  - eapply rewrote_intro; [done|by eapply deactivated_ok|exact Hc|done|].
    intros b _. rewrite (sync_log_code bc ctx _ _ _ _ _ b Hlog). by rewrite GetCode_SetCode, Hva.
Qed.

Lemma payment_life n op w ret w' :
  (n ≤ max_ops)%nat → world_ok sa n w → s_creator op ≠ sa → sync_ranges op →
  validatorUpdateBalance bc ctx op w = (Ok ret, w') →
  life_of w (s_creator op) ≠ Absent ∧ life_of w' (s_creator op) = life_of w (s_creator op) ∧
  ∀ b, b ≠ s_creator op → GetCode w' b = GetCode w b.
Proof.
  intros Hn Hw Ha Hs He. apply validatorUpdateBalance_Ok in He as (v & eb & Hg & _ & _ & He).
  destruct (wo_records sa n w Hw _ _ Ha Hg) as (Hv & Hva & _). destruct (settled_ok bc ctx n v Hv) as [Hr Hra].
  assert (life_of_record (settled bc ctx v) = life_of_record v) as Hls.
  { unfold settled, updateValidatorVersionBySlot. by rewrite SetWithdrawalTx_eq, SetVersion_eq. }
  assert (life_of w (s_creator op) = life_of_record v) as Hlv by (unfold life_of; by rewrite Hg).
  assert (∀ v1 to, record_ok n v1 → v_Address v1 = s_creator op → life_of_record v1 = life_of_record v →
    payValidator bc ctx op to v1 w = (Ok ret, w') →
    life_of w' (s_creator op) = life_of_record v ∧ ∀ b, b ≠ s_creator op → GetCode w' b = GetCode w b) as Hpay.
  { intros v1 to Hv1 Ha1 Hl1 Hp. apply payValidator_Ok in Hp as (c & am & Hc & _ & Hp & _).
    assert (∀ b, GetCode w' b = if decide (s_creator op = b) then Some c else GetCode w b) as Hcode.
    { intros b. rewrite <- Ha1. destruct (IsForkSlotDelegate _ _).
      - destruct Hp as (data & _ & ->). by autorewrite with world.
      - subst w'. by autorewrite with world. }
    split; [|intros b Hb; by rewrite Hcode, decide_False]. unfold life_of.
    rewrite (GetValidator_written n w' (s_creator op) v1 c) by (done || by rewrite Hcode, decide_True). done. }
  rewrite Hlv. split; [unfold life_of_record; by repeat case_match|]. destruct (refundable _ _).
  - destruct He as (to & v' & Hp & He). destruct (refundPayment_ok bc ctx n op _ to v' Hs Hr Hp) as [Hv' Hva'].
    apply refundPayment_life in Hp. eapply Hpay; [exact Hv'|congruence|congruence|exact He].
  - destruct He as [[_ He]|(_ & to & _ & He)].
    + apply applyDelegatingStakeRules_Ok in He as (tr & rules & bal & am & eb' & ss & ps & d1 & d2 & He).
      destruct (shareAmounts bal am eb') as [p q]. destruct He as (_ & _ & _ & _ & _ & _ & _ & _ & _ & -> & _).
      rewrite <- Hlv. split; [apply life_of_code|intros b _]; by autorewrite with world.
    + eapply Hpay; [exact Hr|congruence|done|exact He].
Qed.

Lemma deposit_life n tx op w ret w' :
  (n < max_ops)%nat → world_ok sa n w → tx_ok sa tx → DecodeOperation (tx_data tx) = Ok (OpDeposit op) →
  exec bc ctx tx w = (Ok ret, w') →
  life_step bc (tracked bc ctx) (OpDeposit op) (life_of w (d_creator_address op)) (life_of w' (d_creator_address op)) ∧
  ∀ b, b ≠ d_creator_address op → b ≠ sa → GetCode w' b = GetCode w b.
Proof.
  intros Hn Hw Htx Hd He.
  destruct (deposit_Ok bc ctx sa Hsa n tx op w ret w' Hn Hw Htx Hd He)
    as (val & v & v0 & k & l & _ & [Hmin _] & _ & _ & Hb & Hr0 & -> & _ & _ & Hg & Hc & _).
  split; [|done]. pose proof (to_creator sa tx Htx _ Hd) as Hcr. cbn [op_creator] in Hcr.
  destruct (deposit_base_facts bc ctx sa n w op v0 Hw Hcr Hb) as (_ & Hact & _).
  destruct (deposited_facts bc ctx n (tx_from tx) val (tx_hash tx) v0) as (_ & Hact' & _); [|done|].
  { unfold MinDepositVal in Hmin. lia. }
  assert (life_of w' (d_creator_address op) = Pending) as ->.
  { unfold life_of. rewrite Hg. unfold life_of_record. by rewrite Hact', Hact, Z.eqb_refl. }
  destruct Hb as [[Hg0 _]|(e & dlg & Hg0 & _)]; unfold life_of; rewrite Hg0; [|constructor].
  unfold life_of_record. rewrite Hact, Z.eqb_refl. constructor.
Qed.

(** The lives of records whose eras are known. *)
Lemma life_of_Ok w a v : GetValidator w a = Ok v → life_of w a = life_of_record v.
Proof. unfold life_of. by intros ->. Qed.

Lemma rewrote_life w w' a v : rewrote sa w w' a v → life_of w' a = life_of_record v.
Proof. intros [Hg _]. by rewrite (life_of_Ok _ _ _ Hg), life_of_stored. Qed.

Lemma life_not_absent v : life_of_record v ≠ Absent.
Proof. unfold life_of_record. by repeat case_match. Qed.

Lemma activated_life op era v :
  chain_ok bc ctx → bc_EpochToEra bc (s_procEpoch op) = Ok (Some era) →
  life_of_record (activated bc ctx op era v) =
    if v_ExitEra v =? MaxUint64 then Active (Number era + 2) else Leaving (Number era + 2) (v_ExitEra v).
Proof.
  intros Hco Hera. unfold activated, life_of_record, updateValidatorVersionBySlot, ResetDepositTxs.
  rewrite SetVersion_eq, (chain_ok_era bc ctx era _ Hco Hera). cbn.
  apply (co_eras bc ctx Hco) in Hera. destruct (Z.eqb_spec (Number era + 2) MaxUint64) as [He|]; [|done].
  unfold MaxUint64 in He. lia.
Qed.

Lemma deactivated_life op era v :
  chain_ok bc ctx → bc_EpochToEra bc (s_procEpoch op) = Ok (Some era) → v_ActivationEra v < MaxUint64 →
  life_of_record (deactivated bc ctx era v) = Leaving (v_ActivationEra v) (Number era + 2).
Proof.
  intros Hco Hera Hact. unfold deactivated, life_of_record, updateValidatorVersionBySlot.
  rewrite SetExitTx_eq, SetVersion_eq, (chain_ok_era bc ctx era _ Hco Hera). cbn.
  destruct (Z.eqb_spec (v_ActivationEra v) MaxUint64); [lia|].
  apply (co_eras bc ctx Hco) in Hera. destruct (Z.eqb_spec (Number era + 2) MaxUint64) as [He|]; [|done].
  unfold MaxUint64 in He. lia.
Qed.

Lemma exit_life n from toAddr op txHash w ret w' :
  (n ≤ max_ops)%nat → chain_ok bc ctx → world_ok sa n w → e_creatorAddress op ≠ sa →
  validatorExit bc ctx from toAddr op txHash w = (Ok ret, w') →
  life_step bc (tracked bc ctx) (OpExit op) (life_of w (e_creatorAddress op)) (life_of w' (e_creatorAddress op)) ∧
  ∀ b, b ≠ e_creatorAddress op → b ≠ sa → GetCode w' b = GetCode w b.
Proof.
  intros Hn Hco Hw Ha He.
  destruct (exit_rewrote n _ _ _ _ _ _ _ Hn Hw Ha He) as (v & era & Hg & Hera & Hact & Hex & Hrw).
  split; [|apply Hrw]. rewrite (rewrote_life _ _ _ _ Hrw), (life_of_Ok _ _ _ Hg).
  apply (co_current bc ctx Hco) in Hera.
  assert (life_of_record (exiting bc ctx txHash v) = life_of_record v) as ->.
  { unfold exiting, updateValidatorVersionBySlot. by rewrite SetExitTx_eq, SetVersion_eq. }
  unfold life_of_record. rewrite Hex, Z.eqb_refl. destruct (Z.eqb_spec (v_ActivationEra v) MaxUint64); [lia|].
  constructor.
Qed.

Lemma sync_life n op txHash w ret w' :
  (n ≤ max_ops)%nat → chain_ok bc ctx → world_ok sa n w → s_creator op ≠ sa → sync_ranges op →
  syncOpProcessing bc ctx op txHash w = (Ok ret, w') →
  life_step bc (tracked bc ctx) (OpSync op) (life_of w (s_creator op)) (life_of w' (s_creator op)) ∧
  ∀ b, b ≠ s_creator op → b ≠ sa → GetCode w' b = GetCode w b.
Proof.
  intros Hn Hco Hw Ha Hs He. unfold syncOpProcessing in He. st_inv_step He.
  destruct (Z.eqb_spec (sync_OpCode op) ActivateCode).
  { destruct (activate_rewrote n _ _ _ _ Hn Hco Hw Ha (sr_index op Hs) He) as (v & era & Hg & Hera & Hact & Hrw).
    split; [|apply Hrw]. destruct (wo_records sa n w Hw _ _ Ha Hg) as (Hv & _).
    rewrite (rewrote_life _ _ _ _ Hrw), (activated_life _ _ _ Hco Hera), (life_of_Ok _ _ _ Hg). unfold life_of_record.
    destruct (Z.eqb_spec (v_ActivationEra v) MaxUint64) as [Hp|Hp].
    { rewrite (ro_order n v Hv Hp), Z.eqb_refl. by apply ls_activate. }
    assert (tracked bc ctx = false) as -> by (unfold tracked; destruct (IsForkSlotValOpTracking _ _); [by destruct Hp; apply Hact|done]).
    destruct (Z.eqb_spec (v_ExitEra v) MaxUint64); [by apply ls_reactivate|by apply ls_reactivate_leaving]. }
  destruct (Z.eqb_spec (sync_OpCode op) DeactivateCode).
  { destruct (deactivate_rewrote n _ _ _ _ Hn Hco Hw Ha He) as (v & era & Hg & Hera & Hact & Hex & Hrw).
    split; [|apply Hrw].
    rewrite (rewrote_life _ _ _ _ Hrw), (deactivated_life _ _ _ Hco Hera Hact), (life_of_Ok _ _ _ Hg).
    unfold life_of_record. rewrite Hex, Z.eqb_refl.
    destruct (Z.eqb_spec (v_ActivationEra v) MaxUint64); [lia|]. by constructor. }
  destruct (Z.eqb_spec (sync_OpCode op) UpdateBalanceCode).
  { destruct (payment_life n _ _ _ _ Hn Hw Ha Hs He) as (Hna & -> & Hc). split; [by constructor|auto]. }
  apply mret_inv in He as [_ ->]. split; [|done]. apply ls_unknown. unfold sync_OpCode in *.
  destruct (_ =? Activate); [done|]. destruct (_ =? Deactivate); [done|]. by destruct (_ =? UpdateBalance).
Qed.

Lemma exec_life n tx w ret w' :
  (n < max_ops)%nat → chain_ok bc ctx → world_ok sa n w → tx_ok sa tx → exec bc ctx tx w = (Ok ret, w') →
  ∃ op, DecodeOperation (tx_data tx) = Ok op ∧
    life_step bc (tracked bc ctx) op (life_of w (op_creator op)) (life_of w' (op_creator op)) ∧
    ∀ b, b ≠ op_creator op → b ≠ sa → GetCode w' b = GetCode w b.
Proof.
  intros Hn Hco Hw Htx He. destruct (exec_Ok bc ctx tx w ret w' He) as (op & Hd & Hh).
  exists op. split; [done|]. pose proof (bump_ok sa n tx w Hw) as Hw1.
  assert (n ≤ max_ops)%nat as Hn' by lia. pose proof (to_creator sa tx Htx op Hd) as Hcr.
  assert (∀ b, GetCode (bump tx w) b = GetCode w b) as Hb by (intros b; apply GetCode_SetNonce).
  rewrite <- (life_of_code w (bump tx w)) by apply Hb. setoid_rewrite <- Hb.
  destruct op as [d|s|e|x]; cbn [op_creator handle] in *.
  - rewrite (life_of_code w (bump tx w)) by apply Hb. setoid_rewrite Hb. by eapply deposit_life.
  - eapply sync_life; try done. eapply decoded_sync_ranges; [apply Htx|exact Hd].
  - by eapply exit_life.
  - destruct (withdrawal_rewrote n _ _ _ _ _ _ _ Hn' Hw1 Hcr (decoded_amount _ _ Hd) Hh) as (v & v' & Hg & Hl & Hrw).
    split; [|apply Hrw]. rewrite (rewrote_life _ _ _ _ Hrw), Hl, (life_of_Ok _ _ _ Hg).
    constructor. apply life_not_absent.
Qed.
End life.

(** ** Calls over time *)

(** A call that fails changes no code. *)
Lemma exec_Err_code bc ctx tx w e w' a : exec bc ctx tx w = (Err e, w') → GetCode w' a = GetCode w a.
Proof.
  rewrite exec_cases. destruct (DecodeOperation (tx_data tx)) as [op|e'| |]; [|by intros [= _ <-]|done..].
  destruct (handle _ _ _ _ _ _ _ _) as [[] ?]; intros [= _ <-]. apply GetCode_SetNonce.
Qed.

(** Where a life can go; after the fork, with [t], the era of the activation stays. *)
Definition life_after (t : bool) (l l' : life) : Prop :=
  match l with
  | Absent => True
  | Pending => l' ≠ Absent
  | Active e => ∃ e', (t = true → e' = e) ∧ (l' = Active e' ∨ ∃ x, l' = Leaving e' x)
  | Leaving e x => ∃ e', (t = true → e' = e) ∧ l' = Leaving e' x
  end.

#[global] Instance life_after_refl t : Reflexive (life_after t).
Proof. intros []; simpl; eauto. Qed.
#[global] Instance life_after_trans t : Transitive (life_after t).
Proof.
  intros l1 l2 l3 Ha Hb. destruct l1 as [| |e|e x]; simpl in *; [done|destruct l2; naive_solver|..].
  - destruct Ha as (e1 & He1 & [->|[x ->]]); destruct Hb as (e2 & He2 & Hb); exists e2; (split; [by intros Ht; rewrite He2, He1|]); eauto.
  - destruct Ha as (e1 & He1 & ->), Hb as (e2 & He2 & Hb). exists e2. split; [by intros Ht; rewrite He2, He1|done].
Qed.

Lemma life_step_after bc t op l l' : life_step bc t op l l' → life_after t l l'.
Proof. destruct 1; try (by apply life_after_refl); simpl; try done; eexists; (split; [|by eauto]); congruence. Qed.

Lemma life_after_mono t t' l l' : (t' = true → t = true) → life_after t l l' → life_after t' l l'.
Proof. intros Ht. destruct l; simpl; [done|done|..]; intros (e' & He & Hl); eauto 6. Qed.

Definition forked (bc : Blockchain) (ctx : BlockContext) : Prop := tracked bc ctx = true.

Lemma runs_life P t sa k n w w' a : (∀ bc ctx, P bc ctx → t = true → forked bc ctx) →
  (k + n ≤ max_ops)%nat → world_ok sa k w → a ≠ sa → runs P sa n w w' →
  life_after t (life_of w a) (life_of w' a).
Proof.
  intros Ht Hn Hw Ha. induction 1 as [|n w w1 bc ctx tx r w2 Hr IH Hf Hsa Hco Htx He Hans]; [done|].
  etrans; [apply IH; [lia|done]|]. destruct r as [ret|e| |]; try done.
  - destruct (exec_life bc ctx sa Hsa (k + n) tx w1 ret w2) as (op & _ & Hs & Hc); [lia|done| |done|done|].
    { eapply runs_ok; [|exact Hw|exact Hr]. lia. }
    destruct (decide (a = op_creator op)) as [->|Hne].
    { eapply life_after_mono; [by apply Ht|]. by eapply life_step_after. }
    by rewrite (life_of_code w1 w2) by auto.
  - by rewrite (life_of_code w1 w2) by by eapply exec_Err_code.
Qed.
End calls.

(** ** Theorems *)

Section theorems.
Context `{!Bitlist, !MapRange, !SortSlice, !Crypto, !SigScheme}.

(** What every successful call leaves alone, and the nonce. *)
Lemma exec_frame bc ctx tx w ret w' : exec bc ctx tx w = (Ok ret, w') →
  (∀ a, GetNonce w' a = if decide (tx_from tx = a) then u64 (GetNonce w a + 1) else GetNonce w a) ∧ same_rest w w'.
Proof.
  intros He. apply exec_Ok in He as (op & _ & Hh). split.
  - intros a. rewrite (handle_same_nonces bc ctx _ _ _ _ _ _ _ _ Hh a). unfold bump.
    rewrite GetNonce_SetNonce. by case_decide; subst.
  - etrans; [apply SetNonce_same_rest|exact (handle_same_rest bc ctx _ _ _ _ _ _ _ _ Hh)].
Qed.

(** C13: A call is atomic. When it fails, nothing changes but the nonce of the sender, and not even
    that if the data is no operation; when it succeeds, the nonce of the sender is one higher and
    no other nonce changes. *)
Theorem call_atomic bc ctx tx w r w' :
  exec bc ctx tx w = (r, w') →
  (∀ e, r = Err e → w' = w ∨ w' = bump tx w) ∧
  (∀ e, DecodeOperation (tx_data tx) = Err e → r = Err e ∧ w' = w) ∧
  (∀ ret, r = Ok ret → ∀ a,
     GetNonce w' a = if decide (tx_from tx = a) then u64 (GetNonce w a + 1) else GetNonce w a).
Proof.
  intros He. split_and!.
  - intros e ->. rewrite exec_cases in He.
    destruct (DecodeOperation (tx_data tx)) as [op|e'| |]; simplify_eq; [|by left].
    destruct (handle _ _ _ _ _ _ _ _) as [[] ?]; simplify_eq. by right.
  - intros e Hd. rewrite exec_cases, Hd in He. by simplify_eq.
  - intros ret -> a. by apply exec_frame in He as [Hn _].
Qed.

(** C5: The states that calls reach from a state without codes are well formed, for networks that
    have seen up to [2^24] calls, none of them with an operation for the state address: the list of
    validators and the number of deposits can be read, and every validator that can be read sits at
    its own address, has integers of its machine types and stakes that are a ledger, is not leaving
    before it was activated, and is written and read back as it is. *)
Theorem reachable_state P sa n w w' :
  (n ≤ max_ops)%nat → (∀ a, GetCode w a = None) → runs P sa n w w' →
  (∀ c, ValidatorsStateAddress c = Some sa →
     ∃ l k, GetValidatorsList c w' = Ok l ∧ GetDepositCount c w' = Ok k) ∧
  (∀ a v, a ≠ sa → GetValidator w' a = Ok v →
     v_Address v = a ∧ is_u64 (v_Index v) ∧ is_u64 (v_ActivationEra v) ∧ is_u64 (v_ExitEra v) ∧
     stake_wf v ∧ (v_ActivationEra v = MaxUint64 → v_ExitEra v = MaxUint64) ∧
     ∃ c, validator_MarshalBinary v = Ok c ∧ ToValidator c = Ok v).
Proof.
  intros Hn Hc Hr. pose proof (runs_ok P sa 0 n w w' Hn (no_code_ok sa w Hc) Hr) as Hw. split.
  - intros c Hsa. destruct (wo_list sa _ w' Hw) as (k & l & Hl). exists (nonzero l), k.
    split; [by eapply GetValidatorsList_spec|by eapply GetDepositCount_spec].
  - intros a v Ha Hg. destruct (wo_records sa _ w' Hw a v Ha Hg) as (Hv & Hva & Hs).
    destruct (validator_roundtrip v (record_fits _ v Hn Hv)) as (c & Hm & Ht & _). rewrite Hs in Ht.
    destruct Hv. split_and!; try done. by exists c.
Qed.

(** C12: A deposit does the following and nothing else. It starts from the record of the validator, or
    from a new one with the key, the addresses and the delegating rules of the operation, and adds the
    value to the stake of the sender; the key, the addresses, the index, the eras and the delegated
    stake of the record stay. The value leaves the balance of the sender. It counts as one deposit and
    emits a log from which the deposit can be read. The nonce of the sender is one higher. All other
    balances, nonces and codes, the list of the validators, and the storage of all accounts stay. *)
Theorem deposit_effect bc ctx sa n tx op w ret w' :
  ValidatorsStateAddress (config bc) = Some sa → (n < max_ops)%nat → world_ok sa n w → tx_ok sa tx →
  DecodeOperation (tx_data tx) = Ok (OpDeposit op) → exec bc ctx tx w = (Ok ret, w') →
  let creator := d_creator_address op in
  ∃ val v0 v k data,
    tx_value tx = Some val ∧ MinDepositVal ≤ val ≤ GetBalance w (tx_from tx) ∧
    (∀ a, GetBalance w' a = GetBalance w a - if decide (a = tx_from tx) then val else 0) ∧
    deposit_base bc ctx w op v0 ∧ GetValidator w' creator = Ok v ∧
    v = stored (deposited bc ctx (tx_from tx) val (tx_hash tx) v0) ∧
    v_Address v = creator ∧ v_PubKey v = d_pubkey op ∧ v_ActivationEra v = MaxUint64 ∧ v_ExitEra v = v_ExitEra v0 ∧
    v_Index v = v_Index v0 ∧ v_WithdrawalAddress v = v_WithdrawalAddress (stored v0) ∧
    v_DelegatingStake v = v_DelegatingStake v0 ∧
    TotalStake v = total_of w creator + val ∧
    (∀ a, GetStakeByAddress v a = stake_of w creator a + if decide (a = tx_from tx) then val else 0) ∧
    (∀ a, a ≠ creator → a ≠ sa → GetCode w' a = GetCode w a) ∧
    GetDepositCount (config bc) w = Ok k ∧ GetDepositCount (config bc) w' = Ok (u64 (k + 1)) ∧
    GetValidatorsList (config bc) w' = GetValidatorsList (config bc) w ∧
    (∀ a, GetNonce w' a = if decide (tx_from tx = a) then u64 (GetNonce w a + 1) else GetNonce w a) ∧
    same_rest w w' ∧
    logs w' = logs w ++ [MkLog sa [EvtDepositLogSignature] data] ∧
    UnpackDepositLogData data =
      Ok (MkDepositLog (d_pubkey op) creator (d_withdrawal_address op) (val / BigGwei) (d_signature op) k).
Proof.
  intros Hsa Hn Hw Htx Hd He creator.
  destruct (deposit_Ok bc ctx sa Hsa n tx op w ret w' Hn Hw Htx Hd He)
    as (val & v & v0 & k & l & Hval & Hrange & Hgwei & _ & Hb & Hr0 & -> & Hl & Hl' & Hg & Hc & Hbal & Hlog).
  pose proof (to_creator sa tx Htx _ Hd) as Hcr. cbn [op_creator] in Hcr.
  destruct (deposit_base_facts bc ctx sa n w op v0 Hw Hcr Hb) as (Hpk & Hact & Htot & Hst & Haddr).
  assert (0 ≤ val) as Hpos by (unfold MinDepositVal in Hrange; lia).
  destruct (deposited_facts bc ctx n (tx_from tx) val (tx_hash tx) v0 Hpos Hr0)
    as (Hpk' & Hact' & Hex' & Htot' & Hst' & Haddr' & Hix' & Hwd' & Hdl').
  destruct (exec_frame bc ctx tx w ret w' He) as [Hnonce Hrest].
  eexists val, v0, _, k, _. split; [done|]. split; [lia|]. split; [done|]. split; [done|]. split; [exact Hg|]. split; [done|].
  split_and!; [by rewrite Haddr', Haddr|congruence|congruence|done|done|done|done| | |done| | | |done|done|exact Hlog|].
  - by rewrite Htot', Htot.
  - intros a. by rewrite Hst', Hst.
  - by eapply GetDepositCount_spec.
  - by eapply GetDepositCount_spec.
  - by rewrite !(GetValidatorsList_spec _ _ Hsa _ _ _ Hl), (GetValidatorsList_spec _ _ Hsa _ _ _ Hl').
  - apply deposit_log_roundtrip; [done|apply Hgwei|apply Hl].
Qed.

(** C1: Calls implement the life cycle. A successful call makes exactly the step of the abstract
    machine that its operation allows, at the validator of the operation, and leaves the life of every
    other validator alone: deposits lead to [Pending], the coordinating network activates a pending
    validator two eras later and deactivates an active one two eras later, and exits and withdrawals
    are requests only. Only before the fork that tracks operations can a validator be activated again,
    which replaces its era. The state is well formed, and the operation is not one for the state
    address, which the code does not check. *)
Theorem lifecycle_refines bc ctx sa n tx w ret w' :
  ValidatorsStateAddress (config bc) = Some sa → (n < max_ops)%nat → chain_ok bc ctx → world_ok sa n w → tx_ok sa tx →
  exec bc ctx tx w = (Ok ret, w') →
  ∃ op, DecodeOperation (tx_data tx) = Ok op ∧
    life_step bc (tracked bc ctx) op (life_of w (op_creator op)) (life_of w' (op_creator op)) ∧
    ∀ a, a ≠ op_creator op → a ≠ sa → life_of w' a = life_of w a.
Proof.
  intros Hsa Hn Hco Hw Htx He.
  destruct (exec_life bc ctx sa Hsa n tx w ret w' Hn Hco Hw Htx He) as (op & Hd & Hs & Hc).
  exists op. split_and!; [done|done|]. intros a Ha Ha'. by apply life_of_code, Hc.
Qed.

(** C26: No calls, successful or not, bring a validator back, from any well-formed state: a record is
    never removed, an activated validator never becomes pending, and one that left keeps the era in
    which it leaves. If all calls are in blocks after the fork that tracks operations, the era of its
    activation never changes either. *)
Theorem lifecycle_forever P sa k n w w' a :
  (k + n ≤ max_ops)%nat → world_ok sa k w → a ≠ sa → runs P sa n w w' →
  (life_of w a ≠ Absent → life_of w' a ≠ Absent) ∧
  (∀ e, life_of w a = Active e → ∃ e', life_of w' a = Active e' ∨ ∃ x, life_of w' a = Leaving e' x) ∧
  (∀ e x, life_of w a = Leaving e x → ∃ e', life_of w' a = Leaving e' x) ∧
  ((∀ bc ctx, P bc ctx → tracked bc ctx = true) →
     (∀ e, life_of w a = Active e → life_of w' a = Active e ∨ ∃ x, life_of w' a = Leaving e x) ∧
     (∀ e x, life_of w a = Leaving e x → life_of w' a = Leaving e x)).
Proof.
  intros Hn Hw Ha Hr. pose proof (runs_life P false sa k n w w' a (λ _ _ _ Ht, False_ind _ (diff_false_true Ht)) Hn Hw Ha Hr) as Hl.
  split_and!; [intros Hp|intros e Hp|intros e x Hp|intros Ht].
  - destruct (life_of w a); simpl in Hl; [done|done|destruct Hl as (? & _ & [->|[? ->]])|destruct Hl as (? & _ & ->)]; done.
  - rewrite Hp in Hl. destruct Hl as (e' & _ & Hl). eauto.
  - rewrite Hp in Hl. destruct Hl as (e' & _ & Hl). eauto.
  - pose proof (runs_life P true sa k n w w' a (λ bc ctx HP _, Ht bc ctx HP) Hn Hw Ha Hr) as Ht'.
    split; [intros e Hp|intros e x Hp]; rewrite Hp in Ht'; destruct Ht' as (e' & He & Ht'); by rewrite He in Ht'.
Qed.
End theorems.

(** ** Witnesses *)

#[local] Existing Instances ssz_bitlist list_range merge_slice.

(** A signature scheme that accepts every signature. *)
#[local] Instance toy_sig : SigScheme := {|
  ssz_Merkleize := λ _, Ok (zero_fixed 32);
  VerifyCompressed := λ _ _ _, true
|}.

Definition toy_bc : Blockchain :=
  MkBlockchain toy_vconfig (MkSlotInfo 0 4 32) 4000 (NewEraInfo (MkEra 3 0 100 (zero_fixed 32) (zero_fixed 32)))
    (λ _, Ok (Some (MkEra 3 0 100 (zero_fixed 32) (zero_fixed 32)))) ∅
    (λ _, None) (λ _, None) (λ _, (None, zero_fixed 32)) (λ _, None).
Definition toy_ctx : BlockContext := MkBlockContext 1000 3 (BytesToHash [x07]).

Definition toy_tx : Tx :=
  MkTx (toy_addr x11) toy_vsa (Some MinDepositVal)
    (match EncodeOperation (OpDeposit toy_deposit) with Ok b => b | _ => [] end) (BytesToHash [x08]).

Definition toy_rich : World := AddBalance (toy_addr x11) (5 * MinDepositVal) empty_world.

Lemma toy_chain_ok : chain_ok toy_bc toy_ctx.
Proof.
  split; [done| |].
  - intros e era [= <-]. done.
  - intros k [= <-]. done.
Qed.

Lemma toy_tx_ok : tx_ok toy_vsa toy_tx.
Proof.
  split; [vm_compute; congruence|]. intros op Hd. vm_compute in Hd. injection Hd as <-. done.
Qed.

Lemma toy_rich_code a : GetCode toy_rich a = None.
Proof. unfold toy_rich. by rewrite GetCode_AddBalance. Qed.

(** The first deposit of the network, for a delegating validator. *)
Definition toy_after : World := (exec toy_bc toy_ctx toy_tx toy_rich).2.

Lemma toy_exec : exec toy_bc toy_ctx toy_tx toy_rich = (FillBytes 32 MinDepositVal, toy_after).
Proof.
  unfold toy_after. rewrite (surjective_pairing (exec _ _ _ _)) at 1. by f_equal.
Qed.

Lemma toy_ret : FillBytes 32 MinDepositVal = Ok (be_bytes 32 MinDepositVal).
Proof. vm_compute. reflexivity. Qed.

Lemma toy_runs P : P toy_bc toy_ctx → runs P toy_vsa 1 toy_rich toy_after.
Proof.
  intros HP. eapply runs_call; [apply runs_done|exact HP|done|apply toy_chain_ok|apply toy_tx_ok|apply toy_exec|].
  by rewrite toy_ret.
Qed.

Lemma toy_world_ok : world_ok toy_vsa 0 toy_rich.
Proof. apply no_code_ok, toy_rich_code. Qed.

Lemma one_op : (1 ≤ max_ops)%nat.
Proof. unfold max_ops. lia. Qed.

Lemma call_atomic_witness : GetNonce toy_after (toy_addr x11) = 1.
Proof.
  destruct (call_atomic toy_bc toy_ctx toy_tx toy_rich _ _ toy_exec) as (_ & _ & Hn).
  rewrite (Hn _ toy_ret (toy_addr x11)). vm_compute. reflexivity.
Defined.

Lemma reachable_state_witness :
  ∃ l k, GetValidatorsList toy_vconfig toy_after = Ok l ∧ GetDepositCount toy_vconfig toy_after = Ok k.
Proof.
  destruct (reachable_state (λ _ _, True) toy_vsa 1 toy_rich toy_after one_op toy_rich_code (toy_runs _ I))
    as [Hl _].
  exact (Hl toy_vconfig eq_refl).
Defined.

Lemma deposit_effect_witness :
  ∃ v, GetValidator toy_after (toy_addr x09) = Ok v ∧ TotalStake v = MinDepositVal.
Proof.
  destruct (deposit_effect toy_bc toy_ctx toy_vsa 0 toy_tx toy_deposit toy_rich (be_bytes 32 MinDepositVal) toy_after)
    as (val & v0 & v & k & data & Hval & _ & _ & _ & Hg & _ & _ & _ & _ & _ & _ & _ & _ & Ht & _).
  - reflexivity.
  - apply one_op.
  - apply toy_world_ok.
  - apply toy_tx_ok.
  - vm_compute. reflexivity.
  - rewrite toy_exec. by rewrite toy_ret.
  - exists v. split; [exact Hg|]. rewrite Ht. injection Hval as <-. vm_compute. reflexivity.
Defined.

Lemma lifecycle_refines_witness :
  ∃ op, DecodeOperation (tx_data toy_tx) = Ok op ∧
    life_step toy_bc true op (life_of toy_rich (op_creator op)) (life_of toy_after (op_creator op)).
Proof.
  destruct (lifecycle_refines toy_bc toy_ctx toy_vsa 0 toy_tx toy_rich (be_bytes 32 MinDepositVal) toy_after)
    as (op & Hd & Hs & _).
  - reflexivity.
  - apply one_op.
  - apply toy_chain_ok.
  - apply toy_world_ok.
  - apply toy_tx_ok.
  - rewrite toy_exec. by rewrite toy_ret.
  - exists op. split; [exact Hd|exact Hs].
Defined.

(** A deposit for another validator follows. *)
Definition toy_tx2 : Tx :=
  MkTx (toy_addr x11) toy_vsa (Some MinDepositVal)
    (match EncodeOperation (OpDeposit (MkDeposit (BytesToBlsPubKey [x03]) (toy_addr x0a) (toy_addr x0b)
             (BytesToBlsSig [x04]) None)) with Ok b => b | _ => [] end) (BytesToHash [x09]).
Definition toy_after2 : World := (exec toy_bc toy_ctx toy_tx2 toy_after).2.

Lemma toy_runs2 : runs forked toy_vsa 1 toy_after toy_after2.
Proof.
  eapply (runs_call _ _ 0 _ _ toy_bc toy_ctx toy_tx2); [apply runs_done|done|done|apply toy_chain_ok| | |].
  - split; [vm_compute; congruence|]. intros op Hd. vm_compute in Hd. injection Hd as <-. done.
  - unfold toy_after2. apply surjective_pairing.
  - vm_compute. done.
Qed.

Lemma lifecycle_forever_witness : life_of toy_after2 (toy_addr x09) ≠ Absent.
Proof.
  destruct (lifecycle_forever forked toy_vsa 1 1 toy_after toy_after2 (toy_addr x09)) as (Hp & _).
  - unfold max_ops. lia.
  - apply (runs_ok forked toy_vsa 0 1 toy_rich); [apply one_op|apply toy_world_ok|by apply toy_runs].
  - done.
  - apply toy_runs2.
  - apply Hp. vm_compute. congruence.
Defined.
