(* ===== verification/ValPay.v ===== *)
(** * Requests and payments

    Exits and withdrawals are requests of an authorised sender, one at a time after the fork that
    tracks operations, that move no money; the coordinating network answers a withdrawal with a payment, to the withdrawal address or,
    for a delegated stake, to the participants by their shares. *)

From Stdlib Require Import ZArith Lia Strings.Byte.
From stdpp Require Import base tactics option numbers list gmap strings.
From S2P Require Import Prelude Common RlpEnc RlpDec Chain Era GoMap DelegRules ValOps World Hex.
From S2P Require Import TxLog DepositSig Validator ValStorage ValCache ValProcessor ValProcFacts ValInv.
From S2P Require Import ValLife.

(** ** Sums *)

Definition zsum (l : list Z) : Z := foldr Z.add 0 l.

#[export] Instance zsum_perm : Proper ((≡ₚ) ==> (=)) zsum.
Proof. induction 1; unfold zsum in *; simpl; lia. Qed.

Lemma zsum_app l k : zsum (l ++ k) = zsum l + zsum k.
Proof. unfold zsum. induction l as [|x l IH]; simpl; lia. Qed.

Lemma zsum_scale c l : zsum (map (Z.mul c) l) = c * zsum l.
Proof. unfold zsum. induction l as [|x l IH]; simpl; lia. Qed.

Lemma zsum_nonneg l : Forall (Z.le 0) l → 0 ≤ zsum l.
Proof. unfold zsum. induction 1; simpl; lia. Qed.

(** ** Shares *)

(** The sum of the shares of a map. *)
Definition share_total (m : gmap Address Z) : Z := zsum (map_to_list m).*2.

Lemma share_total_empty : share_total ∅ = 0.
Proof. unfold share_total. by rewrite map_to_list_empty. Qed.

Lemma share_total_insert_new m a v : m !! a = None → share_total (<[a := v]> m) = v + share_total m.
Proof. intros Ha. unfold share_total. by rewrite map_to_list_insert by done. Qed.

Definition nonneg_shares (m : gmap Address Z) : Prop := map_Forall (λ _ v, 0 ≤ v) m.

Lemma share_total_nonneg m : nonneg_shares m → 0 ≤ share_total m.
Proof.
  intros Hm. apply zsum_nonneg. apply Forall_forall. intros x Hx.
  apply list_elem_of_fmap in Hx as ([a v] & -> & Hav). apply elem_of_map_to_list in Hav.
  by eapply Hm.
Qed.

Lemma share_total_insert m a v :
  nonneg_shares m → 0 ≤ v → share_total (<[a := v]> m) ≤ v + share_total m.
Proof.
  intros Hm Hv. destruct (m !! a) as [x|] eqn:Ha; [|by rewrite share_total_insert_new].
  rewrite <- (insert_delete_eq m a v), share_total_insert_new by apply lookup_delete_eq.
  rewrite <- (insert_id m a x Ha) at 2. rewrite <- (insert_delete_eq m a x).
  rewrite share_total_insert_new by apply lookup_delete_eq. pose proof (Hm a x Ha). simpl in *. lia.
Qed.

Definition byte_sum (b : bytes) : Z := zsum (map b2z b).

Lemma byte_sum_range b : 0 ≤ byte_sum b ≤ 255 * Z.of_nat (length b).
Proof.
  unfold byte_sum, zsum. induction b as [|x b IH]; simpl; [lia|]. pose proof (b2z_range x). lia.
Qed.

Lemma total_prc_sum b : Z.of_nat (length b) < 2 ^ 32 → total_prc b = byte_sum b.
Proof.
  intros Hb. unfold total_prc. enough (∀ acc, 0 ≤ acc → acc + 255 * Z.of_nat (length b) < two64 →
    foldl (λ acc v, u64 (acc + b2z v)) acc b = acc + byte_sum b) as ->; [lia|lia|unfold two64; lia|].
  clear Hb. unfold byte_sum, zsum. induction b as [|x b IH]; intros acc Hacc Hb; simpl; [lia|].
  pose proof (b2z_range x). simpl in Hb. rewrite u64_small by (unfold is_u64; lia). rewrite IH; lia.
Qed.

(** The map of the shares holds at most what the bytes say, and exactly that if no address is
    listed twice. *)
Lemma share_map_sum l : ∀ sh m M,
  share_map l sh m = Ok M → nonneg_shares m →
  nonneg_shares M ∧ share_total M ≤ share_total m + byte_sum (take (length l) sh) ∧
  (NoDup l → (∀ a, a ∈ l → m !! a = None) → share_total M = share_total m + byte_sum (take (length l) sh)).
Proof.
  unfold byte_sum. induction l as [|a l IH]; intros sh m M HM Hm; simpl in HM.
  - injection HM as <-. simpl. unfold zsum. simpl. split_and!; [done|lia|intros; lia].
  - destruct sh as [|v sh]; [done|]. pose proof (b2z_range v).
    assert (nonneg_shares (if 0 <? b2z v then <[a := b2z v]> m else m)) as Hm'.
    { destruct (_ <? _); [|done]. apply map_Forall_insert_2; [lia|done]. }
    destruct (IH _ _ _ HM Hm') as (Hn & Hle & Heq). simpl.
    pose proof (share_total_insert m a (b2z v) Hm ltac:(lia)).
    split_and!; [done| |].
    + destruct (Z.ltb_spec 0 (b2z v)); unfold zsum in *; simpl; lia.
    + intros Hnd Hno. apply NoDup_cons in Hnd as [Hal Hnd]. rewrite Heq; [|done|].
      * destruct (Z.ltb_spec 0 (b2z v)); [|unfold zsum; simpl; lia].
        rewrite share_total_insert_new by (apply Hno; left). unfold zsum. simpl. lia.
      * intros b Hb. destruct (_ <? _); [|by apply Hno; right].
        rewrite lookup_insert_ne by (intros ->; done). by apply Hno; right.
Qed.

(** Rules as [Validate] accepts them, of a size that a record can hold. *)
Record shares_valid (dr : DelegatingStakeRules) : Prop := {
  sv_profit : ValidateProfitShare dr = Ok tt;
  sv_stake : ValidateStakeShare dr = Ok tt;
  sv_profit_len : Z.of_nat (length (profitShare dr)) < 2 ^ 32;
  sv_stake_len : Z.of_nat (length (stakeShare dr)) < 2 ^ 32
}.

(** Rules in which no address is listed twice and every share has an address. *)
Definition shares_distinct (dr : DelegatingStakeRules) : Prop :=
  NoDup (addrs dr) ∧ length (profitShare dr) = length (addrs dr) ∧
  length (stakeShare dr) = length (addrs dr).

Lemma byte_sum_take n b : byte_sum (take n b) ≤ byte_sum b.
Proof.
  rewrite <- (take_drop n b) at 2. unfold byte_sum. rewrite map_app, zsum_app.
  pose proof (byte_sum_range (drop n b)). unfold byte_sum in *. lia.
Qed.

Lemma share_map_valid l sh M :
  share_map l sh ∅ = Ok M → Z.of_nat (length sh) < 2 ^ 32 → total_prc sh = 100 →
  nonneg_shares M ∧ share_total M ≤ 100 ∧ (NoDup l → length sh = length l → share_total M = 100).
Proof.
  intros HM Hlen Hprc. rewrite total_prc_sum in Hprc by done.
  destruct (share_map_sum l sh ∅ M HM) as (Hn & Hle & Heq); [apply map_Forall_empty|].
  rewrite share_total_empty in *. pose proof (byte_sum_take (length l) sh). split_and!; [done|lia|].
  intros Hnd Hl. rewrite Heq; [|done|intros; apply lookup_empty]. by rewrite <- Hl, firstn_all.
Qed.

Lemma rules_share_total dr ps ss :
  shares_valid dr → ProfitShare dr = Ok ps → StakeShare dr = Ok ss →
  (nonneg_shares ps ∧ share_total ps ≤ 100) ∧ (nonneg_shares ss ∧ share_total ss ≤ 100) ∧
  (shares_distinct dr → share_total ps = 100 ∧ share_total ss = 100).
Proof.
  intros [Hp Hs Hpl Hsl] Hps Hss.
  unfold ValidateProfitShare in Hp. unfold ValidateStakeShare in Hs. apply fail_if_Ok in Hp, Hs.
  apply negb_false_iff, Z.eqb_eq in Hp, Hs.
  destruct (share_map_valid _ _ _ Hps Hpl Hp) as (? & ? & Hpe).
  destruct (share_map_valid _ _ _ Hss Hsl Hs) as (? & ? & Hse).
  split_and!; try done. intros (Hnd & Hlp & Hls). auto.
Qed.

(** ** Payouts *)

Definition amount_of (x : ShareRuleApplying) : Z := default 0 (sr_Amount x).

(** What a list of payouts pays in all, and to one address. *)
Definition payout_total (up : DelegatingStakeLogData) : Z := zsum (map amount_of up).
Definition credit (up : DelegatingStakeLogData) (a : Address) : Z :=
  payout_total (filter (λ x, sr_Address x = a) up).

Lemma pay_balance up : ∀ w a, GetBalance (pay up w) a = GetBalance w a + credit up a.
Proof.
  unfold credit, payout_total. induction up as [|x up IH]; intros w a; [unfold zsum; simpl; lia|].
  change (pay (x :: up) w) with (pay up (AddBalance (sr_Address x) (amount_of x) w)).
  rewrite IH, GetBalance_AddBalance, filter_cons. case_decide; subst; unfold zsum; simpl; lia.
Qed.

Section payouts.
Context `{!MapRange}.

Lemma payouts_amounts t tr amount m :
  map amount_of (payouts t tr amount m) =
  if 0 <? amount then map (Z.mul (amount / 100)) (range m).*2 else [].
Proof.
  unfold payouts. destruct (_ <? _); [|done]. rewrite map_map, <- list_fmap_compose.
  apply map_ext. by intros [].
Qed.

Lemma payout_total_payouts t tr amount m :
  payout_total (payouts t tr amount m) = if 0 <? amount then amount / 100 * share_total m else 0.
Proof.
  unfold payout_total. rewrite payouts_amounts. destruct (_ <? _); [|done].
  rewrite zsum_scale. unfold share_total. by rewrite (range_perm m).
Qed.

(** At most the amount, and at least the amount less the remainder of one hundred. *)
Lemma payout_total_bounds t tr amount m :
  0 ≤ amount → nonneg_shares m → share_total m ≤ 100 →
  0 ≤ payout_total (payouts t tr amount m) ≤ amount ∧
  (share_total m = 100 → amount - 99 ≤ payout_total (payouts t tr amount m)).
Proof.
  intros Ham Hm Hs. apply share_total_nonneg in Hm. rewrite payout_total_payouts.
  pose proof (Z.div_mod amount 100 ltac:(lia)) as Hdm. pose proof (Z.mod_pos_bound amount 100 ltac:(lia)).
  pose proof (Z.div_pos amount 100 Ham ltac:(lia)). set (q := amount / 100) in *. clearbody q.
  destruct (Z.ltb_spec 0 amount); [|lia]. split; [nia|]. intros ->. lia.
Qed.

Lemma payouts_nonneg t tr amount m x :
  nonneg_shares m → x ∈ payouts t tr amount m → 0 ≤ amount_of x.
Proof.
  intros Hm. unfold payouts. destruct (Z.ltb_spec 0 amount); [|by rewrite elem_of_nil].
  intros Hx. apply list_elem_of_fmap in Hx as ([a s] & -> & Has). rewrite range_perm in Has.
  apply elem_of_map_to_list in Has. pose proof (Hm a s Has). cbn in *.
  pose proof (Z.div_pos amount 100 ltac:(lia) ltac:(lia)). nia.
Qed.
End payouts.

(** ** Requests *)

Section requests.
Context `{!Bitlist, !MapRange, !SortSlice, !Crypto, !SigScheme}.
Context (bc : Blockchain) (ctx : BlockContext).

(** The senders that may act for a validator: those with the role in the rules in force, or the
    withdrawal address. *)
Definition allowed (roles : DelegatingStakeRules → go_res (list Address)) (from : Address) (v : Validator) : Prop :=
  (HasDelegatingStake v = Ok true ∧
   ∃ isTrial rules l, actualRules bc ctx v = Ok (isTrial, rules) ∧ roles rules = Ok l ∧ from ∈ l) ∨
  (HasDelegatingStake v = Ok false ∧ v_WithdrawalAddress v = Some from).

Lemma checkSender_allowed roles from v : checkSender bc ctx roles from v = Ok tt ↔ allowed roles from v.
Proof.
  unfold checkSender, allowed. split.
  - intros Hc. apply bind_Ok in Hc as ([] & Hd & Hc).
    + left. split; [done|]. apply bind_Ok in Hc as ([tr rules] & Hr & Hc).
      apply bind_Ok in Hc as (l & Hl & Hc). case_bool_decide; [|done]. by exists tr, rules, l.
    + right. split; [done|]. apply bind_Ok in Hc as (wa & Hwa & Hc). apply deref_Ok in Hwa.
      apply fail_if_Ok, bool_decide_eq_false in Hc. rewrite Hwa. f_equal. by destruct (decide (from = wa)).
  - intros [[Hd (tr & rules & l & Hr & Hl & Hin)]|[Hd Hwa]].
    + rewrite Hd, Ok_bind, Hr, Ok_bind, Hl, Ok_bind. by rewrite bool_decide_true.
    + rewrite Hd, Ok_bind, Hwa. cbn. by rewrite bool_decide_false by tauto.
Qed.

(** The roles of a record depend on its delegated stake and its eras only. *)
Lemma allowed_requested roles from txHash v :
  allowed roles from (requested bc ctx txHash v) ↔ allowed roles from v.
Proof.
  unfold requested, updateValidatorVersionBySlot. rewrite SetWithdrawalTx_eq, SetVersion_eq. done.
Qed.

(** The balances after a request. *)
Lemma exec_request_balances tx w ret w' :
  exec bc ctx tx w = (Ok ret, w') →
  (∃ e, DecodeOperation (tx_data tx) = Ok (OpExit e)) ∨ (∃ x, DecodeOperation (tx_data tx) = Ok (OpWithdrawal x)) →
  same_balances w w'.
Proof.
  intros He Hd. apply exec_Ok in He as (op & Hop & Hh).
  assert (same_balances w (bump tx w)) as Hb by (intros a; apply GetBalance_SetNonce).
  destruct Hd as [[e Hd]|[x Hd]]; rewrite Hd in Hop; injection Hop as <-; cbn [handle] in Hh.
  - apply validatorExit_Ok in Hh as (v & ep & era & c & _ & _ & _ & _ & _ & _ & _ & _ & _ & _ & -> & _).
    intros a. autorewrite with world. apply Hb.
  - apply validatorWithdrawal_Ok in Hh as (v & eb & am & v' & c & _ & _ & _ & _ & _ & _ & _ & -> & _).
    intros a. autorewrite with world. apply Hb.
Qed.

Lemma exec_exit_allowed tx e w ret w' :
  exec bc ctx tx w = (Ok ret, w') → DecodeOperation (tx_data tx) = Ok (OpExit e) →
  ∃ v, GetValidator w (e_creatorAddress e) = Ok v ∧ v_PubKey v = e_pubKey e ∧
    v_ExitEra v = MaxUint64 ∧ allowed Exit (tx_from tx) v.
Proof.
  intros He Hd. apply exec_Ok in He as (op & Hop & Hh). rewrite Hd in Hop. injection Hop as <-.
  apply validatorExit_Ok in Hh as (v & ep & era & c & _ & Hg & Hpk & _ & _ & _ & Hex & Hs & _).
  rewrite GetValidator_bump in Hg. exists v. by apply checkSender_allowed in Hs.
Qed.

Lemma refundable_requested eb txHash v : refundable eb (requested bc ctx txHash v) = refundable eb v.
Proof.
  unfold requested, updateValidatorVersionBySlot. by rewrite SetWithdrawalTx_eq, SetVersion_eq.
Qed.

Lemma exec_withdrawal_allowed sa n tx x w ret w' :
  world_ok sa n w → w_creatorAddress x ≠ sa →
  exec bc ctx tx w = (Ok ret, w') → DecodeOperation (tx_data tx) = Ok (OpWithdrawal x) →
  ∃ v eb, GetValidator w (w_creatorAddress x) = Ok v ∧ effectiveBalanceWei bc = Ok eb ∧
    if refundable eb v
    then 0 < GetStakeByAddress v (tx_from tx) ∧ w_amount x ≤ GetStakeByAddress v (tx_from tx)
    else allowed Withdrawal (tx_from tx) v.
Proof.
  intros Hw Ha He Hd. apply exec_Ok in He as (op & Hop & Hh). rewrite Hd in Hop. injection Hop as <-.
  apply validatorWithdrawal_Ok in Hh as (v & eb & am & v' & c & _ & _ & Hg & _ & Heb & Hv' & _).
  rewrite GetValidator_bump in Hg. exists v, eb. split_and!; [done|done|].
  rewrite refundable_requested in Hv'. destruct (refundable eb v).
  - unfold refundRequest in Hv'.
    assert (GetStakeByAddress (requested bc ctx (tx_hash tx) v) (tx_from tx) = GetStakeByAddress v (tx_from tx)) as Hs.
    { unfold requested, updateValidatorVersionBySlot. by rewrite SetWithdrawalTx_eq, SetVersion_eq. }
    rewrite Hs in Hv'. destruct (Z.eqb_spec (GetStakeByAddress v (tx_from tx)) 0); [done|].
    destruct (Z.ltb_spec (GetStakeByAddress v (tx_from tx)) (w_amount x)); [done|].
    destruct (wo_records sa n w Hw _ _ Ha Hg) as (Hv & _).
    pose proof (find_stake_nonneg (tx_from tx) (v_Stake v) (proj2 (ro_stake n v Hv))).
    unfold GetStakeByAddress in *. lia.
  - destruct Hv' as (Hs & _). by apply checkSender_allowed, allowed_requested in Hs.
Qed.

(** *** One request at a time *)



(** A request that is tracked and not expired blocks the next one. *)
Lemma withdrawal_blocked tx x w v ret w' :
  DecodeOperation (tx_data tx) = Ok (OpWithdrawal x) → GetValidator w (w_creatorAddress x) = Ok v →
  Version v = Ver1 → blockedBy bc ctx (GetWithdrawalTx v) = true → exec bc ctx tx w ≠ (Ok ret, w').
Proof.
  intros Hd Hg Hv Hb He. apply exec_Ok in He as (op & Hop & Hh). rewrite Hd in Hop. injection Hop as <-.
  apply validatorWithdrawal_Ok in Hh as (v' & eb & am & v'' & c & _ & _ & Hg' & Hbl & _).
  rewrite GetValidator_bump, Hg in Hg'. injection Hg' as <-. destruct Hbl as [?|?]; [lia|congruence].
Qed.




End requests.

(** ** Payments *)

Section payments.
Context `{!Bitlist, !MapRange, !SortSlice, !Crypto, !SigScheme}.
Context (bc : Blockchain) (ctx : BlockContext).

Lemma payValidator_effect op to v w ret w' :
  payValidator bc ctx op to v w = (Ok ret, w') →
  ∃ amount, sync_Amount op = Some amount ∧
    ∀ a, GetBalance w' a = GetBalance w a + if decide (a = to) then amount else 0.
Proof.
  intros Hp. apply payValidator_Ok in Hp as (c & am & _ & Ham & Hp & _). exists am. split; [done|]. intros a.
  destruct (IsForkSlotDelegate _ _); [destruct Hp as (data & _ & ->)|subst w'];
    autorewrite with world; repeat case_decide; subst; try done; lia.
Qed.

(** The record that a payment writes has no request any more. *)
Lemma payValidator_record n op to v w ret w' :
  (n ≤ max_ops)%nat → record_ok n v → payValidator bc ctx op to v w = (Ok ret, w') →
  GetValidator w' (v_Address v) = Ok (stored v).
Proof.
  intros Hn Hv Hp. apply payValidator_Ok in Hp as (c & am & Hc & _ & Hp & _).
  eapply GetValidator_written; [done|done|exact Hc|].
  destruct (IsForkSlotDelegate _ _); [destruct Hp as (data & _ & ->)|subst w'];
    autorewrite with world; by rewrite decide_True.
Qed.

Lemma settled_untracked v : GetWithdrawalTx (stored (settled bc ctx v)) = None.
Proof.
  rewrite GetWithdrawalTx_stored. unfold settled, updateValidatorVersionBySlot.
  rewrite SetWithdrawalTx_eq, SetVersion_eq. unfold GetWithdrawalTx. cbn.
  by repeat case_match.
Qed.

Lemma refundPayment_untracked op v to v' :
  refundPayment bc ctx op (settled bc ctx v) = Ok (to, v') → GetWithdrawalTx (stored v') = None.
Proof.
  intros Hp. rewrite <- (settled_untracked v), !GetWithdrawalTx_stored.
  unfold refundPayment in Hp. destruct (bc_GetTransaction _ _) as [[data from]|]; [|done].
  apply bind_Ok in Hp as (iop & _ & Hp). destruct (negb _); [done|].
  destruct (IsForkSlotValOpTracking _ _); [|by injection Hp as _ <-].
  apply bind_Ok in Hp as (a & Ha & Hp). apply bind_Ok in Hp as (v1 & Ht & [= _ <-]).
  by apply takeStake_eq in Ht as [l ->].
Qed.

(** What the rules do with an amount. *)
Lemma shareAmounts_below balance amount eb :
  0 ≤ amount → balance ≤ eb →
  ∃ p q, shareAmounts balance amount eb = (p, q) ∧ 0 ≤ p ∧ 0 ≤ q ∧ p + q = amount.
Proof.
  intros Ham Hb. unfold shareAmounts. destruct (Z.ltb_spec (balance + amount - eb) 0).
  - destruct (Z.leb_spec (0 - amount) 0); [|lia]. eexists _, _. split; [done|lia].
  - destruct (Z.leb_spec (balance + amount - eb - amount) 0); [|lia]. eexists _, _. split; [done|lia].
Qed.

Lemma shareAmounts_above balance amount eb :
  0 ≤ amount → eb < balance → shareAmounts balance amount eb = (balance - eb, 0).
Proof.
  intros Ham Hb. unfold shareAmounts. destruct (Z.ltb_spec (balance + amount - eb) 0); [lia|].
  destruct (Z.leb_spec (balance + amount - eb - amount) 0); [lia|]. f_equal. lia.
Qed.

(** The payouts of a delegated stake. *)
Lemma delegated_payout op v w ret w' tr rules balance amount eb :
  applyDelegatingStakeRules bc ctx op v w = (Ok ret, w') →
  actualRules bc ctx v = Ok (tr, rules) → s_balance op = Some balance → sync_Amount op = Some amount →
  effectiveBalanceWei bc = Ok eb →
  ∃ ps ss up p q, ProfitShare rules = Ok ps ∧ StakeShare rules = Ok ss ∧
    shareAmounts balance amount eb = (p, q) ∧
    up = payouts RuleProfitShare tr p ps ++ payouts RuleStakeShare tr q ss ∧
    (∀ a, GetBalance w' a = GetBalance w a + credit up a) ∧ (∀ a, GetCode w' a = GetCode w a).
Proof.
  intros Ha Hr Hb Ham Heb.
  apply applyDelegatingStakeRules_Ok in Ha as (tr' & rules' & bal' & am' & eb' & ss & ps & d1 & d2 & Ha).
  destruct (shareAmounts bal' am' eb') as [p q] eqn:Hsh.
  destruct Ha as (_ & Hr' & Hb' & Ham' & Heb' & Hss & Hps & _ & _ & -> & _). simplify_eq.
  rewrite Hr in Hr'. injection Hr' as <- <-. rewrite Heb in Heb'. injection Heb' as <-.
  eexists ps, ss, _, p, q. split_and!; try done.
  - intros a. autorewrite with world. apply pay_balance.
  - intros a. by autorewrite with world.
Qed.

(** Taking a stake takes exactly that, also when the depositor is removed. *)
Lemma takeStake_stake n from am v v' :
  0 ≤ am → record_ok n v → takeStake from am v = Ok v' →
  am ≤ GetStakeByAddress v from ∧
  ∀ a, GetStakeByAddress v' a = GetStakeByAddress v a - if decide (a = from) then am else 0.
Proof.
  intros Ham Hv Ht. unfold takeStake in Ht. apply bind_Ok in Ht as ([r v1] & Hs & Ht).
  destruct (SubtractStake_Ok _ _ _ _ _ Hs (ro_stake n v Hv)) as (_ & Hr & Hr0 & _ & _ & Hst).
  split; [lia|]. intros a. injection Ht as <-. destruct (Z.eqb_spec r 0).
  - unfold RmStakeByAddress, GetStakeByAddress. cbn. rewrite find_stake_rm.
    unfold GetStakeByAddress in *. specialize (Hst a). repeat case_decide; subst; lia || done.
  - rewrite Hst. by repeat case_decide; subst.
Qed.

(** What a refund does to the stakes: after the fork the sender's stake pays as far as it goes. *)
Lemma refundPayment_stake n op v to v' amount :
  sync_ranges op → record_ok n v → sync_Amount op = Some amount →
  refundPayment bc ctx op v = Ok (to, v') →
  (∃ data, bc_GetTransaction bc (s_initTxHash op) = Some (data, to)) ∧
  ∀ a, GetStakeByAddress v' a =
    GetStakeByAddress v a -
      if IsForkSlotValOpTracking (config bc) (ctx_Slot ctx) && bool_decide (a = to)
      then Z.min amount (GetStakeByAddress v to) else 0.
Proof.
  intros Hs Hv Ham Hp. unfold refundPayment in Hp.
  destruct (bc_GetTransaction _ _) as [[data from]|]; [|done].
  apply bind_Ok in Hp as (iop & _ & Hp). destruct (negb _); [done|].
  destruct (IsForkSlotValOpTracking _ _); [|injection Hp as <- <-; split; [by eexists|intros; simpl; lia]].
  apply bind_Ok in Hp as (a & Ha & Hp). rewrite Ham in Ha. injection Ha as <-.
  apply bind_Ok in Hp as (v1 & Ht & [= <- <-]). split; [by eexists|].
  pose proof (sync_Amount_nonneg op amount Hs Ham).
  pose proof (find_stake_nonneg from (v_Stake v) (proj2 (ro_stake n v Hv))) as Hnn.
  assert ((if GetStakeByAddress v from <? amount then GetStakeByAddress v from else amount) =
          Z.min amount (GetStakeByAddress v from)) as Hmin.
  { destruct (Z.ltb_spec (GetStakeByAddress v from) amount); lia. }
  rewrite Hmin in Ht. eapply takeStake_stake in Ht as [_ Ht]; [|unfold GetStakeByAddress; lia|done].
  intros b. rewrite Ht. simpl. by repeat case_decide; case_bool_decide; subst.
Qed.

(** A payment to a validator with delegated stake. *)
Record delegated (op : validatorSyncOperation) (w : World) (v : Validator) (eb : Z) (tr : bool)
    (rules : DelegatingStakeRules) (balance amount : Z) : Prop := {
  dg_record : GetValidator w (s_creator op) = Ok v;
  dg_eb : effectiveBalanceWei bc = Ok eb;
  dg_active : refundable eb v = false;
  dg_stake : HasDelegatingStake v = Ok true;
  dg_rules : actualRules bc ctx v = Ok (tr, rules);
  dg_balance : s_balance op = Some balance;
  dg_amount : sync_Amount op = Some amount;
  dg_nonneg : 0 ≤ amount
}.

Lemma delegated_update op w v eb tr rules balance amount ret w' :
  delegated op w v eb tr rules balance amount → validatorUpdateBalance bc ctx op w = (Ok ret, w') →
  ∃ ps ss up p q, ProfitShare rules = Ok ps ∧ StakeShare rules = Ok ss ∧
    shareAmounts balance amount eb = (p, q) ∧
    up = payouts RuleProfitShare tr p ps ++ payouts RuleStakeShare tr q ss ∧
    (∀ a, GetBalance w' a = GetBalance w a + credit up a) ∧ (∀ a, GetCode w' a = GetCode w a).
Proof.
  intros [Hg Heb Href Hst Hr Hb Ham _] He.
  apply validatorUpdateBalance_Ok in He as (v1 & eb1 & Hg1 & _ & Heb1 & He).
  rewrite Hg in Hg1. injection Hg1 as <-. rewrite Heb in Heb1. injection Heb1 as <-.
  assert (refundable eb (settled bc ctx v) = refundable eb v ∧
          actualRules bc ctx (settled bc ctx v) = actualRules bc ctx v) as [Href' Hr'].
  { unfold settled, updateValidatorVersionBySlot. by rewrite SetWithdrawalTx_eq, SetVersion_eq. }
  rewrite Href', Href in He. destruct He as [[_ He]|[Hd _]]; [|congruence].
  eapply delegated_payout; [exact He|by rewrite Hr'|done..].
Qed.

(** *** Panics *)

Lemma guard_pass {S A} (f : unit → stM S A) b e s : b = false → (guard b e ≫= f) s = f tt s.
Proof. by intros ->. Qed.

Lemma ToValidator_short c : (length c < 24)%nat → ToValidator c = Panic.
Proof.
  intros Hc. unfold ToValidator, validator_UnmarshalBinary.
  destruct (Nat.ltb_spec (length c) 20); [by rewrite (go_slice_Panic c 0 20) by lia|].
  assert (∃ a, go_slice 0 20 c = Ok a) as [a ->].
  { unfold go_slice. destruct (Nat.leb_spec 20 (length c)); [by eexists|lia]. }
  rewrite Ok_bind. by rewrite (go_slice_Panic c 20 24) by lia.
Qed.

Lemma exit_short_code from toAddr e txHash w c :
  toAddr = GetValidatorsStateAddress bc → GetCode w (e_creatorAddress e) = Some c → (length c < 24)%nat →
  validatorExit bc ctx from toAddr e txHash w = (Panic, w).
Proof.
  intros Hto Hc Hl. unfold validatorExit.
  rewrite guard_pass by (unfold IsValidatorOp; by rewrite bool_decide_true).
  st_step. unfold GetValidator. rewrite Hc, ToValidator_short by done. by st_step.
Qed.

(** The checks of a deposit that come before the record is read. *)
Record deposit_checked (from toAddr : Address) (value : option Z) (op : depositOperation) (w : World)
    (dlg : option DelegatingStakeData) : Prop := {
  dc_to : toAddr = GetValidatorsStateAddress bc;
  dc_sig : VerifyDepositSig (d_signature op) (d_pubkey op) (d_creator_address op) (d_withdrawal_address op) = Ok tt;
  dc_value : ∃ val, value = Some val ∧ MinDepositVal ≤ val ≤ GetBalance w from ∧ is_u64 (val / BigGwei);
  dc_delegate : depositDelegate bc ctx op = Ok dlg
}.

Lemma deposit_no_withdrawal from toAddr value op txHash w dlg v :
  deposit_checked from toAddr value op w dlg → GetValidator w (d_creator_address op) = Ok v →
  v_ActivationEra v = MaxUint64 → v_PubKey v = d_pubkey op → v_WithdrawalAddress v = None →
  validatorDeposit bc ctx from toAddr value op txHash w = (Panic, w).
Proof.
  intros [Hto Hsig (val & -> & Hval & Hu) Hdlg] Hg Hact Hpk Hwa. unfold validatorDeposit.
  rewrite guard_pass by (unfold IsValidatorOp; by rewrite bool_decide_true).
  rewrite Hsig. st_step. destruct (Z.ltb_spec val MinDepositVal); [lia|]. st_step.
  rewrite guard_pass by (apply negb_false_iff; by apply BnCanCastToUint64_true).
  st_step. rewrite guard_pass by (apply Z.ltb_ge; lia). rewrite Hdlg. st_step.
  cbv zeta. unfold currentValidator. rewrite Hg. st_step. unfold checkDeposit.
  rewrite Hact, Z.ltb_irrefl, decide_False by (rewrite Hpk; tauto). rewrite Hwa. cbn [deref].
  reflexivity.
Qed.

Lemma legacy_payment op w v eb tr rules :
  GetValidator w (s_creator op) = Ok v → checkWithdrawalOp bc ctx op v = Ok tt →
  effectiveBalanceWei bc = Ok eb → refundable eb v = false → HasDelegatingStake v = Ok true →
  IsForkSlotDelegate (config bc) (ctx_Slot ctx) = true → actualRules bc ctx v = Ok (tr, rules) →
  s_balance op = None → validatorUpdateBalance bc ctx op w = (Panic, w).
Proof.
  intros Hg Hck Heb Href Hst Hf Hr Hb. unfold validatorUpdateBalance.
  st_step. rewrite Hg. st_step. rewrite Hck. st_step. cbv zeta. rewrite Heb. st_step.
  fold (settled bc ctx v).
  assert (refundable eb (settled bc ctx v) = refundable eb v ∧
          HasDelegatingStake (settled bc ctx v) = HasDelegatingStake v ∧
          actualRules bc ctx (settled bc ctx v) = actualRules bc ctx v) as (-> & -> & Hr').
  { unfold settled, updateValidatorVersionBySlot. by rewrite SetWithdrawalTx_eq, SetVersion_eq. }
  rewrite Href, Hst. st_step. unfold applyDelegatingStakeRules.
  rewrite guard_pass by (by rewrite Hf). rewrite Hr', Hr. st_step. rewrite Hb. reflexivity.
Qed.
End payments.

(** ** Theorems *)

Section theorems.
Context `{!Bitlist, !MapRange, !SortSlice, !Crypto, !SigScheme}.

(** C27: Only authorised senders make requests, and a request moves no money. An exit is accepted
    from the withdrawal address of a validator that is not leaving, or from an address with the
    exit role of the delegated stake in force; a withdrawal from the same kind of sender, or, as
    long as the deposits cannot activate the validator, from a depositor for at most the own
    stake. In both cases all balances stay as they are. *)
Theorem requests_authorised bc ctx sa n tx w ret w' :
  world_ok sa n w → tx_ok sa tx → exec bc ctx tx w = (Ok ret, w') →
  (∀ e, DecodeOperation (tx_data tx) = Ok (OpExit e) →
     same_balances w w' ∧ ∃ v, GetValidator w (e_creatorAddress e) = Ok v ∧ v_PubKey v = e_pubKey e ∧
       v_ExitEra v = MaxUint64 ∧ allowed bc ctx Exit (tx_from tx) v) ∧
  (∀ x, DecodeOperation (tx_data tx) = Ok (OpWithdrawal x) →
     same_balances w w' ∧ ∃ v eb, GetValidator w (w_creatorAddress x) = Ok v ∧ effectiveBalanceWei bc = Ok eb ∧
       if refundable eb v
       then 0 < GetStakeByAddress v (tx_from tx) ∧ w_amount x ≤ GetStakeByAddress v (tx_from tx)
       else allowed bc ctx Withdrawal (tx_from tx) v).
Proof.
  intros Hw Htx He. split; intros op Hd; (split; [eapply exec_request_balances; eauto|]).
  - by eapply exec_exit_allowed.
  - eapply exec_withdrawal_allowed; [exact Hw|apply (to_creator sa tx Htx _ Hd)|done|done].
Qed.


(** C23: The payment to a validator without delegated stake, and the refund of deposits that cannot
    activate one, credit exactly the amount of the operation to exactly one account, which is the
    withdrawal address or the sender of the withdrawal, and end the request. After the fork that
    tracks operations, a refund takes what it can from the stake of that sender and touches no other
    stake; before it, a refund leaves all stakes as they are. *)
Theorem payment_effect bc ctx sa n op w ret w' v eb :
  (n ≤ max_ops)%nat → world_ok sa n w → s_creator op ≠ sa → sync_ranges op →
  GetValidator w (s_creator op) = Ok v → effectiveBalanceWei bc = Ok eb →
  refundable eb v = true ∨ HasDelegatingStake v = Ok false →
  validatorUpdateBalance bc ctx op w = (Ok ret, w') →
  ∃ to amount v',
    sync_Amount op = Some amount ∧
    (∀ a, GetBalance w' a = GetBalance w a + if decide (a = to) then amount else 0) ∧
    GetValidator w' (s_creator op) = Ok v' ∧ GetWithdrawalTx v' = None ∧
    if refundable eb v then
      (∃ data, bc_GetTransaction bc (s_initTxHash op) = Some (data, to)) ∧
      ∀ a, GetStakeByAddress v' a =
        GetStakeByAddress v a -
          if IsForkSlotValOpTracking (config bc) (ctx_Slot ctx) && bool_decide (a = to)
          then Z.min amount (GetStakeByAddress v to) else 0
    else v_WithdrawalAddress v = Some to ∧ ∀ a, GetStakeByAddress v' a = GetStakeByAddress v a.
Proof.
  intros Hn Hw Ha Hs Hg Heb Hcase He.
  apply validatorUpdateBalance_Ok in He as (v1 & eb1 & Hg1 & _ & Heb1 & He).
  rewrite Hg in Hg1. injection Hg1 as <-. rewrite Heb in Heb1. injection Heb1 as <-.
  destruct (wo_records sa n w Hw _ _ Ha Hg) as (Hv & Hva & _).
  destruct (settled_ok bc ctx n v Hv) as [Hr Hra].
  assert (refundable eb (settled bc ctx v) = refundable eb v ∧
          ∀ a, GetStakeByAddress (settled bc ctx v) a = GetStakeByAddress v a) as [Href Hst].
  { unfold settled, updateValidatorVersionBySlot. by rewrite SetWithdrawalTx_eq, SetVersion_eq. }
  rewrite Href in He. destruct (refundable eb v).
  - destruct He as (to & v' & Hp & He). destruct (payValidator_effect _ _ _ _ _ _ _ _ He) as (am & Ham & Hbal).
    destruct (refundPayment_ok bc ctx n op _ to v' Hs Hr Hp) as [Hv' Hva'].
    destruct (refundPayment_stake bc ctx n op _ to v' am Hs Hr Ham Hp) as [Hfrom Hst'].
    exists to, am, (stored v'). split_and!; try done.
    + rewrite <- Hva, <- Hra, <- Hva'. by eapply payValidator_record.
    + by eapply refundPayment_untracked.
    + intros a. rewrite <- !Hst. apply Hst'.
  - destruct Hcase as [?|Hd]; [done|]. destruct He as [[Hd' _]|(_ & to & Hto & He)]; [congruence|].
    destruct (payValidator_effect _ _ _ _ _ _ _ _ He) as (am & Ham & Hbal).
    exists to, am, (stored (settled bc ctx v)). split_and!; try done.
    + rewrite <- Hva, <- Hra. by eapply payValidator_record.
    + apply settled_untracked.
Qed.

(** C24: The payouts of a delegated stake are not negative and do not exceed the amount of the payment,
    for an amount that is not negative, valid rules, and a balance after the withdrawal that is at most
    the effective balance: each account is credited the percentages of its shares. When moreover every
    participant is listed once, they miss the amount by less than two hundred wei. (For a balance
    above the effective balance the first bound does not hold.) *)
Theorem payout_bounds bc ctx op w v eb tr rules balance amount ret w' :
  delegated bc ctx op w v eb tr rules balance amount → shares_valid rules → balance ≤ eb →
  validatorUpdateBalance bc ctx op w = (Ok ret, w') →
  ∃ up, (∀ a, GetBalance w' a = GetBalance w a + credit up a) ∧
    (∀ x, x ∈ up → 0 ≤ amount_of x) ∧ payout_total up ≤ amount ∧
    (shares_distinct rules → amount - 198 ≤ payout_total up).
Proof.
  intros Hdel Hval Hb He.
  destruct (delegated_update bc ctx op w v eb tr rules balance amount ret w' Hdel He)
    as (ps & ss & up & p & q & Hps & Hss & Hsh & -> & Hbal & _).
  destruct (shareAmounts_below balance amount eb (dg_nonneg _ _ _ _ _ _ _ _ _ _ Hdel) Hb) as (p' & q' & Hsh' & Hp & Hq & Hpq).
  rewrite Hsh in Hsh'. injection Hsh' as <- <-.
  destruct (rules_share_total rules ps ss Hval Hps Hss) as ((Hpn & Hpl) & (Hsn & Hsl) & Hdist).
  destruct (payout_total_bounds RuleProfitShare tr p ps Hp Hpn Hpl) as [Hb1 Hb1'].
  destruct (payout_total_bounds RuleStakeShare tr q ss Hq Hsn Hsl) as [Hb2 Hb2'].
  eexists. split; [exact Hbal|]. split_and!.
  - intros x Hx. apply elem_of_app in Hx as [Hx|Hx]; by eapply payouts_nonneg in Hx.
  - unfold payout_total in *. rewrite map_app, zsum_app. lia.
  - intros [Hd1 Hd2]%Hdist. specialize (Hb1' Hd1). specialize (Hb2' Hd2).
    unfold payout_total in *. rewrite map_app, zsum_app. lia.
Qed.

(** C37: When the balance of the validator after the withdrawal is still above the effective
    balance, the payouts have nothing to do with the amount of the payment: the participants get
    all that is above the effective balance, up to the rounding, however small the amount is. *)
Theorem payout_ignores_amount bc ctx op w v eb tr rules balance amount ret w' :
  delegated bc ctx op w v eb tr rules balance amount → shares_valid rules → shares_distinct rules →
  eb < balance → validatorUpdateBalance bc ctx op w = (Ok ret, w') →
  ∃ up, (∀ a, GetBalance w' a = GetBalance w a + credit up a) ∧
    payout_total up = (balance - eb) / 100 * 100.
Proof.
  intros Hdel Hval Hdist Hb He.
  destruct (delegated_update bc ctx op w v eb tr rules balance amount ret w' Hdel He)
    as (ps & ss & up & p & q & Hps & Hss & Hsh & -> & Hbal & _).
  rewrite (shareAmounts_above balance amount eb (dg_nonneg _ _ _ _ _ _ _ _ _ _ Hdel) Hb) in Hsh. injection Hsh as <- <-.
  destruct (rules_share_total rules ps ss Hval Hps Hss) as (_ & _ & Hd). destruct (Hd Hdist) as [Hd1 _].
  eexists. split; [exact Hbal|]. unfold payout_total. rewrite map_app, zsum_app. fold (payout_total (payouts RuleProfitShare tr (balance - eb) ps)).
  rewrite payout_total_payouts, Hd1. destruct (Z.ltb_spec 0 (balance - eb)); [|lia].
  unfold payouts. simpl. unfold zsum. simpl. lia.
Qed.

(** A payment to a validator with delegated stake does not end the withdrawal request, unlike
    other payments: the record stays as it is, and the next withdrawal is refused until the
    request that was just answered expires. *)
Theorem delegated_request_kept bc ctx op w v eb tr rules balance amount ret w' :
  delegated bc ctx op w v eb tr rules balance amount →
  validatorUpdateBalance bc ctx op w = (Ok ret, w') →
  GetValidator w' (s_creator op) = Ok v ∧
  ∀ bc2 ctx2 tx2 x ret2 w2, Version v = Ver1 → DecodeOperation (tx_data tx2) = Ok (OpWithdrawal x) →
    w_creatorAddress x = s_creator op → blockedBy bc2 ctx2 (GetWithdrawalTx v) = true →
    exec bc2 ctx2 tx2 w' ≠ (Ok ret2, w2).
Proof.
  intros Hdel He.
  destruct (delegated_update bc ctx op w v eb tr rules balance amount ret w' Hdel He)
    as (ps & ss & up & p & q & _ & _ & _ & _ & _ & Hc).
  assert (GetValidator w' (s_creator op) = Ok v) as Hg.
  { rewrite (GetValidator_code w w') by apply Hc. apply (dg_record _ _ _ _ _ _ _ _ _ _ Hdel). }
  split; [done|]. intros bc2 ctx2 tx2 x ret2 w2 Hv Hd Hx Hb.
  eapply withdrawal_blocked; [exact Hd|rewrite Hx; exact Hg|exact Hv|exact Hb].
Qed.

(** A deposit for an address that holds other code, for example a contract, replaces that code
    by the record of a new validator: the error of reading the record is dropped. *)
Theorem deposit_overwrites_code bc ctx sa n tx op w c e ret w' :
  ValidatorsStateAddress (config bc) = Some sa → (n < max_ops)%nat → world_ok sa n w → tx_ok sa tx →
  DecodeOperation (tx_data tx) = Ok (OpDeposit op) →
  GetCode w (d_creator_address op) = Some c → ToValidator c = Err e →
  exec bc ctx tx w = (Ok ret, w') →
  ∃ c' v, GetCode w' (d_creator_address op) = Some c' ∧ c' ≠ c ∧ ToValidator c' = Ok v.
Proof.
  intros Hsa Hn Hw Htx Hd Hc Ht He.
  destruct (deposit_Ok bc ctx sa Hsa n tx op w ret w' Hn Hw Htx Hd He)
    as (val & v & v0 & k & l & _ & _ & _ & _ & _ & _ & _ & _ & _ & Hg & _).
  unfold GetValidator in Hg. destruct (GetCode w' (d_creator_address op)) as [c'|]; [|done].
  exists c', (stored v). split_and!; [done| |done]. intros ->. congruence.
Qed.

(** The processor panics on operations that a transaction can carry: an exit for an address
    with a code of less than 24 bytes, whoever sends it; a second deposit for a validator that
    was made without a withdrawal address, as a delegated stake allows; and a payment in the
    encoding without version, which has no balance, to a validator with delegated stake. *)
Theorem processor_panics bc ctx :
  (∀ tx e w c, DecodeOperation (tx_data tx) = Ok (OpExit e) → tx_to tx = GetValidatorsStateAddress bc →
     GetCode w (e_creatorAddress e) = Some c → (length c < 24)%nat →
     (exec bc ctx tx w).1 = Panic) ∧
  (∀ tx op w dlg v, DecodeOperation (tx_data tx) = Ok (OpDeposit op) →
     deposit_checked bc ctx (tx_from tx) (tx_to tx) (tx_value tx) op w dlg →
     GetValidator w (d_creator_address op) = Ok v → v_ActivationEra v = MaxUint64 →
     v_PubKey v = d_pubkey op → v_WithdrawalAddress v = None →
     (exec bc ctx tx w).1 = Panic) ∧
  (∀ op w v eb tr rules, GetValidator w (s_creator op) = Ok v → checkWithdrawalOp bc ctx op v = Ok tt →
     effectiveBalanceWei bc = Ok eb → refundable eb v = false → HasDelegatingStake v = Ok true →
     IsForkSlotDelegate (config bc) (ctx_Slot ctx) = true → actualRules bc ctx v = Ok (tr, rules) →
     s_balance op = None → (validatorUpdateBalance bc ctx op w).1 = Panic).
Proof.
  split_and!.
  - intros tx e w c Hd Hto Hc Hl. rewrite exec_cases, Hd. cbn [handle].
    by rewrite (exit_short_code bc ctx _ _ e _ _ c) by (done || by unfold bump; rewrite GetCode_SetNonce).
  - intros tx op w dlg v Hd [Hto Hsig Hval Hdlg] Hg Hact Hpk Hwa. rewrite exec_cases, Hd. cbn [handle].
    rewrite (deposit_no_withdrawal bc ctx _ _ _ op _ _ dlg v); try done; [|by rewrite GetValidator_bump].
    split; try done. destruct Hval as (val & -> & Hr & Hu). exists val. unfold bump.
    by rewrite GetBalance_SetNonce.
  - intros op w v eb tr rules Hg Hck Heb Href Hst Hf Hr Hb.
    by rewrite (legacy_payment bc ctx op w v eb tr rules).
Qed.
End theorems.

(** ** Witnesses *)

#[local] Existing Instances ssz_bitlist list_range merge_slice toy_sig.

(** A run is split into its result, which is computed, and its state. *)
Lemma run_result {A B} (p : A * B) a : p.1 = a → p = (a, p.2).
Proof. destruct p. simpl. by intros ->. Qed.

(** A validator that is active since era 3, without and with delegated stake. *)
Definition toy_active_record : Validator :=
  SetActivationEra 3 (NewValidator (BytesToBlsPubKey [x21]) (toy_addr x21) (Some (toy_addr x22))).
Definition toy_delegating : Validator :=
  set_Delegating (Some (MkStakeData toy_rules 0 empty_rules)) toy_active_record.

Definition record_code (v : Validator) : bytes := match validator_MarshalBinary v with Ok c => c | _ => [] end.
Definition world_with (v : Validator) : World := SetCode (v_Address v) (record_code v) empty_world.

Lemma toy_active_ok : record_ok 0 toy_active_record.
Proof.
  split; try done; try (simpl; lia).
  - split; [apply NoDup_nil_2|done].
  - by left.
Qed.

Lemma world_with_ok : world_ok toy_vsa 0 (world_with toy_active_record).
Proof.
  apply (world_ok_set toy_vsa 0); [unfold max_ops; lia| |apply toy_active_ok|done|].
  - apply no_code_ok. done.
  - vm_compute. reflexivity.
Qed.

Definition toy_request (op : Operation) : Tx :=
  MkTx (toy_addr x22) toy_vsa None (match EncodeOperation op with Ok b => b | _ => [] end) (BytesToHash [x08]).
Definition toy_exit : Tx := toy_request (OpExit (MkExit (BytesToBlsPubKey [x21]) (toy_addr x21) (Some 100))).

Lemma toy_exit_ok : tx_ok toy_vsa toy_exit.
Proof. split; [vm_compute; congruence|]. intros op Hd. vm_compute in Hd. injection Hd as <-. done. Qed.

Lemma requests_authorised_witness :
  ∃ v, GetValidator (world_with toy_active_record) (toy_addr x21) = Ok v ∧
    allowed toy_bc toy_ctx Exit (toy_addr x22) v.
Proof.
  destruct (requests_authorised toy_bc toy_ctx toy_vsa 0 toy_exit (world_with toy_active_record)
    (fb (toy_addr x21)) (exec toy_bc toy_ctx toy_exit (world_with toy_active_record)).2) as [He _].
  - apply world_with_ok.
  - apply toy_exit_ok.
  - apply run_result. vm_compute. reflexivity.
  - destruct (He (MkExit (BytesToBlsPubKey [x21]) (toy_addr x21) (Some 100))) as (_ & v & Hg & _ & _ & Ha).
    + vm_compute. reflexivity.
    + exists v. split; [exact Hg|exact Ha].
Defined.

(** A later block: the receipt of the request is known. *)
Definition toy_bc_later : Blockchain :=
  MkBlockchain toy_vconfig (MkSlotInfo 0 4 32) 4000 (NewEraInfo (MkEra 3 0 100 (zero_fixed 32) (zero_fixed 32)))
    (λ _, Ok (Some (MkEra 3 0 100 (zero_fixed 32) (zero_fixed 32))))
    (WriteEra ∅ 3 (MkEra 3 0 100 (zero_fixed 32) (zero_fixed 32)))
    (λ _, None) (λ _, None) (λ _, (Some ReceiptStatusSuccessful, BytesToHash [x07])) (λ _, Some 1000).
Definition toy_ctx_later : BlockContext := MkBlockContext 1500 3 (BytesToHash [x17]).


Definition toy_payment (balance amount : Z) : validatorSyncOperation :=
  MkSync Ver1 UpdateBalance (BytesToHash [x31]) 5 7 (toy_addr x21) (Some amount) (Some (toy_addr x22)) (Some balance).

(** 3200 wat are needed for an activation. *)
Definition wat (n : Z) : Z := n * BigWat.

Lemma toy_payment_ranges balance amount : 0 ≤ amount → sync_ranges (toy_payment balance amount).
Proof. intros Ha. split; cbn; [unfold is_u64, two64; lia..|]. by intros x [= <-]. Qed.

Lemma payment_effect_witness :
  ∃ w', validatorUpdateBalance toy_bc toy_ctx (toy_payment (wat 3200) (wat 5)) (world_with toy_active_record) =
      (Ok (fb (toy_addr x21)), w') ∧
    ∃ to, v_WithdrawalAddress toy_active_record = Some to ∧ GetBalance w' to = wat 5.
Proof.
  set (w' := (validatorUpdateBalance toy_bc toy_ctx (toy_payment (wat 3200) (wat 5)) (world_with toy_active_record)).2).
  assert (validatorUpdateBalance toy_bc toy_ctx (toy_payment (wat 3200) (wat 5)) (world_with toy_active_record) =
    (Ok (fb (toy_addr x21)), w')) as He.
  { unfold w'. apply run_result. vm_compute. reflexivity. }
  exists w'. split; [exact He|].
  destruct (payment_effect toy_bc toy_ctx toy_vsa 0 (toy_payment (wat 3200) (wat 5)) (world_with toy_active_record)
    (fb (toy_addr x21)) w' toy_active_record (wat 3200)) as (to & amount & v' & Ham & Hbal & _ & _ & Hto & _).
  - unfold max_ops. lia.
  - apply world_with_ok.
  - done.
  - apply toy_payment_ranges. unfold wat, BigWat. lia.
  - vm_compute. reflexivity.
  - reflexivity.
  - right. reflexivity.
  - exact He.
  - exists to. split; [exact Hto|]. rewrite Hbal. injection Hto as <-. injection Ham as <-. vm_compute. reflexivity.
Defined.

Lemma toy_delegated balance amount :
  0 ≤ amount →
  delegated toy_bc_later toy_ctx_later (toy_payment balance amount) (world_with toy_delegating) toy_delegating
    (wat 3200) false toy_rules balance amount.
Proof. intros Ham. split; [vm_compute; reflexivity..|done]. Qed.

Lemma toy_shares_valid : shares_valid toy_rules.
Proof. split; vm_compute; reflexivity. Qed.

Lemma toy_shares_distinct : shares_distinct toy_rules.
Proof.
  split; [|split; vm_compute; reflexivity]. apply (bool_decide_unpack _). vm_compute. exact I.
Qed.

Definition pay_world (balance amount : Z) : World :=
  (validatorUpdateBalance toy_bc_later toy_ctx_later (toy_payment balance amount) (world_with toy_delegating)).2.

Lemma toy_payout :
  validatorUpdateBalance toy_bc_later toy_ctx_later (toy_payment (wat 3100) (wat 200)) (world_with toy_delegating) =
    (Ok (fb (toy_addr x21)), pay_world (wat 3100) (wat 200)).
Proof. unfold pay_world. apply run_result. vm_compute. reflexivity. Qed.

Lemma toy_payout_above :
  validatorUpdateBalance toy_bc_later toy_ctx_later (toy_payment (wat 3300) 1) (world_with toy_delegating) =
    (Ok (fb (toy_addr x21)), pay_world (wat 3300) 1).
Proof. unfold pay_world. apply run_result. vm_compute. reflexivity. Qed.

Lemma payout_bounds_witness :
  ∃ up, (∀ a, GetBalance (pay_world (wat 3100) (wat 200)) a = GetBalance (world_with toy_delegating) a + credit up a) ∧
    wat 200 - 198 ≤ payout_total up ≤ wat 200.
Proof.
  destruct (payout_bounds toy_bc_later toy_ctx_later (toy_payment (wat 3100) (wat 200)) (world_with toy_delegating)
    toy_delegating (wat 3200) false toy_rules (wat 3100) (wat 200) (fb (toy_addr x21)) (pay_world (wat 3100) (wat 200)))
    as (up & Hbal & _ & Hle & Hge).
  - apply toy_delegated. vm_compute. congruence.
  - apply toy_shares_valid.
  - vm_compute. congruence.
  - apply toy_payout.
  - exists up. split; [exact Hbal|]. split; [exact (Hge toy_shares_distinct)|exact Hle].
Defined.

Lemma payout_ignores_amount_witness :
  ∃ up, (∀ a, GetBalance (pay_world (wat 3300) 1) a = GetBalance (world_with toy_delegating) a + credit up a) ∧
    payout_total up = wat 100.
Proof.
  destruct (payout_ignores_amount toy_bc_later toy_ctx_later (toy_payment (wat 3300) 1) (world_with toy_delegating)
    toy_delegating (wat 3200) false toy_rules (wat 3300) 1 (fb (toy_addr x21)) (pay_world (wat 3300) 1))
    as (up & Hbal & Ht).
  - apply toy_delegated. lia.
  - apply toy_shares_valid.
  - apply toy_shares_distinct.
  - vm_compute. congruence.
  - apply toy_payout_above.
  - exists up. split; [exact Hbal|]. rewrite Ht. reflexivity.
Defined.

