(* ===== verification/Fees.v ===== *)
(** * Fees

    The base fee of a slot, the reward of the creator of a block and the gas limit of a header
    (src/consensus/misc/eip1559.go and gaslimit.go). The fees are computed with [big.Float], the
    arbitrary-precision floating point of the standard library, which is modelled here as far as
    the code uses it: values that are not negative, each with a precision; an operation takes the
    larger precision of its operands and rounds to the nearest value, ties to even. *)

From Stdlib Require Import ZArith Lia Strings.Byte.
From stdpp Require Import base tactics option numbers list gmap strings.
From S2P Require Import Prelude Common Chain.

(** ** Floating point *)

Definition bitlen (z : Z) : Z := if z =? 0 then 0 else Z.log2 z + 1.

(** A mantissa and an exponent rounded to [prec] bits. *)
Definition round_to (prec m e : Z) : Z * Z :=
  let s := bitlen m - prec in
  if s <=? 0 then (m, e) else
  let q := Z.shiftr m s in
  let r := m - Z.shiftl q s in
  let half := Z.shiftl 1 (s - 1) in
  (if (half <? r) || ((half =? r) && Z.odd q) then q + 1 else q, e + s).

(** The value [m * 2^e] of a finite number, zero, or infinity. *)
Inductive fvalue :=
| FZero
| FFinite (m e : Z)
| FInf.

Record bfloat := MkFloat { f_prec : Z; f_value : fvalue }.

Definition rounded (prec m e : Z) : bfloat :=
  let '(m, e) := round_to prec m e in MkFloat prec (FFinite m e).

Definition of_Z (prec z : Z) : bfloat :=
  if z =? 0 then MkFloat prec FZero else MkFloat prec (FFinite z 0).

Definition SetUint64 (x : Z) : bfloat := of_Z 64 x.
Definition SetInt (x : Z) : bfloat := of_Z (Z.max (bitlen x) 64) x.
(** [big.NewFloat] and [SetFloat64] of the [float64] value [m * 2^e]. *)
Definition NewFloat (m e : Z) : bfloat := MkFloat 53 (FFinite m e).

(** Zero times infinity is not a number, for which the package panics. *)
Definition Mul (x y : bfloat) : go_res bfloat :=
  let prec := Z.max (f_prec x) (f_prec y) in
  match f_value x, f_value y with
  | FFinite mx ex, FFinite my ey => Ok (rounded prec (mx * my) (ex + ey))
  | FZero, FInf | FInf, FZero => Panic
  | FInf, _ | _, FInf => Ok (MkFloat prec FInf)
  | _, _ => Ok (MkFloat prec FZero)
  end.

(** The quotient is computed to two bits more than needed, with a last bit for the remainder. *)
Definition Quo (x y : bfloat) : go_res bfloat :=
  let prec := Z.max (f_prec x) (f_prec y) in
  match f_value x, f_value y with
  | FFinite mx ex, FFinite my ey =>
      let k := prec + 2 + bitlen my in
      let n := Z.shiftl mx k in
      Ok (rounded prec (2 * (n / my) + (if n mod my =? 0 then 0 else 1)) (ex - ey - k - 1))
  | FZero, FZero | FInf, FInf => Panic
  | FZero, _ | _, FInf => Ok (MkFloat prec FZero)
  | _, _ => Ok (MkFloat prec FInf)
  end.

(** The rounded square root, from the integer square root in the same way. *)
Definition Sqrt (x : bfloat) : bfloat :=
  let prec := f_prec x in
  match f_value x with
  | FFinite m e =>
      let k0 := 2 * (prec + 2) in
      let k := k0 + (e - k0) mod 2 in
      let n := Z.shiftl m k in
      let s := Z.sqrt n in
      rounded prec (2 * s + (if n - s * s =? 0 then 0 else 1)) ((e - k) / 2 - 1)
  | v => MkFloat prec v
  end.

(** [x.Int(z)], which truncates, and leaves [z] alone for infinity; [z] is zero here. *)
Definition Int (x : bfloat) : Z :=
  match f_value x with
  | FFinite m e => if 0 <=? e then Z.shiftl m e else Z.shiftr m (- e)
  | _ => 0
  end.

(** ** Parameters *)

(** [new(big.Float).SetRat(2/3).Float64()]: a quotient with 64 bits, rounded to 53. *)
Definition BurnMultiplier : Z * Z :=
  match Quo (SetInt 2) (SetInt 3) with
  | Ok (MkFloat _ (FFinite m e)) => round_to 53 m e
  | _ => (0, 0)
  end.

(** [1 - params.BurnMultiplier] in [float64]. *)
Definition validatorPart : bfloat :=
  let '(m, e) := BurnMultiplier in
  let '(m, e) := round_to 53 (Z.shiftl 1 (- e) - m) e in NewFloat m e.

Definition PriceMultiplier : bfloat := NewFloat 3 0.
Definition OptValidatorsNum : Z := 300000.
Definition OptValidatorsNumBeforeReduceBaseFee : Z := 3000000.
(** The [float64] nearest to 0.2. *)
Definition MaxAnnualizedReturnRate : bfloat := NewFloat 3602879701896397 (-54).
Definition GasLimitBoundDivisor : Z := 1024.
Definition MinGasLimit : Z := 5000.

(** ** Base fee *)

Definition CalcSlotBaseFee (config : ChainConfig)
    (creatorsPerSlotCount validatorsCount maxGasAmountPerBlock slot : Z) : go_res Z :=
  effectiveBalance ← deref (EffectiveBalance config);
  effectiveBalanceInWei ← Mul (SetInt effectiveBalance) (NewFloat 1000000000 0);
  let validatorsAmountBig := SetUint64 validatorsCount in
  stakeAmount ← Mul (SetUint64 validatorsCount) effectiveBalanceInWei;
  let secondsInYear := SetUint64 31557600 in
  let slotTimeBig := SetUint64 (SecondsPerSlot config) in
  let blocksPerSlotBig := SetUint64 creatorsPerSlotCount in
  let optValidatorsNumBig :=
    SetUint64 (if IsForkSlotReduceBaseFee config slot then OptValidatorsNum
               else OptValidatorsNumBeforeReduceBaseFee) in
  ratio ← Quo optValidatorsNumBig validatorsAmountBig;
  annualizedReturnRate ← Mul MaxAnnualizedReturnRate (Sqrt ratio);
  annualizedMintedAmount ← Mul stakeAmount annualizedReturnRate;
  slotsPerYear ← Quo secondsInYear slotTimeBig;
  dagBlocksPerYear ← Mul slotsPerYear blocksPerSlotBig;
  perBlock ← Quo annualizedMintedAmount dagBlocksPerYear;
  price ← Mul perBlock PriceMultiplier;
  perGas ← Quo price (SetUint64 maxGasAmountPerBlock);
  feeForGas ← Mul perGas (NewFloat 1000000000 0);
  Ok (Int feeForGas).

Definition CalcCreatorReward (gas baseFee : Z) : go_res Z :=
  reward ← Mul validatorPart (SetInt (gas * baseFee));
  Ok (Int reward).

(** ** Gas limit *)

Definition errGasLimit : error := Error "invalid gas limit".
Definition errGasLimitLow : error := Error "invalid gas limit below 5000".

Definition VerifyGaslimit (parentGasLimit headerGasLimit : Z) : go_res unit :=
  let diff := i64 (i64 parentGasLimit - i64 headerGasLimit) in
  let diff := if diff <? 0 then i64 (diff * -1) else diff in
  let limit := parentGasLimit / GasLimitBoundDivisor in
  _ ← fail_if (limit <=? u64 diff) errGasLimit;
  fail_if (headerGasLimit <? MinGasLimit) errGasLimitLow.

(** ** Lemmas on rounding *)

Lemma bitlen_spec m : 0 < m → 2 ^ (bitlen m - 1) ≤ m < 2 ^ bitlen m.
Proof.
  intros Hm. unfold bitlen. destruct (Z.eqb_spec m 0); [lia|].
  replace (Z.log2 m + 1 - 1) with (Z.log2 m) by lia. rewrite Z.add_1_r. by apply Z.log2_spec.
Qed.

(** The exponent grows by [s], and the error is at most half a unit of the last place, which is
    one part in [2^prec] of the value. *)
Lemma round_to_spec prec m e : 0 < m → 0 < prec → ∃ m' s h,
  round_to prec m e = (m', e + s) ∧ 0 ≤ s ∧ 0 < m' ∧ 0 ≤ h ∧ m - h ≤ m' * 2 ^ s ≤ m + h ∧ h * 2 ^ prec ≤ m.
Proof.
  intros Hm Hp. unfold round_to. destruct (Z.leb_spec (bitlen m - prec) 0) as [Hs|Hs].
  { exists m, 0, 0. rewrite Z.add_0_r, Z.mul_1_r. split_and!; try done; lia. }
  set (s := bitlen m - prec) in *. rewrite !Z.shiftl_mul_pow2, Z.shiftr_div_pow2, Z.mul_1_l by lia.
  pose proof (bitlen_spec m Hm) as Hb. pose proof (Z.div_mod m (2 ^ s) ltac:(lia)) as Hdm.
  pose proof (Z.mod_pos_bound m (2 ^ s) ltac:(lia)) as Hmod.
  assert (2 ^ s = 2 * 2 ^ (s - 1)) as Hh by (rewrite <- Z.pow_succ_r by lia; f_equal; lia).
  assert (2 ^ (bitlen m - 1) = 2 ^ (s - 1) * 2 ^ prec) as Hbp by (rewrite <- Z.pow_add_r by lia; f_equal; lia).
  assert (0 < m / 2 ^ s) as Hq.
  { apply Z.div_str_pos. split; [lia|]. etrans; [|apply Hb]. apply Z.pow_le_mono_r; lia. }
  set (q := m / 2 ^ s) in *. set (h := 2 ^ (s - 1)) in *.
  replace (m - q * 2 ^ s) with (m mod 2 ^ s) by lia.
  eexists _, s, h. split; [done|]. split; [lia|].
  destruct (Z.ltb_spec h (m mod 2 ^ s)), (Z.eqb_spec h (m mod 2 ^ s)), (Z.odd q); cbn [orb andb]; lia.
Qed.

(** ** Reward *)

Lemma validatorPart_eq : validatorPart = NewFloat 3002399751580331 (-53).
Proof. vm_compute. reflexivity. Qed.

(** The reward of the creator is the third part of the fee, up to the rounding: it misses less than
    one wei, and what it has too much is below one part in [2^52]. *)
Lemma creator_reward_spec gas baseFee : 0 ≤ gas * baseFee → ∃ r,
  CalcCreatorReward gas baseFee = Ok r ∧ 0 ≤ r ∧ gas * baseFee ≤ 3 * r + 2 ∧
  3 * r * 2 ^ 52 ≤ gas * baseFee * (2 ^ 52 + 1).
Proof.
  intros Hfee. unfold CalcCreatorReward. rewrite validatorPart_eq. set (fee := gas * baseFee) in *.
  unfold Mul, SetInt, of_Z. cbn [f_prec f_value NewFloat]. destruct (Z.eqb_spec fee 0) as [Hz|Hz].
  { exists 0. rewrite Hz. split; [done|]. lia. }
  set (prec := Z.max 53 (Z.max (bitlen fee) 64)).
  destruct (round_to_spec prec (3002399751580331 * fee) (-53 + 0)) as (m' & s & h & Hr & Hs & Hm' & Hh & Herr & Hrel);
    [lia|lia|]. cbn [f_prec f_value] in *. fold prec. unfold rounded. rewrite Hr. cbn [mbind go_res_bind].
  assert (h * 2 ^ 64 ≤ 3002399751580331 * fee) as Hrel'.
  { etrans; [|exact Hrel]. apply Z.mul_le_mono_nonneg_l; [lia|]. apply Z.pow_le_mono_r; lia. }
  assert (∃ r, Int (MkFloat prec (FFinite m' (-53 + 0 + s))) = r ∧
    2 ^ 53 * r ≤ m' * 2 ^ s < 2 ^ 53 * r + 2 ^ 53) as (r & -> & Hb).
  { eexists. split; [done|]. unfold Int. cbn [f_value]. destruct (Z.leb_spec 0 (-53 + 0 + s)).
    - rewrite Z.shiftl_mul_pow2 by lia. assert (2 ^ s = 2 ^ (-53 + 0 + s) * 2 ^ 53) as ->; [|lia].
      rewrite <- Z.pow_add_r by lia. f_equal. lia.
    - rewrite Z.shiftr_div_pow2 by lia. assert (2 ^ 53 = 2 ^ (- (-53 + 0 + s)) * 2 ^ s) as Hp.
      { rewrite <- Z.pow_add_r by lia. f_equal. lia. }
      pose proof (Z.div_mod m' (2 ^ (- (-53 + 0 + s))) ltac:(lia)).
      pose proof (Z.mod_pos_bound m' (2 ^ (- (-53 + 0 + s))) ltac:(lia)). rewrite Hp. nia. }
  exists r. split; [done|]. lia.
Qed.
