(* ===== verification/Evm.v ===== *)
(** * Calls of the virtual machine

    The entry points of the EVM (src/core/vm/evm.go): [Call] and its variants, [Create] and
    [Create2], with the transfer of value (src/core/evm.go), the snapshot that is reverted when
    the execution fails, and the gas that is left. The interpreter of byte code, which calls the
    entry points again, is an interface here ([Interpreter]) and modelled in Interp.v; the
    precompiled contracts are a parameter ([Precompiles]). Tracers do not change the state and are
    left out.

    What the entry points promise is relative to the interpreter: they return at most the gas that
    they got when it does ([GasLaws]), end when it does, and keep every relation between worlds
    that it and the changes of the entry points keep ([vm_rel]). *)

From Stdlib Require Import ZArith Lia Strings.Byte.
From stdpp Require Import base tactics option numbers list gmap strings.
From S2P Require Import Prelude Common RlpEnc World.

Definition ErrOutOfGas : error := Error "vm.ErrOutOfGas".
Definition ErrCodeStoreOutOfGas : error := Error "vm.ErrCodeStoreOutOfGas".
Definition ErrDepth : error := Error "vm.ErrDepth".
Definition ErrInsufficientBalance : error := Error "vm.ErrInsufficientBalance".
Definition ErrContractAddressCollision : error := Error "vm.ErrContractAddressCollision".
Definition ErrExecutionReverted : error := Error "vm.ErrExecutionReverted".
Definition ErrMaxCodeSizeExceeded : error := Error "vm.ErrMaxCodeSizeExceeded".
Definition ErrInvalidCode : error := Error "vm.ErrInvalidCode".

Definition CallCreateDepth : Z := 1024.
Definition MaxCodeSize : nat := 24576.
Definition CreateDataGas : Z := 200.
Definition TxAccessListStorageKeyGas : Z := 1900.

(** ** Contracts and the interpreter *)

(** [Contract] without the cache of the jump analysis. *)
Record Contract := MkContract {
  CallerAddress : Address;
  ct_self : Address;
  ct_value : option Z;
  ct_Gas : Z;
  ct_Code : bytes;
  ct_CodeHash : Hash;
  ct_CodeAddr : Address
}.

(** What an execution returns: the output, the gas that is left and the error. *)
Abbreviation vmres := (bytes * Z * option error)%type.

(** The precompiled contracts, which are cryptographic functions, with their prices. *)
Class Precompiles := {
  RequiredGas : Address → bytes → Z;
  PrecompileRun : Address → bytes → bytes * option error
}.

(** [EVMInterpreter.Run] at a depth, with the contract, the input and whether the state may only
    be read. *)
Class Interpreter := {
  Run : Z → Contract → bytes → bool → stM World vmres
}.

(** The keys of [PrecompiledContractsBerlin], the rules of every slot. *)
Definition precompiled : list Address :=
  map (λ b, BytesToAddress [b]) [x01; x02; x03; x04; x05; x06; x07; x08; x09].

(** ** Transfers *)

Definition CanTransfer (w : World) (a : Address) (amount : Z) : bool := amount <=? GetBalance w a.

Definition Transfer (sender recipient : Address) (amount : Z) (w : World) : World :=
  AddBalance recipient amount (SubBalance sender amount w).

Section evm.
Context `{!Crypto, !Precompiles, !Interpreter}.

Definition emptyCodeHash : Hash := keccak256 [].

Definition RunPrecompiledContract (p : Address) (input : bytes) (suppliedGas : Z) : vmres :=
  let gasCost := RequiredGas p input in
  if suppliedGas <? gasCost then ([], 0, Some ErrOutOfGas)
  else let '(output, err) := PrecompileRun p input in (output, suppliedGas - gasCost, err).

(** The common end of the calls: an error goes back to the snapshot and, unless the contract
    itself reverted, takes the gas. *)
Definition finish (snapshot : World) (r : go_res vmres * World) : go_res vmres * World :=
  match r with
  | (Ok (ret, gas, Some e), _) =>
      (Ok (ret, if decide (e = ErrExecutionReverted) then gas else 0, Some e), snapshot)
  | r => r
  end.

(** The code of an address in a given context. *)
Definition run_at (depth : Z) (callerAddress self : Address) (value : option Z) (gas : Z) (addr : Address)
    (input : bytes) (readOnly : bool) (w : World) : go_res vmres * World :=
  if decide (addr ∈ precompiled) then (Ok (RunPrecompiledContract addr input gas), w)
  else
    Run depth (MkContract callerAddress self value gas (default [] (GetCode w addr)) (GetCodeHash w addr) addr)
      input readOnly w.

(** The entry points; [static] is the flag [readOnly] of the interpreter, which stays set in the
    calls of a contract that was called to read only. *)
Definition Call (static : bool) (depth : Z) (caller addr : Address) (input : bytes) (gas value : Z) (w : World) :
    go_res vmres * World :=
  if CallCreateDepth <? depth then (Ok ([], gas, Some ErrDepth), w) else
  if negb (value =? 0) && negb (CanTransfer w caller value)
  then (Ok ([], gas, Some ErrInsufficientBalance), w) else
  let snapshot := w in
  let isPrecompile := bool_decide (addr ∈ precompiled) in
  if negb (Exist w addr) && negb isPrecompile && (value =? 0) then (Ok ([], gas, None), w) else
  let w := if Exist w addr then w else CreateAccount addr w in
  let w := Transfer caller addr value w in
  let code := default [] (GetCode w addr) in
  finish snapshot
    (if negb isPrecompile && (Nat.eqb (length code) 0 || IsValidatorAddress w addr)
     then (Ok ([], gas, None), w)
     else run_at depth caller addr (Some value) gas addr input static w).

Definition CallCode (static : bool) (depth : Z) (caller addr : Address) (input : bytes) (gas value : Z) (w : World) :
    go_res vmres * World :=
  if CallCreateDepth <? depth then (Ok ([], gas, Some ErrDepth), w) else
  if negb (CanTransfer w caller value) then (Ok ([], gas, Some ErrInsufficientBalance), w) else
  finish w (run_at depth caller caller (Some value) gas addr input static w).

(** The caller is a contract, whose own caller and value are kept. *)
Definition DelegateCall (static : bool) (depth : Z) (caller : Contract) (addr : Address) (input : bytes) (gas : Z)
    (w : World) : go_res vmres * World :=
  if CallCreateDepth <? depth then (Ok ([], gas, Some ErrDepth), w) else
  finish w (run_at depth (CallerAddress caller) (ct_self caller) (ct_value caller) gas addr input static w).

Definition StaticCall (depth : Z) (caller addr : Address) (input : bytes) (gas : Z) (w : World) :
    go_res vmres * World :=
  if CallCreateDepth <? depth then (Ok ([], gas, Some ErrDepth), w) else
  finish w (run_at depth caller addr (Some 0) gas addr input true (AddBalance addr 0 w)).

(** The checks of the code that a constructor returns, and storing it. *)
Definition storeCode (address : Address) (r : go_res vmres * World) : go_res vmres * World :=
  match r with
  | (Ok (ret, gas, None), w) =>
      if Nat.ltb MaxCodeSize (length ret) then (Ok (ret, gas, Some ErrMaxCodeSizeExceeded), w)
      else if bool_decide (head ret = Some xef) then (Ok (ret, gas, Some ErrInvalidCode), w)
      else
        let createDataGas := Z.of_nat (length ret) * CreateDataGas in
        if gas <? createDataGas then (Ok (ret, gas, Some ErrCodeStoreOutOfGas), w)
        else (Ok (ret, gas - createDataGas, None), SetCode address ret w)
  | r => r
  end.

(** There is no contract at an address yet. *)
Definition vacant (w : World) (address : Address) : bool :=
  let contractHash := GetCodeHash w address in
  (GetNonce w address =? 0) && bool_decide (contractHash = zero_fixed 32 ∨ contractHash = emptyCodeHash).

Definition create (static : bool) (depth : Z) (caller : Address) (code : bytes) (codeHash : Hash) (gas value : Z)
    (address : Address) (w : World) : go_res vmres * World :=
  if CallCreateDepth <? depth then (Ok ([], gas, Some ErrDepth), w) else
  if negb (CanTransfer w caller value) then (Ok ([], gas, Some ErrInsufficientBalance), w) else
  let w := SetNonce caller (u64 (GetNonce w caller + 1)) w in
  let w := AddAddressToAccessList address w in
  if negb (vacant w address) then (Ok ([], 0, Some ErrContractAddressCollision), w) else
  let snapshot := w in
  let w := CreateAccount address w in
  let w := SetNonce address 1 w in
  let w := Transfer caller address value w in
  finish snapshot (storeCode address
    (Run depth (MkContract caller address (Some value) gas code codeHash address) [] static w)).

(** [crypto.CreateAddress] and [crypto.CreateAddress2] *)
Definition CreateAddress (b : Address) (nonce : Z) : Address :=
  match EncodeToBytes (TStruct [TArray 20; TUint 64]) (VStruct [VArray (fb b); VUint nonce]) with
  | Ok data => BytesToAddress (drop 12 (fb (keccak256 data)))
  | _ => zero_fixed 20
  end.
Definition CreateAddress2 (b : Address) (salt : Hash) (inithash : bytes) : Address :=
  BytesToAddress (drop 12 (fb (keccak256 ([xff] ++ fb b ++ fb salt ++ inithash)))).

(** The address of the new contract is returned with the result. *)
Definition Create (static : bool) (depth : Z) (caller : Address) (code : bytes) (gas value : Z) (w : World) :
    Address * (go_res vmres * World) :=
  let contractAddr := CreateAddress caller (GetNonce w caller) in
  (contractAddr, create static depth caller code (zero_fixed 32) gas value contractAddr w).

Definition Create2 (static : bool) (depth : Z) (caller : Address) (code : bytes) (gas endowment : Z) (salt : Hash)
    (w : World) : Address * (go_res vmres * World) :=
  let contractAddr := CreateAddress2 caller salt (fb (keccak256 code)) in
  (contractAddr, create static depth caller code (keccak256 code) gas endowment contractAddr w).

(** ** The money in the world *)

Definition total (w : World) : Z := map_fold (λ _ x acc, acc_balance x + acc) 0 (accounts w).

Lemma fold_balance_insert (m : gmap Address Account) a x :
  map_fold (λ _ x acc, acc_balance x + acc) 0 (<[a := x]> m) =
  map_fold (λ _ x acc, acc_balance x + acc) 0 m + acc_balance x - acc_balance (default empty_account (m !! a)).
Proof.
  assert (∀ (m : gmap Address Account) x, m !! a = None →
    map_fold (λ _ x acc, acc_balance x + acc) 0 (<[a := x]> m) =
    acc_balance x + map_fold (λ _ x acc, acc_balance x + acc) 0 m) as Hnew.
  { intros m0 y Hm. rewrite map_fold_insert_L; [done| |done]. intros. lia. }
  destruct (m !! a) as [y|] eqn:Hm; cbn [default id].
  - rewrite <- (insert_delete_id m a y) at 2 by done. rewrite <- insert_delete_eq.
    rewrite !Hnew by apply lookup_delete_eq. lia.
  - rewrite Hnew by done. cbn. lia.
Qed.

Lemma total_update f a w :
  total (update_account f a w) = total w + acc_balance (f (account w a)) - acc_balance (account w a).
Proof. unfold total, update_account. cbn [accounts set_accounts]. by rewrite fold_balance_insert. Qed.

Transparent GetBalance AddBalance SubBalance SetNonce SetCode.

Lemma total_AddBalance a v w : total (AddBalance a v w) = total w + v.
Proof. unfold AddBalance. rewrite total_update. cbn. lia. Qed.

Lemma total_SubBalance a v w : total (SubBalance a v w) = total w - v.
Proof. unfold SubBalance. rewrite total_update. cbn. lia. Qed.

Lemma total_SetNonce a n w : total (SetNonce a n w) = total w.
Proof. unfold SetNonce. rewrite total_update. cbn. lia. Qed.

Lemma total_SetCode a c w : total (SetCode a c w) = total w.
Proof. unfold SetCode. rewrite total_update. cbn. lia. Qed.

Lemma total_CreateAccount a w : total (CreateAccount a w) = total w.
Proof.
  unfold total, CreateAccount. cbn [accounts set_accounts]. rewrite fold_balance_insert.
  unfold GetBalance, account. cbn. lia.
Qed.

Lemma total_AddAddress a w : total (AddAddressToAccessList a w) = total w.
Proof. done. Qed.

Lemma total_Transfer a b v w : total (Transfer a b v w) = total w.
Proof. unfold Transfer. rewrite total_AddBalance, total_SubBalance. lia. Qed.

(** ** Accounts without code *)

(** The worlds before and after [value] went from [from] to [to], and nothing else happened. *)
Record moved (from to : Address) (value : Z) (w w' : World) : Prop := {
  mv_account a : account w' a =
    set_balance (GetBalance w a - (if decide (from = a) then value else 0) + (if decide (to = a) then value else 0))
      (account w a);
  mv_logs : logs w' = logs w;
  mv_refund : refund w' = refund w;
  mv_total : total w' = total w
}.

Lemma set_balance_same w a v : v = GetBalance w a → set_balance v (account w a) = account w a.
Proof. intros ->. unfold GetBalance. by destruct (account w a). Qed.

Lemma account_CreateAccount a w b : Exist w a = false → account (CreateAccount a w) b = account w b.
Proof.
  unfold Exist. intros Hx%bool_decide_eq_false%eq_None_not_Some. unfold account at 1, CreateAccount. cbn [accounts set_accounts].
  destruct (decide (a = b)) as [<-|Hab]; [|by rewrite lookup_insert_ne].
  rewrite lookup_insert_eq. unfold GetBalance, account. by rewrite Hx.
Qed.

Lemma Transfer_moved from to value w : moved from to value w (Transfer from to value w).
Proof.
  split; [|done..|by rewrite total_Transfer]. intros a. unfold Transfer, AddBalance, SubBalance. rewrite !account_update.
  unfold GetBalance. destruct (decide (to = a)) as [<-|]; (destruct (decide (from = _)) as [<-|]; [|]);
    try (symmetry; apply set_balance_same; unfold GetBalance; lia); unfold set_balance; cbn; f_equal; lia.
Qed.

(** A call to an account without code, or to a validator, is a transfer. *)
Lemma Call_plain static depth caller addr input gas value w : depth ≤ CallCreateDepth → addr ∉ precompiled →
  default [] (GetCode w addr) = [] ∨ IsValidatorAddress w addr = true → value ≤ GetBalance w caller →
  ∃ w', Call static depth caller addr input gas value w = (Ok ([], gas, None), w') ∧ moved caller addr value w w'.
Proof.
  intros Hd Hp Hc Hv. unfold Call, CanTransfer. rewrite (proj2 (Z.ltb_ge CallCreateDepth depth)) by done.
  rewrite (proj2 (Z.leb_le value _)) by done. cbn [negb]. rewrite andb_false_r.
  rewrite bool_decide_eq_false_2 by done. cbn [negb]. rewrite andb_true_r.
  destruct (negb (Exist w addr) && (value =? 0)) eqn:Hx.
  { apply andb_true_iff in Hx as [_ ->%Z.eqb_eq]. exists w. split; [done|]. split; [|done..].
    intros a. symmetry. apply set_balance_same. repeat case_decide; lia. }
  set (w1 := if Exist w addr then w else CreateAccount addr w).
  assert (∀ a, account w1 a = account w a) as Hw1.
  { intros a. subst w1. destruct (Exist w addr) eqn:He; [done|by apply account_CreateAccount]. }
  pose proof (Transfer_moved caller addr value w1) as [Ha Hl Hr Ht].
  assert (GetCode (Transfer caller addr value w1) addr = GetCode w addr) as Hcode.
  { unfold GetCode at 1. rewrite Ha, Hw1. done. }
  unfold IsValidatorAddress in *. rewrite Hcode.
  assert (Nat.eqb (length (default [] (GetCode w addr))) 0 || _ = true) as ->.
  { destruct Hc as [->|Hc]; [done|]. rewrite Hc. apply orb_true_r. }
  cbn [andb finish]. eexists. split; [done|]. unfold w1 in *.
  split; [|by destruct (Exist w addr)..|rewrite Ht; destruct (Exist w addr); [done|apply total_CreateAccount]].
  intros a. rewrite Ha. unfold GetBalance. by rewrite !Hw1.
Qed.

(** ** Gas *)

(** An execution that started with [gas] returns at most as much. *)
Definition uses_gas (gas : Z) (r : go_res vmres * World) : Prop :=
  ∀ ret left err w, r = (Ok (ret, left, err), w) → 0 ≤ left ≤ gas.

(** The documented behaviour of the prices: they are unsigned. *)
Class PrecompileLaws : Prop := { RequiredGas_nonneg p i : 0 ≤ RequiredGas p i }.

Class GasLaws : Prop := { Run_gas depth c i ro w : is_u64 (ct_Gas c) → uses_gas (ct_Gas c) (Run depth c i ro w) }.

Section gas.
Context `{!PrecompileLaws, !GasLaws}.

Lemma uses_all ret gas err w : 0 ≤ gas → uses_gas gas (Ok (ret, gas, err), w).
Proof. intros Hg ret' left err' w' [= <- <- <- <-]. lia. Qed.

Lemma uses_none ret gas err w : 0 ≤ gas → uses_gas gas (Ok (ret, 0, err), w).
Proof. intros Hg ret' left err' w' [= <- <- <- <-]. lia. Qed.

Lemma finish_gas gas snapshot r : 0 ≤ gas → uses_gas gas r → uses_gas gas (finish snapshot r).
Proof.
  intros Hg Hr. destruct r as [[[[ret left] [e|]]| | |] w]; try done. cbn [finish].
  specialize (Hr _ _ _ _ eq_refl). intros ret' left' err' w' [= <- <- <- <-]. case_decide; lia.
Qed.

Lemma run_at_gas depth caller self value gas addr input ro w : is_u64 gas →
  uses_gas gas (run_at depth caller self value gas addr input ro w).
Proof.
  intros Hg. unfold run_at. case_decide; [|by apply (Run_gas depth (MkContract _ _ _ gas _ _ _))].
  unfold RunPrecompiledContract. pose proof (RequiredGas_nonneg addr input). unfold is_u64 in Hg.
  destruct (Z.ltb_spec gas (RequiredGas addr input)); [apply uses_none; lia|].
  destruct (PrecompileRun addr input). intros ret' left' err' w' [= <- <- <- <-]. lia.
Qed.

Lemma Call_gas static depth caller addr input gas value w : is_u64 gas →
  uses_gas gas (Call static depth caller addr input gas value w).
Proof.
  intros Hg. pose proof (proj1 Hg). unfold Call. destruct (_ <? _); [by apply uses_all|].
  destruct (negb (value =? 0) && _); [by apply uses_all|].
  destruct (negb (Exist w addr) && _ && _); [by apply uses_all|]. apply finish_gas; [done|].
  destruct (negb (bool_decide _) && _); [by apply uses_all|by apply run_at_gas].
Qed.

Lemma CallCode_gas static depth caller addr input gas value w : is_u64 gas →
  uses_gas gas (CallCode static depth caller addr input gas value w).
Proof.
  intros Hg. pose proof (proj1 Hg). unfold CallCode. destruct (_ <? _); [by apply uses_all|].
  destruct (negb _); [by apply uses_all|]. by apply finish_gas, run_at_gas.
Qed.

Lemma DelegateCall_gas static depth caller addr input gas w : is_u64 gas →
  uses_gas gas (DelegateCall static depth caller addr input gas w).
Proof.
  intros Hg. pose proof (proj1 Hg). unfold DelegateCall. destruct (_ <? _); [by apply uses_all|]. by apply finish_gas, run_at_gas.
Qed.

Lemma StaticCall_gas depth caller addr input gas w : is_u64 gas →
  uses_gas gas (StaticCall depth caller addr input gas w).
Proof.
  intros Hg. pose proof (proj1 Hg). unfold StaticCall. destruct (_ <? _); [by apply uses_all|]. by apply finish_gas, run_at_gas.
Qed.

Lemma storeCode_gas address gas r : uses_gas gas r → uses_gas gas (storeCode address r).
Proof.
  intros Hr. destruct r as [[[[ret left] [e|]]| | |] w]; try done. specialize (Hr _ _ _ _ eq_refl).
  unfold storeCode, CreateDataGas. intros ret' left' err' w'. repeat case_match; intros [= <- <- <- <-]; try done.
  rewrite Z.ltb_ge in *. lia.
Qed.

Lemma create_gas static depth caller code codeHash gas value address w : is_u64 gas →
  uses_gas gas (create static depth caller code codeHash gas value address w).
Proof.
  intros Hg. pose proof (proj1 Hg). unfold create. destruct (_ <? _); [by apply uses_all|].
  destruct (negb _); [by apply uses_all|]. destruct (negb _); [by apply uses_none|].
  by apply finish_gas, storeCode_gas, (Run_gas depth (MkContract _ _ _ gas _ _ _)).
Qed.
End gas.

(** ** What the virtual machine does to the world *)

(** A relation between worlds that holds for every change that the virtual machine makes, when it
    may write or, with [ro], only read; first for what happens without a creation. *)
Record call_rel (ro : bool) (R : World → World → Prop) : Prop := {
  vr_refl : Reflexive R;
  vr_trans : Transitive R;
  vr_address a w : R w (AddAddressToAccessList a w);
  vr_slot a k w : R w (AddSlotToAccessList a k w);
  vr_add_refund g w : R w (AddRefund g w);
  vr_sub_refund g w : 0 ≤ g ≤ refund w → R w (set_refund (refund w - g) w);
  vr_new a w : Exist w a = false → R w (CreateAccount a w);
  vr_transfer a b v w : ro = false ∨ v = 0 → R w (Transfer a b v w);
  vr_touch a w : R w (AddBalance a 0 w);
  vr_state a k v w : ro = false → R w (SetState a k v w);
  vr_log l w : ro = false → R w (AddLog l w)
}.

Record vm_rel (ro : bool) (R : World → World → Prop) : Prop := {
  vr_call :> call_rel ro R;
  vr_nonce a w : ro = false → R w (SetNonce a (u64 (GetNonce w a + 1)) w);
  vr_create a w : ro = false → vacant w a = true → R w (SetNonce a 1 (CreateAccount a w));
  vr_code a c w w' : ro = false → vacant w a = true → R w w' → R w (SetCode a c w')
}.

Lemma call_rel_static R : call_rel false R → call_rel true R.
Proof. intros []. split; auto. Qed.

Lemma vm_rel_static R : vm_rel false R → vm_rel true R.
Proof. intros []. split; auto using call_rel_static. Qed.

Lemma vm_rel_total : vm_rel false (λ w w', total w' ≤ total w).
Proof.
  split; [split|..].
  - intros w. lia.
  - intros w1 w2 w3. lia.
  - intros a w. by rewrite total_AddAddress.
  - done.
  - done.
  - done.
  - intros a w _. by rewrite total_CreateAccount.
  - intros a b v w _. by rewrite total_Transfer.
  - intros a w. rewrite total_AddBalance. lia.
  - intros a k v w _. unfold SetState. rewrite total_update. cbn. lia.
  - done.
  - intros a w _. by rewrite total_SetNonce.
  - intros a w _ _. by rewrite total_SetNonce, total_CreateAccount.
  - intros a c w w' _ _ Hle. by rewrite total_SetCode.
Qed.

Lemma vm_rel_refund : vm_rel false (λ w w', is_u64 (refund w) → is_u64 (refund w')).
Proof.
  assert (∀ w w', refund w' = refund w → is_u64 (refund w) → is_u64 (refund w')) as Hsame by (by intros ?? ->).
  split; [split|..]; try (intros; eapply Hsame; [|eassumption]; done).
  - intros w. done.
  - intros w1 w2 w3. auto.
  - intros g w _. cbn. apply Z.mod_pos_bound. done.
  - intros g w Hg Hr. cbn. unfold is_u64 in *. lia.
  - intros a c w w' _ _ Hr Hw. by apply Hr.
Qed.

Section frame.
Context (R : World → World → Prop).

(** The calls of a contract keep the relation when the interpreter does, or at least when it does
    for the codes of the world. *)
Definition keeps (ro : bool) : Prop := ∀ depth c i w, R w (Run depth c i ro w).2.
Definition codes_keep (ro : bool) : Prop := ∀ depth caller self value gas addr input w,
  R w (run_at depth caller self value gas addr input ro w).2.

Lemma finish_rel snapshot r : Reflexive R → R snapshot r.2 → R snapshot (finish snapshot r).2.
Proof. intros Hr Hw. by destruct r as [[[[ret gas] [e|]]| | |] w]. Qed.

Lemma keeps_codes_keep ro : Reflexive R → keeps ro → codes_keep ro.
Proof. intros Hr Hk depth caller self value gas addr input w. unfold run_at. case_decide; [done|]. apply Hk. Qed.

Lemma Call_rel ro depth caller addr input gas value w : call_rel ro R → codes_keep ro → ro = false ∨ value = 0 →
  R w (Call ro depth caller addr input gas value w).2.
Proof.
  intros [] Hk Hv. unfold Call. destruct (_ <? _); [done|]. destruct (negb (value =? 0) && _); [done|].
  destruct (negb (Exist w addr) && _ && _); [done|]. apply finish_rel; [done|].
  set (w1 := Transfer caller addr value (if Exist w addr then w else CreateAccount addr w)).
  assert (R w w1) as Hw1.
  { unfold w1. destruct (Exist w addr) eqn:Hx; [by auto|]. etrans; [by apply vr_new0|by auto]. }
  destruct (negb (bool_decide _) && _); [done|]. etrans; [exact Hw1|apply Hk].
Qed.

Lemma CallCode_rel ro depth caller addr input gas value w : call_rel ro R → codes_keep ro →
  R w (CallCode ro depth caller addr input gas value w).2.
Proof.
  intros [] Hk. unfold CallCode. destruct (_ <? _); [done|]. destruct (negb _); [done|]. by apply finish_rel, Hk.
Qed.

Lemma DelegateCall_rel ro depth caller addr input gas w : call_rel ro R → codes_keep ro →
  R w (DelegateCall ro depth caller addr input gas w).2.
Proof. intros [] Hk. unfold DelegateCall. destruct (_ <? _); [done|]. by apply finish_rel, Hk. Qed.

Lemma StaticCall_rel depth caller addr input gas w : call_rel true R → codes_keep true →
  R w (StaticCall depth caller addr input gas w).2.
Proof.
  intros [] Hk. unfold StaticCall. destruct (_ <? _); [done|]. apply finish_rel; [done|].
  etrans; [by apply vr_touch0|apply Hk].
Qed.

Lemma create_rel depth caller code codeHash gas value address w : vm_rel false R → keeps false →
  R w (create false depth caller code codeHash gas value address w).2.
Proof.
  intros [[]] Hk. unfold create. destruct (_ <? _); [done|]. destruct (negb _); [done|].
  set (w1 := AddAddressToAccessList address _). assert (R w w1) as Hw1 by (unfold w1; etrans; [by apply vr_nonce0|by auto]).
  destruct (vacant w1 address) eqn:Hvac; cbn [negb]; [|done]. etrans; [exact Hw1|]. apply finish_rel; [done|].
  set (w2 := Transfer caller address value _).
  assert (R w1 w2) as Hw2 by (unfold w2; etrans; [by apply vr_create0|by auto]).
  pose proof (Hk depth (MkContract caller address (Some value) gas code codeHash address) [] w2) as Hw3.
  destruct (Run _ _ _ _ _) as [r w3]. cbn [snd] in Hw3. assert (R w1 w3) by (by etrans).
  destruct r as [[[ret left] [e|]]| | |]; try done. unfold storeCode. by repeat case_match; cbn [snd]; auto.
Qed.
End frame.

(** ** Termination *)

(** The execution returns or panics: the model does not run out of fuel. *)
Definition ends (r : go_res vmres * World) : Prop := r.1 ≠ NoFuel.

Section ends.
Context (depth : Z).
(** The interpreter ends at a depth, if the depth is one that the entry points accept. *)
Hypothesis Run_ends : ∀ c i ro w, depth ≤ CallCreateDepth → is_u64 (ct_Gas c) → ends (Run depth c i ro w).

Lemma finish_ends snapshot r : ends r → ends (finish snapshot r).
Proof. intros He. by destruct r as [[[[ret gas] [e|]]| | |] w]. Qed.

Lemma run_at_ends caller self value gas addr input ro w : depth ≤ CallCreateDepth → is_u64 gas →
  ends (run_at depth caller self value gas addr input ro w).
Proof. intros Hd Hg. unfold run_at. case_decide; [done|]. by apply Run_ends. Qed.

Lemma Call_ends static caller addr input gas value w : is_u64 gas → ends (Call static depth caller addr input gas value w).
Proof.
  intros Hg. unfold Call. destruct (Z.ltb_spec CallCreateDepth depth); [done|]. destruct (negb (value =? 0) && _); [done|].
  destruct (negb (Exist w addr) && _ && _); [done|]. apply finish_ends.
  destruct (negb (bool_decide _) && _); [done|by apply run_at_ends].
Qed.

Lemma CallCode_ends static caller addr input gas value w : is_u64 gas →
  ends (CallCode static depth caller addr input gas value w).
Proof.
  intros Hg. unfold CallCode. destruct (Z.ltb_spec CallCreateDepth depth); [done|]. destruct (negb _); [done|].
  by apply finish_ends, run_at_ends.
Qed.

Lemma DelegateCall_ends static caller addr input gas w : is_u64 gas →
  ends (DelegateCall static depth caller addr input gas w).
Proof.
  intros Hg. unfold DelegateCall. destruct (Z.ltb_spec CallCreateDepth depth); [done|]. by apply finish_ends, run_at_ends.
Qed.

Lemma StaticCall_ends caller addr input gas w : is_u64 gas → ends (StaticCall depth caller addr input gas w).
Proof.
  intros Hg. unfold StaticCall. destruct (Z.ltb_spec CallCreateDepth depth); [done|]. by apply finish_ends, run_at_ends.
Qed.

Lemma create_ends static caller code codeHash gas value address w : is_u64 gas →
  ends (create static depth caller code codeHash gas value address w).
Proof.
  intros Hg. unfold create. destruct (Z.ltb_spec CallCreateDepth depth); [done|]. destruct (negb _); [done|].
  destruct (negb _); [done|]. apply finish_ends.
  pose proof (Run_ends (MkContract caller address (Some value) gas code codeHash address) [] static
    (Transfer caller address value (SetNonce address 1 (CreateAccount address
       (AddAddressToAccessList address (SetNonce caller (u64 (GetNonce w caller + 1)) w)))))) as Hr.
  destruct (Run _ _ _ _ _) as [[[[ret left] [e|]]| | |] w']; try done; [|by destruct Hr].
  unfold storeCode. by repeat case_match.
Qed.
End ends.

(** ** Panics *)

(** The world in which the code of a called account runs. *)
Definition entered (caller addr : Address) (value : Z) (w : World) : World :=
  Transfer caller addr value (if Exist w addr then w else CreateAccount addr w).

(** The world in which the code of a creation runs. *)
Definition prepared (caller address : Address) (value : Z) (w : World) : World :=
  Transfer caller address value (SetNonce address 1 (CreateAccount address
    (AddAddressToAccessList address (SetNonce caller (u64 (GetNonce w caller + 1)) w)))).

(** An entry point panics only where the interpreter does. *)
Lemma finish_Panic snapshot r : (finish snapshot r).1 = Panic → r.1 = Panic.
Proof. by destruct r as [[[[ret gas] [e|]]| | |] w]. Qed.

Lemma storeCode_Panic address r : (storeCode address r).1 = Panic → r.1 = Panic.
Proof. destruct r as [[[[ret gas] [e|]]| | |] w]; try done. unfold storeCode. by repeat case_match. Qed.

Lemma Call_Panic static depth caller addr input gas value w : (Call static depth caller addr input gas value w).1 = Panic →
  (run_at depth caller addr (Some value) gas addr input static (entered caller addr value w)).1 = Panic.
Proof.
  unfold Call. destruct (_ <? _); [done|]. destruct (negb (value =? 0) && _); [done|]. destruct (negb (Exist w addr) && _ && _); [done|].
  intros Hp%finish_Panic. by destruct (negb (bool_decide _) && _).
Qed.

Lemma CallCode_Panic static depth caller addr input gas value w :
  (CallCode static depth caller addr input gas value w).1 = Panic →
  (run_at depth caller caller (Some value) gas addr input static w).1 = Panic.
Proof. unfold CallCode. destruct (_ <? _); [done|]. destruct (negb _); [done|]. apply finish_Panic. Qed.

Lemma DelegateCall_Panic static depth caller addr input gas w : (DelegateCall static depth caller addr input gas w).1 = Panic →
  (run_at depth (CallerAddress caller) (ct_self caller) (ct_value caller) gas addr input static w).1 = Panic.
Proof. unfold DelegateCall. destruct (_ <? _); [done|]. apply finish_Panic. Qed.

Lemma StaticCall_Panic depth caller addr input gas w : (StaticCall depth caller addr input gas w).1 = Panic →
  (run_at depth caller addr (Some 0) gas addr input true (AddBalance addr 0 w)).1 = Panic.
Proof. unfold StaticCall. destruct (_ <? _); [done|]. apply finish_Panic. Qed.

Lemma create_Panic static depth caller code codeHash gas value address w :
  (create static depth caller code codeHash gas value address w).1 = Panic →
  (Run depth (MkContract caller address (Some value) gas code codeHash address) [] static (prepared caller address value w)).1 = Panic.
Proof.
  unfold create. destruct (_ <? _); [done|]. do 2 (destruct (negb _); [done|]). intros Hp%finish_Panic%storeCode_Panic. exact Hp.
Qed.
End evm.

(** Precompiled contracts that return their input. *)
#[export] Instance toy_precompiles : Precompiles := {|
  RequiredGas := λ _ _, 600;
  PrecompileRun := λ _ input, (input, None)
|}.

#[export] Instance toy_precompile_laws : PrecompileLaws.
Proof. by split. Qed.
