(* ===== verification/Analysis.v ===== *)
(** * Jump destinations

    The analysis of byte code (src/core/vm/analysis.go): a bit per byte of the code that says
    whether the byte is data of a push instruction. The loop sets the bits of a push in groups of
    sixteen, eight and fewer, with writes that overwrite the bytes to the right; the theorem says
    that it agrees with the definition by recursion over the code, and never panics. *)

From Stdlib Require Import ZArith Lia Strings.Byte.
From stdpp Require Import base tactics option numbers list.
From S2P Require Import Prelude.

Definition PUSH1 : Z := 0x60.
Definition PUSH32 : Z := 0x7f.

(** ** Bit vectors *)

(** [bits[i] = f(bits[i])] *)
Definition change (i : Z) (f : Z → Z) (bits : bytes) : go_res bytes :=
  b ← go_index bits (Z.to_nat i); Ok (<[Z.to_nat i := z2b (f (b2z b))]> bits).

Definition set1 (pos : Z) (bits : bytes) : go_res bytes :=
  change (pos / 8) (λ b, Z.lor b (Z.shiftl 1 (pos mod 8))) bits.

Definition setN (flag pos : Z) (bits : bytes) : go_res bytes :=
  let a := Z.shiftl flag (pos mod 8) mod 65536 in
  bits ← change (pos / 8) (λ b, Z.lor b (a mod 256)) bits;
  let b := Z.shiftr a 8 mod 256 in
  if b =? 0 then Ok bits else change (pos / 8 + 1) (λ _, b) bits.

Definition set8 (pos : Z) (bits : bytes) : go_res bytes :=
  let a := Z.shiftl 0xff (pos mod 8) mod 256 in
  bits ← change (pos / 8) (λ b, Z.lor b a) bits;
  change (pos / 8 + 1) (λ _, Z.lxor 0xff a) bits.

Definition set16 (pos : Z) (bits : bytes) : go_res bytes :=
  let a := Z.shiftl 0xff (pos mod 8) mod 256 in
  bits ← change (pos / 8) (λ b, Z.lor b a) bits;
  bits ← change (pos / 8 + 1) (λ _, 0xff) bits;
  change (pos / 8 + 2) (λ _, Z.lxor 0xff a) bits.

Definition codeSegment (bits : bytes) (pos : Z) : go_res bool :=
  b ← go_index bits (Z.to_nat (pos / 8));
  Ok (Z.land (Z.shiftr (b2z b) (pos mod 8)) 1 =? 0).

(** The masks [set2BitsMask] to [set7BitsMask]. *)
Definition setBitsMask (n : Z) : Z := Z.ones n.

(** The two loops [for ; numbits >= k; numbits -= k], for a group of [k] bits. *)
Fixpoint setGroups (k : Z) (set : Z → bytes → go_res bytes) (fuel : nat) (numbits pc : Z) (bits : bytes) :
    go_res (Z * Z * bytes) :=
  match fuel with
  | O => NoFuel
  | S fuel =>
      if numbits <? k then Ok (numbits, pc, bits)
      else bits ← set pc bits; setGroups k set fuel (numbits - k) (pc + k) bits
  end.

Definition setPush (numbits pc : Z) (bits : bytes) : go_res (Z * bytes) :=
  '(numbits, pc, bits) ← (if numbits <? 8 then Ok (numbits, pc, bits) else
    '(numbits, pc, bits) ← setGroups 16 set16 3 numbits pc bits;
    setGroups 8 set8 3 numbits pc bits);
  if numbits =? 0 then Ok (pc, bits)
  else if numbits =? 1 then bits ← set1 pc bits; Ok (pc + 1, bits)
  else bits ← setN (setBitsMask numbits) pc bits; Ok (pc + numbits, bits).

(** The conversion to [int8] makes the opcodes from [0x80] on negative. *)
Definition int8 (z : Z) : Z := if z <? 128 then z else z - 256.

Fixpoint codeBitmapInternal (fuel : nat) (code : bytes) (pc : Z) (bits : bytes) : go_res bytes :=
  match fuel with
  | O => NoFuel
  | S fuel =>
      if Z.of_nat (length code) <=? pc then Ok bits else
      op ← go_index code (Z.to_nat pc);
      if int8 (b2z op) <? int8 PUSH1 then codeBitmapInternal fuel code (pc + 1) bits
      else
        '(pc, bits) ← setPush (b2z op - PUSH1 + 1) (pc + 1) bits;
        codeBitmapInternal fuel code pc bits
  end.

Definition codeBitmap (code : bytes) : go_res bytes :=
  codeBitmapInternal (S (length code)) code 0 (replicate (length code / 8 + 1 + 4) x00).

(** ** Specification *)

(** The number of data bytes after an opcode. *)
Definition push_data (op : byte) : nat :=
  if (PUSH1 <=? b2z op) && (b2z op <=? PUSH32) then Z.to_nat (b2z op - PUSH1 + 1) else 0.

(** For every byte of the code whether it is data, when the next [skip] bytes are. *)
Fixpoint data_bytes (skip : nat) (code : bytes) : list bool :=
  match code with
  | [] => []
  | op :: code =>
      match skip with
      | O => false :: data_bytes (push_data op) code
      | S skip => true :: data_bytes skip code
      end
  end.

(** ** Bits *)

Definition bit (bits : bytes) (i : Z) : bool := Z.testbit (b2z (nth (Z.to_nat (i / 8)) bits x00)) (i mod 8).

Lemma codeSegment_bit bits pos : 0 ≤ pos → pos / 8 < Z.of_nat (length bits) →
  codeSegment bits pos = Ok (negb (bit bits pos)).
Proof.
  intros H0 Hl. unfold codeSegment, go_index, bit.
  destruct (lookup_lt_is_Some_2 bits (Z.to_nat (pos / 8))) as [b Hb]; [dlia|]. rewrite Hb. cbn [deref mbind go_res_bind].
  rewrite (nth_lookup_Some _ _ _ _ Hb). f_equal. change 1 with (Z.ones 1). rewrite Z.land_ones by lia.
  change (2 ^ 1) with 2. rewrite Zmod_odd, <- (Z.bit0_odd (Z.shiftr _ _)), Z.shiftr_spec, Z.add_0_l by lia.
  by destruct (Z.testbit _ _).
Qed.

Lemma change_Ok i f bits : 0 ≤ i < Z.of_nat (length bits) → ∃ bits', change i f bits = Ok bits' ∧
  length bits' = length bits ∧
  ∀ j, 0 ≤ j → b2z (nth (Z.to_nat j) bits' x00) =
    if j =? i then f (b2z (nth (Z.to_nat i) bits x00)) mod 256 else b2z (nth (Z.to_nat j) bits x00).
Proof.
  intros Hi. unfold change, go_index.
  destruct (lookup_lt_is_Some_2 bits (Z.to_nat i)) as [b Hb]; [lia|]. rewrite Hb. cbn [deref mbind go_res_bind].
  eexists. split; [done|]. split; [apply length_insert|]. intros j Hj. rewrite (nth_lookup_Some bits _ _ _ Hb).
  rewrite !nth_lookup. destruct (Z.eqb_spec j i) as [->|Hne].
  - rewrite list_lookup_insert_eq by lia. cbn. apply b2z_z2b.
  - rewrite list_lookup_insert_ne by lia. done.
Qed.

(** All bits from [pos] on are clear. *)
Definition clear_from (pos : Z) (bits : bytes) : Prop := ∀ i, pos ≤ i → bit bits i = false.

(** The [n] bits from [pos] on are set, and no other bit changes. *)
Definition marked (pos n : Z) (bits bits' : bytes) : Prop :=
  length bits' = length bits ∧ ∀ i, 0 ≤ i → bit bits' i = bit bits i || ((pos <=? i) && (i <? pos + n)).

Lemma marked_clear pos n bits bits' : 0 ≤ pos → 0 ≤ n → marked pos n bits bits' → clear_from pos bits →
  clear_from (pos + n) bits'.
Proof.
  intros Hp Hn [_ Hm] Hc i Hi. rewrite Hm, Hc by lia. destruct (Z.ltb_spec i (pos + n)); [lia|]. by rewrite andb_false_r.
Qed.

Lemma marked_trans pos n m bits bits1 bits2 : 0 ≤ n → 0 ≤ m →
  marked pos n bits bits1 → marked (pos + n) m bits1 bits2 → marked pos (n + m) bits bits2.
Proof.
  intros Hn Hm [Hl1 H1] [Hl2 H2]. split; [congruence|]. intros i Hi. rewrite H2, H1 by done.
  destruct (bit bits i), (Z.leb_spec pos i), (Z.ltb_spec i (pos + n)), (Z.leb_spec (pos + n) i),
    (Z.ltb_spec i (pos + n + m)), (Z.ltb_spec i (pos + (n + m))); cbn; try done; lia.
Qed.

Lemma testbit_byte z j : 0 ≤ j < 8 → Z.testbit (z mod 256) j = Z.testbit z j.
Proof. intros Hj. change 256 with (2 ^ 8). rewrite Z.testbit_mod_pow2 by lia. by rewrite (proj2 (Z.ltb_lt j 8)) by lia. Qed.

Lemma testbit_ones_shift n k j : 0 ≤ k → 0 ≤ n → 0 ≤ j →
  Z.testbit (Z.shiftl (Z.ones n) k) j = (k <=? j) && (j <? k + n).
Proof.
  intros Hk Hn Hj. rewrite Z.shiftl_spec by done.
  destruct (Z.leb_spec k j) as [Hkj|]; [|by rewrite Z.testbit_neg_r by lia].
  destruct (Z.ltb_spec j (k + n)); [apply Z.ones_spec_low; lia|apply Z.ones_spec_high; lia].
Qed.

Lemma bit_byte bits q i : 0 ≤ i → i / 8 = q → bit bits i = Z.testbit (b2z (nth (Z.to_nat q) bits x00)) (i mod 8).
Proof. by intros _ <-. Qed.

(** A byte whose bits are all clear. *)
Lemma clear_byte pos bits q j : clear_from pos bits → pos ≤ 8 * q → 0 ≤ j < 8 →
  Z.testbit (b2z (nth (Z.to_nat q) bits x00)) j = false.
Proof.
  intros Hc Hq Hj. specialize (Hc (8 * q + j) ltac:(lia)). unfold bit in Hc.
  replace ((8 * q + j) / 8) with q in Hc by dlia. by replace ((8 * q + j) mod 8) with j in Hc by dlia.
Qed.

Ltac bits_bool :=
  repeat match goal with
  | |- context [?a <=? ?b] => destruct (Z.leb_spec a b)
  | |- context [?a <? ?b] => destruct (Z.ltb_spec a b)
  end; cbn [andb orb negb xorb]; rewrite ?orb_true_r, ?orb_false_r, ?andb_true_r, ?andb_false_r; try done; exfalso; dlia.

(** The writes set [n ≤ 16] bits, given as the bits of a number over three bytes. *)
Lemma marked_intro pos n bits bits' :
  0 ≤ pos → 0 ≤ n ≤ 16 → length bits' = length bits → clear_from pos bits →
  (∀ q, 0 ≤ q → q ≠ pos / 8 → q ≠ pos / 8 + 1 → q ≠ pos / 8 + 2 → nth (Z.to_nat q) bits' x00 = nth (Z.to_nat q) bits x00) →
  (∀ j, 0 ≤ j < 8 → Z.testbit (b2z (nth (Z.to_nat (pos / 8)) bits' x00)) j =
     Z.testbit (b2z (nth (Z.to_nat (pos / 8)) bits x00)) j || ((pos mod 8 <=? j) && (j <? pos mod 8 + n))) →
  (∀ d j, 1 ≤ d ≤ 2 → 0 ≤ j < 8 → Z.testbit (b2z (nth (Z.to_nat (pos / 8 + d)) bits' x00)) j =
     (8 * d + j <? pos mod 8 + n)) →
  marked pos n bits bits'.
Proof.
  intros Hp Hn Hl Hc Hother H0 Hd. split; [done|]. intros i Hi.
  destruct (decide (i / 8 = pos / 8)) as [Hq|H1].
  { rewrite !(bit_byte _ (pos / 8) i), H0 by (done || dlia). f_equal. bits_bool. }
  destruct (decide (i / 8 = pos / 8 + 1)) as [Hq|H2]; [|destruct (decide (i / 8 = pos / 8 + 2)) as [Hq|H3]].
  - rewrite !(bit_byte _ (pos / 8 + 1) i), Hd by (done || dlia). rewrite (clear_byte pos) by (done || dlia). bits_bool.
  - rewrite !(bit_byte _ (pos / 8 + 2) i), Hd by (done || dlia). rewrite (clear_byte pos) by (done || dlia). bits_bool.
  - unfold bit. rewrite Hother by (done || dlia). bits_bool.
Qed.

(** What a group of writes does when its positions, up to [w] bytes ahead, are in range. *)
Definition marks (w n : Z) (set : Z → bytes → go_res bytes) : Prop :=
  ∀ pos bits, 0 ≤ pos → pos / 8 + w < Z.of_nat (length bits) → clear_from pos bits →
    ∃ bits', set pos bits = Ok bits' ∧ marked pos n bits bits'.

Ltac change_at H Hb :=
  match goal with
  | |- context [change ?i ?f ?bits] =>
      let bits' := fresh "bits" in let Hl := fresh "Hl" in
      destruct (change_Ok i f bits) as (bits' & H & Hl & Hb); [dlia|rewrite H; cbn [mbind go_res_bind]]
  end.


Lemma set1_marks : marks 1 1 set1.
Proof.
  intros pos bits Hp Hlen Hc. unfold set1. change_at H1 Hb1. eexists. split; [done|].
  apply marked_intro; try done.
  - intros q Hq Hq0 _ _. apply b2z_inj. rewrite Hb1 by dlia. by rewrite (proj2 (Z.eqb_neq q (pos / 8))).
  - intros j Hj. rewrite Hb1 by dlia. rewrite Z.eqb_refl, testbit_byte, Z.lor_spec by done. f_equal.
    change 1 with (Z.ones 1) at 1. apply testbit_ones_shift; dlia.
  - intros d j Hd Hj. rewrite Hb1 by dlia. rewrite (proj2 (Z.eqb_neq (pos / 8 + d) (pos / 8))) by lia.
    rewrite (clear_byte pos) by (done || dlia). bits_bool.
Qed.

Lemma setN_marks n : 2 ≤ n ≤ 7 → marks 1 n (setN (setBitsMask n)).
Proof.
  intros Hn pos bits Hp Hlen Hc. unfold setN, setBitsMask.
  set (a := Z.shiftl (Z.ones n) (pos mod 8) mod 65536).
  assert (∀ j, 0 ≤ j < 16 → Z.testbit a j = (pos mod 8 <=? j) && (j <? pos mod 8 + n)) as Ha.
  { intros j Hj. unfold a. change 65536 with (2 ^ 16). rewrite Z.testbit_mod_pow2, (proj2 (Z.ltb_lt j 16)) by lia.
    apply testbit_ones_shift; dlia. }
  assert (∀ j, 0 ≤ j < 8 → Z.testbit (Z.shiftr a 8 mod 256) j = (8 + j <? pos mod 8 + n)) as Hb.
  { intros j Hj. rewrite testbit_byte, Z.shiftr_spec, Ha by lia. bits_bool. }
  change_at H1 Hb1.
  assert (∀ j, 0 ≤ j < 8 → Z.testbit (b2z (nth (Z.to_nat (pos / 8)) bits0 x00)) j =
     Z.testbit (b2z (nth (Z.to_nat (pos / 8)) bits x00)) j || ((pos mod 8 <=? j) && (j <? pos mod 8 + n))) as Hfirst.
  { intros j Hj. rewrite Hb1 by dlia. rewrite Z.eqb_refl, testbit_byte, Z.lor_spec, testbit_byte, Ha by lia. done. }
  assert (∀ q, 0 ≤ q → q ≠ pos / 8 → b2z (nth (Z.to_nat q) bits0 x00) = b2z (nth (Z.to_nat q) bits x00)) as Hrest.
  { intros q Hq Hq0. rewrite Hb1 by dlia. by rewrite (proj2 (Z.eqb_neq q (pos / 8))). }
  destruct (Z.eqb_spec (Z.shiftr a 8 mod 256) 0) as [Hz|Hz].
  - eexists. split; [done|]. apply marked_intro; try done; try lia.
    + intros q Hq Hq0 _ _. apply b2z_inj. by apply Hrest.
    + intros d j Hd Hj. rewrite Hrest, (clear_byte pos) by (done || dlia).
      destruct (decide (d = 1)) as [->|]; [|bits_bool].
      specialize (Hb j Hj). rewrite Hz, Z.testbit_0_l in Hb. by rewrite Hb.
  - change_at H2 Hb2. eexists. split; [done|]. apply marked_intro; try done; try lia.
    + intros q Hq Hq0 Hq1 _. apply b2z_inj. rewrite Hb2 by done. rewrite (proj2 (Z.eqb_neq q _)) by done. by apply Hrest.
    + intros j Hj. rewrite Hb2 by dlia. rewrite (proj2 (Z.eqb_neq (pos / 8) _)) by lia. by apply Hfirst.
    + intros d j Hd Hj. rewrite Hb2 by dlia. destruct (Z.eqb_spec (pos / 8 + d) (pos / 8 + 1)).
      * rewrite testbit_byte, Hb by done. by replace d with 1 by lia.
      * rewrite Hrest, (clear_byte pos) by (done || dlia). bits_bool.
Qed.

Lemma ff_bits k j : 0 ≤ k < 8 → 0 ≤ j < 8 → Z.testbit (Z.shiftl 255 k mod 256) j = (k <=? j).
Proof.
  intros Hk Hj. rewrite testbit_byte by done. change 255 with (Z.ones 8). rewrite testbit_ones_shift by lia. bits_bool.
Qed.

Lemma ff_rest k j : 0 ≤ k < 8 → 0 ≤ j < 8 → Z.testbit (Z.lxor 255 (Z.shiftl 255 k mod 256)) j = (j <? k).
Proof.
  intros Hk Hj. rewrite Z.lxor_spec, ff_bits by done. change 255 with (Z.ones 8). rewrite Z.ones_spec_low by lia. bits_bool.
Qed.

Lemma set8_marks : marks 1 8 set8.
Proof.
  intros pos bits Hp Hlen Hc. unfold set8. change_at H1 Hb1. change_at H2 Hb2. eexists. split; [done|].
  apply marked_intro; try done; try lia.
  - intros q Hq Hq0 Hq1 _. apply b2z_inj. rewrite Hb2, Hb1 by done. by rewrite !(proj2 (Z.eqb_neq q _)).
  - intros j Hj. rewrite Hb2, Hb1 by dlia. rewrite (proj2 (Z.eqb_neq (pos / 8) _)), Z.eqb_refl by lia.
    rewrite testbit_byte, Z.lor_spec, ff_bits by dlia. f_equal. bits_bool.
  - intros d j Hd Hj. rewrite Hb2, Hb1 by dlia. destruct (Z.eqb_spec (pos / 8 + d) (pos / 8 + 1)).
    + rewrite testbit_byte, ff_rest by dlia. bits_bool.
    + rewrite (proj2 (Z.eqb_neq (pos / 8 + d) (pos / 8))), (clear_byte pos) by (done || dlia). bits_bool.
Qed.

Lemma set16_marks : marks 2 16 set16.
Proof.
  intros pos bits Hp Hlen Hc. unfold set16. change_at H1 Hb1. change_at H2 Hb2. change_at H3 Hb3. eexists. split; [done|].
  apply marked_intro; try done; try lia.
  - intros q Hq Hq0 Hq1 Hq2. apply b2z_inj. rewrite Hb3, Hb2, Hb1 by done. by rewrite !(proj2 (Z.eqb_neq q _)).
  - intros j Hj. rewrite Hb3, Hb2, Hb1 by dlia. rewrite !(proj2 (Z.eqb_neq (pos / 8) _)), Z.eqb_refl by lia.
    rewrite testbit_byte, Z.lor_spec, ff_bits by dlia. f_equal. bits_bool.
  - intros d j Hd Hj. rewrite Hb3, Hb2 by dlia. destruct (Z.eqb_spec (pos / 8 + d) (pos / 8 + 2)).
    + rewrite testbit_byte, ff_rest by dlia. bits_bool.
    + rewrite (proj2 (Z.eqb_eq (pos / 8 + d) (pos / 8 + 1))), testbit_byte by (done || lia).
      change 255 with (Z.ones 8). rewrite Z.ones_spec_low by lia. bits_bool.
Qed.

Lemma marked_0 pos bits : marked pos 0 bits bits.
Proof. split; [done|]. intros i Hi. destruct (bit bits i); [done|]. bits_bool. Qed.

Lemma setGroups_marked w k set fuel : 0 < k → marks w k set → ∀ numbits pc bits,
  0 ≤ numbits < k * Z.of_nat fuel → 0 ≤ pc → clear_from pc bits →
  (∀ p, pc ≤ p ≤ pc + numbits - k → p / 8 + w < Z.of_nat (length bits)) →
  ∃ bits', setGroups k set fuel numbits pc bits = Ok (numbits mod k, pc + (numbits - numbits mod k), bits') ∧
    marked pc (numbits - numbits mod k) bits bits'.
Proof.
  intros Hk Hset. induction fuel as [|fuel IH]; intros numbits pc bits Hn Hp Hc Hlen; [lia|].
  cbn [setGroups]. destruct (Z.ltb_spec numbits k) as [Hlt|Hge].
  - rewrite Z.mod_small, Z.sub_diag, Z.add_0_r by lia. exists bits. split; [done|apply marked_0].
  - destruct (Hset pc bits) as (bits1 & -> & Hm1); [done|apply Hlen; lia|done|]. cbn [mbind go_res_bind].
    destruct (IH (numbits - k) (pc + k) bits1) as (bits2 & -> & Hm2); [lia|lia|eapply marked_clear; eauto; lia|..].
    { intros p Hr. rewrite (proj1 Hm1). apply Hlen. lia. }
    assert ((numbits - k) mod k = numbits mod k) as Hmod.
    { replace (numbits - k) with (numbits + (-1) * k) by lia. apply Z.mod_add. lia. }
    rewrite Hmod in *. exists bits2. split; [do 3 f_equal; lia|].
    replace (numbits - numbits mod k) with (k + (numbits - k - numbits mod k)) by lia.
    assert (numbits mod k ≤ numbits - k) by (rewrite <- Hmod; apply Z.mod_le; lia).
    eapply marked_trans; [lia|lia|done|done].
Qed.

Lemma setPush_marked numbits pc bits : 1 ≤ numbits ≤ 32 → 0 ≤ pc → clear_from pc bits →
  pc / 8 + 4 < Z.of_nat (length bits) →
  ∃ bits', setPush numbits pc bits = Ok (pc + numbits, bits') ∧ marked pc numbits bits bits'.
Proof.
  intros Hn Hp Hc Hlen. unfold setPush.
  assert (∃ bits1 rest, (if numbits <? 8 then Ok (numbits, pc, bits) else
      '(numbits, pc, bits) ← setGroups 16 set16 3 numbits pc bits; setGroups 8 set8 3 numbits pc bits) =
      Ok (rest, pc + (numbits - rest), bits1) ∧ 0 ≤ rest < 8 ∧ (rest = 0 ∨ rest ≤ numbits) ∧ (numbits - rest ≤ 24 ∨ rest = 0) ∧
      marked pc (numbits - rest) bits bits1) as (bits1 & rest & -> & Hr & Hle & Hfar & Hm1).
  { destruct (Z.ltb_spec numbits 8).
    { exists bits, numbits. rewrite Z.sub_diag, Z.add_0_r. split_and!; try done; try lia. apply marked_0. }
    destruct (setGroups_marked 2 16 set16 3 ltac:(lia) set16_marks numbits pc bits) as (bits1 & -> & Hm1);
      [lia|lia|done|intros; dlia|]. cbn [mbind go_res_bind].
    destruct (setGroups_marked 1 8 set8 3 ltac:(lia) set8_marks (numbits mod 16) (pc + (numbits - numbits mod 16)) bits1)
      as (bits2 & -> & Hm2); [dlia|dlia|eapply marked_clear; eauto; dlia|intros; rewrite (proj1 Hm1); dlia|].
    exists bits2, ((numbits mod 16) mod 8). split; [do 3 f_equal; lia|]. split; [dlia|]. split; [dlia|]. split; [dlia|].
    replace (numbits - numbits mod 16 mod 8) with ((numbits - numbits mod 16) + (numbits mod 16 - numbits mod 16 mod 8)) by lia.
    eapply marked_trans; [dlia|dlia|done|done]. }
  cbn [mbind go_res_bind].
  assert (∀ bits2, marked (pc + (numbits - rest)) rest bits1 bits2 → marked pc numbits bits bits2) as Htrans.
  { intros bits2 Hm2. replace numbits with (numbits - rest + rest) by lia. eapply marked_trans; try done; lia. }
  assert (clear_from (pc + (numbits - rest)) bits1) as Hc1 by (eapply marked_clear; eauto; lia).
  destruct (Z.eqb_spec rest 0) as [->|].
  { exists bits1. split; [do 2 f_equal; lia|]. apply Htrans, marked_0. }
  assert ((pc + (numbits - rest)) / 8 + 1 < Z.of_nat (length bits1)) as Hlen1 by (rewrite (proj1 Hm1); dlia).
  destruct (Z.eqb_spec rest 1) as [->|].
  - destruct (set1_marks (pc + (numbits - 1)) bits1 ltac:(lia) Hlen1 Hc1) as (bits2 & -> & Hm2). cbn [mbind go_res_bind].
    exists bits2. split; [do 2 f_equal; lia|by apply Htrans].
  - destruct (setN_marks rest ltac:(lia) (pc + (numbits - rest)) bits1 ltac:(lia) Hlen1 Hc1) as (bits2 & -> & Hm2). cbn [mbind go_res_bind].
    exists bits2. split; [do 2 f_equal; lia|by apply Htrans].
Qed.

Lemma data_bytes_skip code : ∀ skip,
  data_bytes skip code = replicate (skip `min` length code) true ++ data_bytes 0 (drop skip code).
Proof.
  induction code as [|op code IH]; intros [|skip]; [done..|]. cbn [data_bytes length drop Nat.min replicate app]. by rewrite IH.
Qed.

(** The bits below [pc] say which bytes are data, the others are clear, and [pc] is the position
    of an instruction. *)
Record analysed (code : bytes) (pc : nat) (bits : bytes) : Prop := {
  an_length : length bits = (length code / 8 + 5)%nat;
  an_clear : clear_from (Z.of_nat pc) bits;
  an_bits i : (i < pc)%nat → (i < length code)%nat → data_bytes 0 code !! i = Some (bit bits (Z.of_nat i));
  an_rest : drop pc (data_bytes 0 code) = data_bytes 0 (drop pc code)
}.

Lemma analysed_step code pc bits bits' op : analysed code pc bits → code !! pc = Some op →
  marked (Z.of_nat pc + 1) (Z.of_nat (push_data op)) bits bits' →
  analysed code (S pc + push_data op) bits'.
Proof.
  intros [Hl Hc Hb Hr] Hop Hm. pose proof (drop_S _ _ _ Hop) as Hdrop. rewrite Hdrop in Hr. cbn [data_bytes] in Hr.
  rewrite (data_bytes_skip (drop (S pc) code)) in Hr. destruct Hm as [Hl' Hm]. split.
  - congruence.
  - intros i Hi. rewrite Hm, Hc by lia. bits_bool.
  - intros i Hi Hlen. rewrite Hm by lia. destruct (decide (i < pc)%nat) as [Hlt|Hge].
    { rewrite Hb by lia. f_equal. destruct (bit bits (Z.of_nat i)); [done|]. bits_bool. }
    rewrite Hc by lia. replace i with (pc + (i - pc))%nat at 1 by lia. rewrite <- lookup_drop, Hr, lookup_cons.
    destruct (i - pc)%nat as [|j] eqn:Hj.
    { f_equal. bits_bool. }
    rewrite lookup_app_l, lookup_replicate_2.
    + f_equal. bits_bool.
    + rewrite length_drop. lia.
    + rewrite length_replicate, length_drop. lia.
  - replace (S pc + push_data op)%nat with (pc + S (push_data op))%nat by lia. rewrite <- !drop_drop, Hr, Hdrop. cbn [drop].
    set (k := push_data op). set (rest := drop (S pc) code). destruct (decide (k ≤ length rest)%nat).
    + rewrite Nat.min_l by lia. apply drop_app_length'. by rewrite length_replicate.
    + rewrite (drop_ge rest k) by lia. cbn [data_bytes]. rewrite app_nil_r. apply drop_ge. rewrite length_replicate. lia.
Qed.

Lemma push_opcode op : (int8 (b2z op) <? int8 PUSH1) = bool_decide (push_data op = 0%nat) ∧
  (push_data op ≠ 0%nat → Z.of_nat (push_data op) = b2z op - PUSH1 + 1 ∧ 1 ≤ b2z op - PUSH1 + 1 ≤ 32).
Proof.
  pose proof (b2z_range op). unfold push_data, int8, PUSH1, PUSH32.
  destruct (Z.leb_spec 96 (b2z op)), (Z.leb_spec (b2z op) 127), (Z.ltb_spec (b2z op) 128); cbn [andb]; try lia.
  - rewrite bool_decide_eq_false_2 by lia. split; [apply Z.ltb_ge; cbn; lia|lia].
  - split; [apply Z.ltb_lt; cbn; lia|done].
  - split; [apply Z.ltb_lt; cbn; lia|done].
Qed.

Lemma codeBitmapInternal_Ok code fuel : ∀ pc bits, analysed code pc bits → (length code < pc + fuel)%nat → (0 < fuel)%nat →
  ∃ bits' pc', codeBitmapInternal fuel code (Z.of_nat pc) bits = Ok bits' ∧ analysed code pc' bits' ∧ (length code ≤ pc')%nat.
Proof.
  induction fuel as [|fuel IH]; intros pc bits Ha Hf Hpos; [lia|]. cbn [codeBitmapInternal].
  destruct (Z.leb_spec (Z.of_nat (length code)) (Z.of_nat pc)); [exists bits, pc; split_and!; [done|done|lia]|].
  destruct (lookup_lt_is_Some_2 code pc) as [op Hop]; [lia|].
  unfold go_index. rewrite Nat2Z.id, Hop. cbn [deref mbind go_res_bind].
  pose proof (push_opcode op) as [-> Hpush]. case_bool_decide as H0.
  - replace (Z.of_nat pc + 1) with (Z.of_nat (S pc)) by lia. apply IH; [|lia|lia].
    replace (S pc) with (S pc + push_data op)%nat by lia. eapply analysed_step; [done..|]. rewrite H0. apply marked_0.
  - destruct (Hpush H0) as [<- Hr]. pose proof Ha as [Hl Hc _ _].
    destruct (setPush_marked (Z.of_nat (push_data op)) (Z.of_nat pc + 1) bits) as (bits' & -> & Hm).
    + lia.
    + lia.
    + intros i Hi. apply Hc. lia.
    + rewrite Hl, Nat2Z.inj_add, Nat2Z.inj_div. dlia.
    + cbn [mbind go_res_bind].
      replace (Z.of_nat pc + 1 + Z.of_nat (push_data op)) with (Z.of_nat (S pc + push_data op)) by lia.
      apply IH; [by eapply analysed_step|lia|lia].
Qed.

(** The jump destination analysis is the definition by recursion over the code: it returns for
    every code, and a byte of the code is an instruction, and not data of a push, exactly when its
    bit is clear. *)
Lemma codeBitmap_Ok code : ∃ bits, codeBitmap code = Ok bits ∧
  ∀ pos, 0 ≤ pos < Z.of_nat (length code) → ∃ data,
    data_bytes 0 code !! Z.to_nat pos = Some data ∧ codeSegment bits pos = Ok (negb data).
Proof.
  unfold codeBitmap.
  destruct (codeBitmapInternal_Ok code (S (length code)) 0 (replicate (length code / 8 + 1 + 4) x00))
    as (bits & pc & Hb & Ha & Hpc); [|lia|lia|].
  - split; [rewrite length_replicate; lia| |lia|done]. intros i _. unfold bit.
    assert (∀ n j, nth j (replicate n x00) x00 = x00) as -> by (intros n; induction n; intros []; cbn; done). apply Z.testbit_0_l.
  - exists bits. split; [done|]. intros pos Hpos. exists (bit bits pos).
    pose proof (an_bits _ _ _ Ha (Z.to_nat pos) ltac:(lia) ltac:(lia)) as Hd.
    rewrite Z2Nat.id in Hd by lia. split; [done|]. apply codeSegment_bit; [lia|].
    rewrite (an_length _ _ _ Ha), Nat2Z.inj_add, Nat2Z.inj_div. dlia.
Qed.
