(* ===== verification/Machine.v ===== *)
(** * The machine

    The state of one execution of the interpreter: stack (src/core/vm/stack.go), memory
    (src/core/vm/memory.go), the helpers of src/core/vm/common.go and gas.go, and the context that
    the instructions read (src/core/vm/evm.go).

    A word is a [uint256.Int], an integer below [2^256]; its arithmetic is that of a third-party
    package and a parameter ([Uint256]), its conversions to bytes and machine integers are those of
    the representation. The fields of the interpreter and of the EVM that an instruction sets for
    the next one, [returnData] and [callGasTemp], are part of the frame: the instructions that call
    set them again before they are read. *)

From Stdlib Require Import ZArith Lia Strings.Byte.
From stdpp Require Import base tactics option numbers list gmap strings.
From S2P Require Import Prelude Common GoMap World Evm Analysis.

Definition ErrInvalidJump : error := Error "vm.ErrInvalidJump".
Definition ErrWriteProtection : error := Error "vm.ErrWriteProtection".
Definition ErrReturnDataOutOfBounds : error := Error "vm.ErrReturnDataOutOfBounds".
Definition ErrGasUintOverflow : error := Error "vm.ErrGasUintOverflow".
Definition errStopToken : error := Error "vm.errStopToken".
Definition ErrStackUnderflow : error := Error "vm.ErrStackUnderflow".
Definition ErrStackOverflow : error := Error "vm.ErrStackOverflow".
Definition ErrInvalidOpCode : error := Error "vm.ErrInvalidOpCode".
Definition errSentry : error := Error "not enough gas for reentrancy sentry".

Definition CallStipend : Z := 2300.

(** ** Words *)

Definition two256 : Z := 2 ^ 256.
Definition is_word (z : Z) : Prop := 0 ≤ z < two256.

(** The arithmetic of [uint256.Int]. *)
Class Uint256 := {
  u_Add : Z → Z → Z;
  u_Sub : Z → Z → Z;
  u_Mul : Z → Z → Z;
  u_Div : Z → Z → Z;
  u_SDiv : Z → Z → Z;
  u_Mod : Z → Z → Z;
  u_SMod : Z → Z → Z;
  u_Exp : Z → Z → Z;
  u_ExtendSign : Z → Z → Z;
  u_Byte : Z → Z → Z;
  u_AddMod : Z → Z → Z → Z;
  u_MulMod : Z → Z → Z → Z;
  u_Lsh : Z → Z → Z;
  u_Rsh : Z → Z → Z;
  u_SRsh : Z → Z → Z;
  u_Slt : Z → Z → bool;
  u_Sgt : Z → Z → bool
}.

Definition Uint64 (x : Z) : Z := u64 x.
Definition IsUint64 (x : Z) : bool := x <? two64.
Definition Uint64WithOverflow (x : Z) : Z * bool := (u64 x, negb (IsUint64 x)).
Definition Bytes32 (x : Z) : Hash := BytesToHash (be_bytes 32 x).
Definition Bytes20 (x : Z) : Address := BytesToAddress (be_bytes 20 x).
Definition SetBytes (b : bytes) : Z := be_val b mod two256.
(** [FromBig] of a nil pointer is a nil pointer, which cannot be pushed. *)
Definition FromBig (b : option Z) : go_res Z := z ← deref b; Ok (z mod two256).
Definition w_Not (x : Z) : Z := two256 - 1 - x.
Definition w_bool (b : bool) : Z := if b then 1 else 0.
Definition w_Sign (x : Z) : Z := if x =? 0 then 0 else if x <? 2 ^ 255 then 1 else -1.
Definition BitLen (x : Z) : Z := if x =? 0 then 0 else Z.log2 x + 1.

(** The conversion of a [uint64] to [int64]. *)
Definition int64 (z : Z) : Z := if z <? 2 ^ 63 then z else z - two64.

Definition SafeMul (x y : Z) : Z * bool := (u64 (x * y), two64 <=? x * y).
Definition SafeAdd (x y : Z) : Z * bool := (u64 (x + y), two64 <=? x + y).

(** ** Context *)

(** [params.Rules], the forks that are active. *)
Record Rules := MkRules {
  IsHomestead : bool;
  IsEIP150 : bool;
  IsEIP158 : bool;
  IsByzantium : bool;
  IsConstantinople : bool;
  IsPetersburg : bool;
  IsIstanbul : bool;
  IsBerlin : bool;
  IsLondon : bool;
  IsShanghai : bool
}.

(** [ChainConfig.Rules]: every fork is active from the start, but for the last one. *)
Definition chainRules (ForkSlotShanghai slot : Z) : Rules :=
  MkRules true true true true true true true true true (ForkSlotShanghai <=? slot).

(** The fields of [BlockContext], [TxContext] and the configuration that instructions read. What
    [GetHash] returns is taken to be a function of the number. *)
Record EvmContext := MkEvmContext {
  ec_Origin : Address;
  ec_GasPrice : option Z;
  ec_Coinbase : Address;
  ec_GasLimit : Z;
  ec_BlockHeight : option Z;
  ec_BlockNumber : option Z;
  ec_Time : option Z;
  ec_Difficulty : option Z;
  ec_BaseFee : option Z;
  ec_ChainID : option Z;
  ec_GetHash : Z → Hash;
  ec_rules : Rules
}.

(** What is fixed during one run: the contract, its input, the depth and the flag [readOnly]. *)
Record Env := MkEnv {
  e_contract : Contract;
  e_input : bytes;
  e_readOnly : bool;
  e_depth : Z
}.

(** The address of the contract, [scope.Contract.Address()]. *)
Definition self (e : Env) : Address := ct_self (e_contract e).

(** ** Frames *)

(** The stack has its top first. *)
Record Frame := MkFrame {
  f_world : World;
  f_pc : Z;
  f_stack : list Z;
  f_store : bytes;
  f_lastGasCost : Z;
  f_gas : Z;
  f_returnData : bytes;
  f_callGasTemp : Z
}.

Definition f_set_world (w : World) (s : Frame) : Frame :=
  MkFrame w (f_pc s) (f_stack s) (f_store s) (f_lastGasCost s) (f_gas s) (f_returnData s) (f_callGasTemp s).
Definition f_set_pc (pc : Z) (s : Frame) : Frame :=
  MkFrame (f_world s) pc (f_stack s) (f_store s) (f_lastGasCost s) (f_gas s) (f_returnData s) (f_callGasTemp s).
Definition f_set_stack (l : list Z) (s : Frame) : Frame :=
  MkFrame (f_world s) (f_pc s) l (f_store s) (f_lastGasCost s) (f_gas s) (f_returnData s) (f_callGasTemp s).
Definition f_set_store (m : bytes) (s : Frame) : Frame :=
  MkFrame (f_world s) (f_pc s) (f_stack s) m (f_lastGasCost s) (f_gas s) (f_returnData s) (f_callGasTemp s).
Definition f_set_lastGasCost (g : Z) (s : Frame) : Frame :=
  MkFrame (f_world s) (f_pc s) (f_stack s) (f_store s) g (f_gas s) (f_returnData s) (f_callGasTemp s).
Definition f_set_gas (g : Z) (s : Frame) : Frame :=
  MkFrame (f_world s) (f_pc s) (f_stack s) (f_store s) (f_lastGasCost s) g (f_returnData s) (f_callGasTemp s).
Definition f_set_returnData (d : bytes) (s : Frame) : Frame :=
  MkFrame (f_world s) (f_pc s) (f_stack s) (f_store s) (f_lastGasCost s) (f_gas s) d (f_callGasTemp s).
Definition f_set_callGasTemp (g : Z) (s : Frame) : Frame :=
  MkFrame (f_world s) (f_pc s) (f_stack s) (f_store s) (f_lastGasCost s) (f_gas s) (f_returnData s) g.

(** A change of the world, and a reading of it. *)
Definition mod_world (f : World → World) : stM Frame unit := modify (λ s, f_set_world (f (f_world s)) s).
Definition get_world : stM Frame World := gets f_world.

(** ** Stack *)

Definition pop : stM Frame Z := λ s,
  match f_stack s with
  | [] => (Panic, s)
  | x :: l => (Ok x, f_set_stack l s)
  end.

Definition push (x : Z) : stM Frame unit := modify (λ s, f_set_stack (x :: f_stack s) s).

(** [Back(n)], the word below the top [n] words. *)
Definition back (l : list Z) (n : nat) : go_res Z := go_index l n.

Definition dup (n : nat) : stM Frame unit :=
  s ← getS; x ← liftR (go_index (f_stack s) (n - 1)); push x.

Definition swap (n : nat) : stM Frame unit :=
  s ← getS;
  x ← liftR (go_index (f_stack s) 0);
  y ← liftR (go_index (f_stack s) (n - 1));
  modify (f_set_stack (<[O := y]> (<[(n - 1)%nat := x]> (f_stack s)))).

(** ** Memory *)

(** A slice with signed bounds. *)
Definition zslice (lo hi : Z) (b : bytes) : go_res bytes :=
  if (lo <? 0) || (hi <? 0) then Panic else go_slice (Z.to_nat lo) (Z.to_nat hi) b.

(** [copy(m[lo:hi], value)] *)
Definition copy_into (lo hi : Z) (value m : bytes) : go_res bytes :=
  dst ← zslice lo hi m;
  Ok (take (Z.to_nat lo) m ++ go_copy dst value ++ drop (Z.to_nat hi) m).

Definition mem_len (s : Frame) : Z := Z.of_nat (length (f_store s)).

Definition mem_Set (offset size : Z) (value : bytes) : stM Frame unit :=
  if size =? 0 then mret tt else
  s ← getS;
  if mem_len s <? u64 (offset + size) then liftR Panic else
  m ← liftR (copy_into offset (u64 (offset + size)) value (f_store s));
  modify (f_set_store m).

Definition mem_Set32 (offset val : Z) : stM Frame unit :=
  s ← getS;
  if mem_len s <? u64 (offset + 32) then liftR Panic else
  m ← liftR (copy_into offset (mem_len s) (fb (Bytes32 val)) (f_store s));
  modify (f_set_store m).

Definition mem_Resize (size : Z) : stM Frame unit :=
  modify (λ s, if mem_len s <? size
               then f_set_store (f_store s ++ replicate (Z.to_nat (size - mem_len s)) x00) s else s).

(** [GetCopy] and [GetPtr], of which one copies; the callers do not write through the pointer. *)
Definition mem_Get (offset size : Z) : stM Frame bytes :=
  if size =? 0 then mret [] else
  s ← getS;
  if int64 offset <? mem_len s
  then liftR (zslice (int64 offset) (int64 (u64 (int64 offset + int64 size))) (f_store s))
  else mret [].

(** ** Helpers *)

Definition RightPadBytes (b : bytes) (l : Z) : bytes :=
  if l <=? Z.of_nat (length b) then b else b ++ replicate (Z.to_nat l - length b) x00.

Definition getData (data : bytes) (start size : Z) : go_res bytes :=
  let length := Z.of_nat (length data) in
  let start := if length <? start then length else start in
  let stop := u64 (start + size) in
  let stop := if length <? stop then length else stop in
  d ← zslice start stop data;
  Ok (RightPadBytes d (int64 size)).

Definition toWordSize (size : Z) : Z :=
  if MaxUint64 - 31 <? size then MaxUint64 / 32 + 1 else (size + 31) / 32.

Definition calcMemSize64WithUint (off length64 : Z) : Z * bool :=
  if length64 =? 0 then (0, false) else
  let '(offset64, overflow) := Uint64WithOverflow off in
  if overflow then (0, true) else
  let val := u64 (offset64 + length64) in (val, val <? offset64).

Definition calcMemSize64 (off l : Z) : Z * bool :=
  if negb (IsUint64 l) then (0, true) else calcMemSize64WithUint off (Uint64 l).

(** [contract.UseGas] *)
Definition UseGas (gas : Z) : stM Frame bool := λ s,
  if f_gas s <? gas then (Ok false, s) else (Ok true, f_set_gas (f_gas s - gas) s).

Definition GetOp (code : bytes) (n : Z) : byte := default x00 (code !! Z.to_nat n).

(** The analysis is a function of the code and is computed anew; the source keeps its result, for a
    deployed code by the hash of the code in a map that the contracts of a call share. *)
Definition validJumpdest (code : bytes) (dest : Z) : go_res bool :=
  let '(udest, overflow) := Uint64WithOverflow dest in
  if overflow || (Z.of_nat (length code) <=? udest) then Ok false else
  op ← go_index code (Z.to_nat udest);
  if negb (bool_decide (op = x5b)) then Ok false else
  bits ← codeBitmap code;
  codeSegment bits udest.

Definition callGas (isEip150 : bool) (availableGas base callCost : Z) : go_res Z :=
  let availableGas := u64 (availableGas - base) in
  let gas := availableGas - availableGas / 64 in
  if isEip150 && (negb (IsUint64 callCost) || (gas <? Uint64 callCost)) then Ok gas else
  if negb (IsUint64 callCost) then Err ErrGasUintOverflow else Ok (Uint64 callCost).
