(* ===== verification/Instr.v ===== *)
(** * Instructions

    The execution functions of the instructions (src/core/vm/instructions.go and eips.go). The
    source keeps them as function values in the table of instructions; here each has a constructor
    with its name, in groups that follow the source, and [execute] is the function of a name.

    An instruction pops its operands and pushes its result; the source writes the result over the
    last operand, which is the same. It returns the output and an error, as the source does:
    [errStopToken] ends the run without an error. Not modelled are the cancelling of an execution
    from another thread ([abort]) and the recording of preimages. *)

From Stdlib Require Import ZArith Lia Strings.Byte.
From stdpp Require Import base tactics option numbers list gmap strings.
From S2P Require Import Prelude Common GoMap World Evm Analysis Machine.

(** ** Names *)

Inductive arith := opAdd | opSub | opMul | opDiv | opSdiv | opMod | opSmod | opExp | opSignExtend.
Inductive compare := opLt | opGt | opSlt | opSgt | opEq.
Inductive unary := opNot | opIszero.
Inductive bitwise := opAnd | opOr | opXor | opByte.
Inductive modular := opAddmod | opMulmod.
Inductive shift := opSHL | opSHR | opSAR.
Inductive reading :=
  | opKeccak256 | opAddress | opBalance | opOrigin | opCaller | opCallValue | opCallDataLoad | opCallDataSize
  | opCallDataCopy.
Inductive codes :=
  | opReturnDataSize | opReturnDataCopy | opExtCodeSize | opCodeSize | opCodeCopy | opExtCodeCopy | opExtCodeHash.
Inductive blockinfo :=
  | opGasprice | opBlockhash | opCoinbase | opTimestamp | opNumber | opDifficulty | opGasLimit.
Inductive extra := opSelfBalance | opChainID | opBaseFee | opPush0.
Inductive flow :=
  | opPop | opMload | opMstore | opMstore8 | opSload | opSstore | opJump | opJumpi | opJumpdest | opPc | opMsize
  | opGas.
Inductive calling := opCreate | opCreate2 | opCall | opCallCode | opDelegateCall | opStaticCall.
Inductive ending := opReturn | opRevert | opUndefined | opStop | opSelfdestruct.
Inductive making := makeLog (size : nat) | opPush1 | makePush (size pushByteSize : Z) | makeDup (size : nat) | makeSwap (size : nat).

Inductive executionFunc :=
  | Arith (o : arith) | Compare (o : compare) | Unary (o : unary) | Bitwise (o : bitwise) | Modular (o : modular)
  | Shift (o : shift) | Reading (o : reading) | Codes (o : codes) | BlockInfo (o : blockinfo) | Extra (o : extra)
  | Flow (o : flow) | Calling (o : calling) | Ending (o : ending) | Making (o : making).

Coercion Arith : arith >-> executionFunc.
Coercion Compare : compare >-> executionFunc.
Coercion Unary : unary >-> executionFunc.
Coercion Bitwise : bitwise >-> executionFunc.
Coercion Modular : modular >-> executionFunc.
Coercion Shift : shift >-> executionFunc.
Coercion Reading : reading >-> executionFunc.
Coercion Codes : codes >-> executionFunc.
Coercion BlockInfo : blockinfo >-> executionFunc.
Coercion Extra : extra >-> executionFunc.
Coercion Flow : flow >-> executionFunc.
Coercion Calling : calling >-> executionFunc.
Coercion Ending : ending >-> executionFunc.
Coercion Making : making >-> executionFunc.

(** What an instruction returns: the output and the error. *)
Abbreviation outcome := (bytes * option error)%type.

(** [return nil, nil] and [return nil, err] *)
Definition continue : stM Frame outcome := mret ([], None).
Definition fail (e : error) : stM Frame outcome := mret ([], Some e).

(** ** Arithmetic *)

Section pure.
Context `{!Uint256}.

Definition arith_result (o : arith) (x y : Z) : Z :=
  match o with
  | opAdd => u_Add x y
  | opSub => u_Sub x y
  | opMul => u_Mul x y
  | opDiv => u_Div x y
  | opSdiv => u_SDiv x y
  | opMod => u_Mod x y
  | opSmod => u_SMod x y
  | opExp => u_Exp x y
  | opSignExtend => u_ExtendSign y x
  end.

Definition compare_result (o : compare) (x y : Z) : bool :=
  match o with
  | opLt => x <? y
  | opGt => y <? x
  | opSlt => u_Slt x y
  | opSgt => u_Sgt x y
  | opEq => x =? y
  end.

Definition unary_result (o : unary) (x : Z) : Z :=
  match o with
  | opNot => w_Not x
  | opIszero => w_bool (x =? 0)
  end.

Definition bitwise_result (o : bitwise) (x y : Z) : Z :=
  match o with
  | opAnd => Z.land x y
  | opOr => Z.lor x y
  | opXor => Z.lxor x y
  | opByte => u_Byte y x
  end.

Definition modular_result (o : modular) (x y z : Z) : Z :=
  match o with
  | opAddmod => u_AddMod x y z
  | opMulmod => u_MulMod x y z
  end.

Definition shift_result (o : shift) (shift value : Z) : Z :=
  match o with
  | opSHL => if shift <? 256 then u_Lsh value (Uint64 shift) else 0
  | opSHR => if shift <? 256 then u_Rsh value (Uint64 shift) else 0
  | opSAR =>
      if 256 <? shift then (if 0 <=? w_Sign value then 0 else two256 - 1) else u_SRsh value (Uint64 shift)
  end.
End pure.

Definition binary (f : Z → Z → Z) : stM Frame outcome :=
  x ← pop; y ← pop; _ ← push (f x y); continue.

Fixpoint pop_n (n : nat) : stM Frame (list Z) :=
  match n with
  | O => mret []
  | S n => x ← pop; l ← pop_n n; mret (x :: l)
  end.

(** ** Execution *)

Section execute.
Context `{!Crypto, !Uint256, !Precompiles, !Interpreter}.
Context (ctx : EvmContext) (env : Env).

Definition exec_reading (o : reading) : stM Frame outcome :=
  match o with
  | opKeccak256 =>
      offset ← pop; size ← pop;
      data ← mem_Get (Uint64 offset) (Uint64 size);
      _ ← push (SetBytes (fb (keccak256 data))); continue
  | opAddress => _ ← push (SetBytes (fb (self env))); continue
  | opBalance =>
      slot ← pop; w ← get_world;
      v ← liftR (FromBig (Some (GetBalance w (Bytes20 slot)))); _ ← push v; continue
  | opOrigin => _ ← push (SetBytes (fb (ec_Origin ctx))); continue
  | opCaller => _ ← push (SetBytes (fb (CallerAddress (e_contract env)))); continue
  | opCallValue => v ← liftR (FromBig (ct_value (e_contract env))); _ ← push v; continue
  | opCallDataLoad =>
      x ← pop;
      let '(offset, overflow) := Uint64WithOverflow x in
      if negb overflow
      then (data ← liftR (getData (e_input env) offset 32); _ ← push (SetBytes data); continue)
      else (_ ← push 0; continue)
  | opCallDataSize => _ ← push (u64 (Z.of_nat (length (e_input env)))); continue
  | opCallDataCopy =>
      memOffset ← pop; dataOffset ← pop; length ← pop;
      let '(dataOffset64, overflow) := Uint64WithOverflow dataOffset in
      let dataOffset64 := if overflow then MaxUint64 else dataOffset64 in
      data ← liftR (getData (e_input env) dataOffset64 (Uint64 length));
      _ ← mem_Set (Uint64 memOffset) (Uint64 length) data; continue
  end.

(** Copying code to memory. *)
Definition code_copy (code : bytes) (memOffset codeOffset length : Z) : stM Frame outcome :=
  let '(uint64CodeOffset, overflow) := Uint64WithOverflow codeOffset in
  let uint64CodeOffset := if overflow then MaxUint64 else uint64CodeOffset in
  codeCopy ← liftR (getData code uint64CodeOffset (Uint64 length));
  _ ← mem_Set (Uint64 memOffset) (Uint64 length) codeCopy; continue.

Definition exec_codes (o : codes) : stM Frame outcome :=
  match o with
  | opReturnDataSize => s ← getS; _ ← push (u64 (Z.of_nat (length (f_returnData s)))); continue
  | opReturnDataCopy =>
      memOffset ← pop; dataOffset ← pop; length ← pop;
      let '(offset64, overflow) := Uint64WithOverflow dataOffset in
      if overflow then fail ErrReturnDataOutOfBounds else
      let '(end64, overflow) := Uint64WithOverflow (u_Add dataOffset length) in
      s ← getS;
      if overflow || (Z.of_nat (List.length (f_returnData s)) <? end64) then fail ErrReturnDataOutOfBounds else
      data ← liftR (zslice offset64 end64 (f_returnData s));
      _ ← mem_Set (Uint64 memOffset) (Uint64 length) data; continue
  | opExtCodeSize => slot ← pop; w ← get_world; _ ← push (u64 (GetCodeSize w (Bytes20 slot))); continue
  | opCodeSize => _ ← push (u64 (Z.of_nat (length (ct_Code (e_contract env))))); continue
  | opCodeCopy =>
      memOffset ← pop; codeOffset ← pop; length ← pop;
      code_copy (ct_Code (e_contract env)) memOffset codeOffset length
  | opExtCodeCopy =>
      a ← pop; memOffset ← pop; codeOffset ← pop; length ← pop;
      w ← get_world;
      code_copy (default [] (GetCode w (Bytes20 a))) memOffset codeOffset length
  | opExtCodeHash =>
      slot ← pop; w ← get_world;
      let address := Bytes20 slot in
      _ ← push (if Empty w address then 0 else SetBytes (fb (GetCodeHash w address))); continue
  end.

(** The bounds of the block numbers that BLOCKHASH answers. *)
Definition blockhash_upper : Z :=
  match ec_BlockNumber ctx with
  | Some n => if 0 <? u64 n then u64 n else from_option u64 0 (ec_BlockHeight ctx)
  | None => from_option u64 0 (ec_BlockHeight ctx)
  end.

Definition exec_blockinfo (o : blockinfo) : stM Frame outcome :=
  match o with
  | opGasprice => v ← liftR (FromBig (ec_GasPrice ctx)); _ ← push v; continue
  | opBlockhash =>
      num ← pop;
      let '(num64, overflow) := Uint64WithOverflow num in
      if overflow then (_ ← push 0; continue) else
      let upper := blockhash_upper in
      let lower := if upper <? 257 then 0 else upper - 256 in
      _ ← push (if (lower <=? num64) && (num64 <? upper) then SetBytes (fb (ec_GetHash ctx num64)) else 0); continue
  | opCoinbase => _ ← push (SetBytes (fb (ec_Coinbase ctx))); continue
  | opTimestamp => v ← liftR (FromBig (ec_Time ctx)); _ ← push v; continue
  | opNumber => v ← liftR (FromBig (ec_BlockHeight ctx)); _ ← push v; continue
  | opDifficulty => v ← liftR (FromBig (ec_Difficulty ctx)); _ ← push v; continue
  | opGasLimit => _ ← push (ec_GasLimit ctx); continue
  end.

(** The instructions of src/core/vm/eips.go. *)
Definition exec_extra (o : extra) : stM Frame outcome :=
  match o with
  | opSelfBalance =>
      w ← get_world; v ← liftR (FromBig (Some (GetBalance w (self env)))); _ ← push v; continue
  | opChainID => v ← liftR (FromBig (ec_ChainID ctx)); _ ← push v; continue
  | opBaseFee => v ← liftR (FromBig (ec_BaseFee ctx)); _ ← push v; continue
  | opPush0 => _ ← push 0; continue
  end.

Definition jump (pos : Z) : stM Frame outcome :=
  valid ← liftR (validJumpdest (ct_Code (e_contract env)) pos);
  if negb valid then fail ErrInvalidJump else
  _ ← modify (f_set_pc (u64 (Uint64 pos - 1))); continue.

Definition exec_flow (o : flow) : stM Frame outcome :=
  match o with
  | opPop => _ ← pop; continue
  | opMload =>
      v ← pop; data ← mem_Get (Uint64 v) 32; _ ← push (SetBytes data); continue
  | opMstore => mStart ← pop; val ← pop; _ ← mem_Set32 (Uint64 mStart) val; continue
  | opMstore8 =>
      off ← pop; val ← pop;
      s ← getS;
      _ ← liftR (go_index (f_store s) (Z.to_nat (Uint64 off)));
      _ ← modify (f_set_store (<[Z.to_nat (Uint64 off) := z2b (Uint64 val)]> (f_store s))); continue
  | opSload =>
      loc ← pop; w ← get_world;
      _ ← push (SetBytes (fb (GetState w (self env) (Bytes32 loc)))); continue
  | opSstore =>
      if e_readOnly env then fail ErrWriteProtection else
      loc ← pop; val ← pop;
      _ ← mod_world (SetState (self env) (Bytes32 loc) (Bytes32 val)); continue
  | opJump => pos ← pop; jump pos
  | opJumpi => pos ← pop; cond ← pop; if negb (cond =? 0) then jump pos else continue
  | opJumpdest => continue
  | opPc => s ← getS; _ ← push (f_pc s); continue
  | opMsize => s ← getS; _ ← push (u64 (mem_len s)); continue
  | opGas => s ← getS; _ ← push (f_gas s); continue
  end.

(** ** Calls *)

(** An entry point of the EVM is run on the world of the frame. *)
Definition invoke (call : World → go_res vmres * World) : stM Frame vmres := λ s,
  let '(r, w) := call (f_world s) in (r, f_set_world w s).

(** The common end of the calls. *)
Definition end_call (retOffset retSize : Z) (r : vmres) : stM Frame outcome :=
  let '(ret, returnGas, err) := r in
  _ ← push (w_bool (bool_decide (err = None)));
  _ ← (if bool_decide (err = None ∨ err = Some ErrExecutionReverted)
       then mem_Set (Uint64 retOffset) (Uint64 retSize) ret else mret tt);
  _ ← modify (λ s, f_set_gas (u64 (f_gas s + returnGas)) s);
  _ ← modify (f_set_returnData ret);
  mret (ret, None).

(** The common end of the creations, with the word that is pushed. *)
Definition end_create (stackvalue : Z) (r : vmres) : stM Frame outcome :=
  let '(res, returnGas, suberr) := r in
  _ ← push stackvalue;
  _ ← modify (λ s, f_set_gas (u64 (f_gas s + returnGas)) s);
  let returnData := if bool_decide (suberr = Some ErrExecutionReverted) then res else [] in
  _ ← modify (f_set_returnData returnData);
  mret (returnData, None).

Definition exec_create : stM Frame outcome :=
  if e_readOnly env then fail ErrWriteProtection else
  value ← pop; offset ← pop; size ← pop;
  input ← mem_Get (Uint64 offset) (Uint64 size);
  s ← getS;
  let gas := if IsEIP150 (ec_rules ctx) then f_gas s - f_gas s / 64 else f_gas s in
  _ ← UseGas gas;
  let call := Create (e_readOnly env) (e_depth env + 1) (self env) input gas value in
  r ← invoke (λ w, (call w).2);
  let suberr := r.2 in
  let stackvalue :=
    if IsHomestead (ec_rules ctx) && bool_decide (suberr = Some ErrCodeStoreOutOfGas) then 0
    else if bool_decide (suberr ≠ None ∧ suberr ≠ Some ErrCodeStoreOutOfGas) then 0
    else SetBytes (fb (call (f_world s)).1) in
  end_create stackvalue r.

Definition exec_create2 : stM Frame outcome :=
  if e_readOnly env then fail ErrWriteProtection else
  endowment ← pop; offset ← pop; size ← pop; salt ← pop;
  input ← mem_Get (Uint64 offset) (Uint64 size);
  s ← getS;
  let gas := f_gas s - f_gas s / 64 in
  _ ← UseGas gas;
  let call := Create2 (e_readOnly env) (e_depth env + 1) (self env) input gas endowment (Bytes32 salt) in
  r ← invoke (λ w, (call w).2);
  end_create (if bool_decide (r.2 = None) then SetBytes (fb (call (f_world s)).1) else 0) r.

Definition exec_call : stM Frame outcome :=
  _ ← pop; s ← getS;
  let gas := f_callGasTemp s in
  addr ← pop; value ← pop; inOffset ← pop; inSize ← pop; retOffset ← pop; retSize ← pop;
  args ← mem_Get (Uint64 inOffset) (Uint64 inSize);
  if e_readOnly env && negb (value =? 0) then fail ErrWriteProtection else
  let gas := if negb (value =? 0) then u64 (gas + CallStipend) else gas in
  r ← invoke (Call (e_readOnly env) (e_depth env + 1) (self env) (Bytes20 addr) args gas value);
  end_call retOffset retSize r.

Definition exec_callcode : stM Frame outcome :=
  _ ← pop; s ← getS;
  let gas := f_callGasTemp s in
  addr ← pop; value ← pop; inOffset ← pop; inSize ← pop; retOffset ← pop; retSize ← pop;
  args ← mem_Get (Uint64 inOffset) (Uint64 inSize);
  let gas := if negb (value =? 0) then u64 (gas + CallStipend) else gas in
  r ← invoke (CallCode (e_readOnly env) (e_depth env + 1) (self env) (Bytes20 addr) args gas value);
  end_call retOffset retSize r.

Definition exec_delegatecall : stM Frame outcome :=
  _ ← pop; s ← getS;
  let gas := f_callGasTemp s in
  addr ← pop; inOffset ← pop; inSize ← pop; retOffset ← pop; retSize ← pop;
  args ← mem_Get (Uint64 inOffset) (Uint64 inSize);
  r ← invoke (DelegateCall (e_readOnly env) (e_depth env + 1) (e_contract env) (Bytes20 addr) args gas);
  end_call retOffset retSize r.

Definition exec_staticcall : stM Frame outcome :=
  _ ← pop; s ← getS;
  let gas := f_callGasTemp s in
  addr ← pop; inOffset ← pop; inSize ← pop; retOffset ← pop; retSize ← pop;
  args ← mem_Get (Uint64 inOffset) (Uint64 inSize);
  r ← invoke (StaticCall (e_depth env + 1) (self env) (Bytes20 addr) args gas);
  end_call retOffset retSize r.

Definition exec_calling (o : calling) : stM Frame outcome :=
  match o with
  | opCreate => exec_create
  | opCreate2 => exec_create2
  | opCall => exec_call
  | opCallCode => exec_callcode
  | opDelegateCall => exec_delegatecall
  | opStaticCall => exec_staticcall
  end.

(** ** Ends, logs, pushes *)

(** SELFDESTRUCT adds the balance to the beneficiary; it takes it from nobody. *)
Definition exec_ending (o : ending) : stM Frame outcome :=
  match o with
  | opReturn =>
      offset ← pop; size ← pop;
      ret ← mem_Get (Uint64 offset) (Uint64 size); mret (ret, Some errStopToken)
  | opRevert =>
      offset ← pop; size ← pop;
      ret ← mem_Get (Uint64 offset) (Uint64 size);
      _ ← modify (f_set_returnData ret); mret (ret, Some ErrExecutionReverted)
  | opUndefined =>
      s ← getS; _ ← liftR (go_index (ct_Code (e_contract env)) (Z.to_nat (f_pc s))); fail ErrInvalidOpCode
  | opStop => fail errStopToken
  | opSelfdestruct =>
      if e_readOnly env then fail ErrWriteProtection else
      beneficiary ← pop; w ← get_world;
      _ ← mod_world (AddBalance (Bytes20 beneficiary) (GetBalance w (self env))); fail errStopToken
  end.

Definition exec_making (o : making) : stM Frame outcome :=
  match o with
  | makeLog size =>
      if e_readOnly env then fail ErrWriteProtection else
      mStart ← pop; mSize ← pop;
      topics ← pop_n size;
      d ← mem_Get (Uint64 mStart) (Uint64 mSize);
      _ ← liftR (deref (ec_BlockNumber ctx));
      _ ← mod_world (AddLog (MkLog (self env) (Bytes32 <$> topics) d)); continue
  | opPush1 =>
      _ ← modify (λ s, f_set_pc (u64 (f_pc s + 1)) s);
      s ← getS;
      _ ← push (from_option b2z 0 (ct_Code (e_contract env) !! Z.to_nat (f_pc s))); continue
  | makePush size pushByteSize =>
      let code := ct_Code (e_contract env) in
      let codeLen := Z.of_nat (length code) in
      s ← getS;
      let startMin := if int64 (u64 (f_pc s + 1)) <? codeLen then int64 (u64 (f_pc s + 1)) else codeLen in
      let endMin := if startMin + pushByteSize <? codeLen then startMin + pushByteSize else codeLen in
      data ← liftR (zslice startMin endMin code);
      _ ← push (SetBytes (RightPadBytes data pushByteSize));
      _ ← modify (λ s, f_set_pc (u64 (f_pc s + size)) s); continue
  | makeDup size => _ ← dup size; continue
  | makeSwap size => _ ← swap (size + 1); continue
  end.

Definition execute (e : executionFunc) : stM Frame outcome :=
  match e with
  | Arith o => binary (arith_result o)
  | Compare o => binary (λ x y, w_bool (compare_result o x y))
  | Unary o => x ← pop; _ ← push (unary_result o x); continue
  | Bitwise o => binary (bitwise_result o)
  | Modular o => x ← pop; y ← pop; z ← pop; _ ← push (modular_result o x y z); continue
  | Shift o => binary (shift_result o)
  | Reading o => exec_reading o
  | Codes o => exec_codes o
  | BlockInfo o => exec_blockinfo o
  | Extra o => exec_extra o
  | Flow o => exec_flow o
  | Calling o => exec_calling o
  | Ending o => exec_ending o
  | Making o => exec_making o
  end.
End execute.
