(* ===== verification/GasTable.v ===== *)
(** * Gas and memory tables

    The dynamic prices of instructions (src/core/vm/gas_table.go and operations_acl.go) and the
    memory that they need (src/core/vm/memory_table.go). As with the instructions, the function
    values of the source have a constructor each; [dynamicGas] and [memorySize] are the functions
    of a name. A price is computed on the frame: it may enlarge the access list and the refund
    counter, notes the price of the memory, and sets the gas of a call. *)

From Stdlib Require Import ZArith Lia Strings.Byte.
From stdpp Require Import base tactics option numbers list gmap strings.
From S2P Require Import Prelude Common GoMap World Evm Analysis Machine.

(** ** Prices *)

Definition MemoryGas : Z := 3.
Definition QuadCoeffDiv : Z := 512.
Definition CopyGas : Z := 3.
Definition LogGas : Z := 375.
Definition LogTopicGas : Z := 375.
Definition LogDataGas : Z := 8.
Definition Keccak256WordGas : Z := 6.
Definition ExpGas : Z := 10.
Definition ExpByteFrontier : Z := 10.
Definition ExpByteEIP158 : Z := 50.
Definition CallNewAccountGas : Z := 25000.
Definition CallValueTransferGas : Z := 9000.
Definition SstoreSetGas : Z := 20000.
Definition SstoreResetGas : Z := 5000.
Definition SstoreClearGas : Z := 5000.
Definition SstoreRefundGas : Z := 15000.
(** Also [NetSstoreDirtyGas], the price of writing a slot again. *)
Definition NetSstoreNoopGas : Z := 200.
Definition NetSstoreInitGas : Z := 20000.
Definition NetSstoreCleanGas : Z := 5000.
Definition NetSstoreClearRefund : Z := 15000.
Definition NetSstoreResetRefund : Z := 4800.
Definition NetSstoreResetClearRefund : Z := 19800.
Definition SstoreSentryGasEIP2200 : Z := 2300.
Definition SstoreSetGasEIP2200 : Z := 20000.
Definition SstoreResetGasEIP2200 : Z := 5000.
Definition SstoreClearsScheduleRefundEIP2200 : Z := 15000.
Definition SloadGasEIP2200 : Z := 800.
Definition ColdAccountAccessCostEIP2929 : Z := 2600.
Definition ColdSloadCostEIP2929 : Z := 2100.
Definition WarmStorageReadCostEIP2929 : Z := 100.
Definition SstoreClearsScheduleRefundEIP3529 : Z :=
  SstoreResetGasEIP2200 - ColdSloadCostEIP2929 + TxAccessListStorageKeyGas.
Definition SelfdestructGasEIP150 : Z := 5000.
Definition CreateBySelfdestructGas : Z := 25000.
Definition SelfdestructRefundGas : Z := 24000.

(** ** Names *)

Inductive oldCall := gasCall | gasCallCode | gasDelegateCall | gasStaticCall.

Inductive gasFunc :=
  | memoryCopierGas (stackpos : nat)
  | gasSStore | gasSStoreEIP2200
  | makeGasLog (n : Z)
  | gasKeccak256 | pureMemoryGascost | gasCreate2 | gasExpFrontier | gasExpEIP158
  | OldCall (o : oldCall)
  | gasSelfdestruct
  | makeGasSStoreFunc (clearingRefund : Z)
  | gasSLoadEIP2929 | gasExtCodeCopyEIP2929 | gasEip2929AccountCheck
  | makeCallVariantGasCallEIP2929 (o : oldCall)
  | makeSelfdestructGasFn (refundsEnabled : bool).

Inductive memorySizeFunc :=
  | memoryKeccak256 | memoryCallDataCopy | memoryReturnDataCopy | memoryCodeCopy | memoryExtCodeCopy | memoryMLoad
  | memoryMStore8 | memoryMStore | memoryCreate | memoryCreate2 | memoryCall | memoryDelegateCall | memoryStaticCall
  | memoryReturn | memoryRevert | memoryLog.

(** ** Memory *)

(** [calcMemSize64] of two words of the stack. *)
Definition memSize (l : list Z) (off len : nat) : go_res (Z * bool) :=
  o ← back l off; n ← back l len; Ok (calcMemSize64 o n).

(** The larger of the memory of the output and of the input of a call. *)
Definition callMemSize (l : list Z) (retOff retLen inOff inLen : nat) : go_res (Z * bool) :=
  '(x, overflow) ← memSize l retOff retLen;
  if overflow : bool then Ok (0, true) else
  '(y, overflow) ← memSize l inOff inLen;
  if overflow : bool then Ok (0, true) else
  Ok (if y <? x then x else y, false).

Definition memorySize (m : memorySizeFunc) (l : list Z) : go_res (Z * bool) :=
  match m with
  | memoryKeccak256 => memSize l 0 1
  | memoryCallDataCopy | memoryReturnDataCopy | memoryCodeCopy => memSize l 0 2
  | memoryExtCodeCopy => memSize l 1 3
  | memoryMLoad => o ← back l 0; Ok (calcMemSize64WithUint o 32)
  | memoryMStore8 => o ← back l 0; Ok (calcMemSize64WithUint o 1)
  | memoryMStore => o ← back l 0; Ok (calcMemSize64WithUint o 32)
  | memoryCreate | memoryCreate2 => memSize l 1 2
  | memoryCall => callMemSize l 5 6 3 4
  | memoryDelegateCall | memoryStaticCall => callMemSize l 4 5 2 3
  | memoryReturn | memoryRevert | memoryLog => memSize l 0 1
  end.

Definition memoryGasCost (newMemSize : Z) : stM Frame Z :=
  if newMemSize =? 0 then mret 0 else
  if 0x1FFFFFFFE0 <? newMemSize then liftR (Err ErrGasUintOverflow) else
  let newMemSizeWords := toWordSize newMemSize in
  let newMemSize := u64 (newMemSizeWords * 32) in
  s ← getS;
  if mem_len s <? newMemSize then
    let square := u64 (newMemSizeWords * newMemSizeWords) in
    let linCoef := u64 (newMemSizeWords * MemoryGas) in
    let quadCoef := square / QuadCoeffDiv in
    let newTotalFee := u64 (linCoef + quadCoef) in
    _ ← modify (f_set_lastGasCost newTotalFee);
    mret (u64 (newTotalFee - f_lastGasCost s))
  else mret 0.

(** ** Checked sums *)

(** [if gas, overflow = math.SafeAdd(x, y); overflow { return 0, ErrGasUintOverflow }] *)
Definition checked (r : Z * bool) : stM Frame Z :=
  if r.2 then liftR (Err ErrGasUintOverflow) else mret r.1.

(** A word of the stack that has to fit 64 bits. *)
Definition back64 (n : nat) : stM Frame Z :=
  s ← getS; x ← liftR (back (f_stack s) n); checked (Uint64WithOverflow x).

Definition peek_at (n : nat) : stM Frame Z := s ← getS; liftR (back (f_stack s) n).

(** The memory and a price per word of data. *)
Definition wordsGas (stackpos : nat) (wordGas memorySize : Z) : stM Frame Z :=
  gas ← memoryGasCost memorySize;
  words ← back64 stackpos;
  words ← checked (SafeMul (toWordSize words) wordGas);
  checked (SafeAdd gas words).

Definition logGas (n memorySize : Z) : stM Frame Z :=
  requestedSize ← back64 1;
  gas ← memoryGasCost memorySize;
  gas ← checked (SafeAdd gas LogGas);
  gas ← checked (SafeAdd gas (n * LogTopicGas));
  memorySizeGas ← checked (SafeMul requestedSize LogDataGas);
  checked (SafeAdd gas memorySizeGas).

Definition expGas (byteGas : Z) : stM Frame Z :=
  exponent ← peek_at 1;
  let expByteLen := (BitLen exponent + 7) / 8 in
  checked (SafeAdd (expByteLen * byteGas) ExpGas).

(** ** Storage *)

Section storage.
Context (ctx : EvmContext) (env : Env).
Let addRefund (g : Z) : stM Frame unit := mod_world (AddRefund g).
Let zero : Hash := zero_fixed 32.

(** The refund counter never goes below zero: the source panics. *)
Definition subRefund (g : Z) : stM Frame unit := λ s,
  let '(r, w) := SubRefund g (f_world s) in (r, f_set_world w s).

Definition sstoreLegacy (current : Hash) (y : Z) : stM Frame Z :=
  if bool_decide (current = zero) && negb (w_Sign y =? 0) then mret SstoreSetGas
  else if bool_decide (current ≠ zero) && (w_Sign y =? 0) then (_ ← addRefund SstoreRefundGas; mret SstoreClearGas)
  else mret SstoreResetGas.

(** The rules for a write of a slot: its price by the original, the current and the new value, and
    the refunds. [cost] is what the access to the slot costs; the others are the prices of a write
    that changes nothing or again, of the first write of an empty and of another slot, the refund
    of clearing it, and those of undoing what was paid. *)
Definition sstoreNet (cost noop init clean clearRefund resetClearRefund resetRefund : Z)
    (original current value : Hash) : stM Frame Z :=
  if bool_decide (current = value) then mret (cost + noop) else
  if bool_decide (original = current) then
    if bool_decide (original = zero) then mret (cost + init) else
    _ ← (if bool_decide (value = zero) then addRefund clearRefund else mret tt);
    mret (cost + clean)
  else
    _ ← (if bool_decide (original ≠ zero) then
           if bool_decide (current = zero) then subRefund clearRefund
           else if bool_decide (value = zero) then addRefund clearRefund else mret tt
         else mret tt);
    _ ← (if bool_decide (original = value) then
           if bool_decide (original = zero) then addRefund resetClearRefund else addRefund resetRefund
         else mret tt);
    mret (cost + noop).

Definition sstoreGas : stM Frame Z :=
  y ← peek_at 1; x ← peek_at 0; w ← get_world;
  let current := GetState w (self env) (Bytes32 x) in
  if IsPetersburg (ec_rules ctx) || negb (IsConstantinople (ec_rules ctx)) then sstoreLegacy current y else
  sstoreNet 0 NetSstoreNoopGas NetSstoreInitGas NetSstoreCleanGas NetSstoreClearRefund NetSstoreResetClearRefund
    NetSstoreResetRefund (GetCommittedState w (self env) (Bytes32 x)) current (Bytes32 y).

Definition sstoreGasEIP2200 : stM Frame Z :=
  s ← getS;
  if f_gas s <=? SstoreSentryGasEIP2200 then liftR (Err errSentry) else
  y ← peek_at 1; x ← peek_at 0; w ← get_world;
  sstoreNet 0 SloadGasEIP2200 SstoreSetGasEIP2200 SstoreResetGasEIP2200 SstoreClearsScheduleRefundEIP2200
    (SstoreSetGasEIP2200 - SloadGasEIP2200) (SstoreResetGasEIP2200 - SloadGasEIP2200)
    (GetCommittedState w (self env) (Bytes32 x)) (GetState w (self env) (Bytes32 x)) (Bytes32 y).

(** A slot of a contract whose address is not on the access list: the source panics. *)
Definition sstoreGasEIP2929 (clearingRefund : Z) : stM Frame Z :=
  s ← getS;
  if f_gas s <=? SstoreSentryGasEIP2200 then liftR (Err errSentry) else
  y ← peek_at 1; x ← peek_at 0; w ← get_world;
  let slot := Bytes32 x in
  let '(addrPresent, slotPresent) := SlotInAccessList w (self env) slot in
  _ ← (if slotPresent then mret tt else
       _ ← mod_world (AddSlotToAccessList (self env) slot);
       if addrPresent then mret tt else liftR Panic);
  sstoreNet (if slotPresent then 0 else ColdSloadCostEIP2929) WarmStorageReadCostEIP2929 SstoreSetGasEIP2200
    (SstoreResetGasEIP2200 - ColdSloadCostEIP2929) clearingRefund
    (SstoreSetGasEIP2200 - WarmStorageReadCostEIP2929)
    (SstoreResetGasEIP2200 - ColdSloadCostEIP2929 - WarmStorageReadCostEIP2929)
    (GetCommittedState w (self env) slot) (GetState w (self env) slot) (Bytes32 y).

Definition sloadGasEIP2929 : stM Frame Z :=
  loc ← peek_at 0; w ← get_world;
  let slot := Bytes32 loc in
  if negb (SlotInAccessList w (self env) slot).2
  then (_ ← mod_world (AddSlotToAccessList (self env) slot); mret ColdSloadCostEIP2929)
  else mret WarmStorageReadCostEIP2929.

(** ** Accounts *)

Definition extCodeCopyGasEIP2929 (memorySize : Z) : stM Frame Z :=
  gas ← wordsGas 3 CopyGas memorySize;
  a ← peek_at 0; w ← get_world;
  let addr := Bytes20 a in
  if negb (AddressInAccessList w addr) then
    _ ← mod_world (AddAddressToAccessList addr);
    checked (SafeAdd gas (ColdAccountAccessCostEIP2929 - WarmStorageReadCostEIP2929))
  else mret gas.

Definition accountCheckGas : stM Frame Z :=
  a ← peek_at 0; w ← get_world;
  let addr := Bytes20 a in
  if negb (AddressInAccessList w addr) then
    _ ← mod_world (AddAddressToAccessList addr);
    mret (ColdAccountAccessCostEIP2929 - WarmStorageReadCostEIP2929)
  else mret 0.

(** ** Calls *)

(** The gas of the call is noted and added to the price [gas]. *)
Definition noteCallGas (gas : Z) : stM Frame Z :=
  callCost ← peek_at 0; s ← getS;
  temp ← liftR (callGas (IsEIP150 (ec_rules ctx)) (f_gas s) gas callCost);
  _ ← modify (f_set_callGasTemp temp);
  checked (SafeAdd gas temp).

Context `{!Crypto}.

Definition oldCallGas (o : oldCall) (memorySize : Z) : stM Frame Z :=
  match o with
  | gasCall =>
      value ← peek_at 2; a ← peek_at 1; w ← get_world;
      let transfersValue := negb (value =? 0) in
      let address := Bytes20 a in
      let gas :=
        if (if IsEIP158 (ec_rules ctx) then transfersValue && Empty w address else negb (Exist w address))
        then CallNewAccountGas else 0 in
      let gas := if transfersValue then gas + CallValueTransferGas else gas in
      memoryGas ← memoryGasCost memorySize;
      gas ← checked (SafeAdd gas memoryGas);
      noteCallGas gas
  | gasCallCode =>
      memoryGas ← memoryGasCost memorySize;
      value ← peek_at 2;
      let gas := if negb (w_Sign value =? 0) then CallValueTransferGas else 0 in
      gas ← checked (SafeAdd gas memoryGas);
      noteCallGas gas
  | gasDelegateCall | gasStaticCall => gas ← memoryGasCost memorySize; noteCallGas gas
  end.

(** The price of a cold account is taken first, so that it counts in the gas of the call, and
    given back to be charged with the rest. *)
Definition callVariantGas (o : oldCall) (memorySize : Z) : stM Frame Z :=
  a ← peek_at 1; w ← get_world;
  let addr := Bytes20 a in
  let warmAccess := AddressInAccessList w addr in
  let coldCost := ColdAccountAccessCostEIP2929 - WarmStorageReadCostEIP2929 in
  if warmAccess then oldCallGas o memorySize else
  _ ← mod_world (AddAddressToAccessList addr);
  ok ← UseGas coldCost;
  if negb ok then liftR (Err ErrOutOfGas) else
  gas ← oldCallGas o memorySize;
  _ ← modify (λ s, f_set_gas (u64 (f_gas s + coldCost)) s);
  mret (u64 (gas + coldCost)).

Definition selfdestructGas : stM Frame Z :=
  a ← peek_at 0; w ← get_world;
  let address := Bytes20 a in
  let gas :=
    if IsEIP150 (ec_rules ctx) then
      if (if IsEIP158 (ec_rules ctx) then Empty w address && negb (GetBalance w (self env) =? 0)
          else negb (Exist w address))
      then SelfdestructGasEIP150 + CreateBySelfdestructGas else SelfdestructGasEIP150
    else 0 in
  _ ← (if negb (HasSuicided w (self env)) then addRefund SelfdestructRefundGas else mret tt);
  mret gas.

Definition selfdestructGasEIP2929 (refundsEnabled : bool) : stM Frame Z :=
  a ← peek_at 0; w ← get_world;
  let address := Bytes20 a in
  let cold := negb (AddressInAccessList w address) in
  _ ← (if cold then mod_world (AddAddressToAccessList address) else mret tt);
  let gas := if cold then ColdAccountAccessCostEIP2929 else 0 in
  let gas := if Empty w address && negb (GetBalance w (self env) =? 0) then gas + CreateBySelfdestructGas else gas in
  _ ← (if refundsEnabled && negb (HasSuicided w (self env)) then addRefund SelfdestructRefundGas else mret tt);
  mret gas.

Definition dynamicGas (g : gasFunc) (memorySize : Z) : stM Frame Z :=
  match g with
  | memoryCopierGas stackpos => wordsGas stackpos CopyGas memorySize
  | gasSStore => sstoreGas
  | gasSStoreEIP2200 => sstoreGasEIP2200
  | makeGasLog n => logGas n memorySize
  | gasKeccak256 => wordsGas 1 Keccak256WordGas memorySize
  | pureMemoryGascost => memoryGasCost memorySize
  | gasCreate2 => wordsGas 2 Keccak256WordGas memorySize
  | gasExpFrontier => expGas ExpByteFrontier
  | gasExpEIP158 => expGas ExpByteEIP158
  | OldCall o => oldCallGas o memorySize
  | gasSelfdestruct => selfdestructGas
  | makeGasSStoreFunc clearingRefund => sstoreGasEIP2929 clearingRefund
  | gasSLoadEIP2929 => sloadGasEIP2929
  | gasExtCodeCopyEIP2929 => extCodeCopyGasEIP2929 memorySize
  | gasEip2929AccountCheck => accountCheckGas
  | makeCallVariantGasCallEIP2929 o => callVariantGas o memorySize
  | makeSelfdestructGasFn refundsEnabled => selfdestructGasEIP2929 refundsEnabled
  end.
End storage.
