(* ===== verification/JumpTable.v ===== *)
(** * The table of instructions

    The instruction sets of the forks (src/core/vm/jump_table.go and eips.go), each built from the
    one before it, and the choice of the set (src/core/vm/interpreter.go, [NewEVMInterpreter]). *)

From Stdlib Require Import ZArith Lia Strings.Byte.
From stdpp Require Import base tactics option numbers list gmap strings.
From S2P Require Import Prelude Common GoMap World Evm Analysis Machine Instr GasTable.

Definition GasQuickStep : Z := 2.
Definition GasFastestStep : Z := 3.
Definition GasFastStep : Z := 5.
Definition GasMidStep : Z := 8.
Definition GasSlowStep : Z := 10.
Definition GasExtStep : Z := 20.
Definition StackLimit : Z := 1024.
Definition Keccak256Gas : Z := 30.
Definition JumpdestGas : Z := 1.
Definition CreateGas : Z := 32000.
Definition Create2Gas : Z := 32000.
Definition CallGasFrontier : Z := 40.
Definition CallGasEIP150 : Z := 700.
Definition BalanceGasFrontier : Z := 20.
Definition BalanceGasEIP150 : Z := 400.
Definition BalanceGasEIP1884 : Z := 700.
Definition ExtcodeSizeGasFrontier : Z := 20.
Definition ExtcodeSizeGasEIP150 : Z := 700.
Definition SloadGasFrontier : Z := 50.
Definition SloadGasEIP150 : Z := 200.
Definition SloadGasEIP1884 : Z := 800.
Definition ExtcodeHashGasConstantinople : Z := 400.
Definition ExtcodeHashGasEIP1884 : Z := 700.
Definition ExtcodeCopyBaseFrontier : Z := 20.
Definition ExtcodeCopyBaseEIP150 : Z := 700.

Definition maxStack (pop push : Z) : Z := StackLimit + pop - push.
Definition minStack (pops push : Z) : Z := pops.

Record operation := MkOperation {
  op_execute : executionFunc;
  constantGas : Z;
  op_dynamicGas : option gasFunc;
  op_minStack : Z;
  op_maxStack : Z;
  op_memorySize : option memorySizeFunc
}.

(** An instruction with a constant price, and one with a dynamic price too. *)
Definition op (e : executionFunc) (gas pops pushes : Z) : operation :=
  MkOperation e gas None (minStack pops pushes) (maxStack pops pushes) None.
Definition dyn (e : executionFunc) (gas : Z) (g : gasFunc) (pops pushes : Z) (m : option memorySizeFunc) : operation :=
  MkOperation e gas (Some g) (minStack pops pushes) (maxStack pops pushes) m.

(** [JumpTable], where every entry is set. *)
Definition JumpTable : Type := byte → operation.

Definition all_bytes : list byte := map (λ n, z2b (Z.of_nat n)) (seq 0 256).

(** The entries are set by construction; the other check is that of the source. *)
Definition validate (jt : JumpTable) : go_res JumpTable :=
  if forallb (λ b, match op_memorySize (jt b), op_dynamicGas (jt b) with Some _, None => false | _, _ => true end) all_bytes
  then Ok jt else Panic.

(** Changes of one entry. *)
Definition set_entry (b : byte) (f : operation → operation) (jt : JumpTable) : JumpTable :=
  λ c, if Byte.eqb c b then f (jt c) else jt c.
Definition set_op (b : byte) (o : operation) : JumpTable → JumpTable := set_entry b (λ _, o).
Definition set_constantGas (b : byte) (g : Z) : JumpTable → JumpTable :=
  set_entry b (λ o, MkOperation (op_execute o) g (op_dynamicGas o) (op_minStack o) (op_maxStack o) (op_memorySize o)).
Definition set_dynamicGas (b : byte) (g : gasFunc) : JumpTable → JumpTable :=
  set_entry b (λ o, MkOperation (op_execute o) (constantGas o) (Some g) (op_minStack o) (op_maxStack o) (op_memorySize o)).

(** ** Frontier *)

Definition frontier_arithmetic (b : byte) : option operation :=
  match b with
  | x00 (* STOP *) => Some (op opStop 0 0 0)
  | x01 (* ADD *) => Some (op opAdd GasFastestStep 2 1)
  | x02 (* MUL *) => Some (op opMul GasFastStep 2 1)
  | x03 (* SUB *) => Some (op opSub GasFastestStep 2 1)
  | x04 (* DIV *) => Some (op opDiv GasFastStep 2 1)
  | x05 (* SDIV *) => Some (op opSdiv GasFastStep 2 1)
  | x06 (* MOD *) => Some (op opMod GasFastStep 2 1)
  | x07 (* SMOD *) => Some (op opSmod GasFastStep 2 1)
  | x08 (* ADDMOD *) => Some (op opAddmod GasMidStep 3 1)
  | x09 (* MULMOD *) => Some (op opMulmod GasMidStep 3 1)
  | x0a (* EXP *) => Some (dyn opExp 0 gasExpFrontier 2 1 None)
  | x0b (* SIGNEXTEND *) => Some (op opSignExtend GasFastStep 2 1)
  | x10 (* LT *) => Some (op opLt GasFastestStep 2 1)
  | x11 (* GT *) => Some (op opGt GasFastestStep 2 1)
  | x12 (* SLT *) => Some (op opSlt GasFastestStep 2 1)
  | x13 (* SGT *) => Some (op opSgt GasFastestStep 2 1)
  | x14 (* EQ *) => Some (op opEq GasFastestStep 2 1)
  | x15 (* ISZERO *) => Some (op opIszero GasFastestStep 1 1)
  | x16 (* AND *) => Some (op opAnd GasFastestStep 2 1)
  | x18 (* XOR *) => Some (op opXor GasFastestStep 2 1)
  | x17 (* OR *) => Some (op opOr GasFastestStep 2 1)
  | x19 (* NOT *) => Some (op opNot GasFastestStep 1 1)
  | x1a (* BYTE *) => Some (op opByte GasFastestStep 2 1)
  | _ => None
  end.

Definition frontier_environment (b : byte) : option operation :=
  match b with
  | x20 (* KECCAK256 *) => Some (dyn opKeccak256 Keccak256Gas gasKeccak256 2 1 (Some memoryKeccak256))
  | x30 (* ADDRESS *) => Some (op opAddress GasQuickStep 0 1)
  | x31 (* BALANCE *) => Some (op opBalance BalanceGasFrontier 1 1)
  | x32 (* ORIGIN *) => Some (op opOrigin GasQuickStep 0 1)
  | x33 (* CALLER *) => Some (op opCaller GasQuickStep 0 1)
  | x34 (* CALLVALUE *) => Some (op opCallValue GasQuickStep 0 1)
  | x35 (* CALLDATALOAD *) => Some (op opCallDataLoad GasFastestStep 1 1)
  | x36 (* CALLDATASIZE *) => Some (op opCallDataSize GasQuickStep 0 1)
  | x37 (* CALLDATACOPY *) => Some (dyn opCallDataCopy GasFastestStep (memoryCopierGas 2) 3 0 (Some memoryCallDataCopy))
  | x38 (* CODESIZE *) => Some (op opCodeSize GasQuickStep 0 1)
  | x39 (* CODECOPY *) => Some (dyn opCodeCopy GasFastestStep (memoryCopierGas 2) 3 0 (Some memoryCodeCopy))
  | x3a (* GASPRICE *) => Some (op opGasprice GasQuickStep 0 1)
  | x3b (* EXTCODESIZE *) => Some (op opExtCodeSize ExtcodeSizeGasFrontier 1 1)
  | x3c (* EXTCODECOPY *) =>
      Some (dyn opExtCodeCopy ExtcodeCopyBaseFrontier (memoryCopierGas 3) 4 0 (Some memoryExtCodeCopy))
  | x40 (* BLOCKHASH *) => Some (op opBlockhash GasExtStep 1 1)
  | x41 (* COINBASE *) => Some (op opCoinbase GasQuickStep 0 1)
  | x42 (* TIMESTAMP *) => Some (op opTimestamp GasQuickStep 0 1)
  | x43 (* NUMBER *) => Some (op opNumber GasQuickStep 0 1)
  | x44 (* DIFFICULTY *) => Some (op opDifficulty GasQuickStep 0 1)
  | x45 (* GASLIMIT *) => Some (op opGasLimit GasQuickStep 0 1)
  | _ => None
  end.

Definition frontier_flow (b : byte) : option operation :=
  match b with
  | x50 (* POP *) => Some (op opPop GasQuickStep 1 0)
  | x51 (* MLOAD *) => Some (dyn opMload GasFastestStep pureMemoryGascost 1 1 (Some memoryMLoad))
  | x52 (* MSTORE *) => Some (dyn opMstore GasFastestStep pureMemoryGascost 2 0 (Some memoryMStore))
  | x53 (* MSTORE8 *) => Some (dyn opMstore8 GasFastestStep pureMemoryGascost 2 0 (Some memoryMStore8))
  | x54 (* SLOAD *) => Some (op opSload SloadGasFrontier 1 1)
  | x55 (* SSTORE *) => Some (dyn opSstore 0 gasSStore 2 0 None)
  | x56 (* JUMP *) => Some (op opJump GasMidStep 1 0)
  | x57 (* JUMPI *) => Some (op opJumpi GasSlowStep 2 0)
  | x58 (* PC *) => Some (op opPc GasQuickStep 0 1)
  | x59 (* MSIZE *) => Some (op opMsize GasQuickStep 0 1)
  | x5a (* GAS *) => Some (op opGas GasQuickStep 0 1)
  | x5b (* JUMPDEST *) => Some (op opJumpdest JumpdestGas 0 0)
  | _ => None
  end.

(** PUSH1 to PUSH32, DUP1 to DUP16 and SWAP1 to SWAP16. *)
Definition frontier_push (b : byte) : option operation :=
  let n := b2z b - 0x5f in
  if n =? 1 then Some (op opPush1 GasFastestStep 0 1)
  else if (2 <=? n) && (n <=? 32) then Some (op (makePush n n) GasFastestStep 0 1) else None.

Definition frontier_dup (b : byte) : option operation :=
  let n := b2z b - 0x7f in
  if (1 <=? n) && (n <=? 16) then Some (op (makeDup (Z.to_nat n)) GasFastestStep n (n + 1)) else None.

Definition frontier_swap (b : byte) : option operation :=
  let n := b2z b - 0x8f in
  if (1 <=? n) && (n <=? 16) then Some (op (makeSwap (Z.to_nat n)) GasFastestStep (n + 1) (n + 1)) else None.

Definition frontier_system (b : byte) : option operation :=
  match b with
  | xa0 (* LOG0 *) => Some (dyn (makeLog 0) 0 (makeGasLog 0) 2 0 (Some memoryLog))
  | xa1 (* LOG1 *) => Some (dyn (makeLog 1) 0 (makeGasLog 1) 3 0 (Some memoryLog))
  | xa2 (* LOG2 *) => Some (dyn (makeLog 2) 0 (makeGasLog 2) 4 0 (Some memoryLog))
  | xa3 (* LOG3 *) => Some (dyn (makeLog 3) 0 (makeGasLog 3) 5 0 (Some memoryLog))
  | xa4 (* LOG4 *) => Some (dyn (makeLog 4) 0 (makeGasLog 4) 6 0 (Some memoryLog))
  | xf0 (* CREATE *) => Some (dyn opCreate CreateGas pureMemoryGascost 3 1 (Some memoryCreate))
  | xf1 (* CALL *) => Some (dyn opCall CallGasFrontier (OldCall gasCall) 7 1 (Some memoryCall))
  | xf2 (* CALLCODE *) => Some (dyn opCallCode CallGasFrontier (OldCall gasCallCode) 7 1 (Some memoryCall))
  | xf3 (* RETURN *) => Some (dyn opReturn 0 pureMemoryGascost 2 0 (Some memoryReturn))
  | xff (* SELFDESTRUCT *) => Some (dyn opSelfdestruct 0 gasSelfdestruct 1 0 None)
  | _ => None
  end.

(** The slots that are not assigned hold [opUndefined]. *)
Definition newFrontierInstructionSet : go_res JumpTable :=
  validate (λ b,
    default (MkOperation opUndefined 0 None 0 (maxStack 0 0) None)
      (foldr (λ g o, match g b with Some x => Some x | None => o end) None
         [frontier_arithmetic; frontier_environment; frontier_flow; frontier_push; frontier_dup; frontier_swap;
          frontier_system])).

(** ** The forks *)

Definition newHomesteadInstructionSet : go_res JumpTable :=
  jt ← newFrontierInstructionSet;
  validate (set_op xf4 (dyn opDelegateCall CallGasFrontier (OldCall gasDelegateCall) 6 1 (Some memoryDelegateCall)) jt).

Definition newTangerineWhistleInstructionSet : go_res JumpTable :=
  jt ← newHomesteadInstructionSet;
  let jt := set_constantGas x31 BalanceGasEIP150 jt in
  let jt := set_constantGas x3b ExtcodeSizeGasEIP150 jt in
  let jt := set_constantGas x54 SloadGasEIP150 jt in
  let jt := set_constantGas x3c ExtcodeCopyBaseEIP150 jt in
  let jt := set_constantGas xf1 CallGasEIP150 jt in
  let jt := set_constantGas xf2 CallGasEIP150 jt in
  let jt := set_constantGas xf4 CallGasEIP150 jt in
  validate jt.

Definition newSpuriousDragonInstructionSet : go_res JumpTable :=
  jt ← newTangerineWhistleInstructionSet; validate (set_dynamicGas x0a gasExpEIP158 jt).

Definition newByzantiumInstructionSet : go_res JumpTable :=
  jt ← newSpuriousDragonInstructionSet;
  let jt := set_op xfa (dyn opStaticCall CallGasEIP150 (OldCall gasStaticCall) 6 1 (Some memoryStaticCall)) jt in
  let jt := set_op x3d (op opReturnDataSize GasQuickStep 0 1) jt in
  let jt := set_op x3e (dyn opReturnDataCopy GasFastestStep (memoryCopierGas 2) 3 0 (Some memoryReturnDataCopy)) jt in
  let jt := set_op xfd (dyn opRevert 0 pureMemoryGascost 2 0 (Some memoryRevert)) jt in
  validate jt.

Definition newConstantinopleInstructionSet : go_res JumpTable :=
  jt ← newByzantiumInstructionSet;
  let jt := set_op x1b (op opSHL GasFastestStep 2 1) jt in
  let jt := set_op x1c (op opSHR GasFastestStep 2 1) jt in
  let jt := set_op x1d (op opSAR GasFastestStep 2 1) jt in
  let jt := set_op x3f (op opExtCodeHash ExtcodeHashGasConstantinople 1 1) jt in
  let jt := set_op xf5 (dyn opCreate2 Create2Gas gasCreate2 4 1 (Some memoryCreate2)) jt in
  validate jt.

Definition enable1344 : JumpTable → JumpTable := set_op x46 (op opChainID GasQuickStep 0 1).

Definition enable1884 (jt : JumpTable) : JumpTable :=
  let jt := set_constantGas x54 SloadGasEIP1884 jt in
  let jt := set_constantGas x31 BalanceGasEIP1884 jt in
  let jt := set_constantGas x3f ExtcodeHashGasEIP1884 jt in
  set_op x47 (op opSelfBalance GasFastStep 0 1) jt.

Definition enable2200 (jt : JumpTable) : JumpTable :=
  set_dynamicGas x55 gasSStoreEIP2200 (set_constantGas x54 SloadGasEIP2200 jt).

Definition enable2929 (jt : JumpTable) : JumpTable :=
  let warm b g jt := set_dynamicGas b g (set_constantGas b WarmStorageReadCostEIP2929 jt) in
  let jt := set_dynamicGas x55 (makeGasSStoreFunc SstoreClearsScheduleRefundEIP2200) jt in
  let jt := set_dynamicGas x54 gasSLoadEIP2929 (set_constantGas x54 0 jt) in
  let jt := warm x3c gasExtCodeCopyEIP2929 jt in
  let jt := warm x3b gasEip2929AccountCheck jt in
  let jt := warm x3f gasEip2929AccountCheck jt in
  let jt := warm x31 gasEip2929AccountCheck jt in
  let jt := warm xf1 (makeCallVariantGasCallEIP2929 gasCall) jt in
  let jt := warm xf2 (makeCallVariantGasCallEIP2929 gasCallCode) jt in
  let jt := warm xfa (makeCallVariantGasCallEIP2929 gasStaticCall) jt in
  let jt := warm xf4 (makeCallVariantGasCallEIP2929 gasDelegateCall) jt in
  set_dynamicGas xff (makeSelfdestructGasFn true) (set_constantGas xff SelfdestructGasEIP150 jt).

Definition enable3529 (jt : JumpTable) : JumpTable :=
  set_dynamicGas xff (makeSelfdestructGasFn false)
    (set_dynamicGas x55 (makeGasSStoreFunc SstoreClearsScheduleRefundEIP3529) jt).

Definition enable3198 : JumpTable → JumpTable := set_op x48 (op opBaseFee GasQuickStep 0 1).
Definition enable3855 : JumpTable → JumpTable := set_op x5f (op opPush0 GasQuickStep 0 1).

Definition newIstanbulInstructionSet : go_res JumpTable :=
  jt ← newConstantinopleInstructionSet; validate (enable2200 (enable1884 (enable1344 jt))).
Definition newBerlinInstructionSet : go_res JumpTable :=
  jt ← newIstanbulInstructionSet; validate (enable2929 jt).
Definition newLondonInstructionSet : go_res JumpTable :=
  jt ← newBerlinInstructionSet; validate (enable3198 (enable3529 jt)).
Definition newShanghaiInstructionSet : go_res JumpTable :=
  jt ← newLondonInstructionSet; validate (enable3855 jt).

(** ** The choice of a set *)

Definition instructionSet (r : Rules) : go_res JumpTable :=
  if IsShanghai r then newShanghaiInstructionSet
  else if IsLondon r then newLondonInstructionSet
  else if IsBerlin r then newBerlinInstructionSet
  else if IsIstanbul r then newIstanbulInstructionSet
  else if IsConstantinople r then newConstantinopleInstructionSet
  else if IsByzantium r then newByzantiumInstructionSet
  else if IsEIP158 r then newSpuriousDragonInstructionSet
  else if IsEIP150 r then newTangerineWhistleInstructionSet
  else if IsHomestead r then newHomesteadInstructionSet
  else newFrontierInstructionSet.

(** [EnableEIP]: [None] is the error of an EIP that is not known. *)
Definition EnableEIP (eip : Z) (jt : JumpTable) : option JumpTable :=
  if eip =? 3855 then Some (enable3855 jt) else
  if eip =? 3529 then Some (enable3529 jt) else
  if eip =? 3198 then Some (enable3198 jt) else
  if eip =? 2929 then Some (enable2929 jt) else
  if eip =? 2200 then Some (enable2200 jt) else
  if eip =? 1884 then Some (enable1884 jt) else
  if eip =? 1344 then Some (enable1344 jt) else None.

(** The EIPs of the configuration. The source ranges over the list while it removes from it the
    EIPs that are not known: [eips] is the array that both share and [len] the length of the list
    that is left; the loop goes on over the array. *)
Fixpoint enableExtra (indices : list nat) (eips : list Z) (len : nat) (jt : JumpTable) : go_res JumpTable :=
  match indices with
  | [] => Ok jt
  | i :: indices =>
      eip ← go_index eips i;
      match EnableEIP eip jt with
      | Some jt => enableExtra indices eips len jt
      | None =>
          rest ← go_slice (i + 1) len (take len eips);
          enableExtra indices (take i eips ++ rest ++ drop (i + length rest) eips) (len - 1) jt
      end
  end.

(** [NewEVMInterpreter], with the table and the EIPs of the configuration. *)
Definition NewEVMInterpreter (cfgTable : option JumpTable) (ExtraEips : list Z) (r : Rules) : go_res JumpTable :=
  match cfgTable with
  | Some jt => Ok jt
  | None => jt ← instructionSet r; enableExtra (seq 0 (length ExtraEips)) ExtraEips (length ExtraEips) jt
  end.

#[global] Opaque newFrontierInstructionSet newHomesteadInstructionSet newTangerineWhistleInstructionSet
  newSpuriousDragonInstructionSet newByzantiumInstructionSet newConstantinopleInstructionSet newIstanbulInstructionSet
  newBerlinInstructionSet newLondonInstructionSet newShanghaiInstructionSet.
