(* ===== verification/Interp.v ===== *)
(** * The interpreter

    The loop of the interpreter (src/core/vm/interpreter.go): each round takes an instruction from
    the table, checks the stack, charges the constant and the dynamic price, enlarges the memory
    and executes the instruction. A call of a contract runs the interpreter again, one level
    deeper; [interpreter jt ctx n] is the interpreter that can go [n] levels deep.

    The loop has as much fuel as there is gas: every instruction that goes on costs gas
    (InterpGas.v), and the entry points refuse a depth of more than 1024. *)

From Stdlib Require Import ZArith Lia Strings.Byte.
From stdpp Require Import base tactics option numbers list gmap strings.
From S2P Require Import Prelude Common GoMap World Evm Analysis Machine Instr GasTable JumpTable.

(** The error of a computation as a value. *)
Definition try {S A} (m : stM S A) : stM S (A + error) := λ s,
  match m s with
  | (Ok a, s) => (Ok (inl a), s)
  | (Err e, s) => (Ok (inr e), s)
  | (Panic, s) => (Panic, s)
  | (NoFuel, s) => (NoFuel, s)
  end.

Section interpreter.
Context `{!Crypto, !Uint256, !Precompiles}.
Context (jt : JumpTable) (ctx : EvmContext).

Section run.
Context `{!Interpreter}.

(** The dynamic price of an instruction: [Some] error ends the run. *)
Definition charge (env : Env) (g : gasFunc) (m : option memorySizeFunc) : stM Frame (option error) :=
  s ← getS;
  '(memSize, overflow) ← liftR (match m with Some m => memorySize m (f_stack s) | None => Ok (0, false) end);
  if overflow : bool then mret (Some ErrGasUintOverflow) else
  let '(memorySize, overflow) := SafeMul (toWordSize memSize) 32 in
  if overflow : bool then mret (Some ErrGasUintOverflow) else
  dynamicCost ← try (dynamicGas ctx env g memorySize);
  match dynamicCost with
  | inr _ => mret (Some ErrOutOfGas)
  | inl dynamicCost =>
      ok ← UseGas dynamicCost;
      if negb ok then mret (Some ErrOutOfGas) else
      _ ← (if 0 <? memorySize then mem_Resize memorySize else mret tt);
      mret None
  end.

(** One round of the loop. *)
Definition step (env : Env) : stM Frame outcome :=
  s ← getS;
  let operation := jt (GetOp (ct_Code (e_contract env)) (f_pc s)) in
  let sLen := Z.of_nat (length (f_stack s)) in
  if sLen <? op_minStack operation then fail ErrStackUnderflow else
  if op_maxStack operation <? sLen then fail ErrStackOverflow else
  ok ← UseGas (constantGas operation);
  if negb ok then fail ErrOutOfGas else
  err ← match op_dynamicGas operation with
        | Some g => charge env g (op_memorySize operation)
        | None => mret None
        end;
  match err with
  | Some e => fail e
  | None => execute ctx env (op_execute operation)
  end.

Fixpoint loop (env : Env) (fuel : nat) : stM Frame outcome :=
  match fuel with
  | O => liftR NoFuel
  | S fuel =>
      '(res, err) ← step env;
      match err with
      | Some e => mret (res, Some e)
      | None => _ ← modify (λ s, f_set_pc (u64 (f_pc s + 1)) s); loop env fuel
      end
  end.

Definition init_frame (c : Contract) (w : World) : Frame := MkFrame w 0 [] [] 0 (ct_Gas c) [] 0.

(** What a run returns, with the gas that is left; the stop token is no error. *)
Definition finish_run (r : go_res outcome * Frame) : go_res vmres * World :=
  match r with
  | (Ok (res, err), s) => (Ok (res, f_gas s, if bool_decide (err = Some errStopToken) then None else err), f_world s)
  | (Err e, s) => (Err e, f_world s)
  | (Panic, s) => (Panic, f_world s)
  | (NoFuel, s) => (NoFuel, f_world s)
  end.

Definition run (depth : Z) (contract : Contract) (input : bytes) (readOnly : bool) : stM World vmres := λ w,
  if Nat.eqb (length (ct_Code contract)) 0 then (Ok ([], ct_Gas contract, None), w) else
  finish_run (loop (MkEnv contract input readOnly depth) (S (Z.to_nat (ct_Gas contract))) (init_frame contract w)).
End run.

Fixpoint interpreter (n : nat) : Interpreter :=
  match n with
  | O => {| Run := λ _ _ _ _, liftR NoFuel |}
  | S n => {| Run := @run (interpreter n) |}
  end.
End interpreter.
