(* ===== verification/InterpGas.v ===== *)
(** * Gas of the interpreter

    Every instruction that goes on costs gas, a call costs at least the gas that it passes on, and
    a creation keeps what it passes on apart. So an execution never returns more gas than it got,
    and ends: the fuel of the loop, which is the gas, and 1025 levels of calls are enough. The
    prices that this needs are checked on the tables of all forks ([priced_table]). *)

From Stdlib Require Import ZArith Lia Strings.Byte.
From stdpp Require Import base tactics option numbers list gmap strings.
From S2P Require Import Prelude Common GoMap World Evm Analysis Machine Instr GasTable JumpTable Interp.

(** ** Weakest preconditions *)

Definition wp {S A} (m : stM S A) (Φ : go_res A → S → Prop) (s : S) : Prop := Φ (m s).1 (m s).2.

Section wp.
Context {S : Type}.

Lemma wp_bind {A B} (m : stM S A) (f : A → stM S B) Φ s :
  wp m (λ r s', match r with
                | Ok a => wp (f a) Φ s'
                | Err e => Φ (Err e) s'
                | Panic => Φ Panic s'
                | NoFuel => Φ NoFuel s'
                end) s → wp (m ≫= f) Φ s.
Proof. unfold wp, mbind, stM_bind. by destruct (m s) as [[] s']. Qed.

Lemma wp_mono {A} (m : stM S A) Φ Ψ s : wp m Φ s → (∀ r s', Φ r s' → Ψ r s') → wp m Ψ s.
Proof. unfold wp. auto. Qed.

Lemma wp_try {A} (m : stM S A) Φ s :
  wp m (λ r s', match r with
                | Ok a => Φ (Ok (inl a)) s'
                | Err e => Φ (Ok (inr e)) s'
                | Panic => Φ Panic s'
                | NoFuel => Φ NoFuel s'
                end) s → wp (try m) Φ s.
Proof. unfold wp, try. by destruct (m s) as [[] s']. Qed.

Lemma wp_liftR {A} (r : go_res A) (Φ : go_res A → S → Prop) s : Φ r s → wp (liftR r) Φ s.
Proof. done. Qed.

Lemma wp_getS (Φ : go_res S → S → Prop) s : Φ (Ok s) s → wp getS Φ s.
Proof. done. Qed.

Lemma wp_modify f (Φ : go_res unit → S → Prop) s : Φ (Ok tt) (f s) → wp (modify f) Φ s.
Proof. done. Qed.

Lemma wp_mret {A} (a : A) (Φ : go_res A → S → Prop) s : Φ (Ok a) s → wp (mret a) Φ s.
Proof. done. Qed.

End wp.

Lemma wp_get_world (Φ : go_res World → Frame → Prop) s : Φ (Ok (f_world s)) s → wp get_world Φ s.
Proof. done. Qed.

Lemma wp_mod_world f (Φ : go_res unit → Frame → Prop) s : Φ (Ok tt) (f_set_world (f (f_world s)) s) → wp (mod_world f) Φ s.
Proof. done. Qed.

(** Follows the structure of a computation. *)
Ltac wp_step :=
  lazymatch goal with
  | |- wp (mbind _ _) _ _ => apply wp_bind
  | |- wp (try _) _ _ => apply wp_try
  | |- wp (liftR _) _ _ => apply wp_liftR
  | |- wp getS _ _ => apply wp_getS
  | |- wp get_world _ _ => apply wp_get_world
  | |- wp (modify _) _ _ => apply wp_modify
  | |- wp (mod_world _) _ _ => apply wp_mod_world
  | |- wp (mret _) _ _ => apply wp_mret
  | |- wp continue _ _ => apply wp_mret
  | |- wp (fail _) _ _ => apply wp_mret
  | |- wp (let '(_, _) := ?x in _) _ _ => destruct x eqn:?
  | |- wp (if ?b then _ else _) _ _ => destruct b eqn:?
  | |- wp (match ?x with _ => _ end) _ _ => destruct x eqn:?
  end; cbn [fst snd].

(** ** Termination *)

(** A computation that does not run out of fuel. *)
Definition ended {S A} (m : stM S A) : Prop := ∀ s, (m s).1 ≠ NoFuel.

Section ended.
Context {S : Type}.

Lemma ended_bind {A B} (m : stM S A) (f : A → stM S B) : ended m → (∀ a, ended (f a)) → ended (m ≫= f).
Proof.
  intros Hm Hf s. specialize (Hm s). unfold mbind, stM_bind. destruct (m s) as [[] s']; cbn in *; [apply Hf|done..].
Qed.

Lemma ended_liftR {A} (r : go_res A) : r ≠ NoFuel → ended (S := S) (liftR r).
Proof. intros Hr s. exact Hr. Qed.

Lemma ended_getS : ended (S := S) getS.
Proof. done. Qed.

Lemma ended_modify f : ended (S := S) (modify f).
Proof. done. Qed.

Lemma ended_mret {A} (a : A) : ended (S := S) (mret a).
Proof. done. Qed.
End ended.

Create HintDb ended.
#[export] Hint Resolve ended_getS ended_modify ended_mret : ended.

Ltac ended_step :=
  match goal with
  | |- ended (mbind _ _) => apply ended_bind; [|intros ?]
  | |- ended (let '(_, _) := ?x in _) => destruct x
  | |- ended (if ?b then _ else _) => destruct b
  | |- ended (match ?x with _ => _ end) => destruct x
  | |- ended (liftR _) => apply ended_liftR; solve [auto with ended|done]
  | |- ended _ => solve [auto with ended|done]
  end.

Lemma deref_fuel {A} (p : option A) : deref p ≠ NoFuel.
Proof. by destruct p. Qed.

Lemma go_index_fuel {A} (l : list A) i : go_index l i ≠ NoFuel.
Proof. apply deref_fuel. Qed.

Lemma zslice_fuel lo hi b : zslice lo hi b ≠ NoFuel.
Proof. unfold zslice, go_slice. by repeat case_match. Qed.

Lemma bind_fuel {A B} (r : go_res A) (f : A → go_res B) : r ≠ NoFuel → (∀ a, f a ≠ NoFuel) → r ≫= f ≠ NoFuel.
Proof. intros Hr Hf. by destruct r; cbn. Qed.

Lemma FromBig_fuel b : FromBig b ≠ NoFuel.
Proof. by destruct b. Qed.

Lemma copy_into_fuel lo hi v m : copy_into lo hi v m ≠ NoFuel.
Proof. apply bind_fuel; [apply zslice_fuel|done]. Qed.

Lemma getData_fuel d s n : getData d s n ≠ NoFuel.
Proof. apply bind_fuel; [apply zslice_fuel|done]. Qed.

Lemma callGas_fuel eip gas base cost : callGas eip gas base cost ≠ NoFuel.
Proof. unfold callGas. by repeat case_match. Qed.

Lemma validJumpdest_fuel code dest : validJumpdest code dest ≠ NoFuel.
Proof.
  unfold validJumpdest. destruct (Uint64WithOverflow dest) as [u o]. destruct (o || _); [done|].
  apply bind_fuel; [apply go_index_fuel|]. intros b. destruct (negb _); [done|].
  destruct (codeBitmap_Ok code) as (bits & -> & _). cbn [mbind go_res_bind]. apply bind_fuel; [apply go_index_fuel|done].
Qed.

Lemma memorySize_fuel m l : memorySize m l ≠ NoFuel.
Proof.
  assert (∀ i k, memSize l i k ≠ NoFuel) as H1.
  { intros. apply bind_fuel; [apply go_index_fuel|]. intros. apply bind_fuel; [apply go_index_fuel|done]. }
  assert (∀ a b c d, callMemSize l a b c d ≠ NoFuel) as H2.
  { intros. apply bind_fuel; [apply H1|]. intros [x []]; [done|]. apply bind_fuel; [apply H1|]. by intros [y []]. }
  destruct m; cbn; try apply H1; try apply H2; (apply bind_fuel; [apply go_index_fuel|done]).
Qed.

#[export] Hint Resolve deref_fuel go_index_fuel zslice_fuel FromBig_fuel copy_into_fuel getData_fuel callGas_fuel
  validJumpdest_fuel memorySize_fuel : ended.

(** ** Instructions that do not call *)

Lemma zslice_Ok lo hi (b d : bytes) : zslice lo hi b = Ok d →
  0 ≤ lo ≤ hi ∧ hi ≤ Z.of_nat (length b) ∧ d = take (Z.to_nat (hi - lo)) (drop (Z.to_nat lo) b).
Proof.
  unfold zslice, go_slice. destruct (Z.ltb_spec lo 0), (Z.ltb_spec hi 0); try done. cbn [orb].
  case_match eqn:Hle; intros [= <-]. rewrite andb_true_iff, !Nat.leb_le in Hle. split_and!; try lia. f_equal; lia.
Qed.

Lemma copy_into_length lo hi v m m' : copy_into lo hi v m = Ok m' → length m' = length m.
Proof.
  unfold copy_into. intros Hm. apply bind_Ok in Hm as (d & (Hlo & Hhi & ->)%zslice_Ok & [= <-]).
  unfold go_copy. rewrite !length_app, !length_take, !length_drop, length_take, length_drop. lia.
Qed.

(** The instructions that set the program counter. *)
Definition moves_pc (e : executionFunc) : bool :=
  match e with Flow (opJump | opJumpi) | Making (opPush1 | makePush _ _) => true | _ => false end.

(** A relation between frames that does not look at the stack and the memory. *)
Record frame_rel (R : Frame → Frame → Prop) : Prop := {
  fr_refl : Reflexive R;
  fr_trans : Transitive R;
  fr_stack l s : R s (f_set_stack l s);
  fr_store m s : length m = length (f_store s) → R s (f_set_store m s);
  fr_returnData d s : R s (f_set_returnData d s)
}.

Section frames.
Context (R : Frame → Frame → Prop) (HR : frame_rel R).
#[local] Instance R_refl : Reflexive R := fr_refl R HR.
#[local] Instance R_trans : Transitive R := fr_trans R HR.

Lemma frame_pop : frame R pop.
Proof. intros s r s' H. unfold pop in H. destruct (f_stack s); simplify_eq; [done|by apply fr_stack]. Qed.

Lemma frame_push x : frame R (push x).
Proof. apply frame_modify. intros s. by apply fr_stack. Qed.

Lemma frame_get_world : frame R get_world.
Proof. intros s r s' [= <- <-]. done. Qed.

Lemma frame_continue : frame R continue.
Proof. apply frame_mret. apply _. Qed.

Lemma frame_fail e : frame R (fail e).
Proof. apply frame_mret. apply _. Qed.

#[local] Hint Resolve frame_pop frame_push frame_get_world frame_continue frame_fail : frame.
Ltac fr := first [by apply fr_stack|by apply fr_store|by apply fr_returnData|by auto].

Lemma frame_dup n : frame R (dup n).
Proof. unfold dup. repeat frame_step. Qed.

Lemma frame_swap n : frame R (swap n).
Proof. unfold swap. repeat frame_step. by apply fr_stack. Qed.

(** A copy into the memory keeps its size. *)
Lemma frame_copy (bad : Frame → bool) lo (hi : Frame → Z) v :
  frame R (s ← getS; if bad s then liftR Panic else
           m ← liftR (copy_into lo (hi s) v (f_store s)); modify (f_set_store m)).
Proof.
  intros s r s'. rewrite getS_bind. destruct (bad s); [by intros [= <- <-]|].
  destruct (copy_into lo (hi s) v (f_store s)) as [m| | |] eqn:Hm; intros [= <- <-]; [|done..].
  apply fr_store; [done|]. by apply copy_into_length in Hm.
Qed.

Lemma frame_mem_Set o n v : frame R (mem_Set o n v).
Proof. unfold mem_Set. destruct (_ =? _); [apply frame_mret; apply _|]. apply (frame_copy (λ s, _ <? _) _ (λ _, _)). Qed.

Lemma frame_mem_Set32 o v : frame R (mem_Set32 o v).
Proof. apply (frame_copy (λ s, _ <? _)). Qed.

Lemma frame_store8 i b :
  frame R (s ← getS; _ ← liftR (go_index (f_store s) i); _ ← modify (f_set_store (<[i := b]> (f_store s))); continue).
Proof.
  intros s r s'. rewrite getS_bind. destruct (go_index (f_store s) i); intros [= <- <-]; [|done..].
  apply fr_store; [done|]. apply length_insert.
Qed.

Lemma frame_mem_Get o n : frame R (mem_Get o n).
Proof. unfold mem_Get. repeat frame_step. Qed.

Lemma frame_pop_n n : frame R (pop_n n).
Proof. induction n; cbn [pop_n]; repeat frame_step. Qed.

#[local] Hint Resolve frame_dup frame_swap frame_mem_Set frame_mem_Set32 frame_mem_Get frame_pop_n : frame.

Section exec.
Context `{!Crypto, !Uint256, !Precompiles, !Interpreter}.
Context (ctx : EvmContext) (env : Env).

(** The instructions that write to the world. *)
Context (Hstate : ∀ a k v s, e_readOnly env = false → R s (f_set_world (SetState a k v (f_world s)) s)).
Context (Hlog : ∀ l s, e_readOnly env = false → R s (f_set_world (AddLog l (f_world s)) s)).

Lemma execute_frame e : (∀ o, e = Calling o → frame R (exec_calling ctx env o)) →
  (e = Ending opSelfdestruct → ∀ a s, e_readOnly env = false →
     R s (f_set_world (AddBalance a (GetBalance (f_world s) (self env)) (f_world s)) s)) →
  (moves_pc e = true → ∀ n s, R s (f_set_pc n s)) →
  frame R (execute ctx env e).
Proof.
  intros Hcall Hdestruct Hpc. destruct e as [o|o|o|o|o|o|o|o|o|o|o|o|o|o]; cbn [execute].
  1-6: unfold binary; repeat frame_step.
  - destruct o; cbn [exec_reading]; repeat frame_step.
  - destruct o; cbn [exec_codes]; unfold code_copy; repeat frame_step.
  - destruct o; cbn [exec_blockinfo]; repeat frame_step.
  - destruct o; cbn [exec_extra]; repeat frame_step.
  - destruct o as [| | | | | | | | | | |]; cbn [exec_flow]; unfold jump.
    4: do 2 (apply frame_bind; [apply _|auto with frame|intros ?]); apply frame_store8.
    all: destruct (e_readOnly env) eqn:Hro;
      repeat frame_step; unfold mod_world; repeat frame_step; try fr.
  - by apply Hcall.
  - destruct o; cbn [exec_ending]; [repeat frame_step; fr..|].
    destruct (e_readOnly env) eqn:Hro; [apply frame_fail|]. intros s r s'. unfold mbind, stM_bind, pop.
    destruct (f_stack s) as [|x l]; [by intros [= <- <-]|]. intros [= <- <-].
    etrans; [apply (fr_stack R HR l)|]. exact (Hdestruct eq_refl _ (f_set_stack l s) eq_refl).
  - destruct o; cbn [exec_making]; destruct (e_readOnly env) eqn:Hro;
      repeat frame_step; unfold mod_world; repeat frame_step; fr.
Qed.
End exec.
End frames.

(** ** Prices *)

(** A relation between frames that the changes of a price keep. *)
Record price_rel (R : Frame → Frame → Prop) : Prop := {
  pr_refl : Reflexive R;
  pr_trans : Transitive R;
  pr_callGasTemp g s : R s (f_set_callGasTemp g s);
  pr_address a s : R s (f_set_world (AddAddressToAccessList a (f_world s)) s);
  pr_slot a k s : R s (f_set_world (AddSlotToAccessList a k (f_world s)) s);
  pr_add_refund g s : R s (f_set_world (AddRefund g (f_world s)) s);
  pr_sub_refund g s : 0 ≤ g ≤ refund (f_world s) → R s (f_set_world (set_refund (refund (f_world s) - g) (f_world s)) s)
}.

(** The functions that are not of a call of a cold account. *)
Definition is_variant (g : gasFunc) : bool := match g with makeCallVariantGasCallEIP2929 _ => true | _ => false end.

(** The refund of a function is not negative. *)
Definition refund_ok (g : gasFunc) : bool := match g with makeGasSStoreFunc r => 0 <=? r | _ => true end.

Section price_frames.
Context {HC : Crypto}.
Context (ctx : EvmContext) (env : Env) (R : Frame → Frame → Prop) (HR : price_rel R).
#[local] Instance P_refl : Reflexive R := pr_refl R HR.
#[local] Instance P_trans : Transitive R := pr_trans R HR.

Lemma price_address a : frame R (mod_world (AddAddressToAccessList a)).
Proof. apply frame_modify. intros s. by apply pr_address. Qed.

Lemma price_slot a k : frame R (mod_world (AddSlotToAccessList a k)).
Proof. apply frame_modify. intros s. by apply pr_slot. Qed.

Lemma price_add_refund g : frame R (mod_world (AddRefund g)).
Proof. apply frame_modify. intros s. by apply pr_add_refund. Qed.

Lemma price_get_world : frame R get_world.
Proof. intros s r s' [= <- <-]. done. Qed.

Lemma price_sub_refund g : 0 ≤ g → frame R (subRefund g).
Proof.
  intros Hg s r s'. unfold subRefund, SubRefund. destruct (Z.ltb_spec (refund (f_world s)) g); intros [= <- <-].
  - by destruct s.
  - by apply pr_sub_refund.
Qed.

#[local] Hint Resolve price_address price_slot price_add_refund price_get_world price_sub_refund : frame.

Lemma price_checked r : frame R (checked r).
Proof. unfold checked. repeat frame_step. Qed.

Lemma price_peek_at n : frame R (peek_at n).
Proof. unfold peek_at. repeat frame_step. Qed.
#[local] Hint Resolve price_checked price_peek_at : frame.

Lemma price_back64 n : frame R (back64 n).
Proof. unfold back64. repeat frame_step. Qed.

Lemma price_sstoreNet c n i cl r1 r2 r3 o cu v : 0 ≤ r1 → frame R (sstoreNet c n i cl r1 r2 r3 o cu v).
Proof. intros Hr. unfold sstoreNet. repeat frame_step. Qed.

Lemma price_noteCallGas g : frame R (noteCallGas ctx g).
Proof. unfold noteCallGas. repeat frame_step. by apply pr_callGasTemp. Qed.
#[local] Hint Resolve price_back64 price_noteCallGas : frame.

Context (m : Z) (Hm : frame R (memoryGasCost m)).
#[local] Hint Resolve Hm : frame.

Lemma price_wordsGas p g : frame R (wordsGas p g m).
Proof. unfold wordsGas. repeat frame_step. Qed.
#[local] Hint Resolve price_wordsGas : frame.

Lemma price_oldCallGas o : frame R (oldCallGas ctx o m).
Proof. destruct o; cbn [oldCallGas]; repeat frame_step. Qed.

Lemma price_dynamicGas g : is_variant g = false → refund_ok g = true → frame R (dynamicGas ctx env g m).
Proof.
  intros Hg Hr. destruct g; try done; cbn [dynamicGas refund_ok] in *.
  all: try apply price_oldCallGas; try rewrite Z.leb_le in Hr.
  all: unfold sstoreGas, sstoreLegacy, sstoreGasEIP2200, logGas, expGas, selfdestructGas, sstoreGasEIP2929, sloadGasEIP2929,
    extCodeCopyGasEIP2929, accountCheckGas, selfdestructGasEIP2929; repeat (first [by apply price_sstoreNet|frame_step]).
Qed.

(** With the gas out of view, for every function. *)
Lemma price_any_dynamicGas g : (∀ n s, R s (f_set_gas n s)) → refund_ok g = true → frame R (dynamicGas ctx env g m).
Proof.
  intros Hgas Hr. destruct (is_variant g) eqn:Hg; [|by apply price_dynamicGas]. destruct g; try done. cbn [dynamicGas].
  assert (∀ n, frame R (UseGas n)) as Huse.
  { intros n s r s'. unfold UseGas. destruct (_ <? _); intros [= <- <-]; [done|apply Hgas]. }
  unfold callVariantGas. repeat (first [apply price_oldCallGas|apply Huse|frame_step]). apply Hgas.
Qed.
End price_frames.

(** A price changes neither the stack, the memory, the program counter nor, but for a call of a cold
    account, the gas. *)
Record scope_same (s s' : Frame) : Prop := {
  ss_stack : f_stack s' = f_stack s;
  ss_store : f_store s' = f_store s;
  ss_pc : f_pc s' = f_pc s;
  ss_gas : f_gas s' = f_gas s;
  ss_returnData : f_returnData s' = f_returnData s
}.

Lemma scope_price_rel : price_rel scope_same.
Proof. split; try by split. intros s1 s2 s3 [] []. split; congruence. Qed.

#[export] Instance scope_same_refl : Reflexive scope_same := pr_refl _ scope_price_rel.
#[export] Instance scope_same_trans : Transitive scope_same := pr_trans _ scope_price_rel.

Lemma scope_memoryGasCost n : frame scope_same (memoryGasCost n).
Proof. unfold memoryGasCost. repeat frame_step. by split. Qed.

(** Prices and instructions that do not call do not run out of fuel. *)
Section ends.
Context {HC : Crypto} {HU : Uint256} {HP : Precompiles} {HI : Interpreter}.
Context (ctx : EvmContext) (env : Env).

Lemma ended_world f : ended (mod_world f).
Proof. done. Qed.

Lemma ended_get_world : ended get_world.
Proof. done. Qed.

Lemma ended_continue : ended continue.
Proof. done. Qed.

Lemma ended_fail e : ended (fail e).
Proof. done. Qed.

Lemma ended_pop : ended pop.
Proof. intros s. unfold pop. by destruct (f_stack s). Qed.

Lemma ended_push x : ended (push x).
Proof. done. Qed.

Lemma ended_UseGas n : ended (UseGas n).
Proof. intros s. unfold UseGas. by destruct (_ <? _). Qed.

Lemma ended_subRefund g : ended (subRefund g).
Proof. intros s. unfold subRefund, SubRefund. by destruct (_ <? _). Qed.

#[local] Hint Resolve ended_world ended_get_world ended_continue ended_fail ended_pop ended_push ended_UseGas ended_subRefund : ended.

Lemma ended_checked r : ended (checked r).
Proof. unfold checked. repeat ended_step. Qed.

Lemma ended_peek_at n : ended (peek_at n).
Proof. unfold peek_at, back. repeat ended_step. Qed.

Lemma ended_back64 n : ended (back64 n).
Proof. unfold back64, back, checked. repeat ended_step. Qed.

Lemma ended_memoryGasCost n : ended (memoryGasCost n).
Proof. unfold memoryGasCost. repeat ended_step. Qed.

Lemma ended_noteCallGas g : ended (noteCallGas ctx g).
Proof. unfold noteCallGas, peek_at, back, checked. repeat ended_step. Qed.

Lemma ended_sstoreNet c n i cl r1 r2 r3 o cu v : ended (sstoreNet c n i cl r1 r2 r3 o cu v).
Proof. unfold sstoreNet. repeat ended_step. Qed.

#[local] Hint Resolve ended_checked ended_peek_at ended_back64 ended_memoryGasCost ended_noteCallGas ended_sstoreNet : ended.

Lemma ended_wordsGas p g m : ended (wordsGas p g m).
Proof. unfold wordsGas. repeat ended_step. Qed.
#[local] Hint Resolve ended_wordsGas : ended.

Lemma ended_oldCallGas o m : ended (oldCallGas ctx o m).
Proof. destruct o; cbn [oldCallGas]; repeat ended_step. Qed.
#[local] Hint Resolve ended_oldCallGas : ended.

Lemma ended_dynamicGas g m : ended (dynamicGas ctx env g m).
Proof.
  destruct g; cbn [dynamicGas]; auto with ended.
  all: unfold sstoreGas, sstoreLegacy, sstoreGasEIP2200, logGas, expGas, selfdestructGas, sstoreGasEIP2929, sloadGasEIP2929,
    extCodeCopyGasEIP2929, accountCheckGas, selfdestructGasEIP2929, callVariantGas; repeat ended_step.
Qed.

Lemma ended_mem_Get o n : ended (mem_Get o n).
Proof. unfold mem_Get. repeat ended_step. Qed.

Lemma ended_mem_Set o n v : ended (mem_Set o n v).
Proof. unfold mem_Set. repeat ended_step. Qed.

Lemma ended_mem_Set32 o v : ended (mem_Set32 o v).
Proof. unfold mem_Set32. repeat ended_step. Qed.

Lemma ended_pop_n n : ended (pop_n n).
Proof. induction n; cbn [pop_n]; repeat ended_step. Qed.

#[local] Hint Resolve ended_mem_Get ended_mem_Set ended_mem_Set32 ended_pop_n : ended.

Lemma ended_execute e : (∀ o, e ≠ Calling o) → ended (execute ctx env e).
Proof.
  intros He. destruct e as [o|o|o|o|o|o|o|o|o|o|o|o|o|o]; cbn [execute]; [..|by destruct (He o)| |].
  1-6: unfold binary; repeat ended_step.
  - destruct o; cbn [exec_reading]; repeat ended_step.
  - destruct o; cbn [exec_codes]; unfold code_copy; repeat ended_step.
  - destruct o; cbn [exec_blockinfo]; repeat ended_step.
  - destruct o; cbn [exec_extra]; repeat ended_step.
  - destruct o; cbn [exec_flow]; unfold jump; repeat ended_step.
  - destruct o; cbn [exec_ending]; repeat ended_step.
  - destruct o; cbn [exec_making]; unfold dup, swap; repeat ended_step.
Qed.
End ends.

Section prices.
Context {HC : Crypto}.
Context (ctx : EvmContext) (env : Env).

(** ** Lower bounds *)

Definition yields (lo : Z) (m : stM Frame Z) : Prop := ∀ s c s', m s = (Ok c, s') → lo ≤ c.

Lemma yields_bind {A} lo (m : stM Frame A) f : (∀ a, yields lo (f a)) → yields lo (m ≫= f).
Proof. intros Hf s c s' H. apply stM_bind_inv in H as (a & s1 & _ & H). by eapply Hf. Qed.

Lemma yields_mret lo c : lo ≤ c → yields lo (mret c).
Proof. intros Hc s c' s' [= <- <-]. done. Qed.

Lemma checked_inv r s c s' : checked r s = (Ok c, s') → r = (c, false) ∧ s' = s.
Proof. unfold checked. destruct r as [z []]; by intros [= <- <-]. Qed.

Lemma SafeAdd_false x y c : 0 ≤ x + y → SafeAdd x y = (c, false) → c = x + y ∧ is_u64 c.
Proof.
  intros Hxy [= <- Hlt%Z.leb_gt]. unfold u64. rewrite Z.mod_small by lia. done.
Qed.

Lemma u64_range z : is_u64 (u64 z).
Proof. apply Z.mod_pos_bound. done. Qed.

Lemma memoryGasCost_yields n : yields 0 (memoryGasCost n).
Proof.
  unfold memoryGasCost. destruct (_ =? _); [by apply yields_mret|]. destruct (_ <? _); [by intros s c s' [=]|].
  apply yields_bind. intros s. destruct (_ <? _); [|by apply yields_mret]. apply yields_bind. intros _.
  apply yields_mret, u64_range.
Qed.

Lemma sstoreNet_yields lo c n i cl r1 r2 r3 o cu v :
  lo ≤ c + n → lo ≤ c + i → lo ≤ c + cl → yields lo (sstoreNet c n i cl r1 r2 r3 o cu v).
Proof.
  intros Hn Hi Hc. unfold sstoreNet. repeat case_bool_decide; repeat (apply yields_bind; intros _); by apply yields_mret.
Qed.

(** The sum of a part that is at least [lo] and another that is not negative. *)
Lemma checked_add_yields lo x y : lo ≤ x → 0 ≤ x → 0 ≤ y → yields lo (checked (SafeAdd x y)).
Proof.
  intros Hlo Hx Hy s c s' H. apply checked_inv in H as [H _]. apply SafeAdd_false in H as [-> _]; lia.
Qed.

Lemma checked_mul_yields x y : yields 0 (checked (SafeMul x y)).
Proof. intros s c s' H. apply checked_inv in H as [[= <- _] _]. apply u64_range. Qed.

Lemma yields_seq lo1 lo m f : yields lo1 m → (∀ a, lo1 ≤ a → yields lo (f a)) → yields lo (m ≫= f).
Proof. intros Hm Hf s c s' H. apply stM_bind_inv in H as (a & s1 & Ha & H). eapply Hf; [by eapply Hm|done]. Qed.

Lemma checked_add_nonneg x y : yields 0 (checked (SafeAdd x y)).
Proof. intros s c s' H. apply checked_inv in H as [[= <- _] _]. apply u64_range. Qed.

Lemma wordsGas_yields p g m : yields 0 (wordsGas p g m).
Proof. unfold wordsGas. repeat (apply yields_bind; intros ?). apply checked_add_nonneg. Qed.

(** What every execution of a dynamic price costs at least. *)
Definition min_price (g : gasFunc) : Z :=
  match g with
  | gasSStore => 200
  | gasSStoreEIP2200 => 800
  | makeGasLog n => if 0 <=? n then LogGas else 0
  | gasExpFrontier | gasExpEIP158 => ExpGas
  | makeGasSStoreFunc _ | gasSLoadEIP2929 => 100
  | _ => 0
  end.

Definition is_call (g : gasFunc) : bool :=
  match g with OldCall _ | makeCallVariantGasCallEIP2929 _ => true | _ => false end.

Lemma logGas_yields n m : 0 ≤ n → yields LogGas (logGas n m).
Proof.
  intros Hn. unfold logGas. apply yields_bind. intros size. apply (yields_seq 0); [apply memoryGasCost_yields|].
  intros gas Hgas. apply (yields_seq LogGas).
  { intros s c s' Hc. apply checked_inv in Hc as [Hc _]. unfold LogGas in *. apply SafeAdd_false in Hc as [-> _]; lia. }
  intros g1 Hg1. unfold LogGas, LogTopicGas in *. apply (yields_seq 375); [apply checked_add_yields; lia|].
  intros g2 Hg2. apply (yields_seq 0); [apply checked_mul_yields|]. intros g3 Hg3. apply checked_add_yields; lia.
Qed.

Lemma expGas_yields b : 0 ≤ b → yields ExpGas (expGas b).
Proof.
  intros Hb. unfold expGas. apply yields_bind. intros x s c s' Hc. apply checked_inv in Hc as [Hc _].
  assert (0 ≤ (BitLen x + 7) / 8).
  { apply Z.div_pos; [|lia]. unfold BitLen. destruct (_ =? _); [lia|]. pose proof (Z.log2_nonneg x). lia. }
  unfold ExpGas in *. apply SafeAdd_false in Hc as [-> _]; nia.
Qed.

Lemma dynamicGas_yields g m : is_call g = false → yields (min_price g) (dynamicGas ctx env g m).
Proof.
  intros Hg. destruct g; try done; cbn [dynamicGas min_price]; try apply wordsGas_yields.
  - unfold sstoreGas. do 3 (apply yields_bind; intros ?). destruct (_ || _); [|by apply sstoreNet_yields].
    unfold sstoreLegacy. repeat case_match; repeat (apply yields_bind; intros ?); by apply yields_mret.
  - unfold sstoreGasEIP2200. apply yields_bind. intros ?. destruct (_ <=? _); [by intros s c s' [=]|].
    do 3 (apply yields_bind; intros ?). by apply sstoreNet_yields.
  - destruct (Z.leb_spec 0 n); [by apply logGas_yields|]. unfold logGas. do 5 (apply yields_bind; intros ?).
    apply checked_add_nonneg.
  - apply memoryGasCost_yields.
  - by apply expGas_yields.
  - by apply expGas_yields.
  - unfold selfdestructGas. repeat (apply yields_bind; intros ?). apply yields_mret. by repeat case_match.
  - unfold sstoreGasEIP2929. apply yields_bind. intros ?. destruct (_ <=? _); [by intros s c s' [=]|].
    do 3 (apply yields_bind; intros ?). destruct (SlotInAccessList _ _ _). apply yields_bind. intros ?.
    by apply sstoreNet_yields; destruct b0.
  - unfold sloadGasEIP2929. do 2 (apply yields_bind; intros ?). destruct (negb _); [apply yields_bind; intros ?|]; by apply yields_mret.
  - unfold extCodeCopyGasEIP2929. apply (yields_seq 0); [apply wordsGas_yields|]. intros gas Hgas.
    do 2 (apply yields_bind; intros ?). destruct (negb _); [|by apply yields_mret]. apply yields_bind. intros ?. apply checked_add_nonneg.
  - unfold accountCheckGas. do 2 (apply yields_bind; intros ?). destruct (negb _); [apply yields_bind; intros ?|]; by apply yields_mret.
  - unfold selfdestructGasEIP2929. repeat (apply yields_bind; intros ?). apply yields_mret. by repeat case_match.
Qed.

(** ** The price of the memory *)

Definition memFee (k : Z) : Z := k * MemoryGas + k * k / QuadCoeffDiv.

(** The memory is a number of words, and the fee for all of them is noted. *)
Definition mem_ok (s : Frame) : Prop :=
  ∃ k, mem_len s = 32 * k ∧ 0 ≤ k < 2 ^ 32 ∧ f_lastGasCost s = memFee k.

Lemma memFee_mono j k : 0 ≤ j ≤ k → memFee j ≤ memFee k.
Proof. intros Hjk. unfold memFee, MemoryGas, QuadCoeffDiv. pose proof (Z.div_le_mono (j * j) (k * k) 512). nia. Qed.

Lemma memFee_range k : 0 ≤ k < 2 ^ 32 → 0 ≤ memFee k < 2 ^ 56.
Proof.
  intros Hk. unfold memFee, MemoryGas, QuadCoeffDiv.
  assert (0 ≤ k * k / 512 ≤ 2 ^ 55); [|lia]. split; [apply Z.div_pos; nia|].
  change (2 ^ 55) with (2 ^ 64 / 512). apply Z.div_le_mono; nia.
Qed.

(** The price [c] covers the fee for a memory of [j] words, on top of what was noted before. *)
Definition paid (j : Z) (s : Frame) (c : Z) (s' : Frame) : Prop :=
  f_lastGasCost s ≤ f_lastGasCost s' ≤ f_lastGasCost s + c ∧ (mem_len s < 32 * j → f_lastGasCost s' = memFee j).

Lemma memoryGasCost_Ok j s fee s' : mem_ok s → 0 ≤ j → memoryGasCost (32 * j) s = (Ok fee, s') →
  0 ≤ fee < 2 ^ 56 ∧ j < 2 ^ 32 ∧ f_store s' = f_store s ∧ paid j s fee s'.
Proof.
  intros (k & Hk & Hk0 & Hlast) Hj. unfold memoryGasCost, paid. destruct (Z.eqb_spec (32 * j) 0).
  { intros [= <- <-]. split_and!; (lia || done). }
  destruct (Z.ltb_spec 0x1FFFFFFFE0 (32 * j)); [by intros [=]|].
  assert (toWordSize (32 * j) = j) as ->.
  { unfold toWordSize, MaxUint64. rewrite (proj2 (Z.ltb_ge _ _)) by lia. dlia. }
  rewrite getS_bind. unfold u64 at 1. rewrite Z.mod_small by (unfold two64; lia). rewrite (Z.mul_comm j 32), Hk.
  destruct (Z.ltb_spec (32 * k) (32 * j)) as [Hlt|Hge]; [|intros [= <- <-]; split_and!; (lia || done)].
  pose proof (memFee_range j ltac:(lia)). pose proof (memFee_range k ltac:(lia)). pose proof (memFee_mono k j ltac:(lia)).
  assert (u64 (u64 (j * MemoryGas) + u64 (j * j) / QuadCoeffDiv) = memFee j) as ->.
  { unfold memFee, u64 in *. unfold MemoryGas in *. rewrite (Z.mod_small (j * 3)), (Z.mod_small (j * j)) by (unfold two64; nia).
    apply Z.mod_small. unfold two64. lia. }
  rewrite modify_bind. intros [= <- <-]. unfold u64. rewrite Z.mod_small by (unfold two64; lia). cbn.
  split_and!; (lia || done).
Qed.

(** A computation whose price covers the memory. *)
Definition pays (j : Z) (m : stM Frame Z) : Prop := ∀ s c s', mem_ok s → m s = (Ok c, s') → paid j s c s'.

(** The memory and the note of a frame. *)
Definition still (s s' : Frame) : Prop := f_store s' = f_store s ∧ f_lastGasCost s' = f_lastGasCost s.

Lemma still_price_rel : price_rel still.
Proof. split; try done. intros s1 s2 s3 [Hs Hl] [Hs' Hl']. split; congruence. Qed.

Lemma still_ok s s' : still s s' → mem_ok s → mem_ok s'.
Proof. intros [Hs Hl]. unfold mem_ok, mem_len. by rewrite Hs, Hl. Qed.

Lemma pays_bind {A} j (m : stM Frame A) f : frame still m → (∀ a, pays j (f a)) → pays j (m ≫= f).
Proof.
  intros Hm Hf s c s' Hok H. apply stM_bind_inv in H as (a & s1 & H1 & H). apply Hm in H1 as Hst.
  apply (Hf a) in H; [|by eapply still_ok]. destruct Hst as [Hs Hl]. unfold paid, mem_len in *. by rewrite Hs, Hl in H.
Qed.

Lemma pays_tail j m f : pays j m → yields 0 m → (∀ c, 0 ≤ c → yields c (f c)) → (∀ c, frame still (f c)) → pays j (m ≫= f).
Proof.
  intros Hm Hy Hf Hst s c s' Hok H. apply stM_bind_inv in H as (a & s1 & H1 & H). pose proof (Hm _ _ _ Hok H1) as [Hp Hn].
  apply Hy in H1 as Ha. pose proof (Hf a Ha _ _ _ H). apply Hst in H as [_ Hl]. unfold paid. rewrite Hl. split; [lia|done].
Qed.

Lemma memoryGasCost_pays j : 0 ≤ j → pays j (memoryGasCost (32 * j)).
Proof. intros Hj s c s' Hok H. by apply memoryGasCost_Ok in H as (_ & _ & _ & H). Qed.

Lemma wordsGas_pays p g j : 0 ≤ j → 0 ≤ g → pays j (wordsGas p g (32 * j)).
Proof.
  intros Hj Hg. pose proof still_price_rel as HR. pose proof (price_back64 _ HR). pose proof (price_checked _ HR).
  assert (Reflexive still) by apply HR. assert (Transitive still) by apply HR.
  unfold wordsGas. apply pays_tail; [by apply memoryGasCost_pays|apply memoryGasCost_yields| |intros; repeat (first [by auto|frame_step])].
  intros fee Hfee. apply yields_bind. intros words. apply (yields_seq 0); [apply checked_mul_yields|].
  intros price Hprice. by apply checked_add_yields.
Qed.

Lemma logGas_pays n j : 0 ≤ j → 0 ≤ n → pays j (logGas n (32 * j)).
Proof.
  intros Hj Hn. pose proof still_price_rel as HR. pose proof (price_back64 _ HR). pose proof (price_checked _ HR).
  assert (Reflexive still) by apply HR. assert (Transitive still) by apply HR.
  unfold logGas. apply pays_bind; [done|]. intros size.
  apply pays_tail; [by apply memoryGasCost_pays|apply memoryGasCost_yields| |intros; repeat (first [by auto|frame_step])].
  intros fee Hfee. unfold LogGas, LogTopicGas. apply (yields_seq fee); [apply checked_add_yields; lia|]. intros g1 Hg1.
  apply (yields_seq fee); [apply checked_add_yields; lia|]. intros g2 Hg2.
  apply (yields_seq 0); [apply checked_mul_yields|]. intros g3 Hg3. apply checked_add_yields; lia.
Qed.

Lemma extCodeCopyGas_pays j : 0 ≤ j → pays j (extCodeCopyGasEIP2929 (32 * j)).
Proof.
  intros Hj. pose proof still_price_rel as HR. pose proof (price_peek_at _ HR). pose proof (price_checked _ HR).
  pose proof (price_get_world _ HR). pose proof (price_address _ HR).
  assert (Reflexive still) by apply HR. assert (Transitive still) by apply HR.
  unfold extCodeCopyGasEIP2929. apply pays_tail; [by apply wordsGas_pays|apply wordsGas_yields| |intros; repeat (first [by auto|frame_step])].
  intros gas Hgas. do 2 (apply yields_bind; intros ?). destruct (negb _); [|by apply yields_mret].
  apply yields_bind. intros _. by apply checked_add_yields.
Qed.

(** ** Calls *)

(** The value that a call transfers. *)
Definition stipend (o : oldCall) (l : list Z) : Z :=
  match o with
  | gasCall | gasCallCode => if default 0 (l !! 2%nat) =? 0 then 0 else CallStipend
  | _ => 0
  end.

(** A call is charged for the gas that it passes on, with the stipend, and for the memory. *)
Definition call_charged (o : oldCall) (s s' : Frame) (c : Z) : Prop :=
  0 ≤ f_callGasTemp s' ∧ f_lastGasCost s ≤ f_lastGasCost s' ∧
  f_callGasTemp s' + stipend o (f_stack s) + (f_lastGasCost s' - f_lastGasCost s) ≤ c < two64.

Lemma callGas_range eip gas base cost temp : callGas eip gas base cost = Ok temp → is_u64 temp.
Proof.
  unfold callGas. intros Hc. pose proof (u64_range (gas - base)). pose proof (u64_range cost). unfold Uint64 in Hc.
  unfold is_u64 in *. repeat case_match; simplify_eq; dlia.
Qed.

Lemma peek_at_Ok n s x s' : peek_at n s = (Ok x, s') → f_stack s !! n = Some x ∧ s' = s.
Proof. unfold peek_at, back, go_index. intros H. st_inv_step H. apply liftR_inv in H as [H%deref_Ok ->]. done. Qed.

Lemma noteCallGas_Ok gas s c s' : 0 ≤ gas → noteCallGas ctx gas s = (Ok c, s') →
  0 ≤ f_callGasTemp s' ∧ c = gas + f_callGasTemp s' ∧ c < two64 ∧ f_lastGasCost s' = f_lastGasCost s.
Proof.
  intros Hg Hn. unfold noteCallGas in Hn. apply stM_bind_inv in Hn as (cost & s1 & [_ ->]%peek_at_Ok & Hn). st_inv Hn.
  apply checked_inv in Hn as [Hn ->]. apply callGas_range in Hm. unfold is_u64 in Hm.
  apply SafeAdd_false in Hn as [-> [_ Hc]]; [|lia]. cbn. lia.
Qed.

Lemma w_Sign_zero x : w_Sign x = 0 ↔ x = 0.
Proof. unfold w_Sign. destruct (Z.eqb_spec x 0); [done|]. destruct (_ <? _); done. Qed.

Lemma oldCallGas_Ok o j s c s' : mem_ok s → 0 ≤ j → oldCallGas ctx o (32 * j) s = (Ok c, s') →
  call_charged o s s' c ∧ (mem_len s < 32 * j → f_lastGasCost s' = memFee j).
Proof.
  intros Hok Hj. assert (∀ gas c s', 0 ≤ gas → (g ← memoryGasCost (32 * j); g1 ← checked (SafeAdd gas g); noteCallGas ctx g1) s = (Ok c, s') →
    0 ≤ f_callGasTemp s' ∧ f_lastGasCost s ≤ f_lastGasCost s' ∧
    f_callGasTemp s' + gas + (f_lastGasCost s' - f_lastGasCost s) ≤ c < two64 ∧ (mem_len s < 32 * j → f_lastGasCost s' = memFee j)) as Hsum.
  { intros gas c1 s2 Hgas Hc. apply stM_bind_inv in Hc as (g & s3 & Hg & Hc).
    apply memoryGasCost_Ok in Hg as (Hg & _ & _ & Hp & Hn); [|done..].
    apply stM_bind_inv in Hc as (g1 & s4 & Hg1 & Hc). apply checked_inv in Hg1 as [Hg1 ->].
    apply SafeAdd_false in Hg1 as [-> _]; [|lia]. apply noteCallGas_Ok in Hc as (Ht & Hc & Hc2 & ->); [|lia].
    split_and!; (lia || done). }
  intros Hc. unfold call_charged, CallStipend in *. destruct o; cbn [oldCallGas stipend] in *.
  - apply stM_bind_inv in Hc as (v & s1 & [Hv ->]%peek_at_Ok & Hc). apply stM_bind_inv in Hc as (a & s1 & [_ ->]%peek_at_Ok & Hc).
    apply stM_bind_inv in Hc as (w & s1 & [= _ <-] & Hc). rewrite Hv. cbn [default id].
    apply Hsum in Hc as (Ht & Hl & Hc & Hn); [|by repeat case_match]. split; [|done]. unfold CallNewAccountGas, CallValueTransferGas, CallStipend in *.
    destruct (v =? 0); cbn [negb] in *; repeat case_match; lia.
  - apply stM_bind_inv in Hc as (g & s1 & Hg & Hc). pose proof (ss_stack _ _ (scope_memoryGasCost _ _ _ _ Hg)) as Hst.
    apply memoryGasCost_Ok in Hg as (Hg & _ & _ & Hp & Hn); [|done..]. apply stM_bind_inv in Hc as (v & s2 & [Hv ->]%peek_at_Ok & Hc).
    rewrite Hst in Hv. rewrite Hv. cbn [default id]. apply stM_bind_inv in Hc as (g1 & s4 & Hg1 & Hc).
    apply checked_inv in Hg1 as [Hg1 ->]. unfold CallValueTransferGas, CallStipend in *.
    destruct (Z.eqb_spec (w_Sign v) 0) as [Hz|Hz]; rewrite w_Sign_zero in Hz; cbn [negb] in Hg1;
      (apply SafeAdd_false in Hg1 as [-> _]; [|lia]); apply noteCallGas_Ok in Hc as (Ht & Hc & Hc2 & ->); [|lia| |lia];
      (split; [|done]); destruct (Z.eqb_spec v 0); lia.
  - apply stM_bind_inv in Hc as (g & s1 & Hg & Hc). apply memoryGasCost_Ok in Hg as (Hg & _ & _ & Hp & Hn); [|done..].
    apply noteCallGas_Ok in Hc as (Ht & Hc & Hc2 & ->); [|lia]. split; [lia|done].
  - apply stM_bind_inv in Hc as (g & s1 & Hg & Hc). apply memoryGasCost_Ok in Hg as (Hg & _ & _ & Hp & Hn); [|done..].
    apply noteCallGas_Ok in Hc as (Ht & Hc & Hc2 & ->); [|lia]. split; [lia|done].
Qed.

Context (Heip : IsEIP150 (ec_rules ctx) = true).

Lemma callGas_upper gas base cost temp : callGas true gas base cost = Ok temp → temp ≤ two64 - two64 / 64.
Proof.
  unfold callGas. cbn [andb]. pose proof (u64_range (gas - base)) as Hu. set (a := u64 (gas - base)) in *. unfold is_u64 in Hu.
  assert (a - a / 64 ≤ two64 - two64 / 64) by (unfold two64 in *; dlia).
  destruct (IsUint64 cost) eqn:Hc; cbn [negb orb]; [|intros [= <-]; done].
  destruct (Z.ltb_spec (a - a / 64) (Uint64 cost)); intros [= <-]; lia.
Qed.

Lemma noteCallGas_upper gas s c s' : 0 ≤ gas < 2 ^ 57 → noteCallGas ctx gas s = (Ok c, s') → c + 2500 < two64.
Proof.
  intros Hg Hn. pose proof (noteCallGas_Ok _ _ _ _ (proj1 Hg) Hn) as (_ & Hc & _).
  unfold noteCallGas in Hn. apply stM_bind_inv in Hn as (cost & s1 & _ & Hn). st_inv Hn.
  apply checked_inv in Hn as [_ ->]. rewrite Heip in Hm. apply callGas_upper in Hm. cbn in Hc.
  unfold two64 in *. change (18446744073709551616 / 64) with (2 ^ 58) in Hm. lia.
Qed.

Lemma oldCallGas_upper o j s c s' : mem_ok s → 0 ≤ j → oldCallGas ctx o (32 * j) s = (Ok c, s') → c + 2500 < two64.
Proof.
  intros Hm Hj. assert (∀ gas s1 c s', mem_ok s1 → 0 ≤ gas < 2 ^ 56 →
    (g ← memoryGasCost (32 * j); g1 ← checked (SafeAdd gas g); noteCallGas ctx g1) s1 = (Ok c, s') → c + 2500 < two64) as Hsum.
  { intros gas s1 c1 s2 Hm1 Hgas Hc. apply stM_bind_inv in Hc as (g & s3 & Hg & Hc).
    apply memoryGasCost_Ok in Hg as (Hg & _); [|done|done].
    apply stM_bind_inv in Hc as (g1 & s4 & Hg1 & Hc). apply checked_inv in Hg1 as [Hg1 _].
    apply SafeAdd_false in Hg1 as [-> _]; [|lia]. apply noteCallGas_upper in Hc; lia. }
  intros Hc. destruct o; cbn [oldCallGas] in *.
  - do 2 (apply stM_bind_inv in Hc as (? & ? & [_ ->]%peek_at_Ok & Hc)).
    apply stM_bind_inv in Hc as (w & s1 & [= _ <-] & Hc). apply Hsum in Hc; [done|done|].
    unfold CallNewAccountGas, CallValueTransferGas. by repeat case_match.
  - apply stM_bind_inv in Hc as (g & s1 & Hg & Hc). apply memoryGasCost_Ok in Hg as (Hg & _); [|done|done].
    apply stM_bind_inv in Hc as (v & s2 & [_ ->]%peek_at_Ok & Hc). apply stM_bind_inv in Hc as (g1 & s4 & Hg1 & Hc).
    apply checked_inv in Hg1 as [Hg1 _]. unfold CallValueTransferGas in *.
    destruct (negb _); (apply SafeAdd_false in Hg1 as [-> _]; [|lia]); apply noteCallGas_upper in Hc; lia.
  - apply stM_bind_inv in Hc as (g & s1 & Hg & Hc). apply memoryGasCost_Ok in Hg as (Hg & _); [|done|done].
    apply noteCallGas_upper in Hc; lia.
  - apply stM_bind_inv in Hc as (g & s1 & Hg & Hc). apply memoryGasCost_Ok in Hg as (Hg & _); [|done|done].
    apply noteCallGas_upper in Hc; lia.
Qed.

(** What the price of a call leaves behind. *)
Definition call_post (o : oldCall) (j : Z) (s : Frame) (r : go_res Z) (s' : Frame) : Prop :=
  match r with
  | Ok c => scope_same s s' ∧ call_charged o s s' c ∧ (mem_len s < 32 * j → f_lastGasCost s' = memFee j)
  | Err _ => 0 ≤ f_gas s' ≤ f_gas s
  | _ => True
  end.

Lemma oldCallGas_post o j s : is_u64 (f_gas s) → mem_ok s → 0 ≤ j → wp (oldCallGas ctx o (32 * j)) (call_post o j s) s.
Proof.
  intros Hg Hm Hj. unfold wp. destruct (oldCallGas ctx o (32 * j) s) as [r s'] eqn:Hc.
  pose proof (price_oldCallGas ctx _ scope_price_rel _ (scope_memoryGasCost _) o _ _ _ Hc) as Hs.
  unfold is_u64 in Hg. destruct r; cbn; [|rewrite (ss_gas _ _ Hs); lia|done..]. split; [done|by eapply oldCallGas_Ok].
Qed.

Lemma wp_peek_at n Φ s : (∀ x, f_stack s !! n = Some x → Φ (Ok x) s) → Φ Panic s → wp (peek_at n) Φ s.
Proof. intros Hs Hn. unfold wp, peek_at, back, go_index. rewrite getS_bind. cbn. destruct (f_stack s !! n) eqn:H; cbn; auto. Qed.

Lemma callVariantGas_post o j s : is_u64 (f_gas s) → mem_ok s → 0 ≤ j →
  wp (callVariantGas ctx o (32 * j)) (call_post o j s) s.
Proof.
  intros Hg Hm Hj. unfold callVariantGas. wp_step. apply wp_peek_at; [|done]. intros a _. wp_step. wp_step.
  destruct (AddressInAccessList (f_world s) (Bytes20 a)); [by apply oldCallGas_post|].
  wp_step. wp_step. wp_step. unfold UseGas, wp at 1. cbn [f_gas f_set_world].
  unfold ColdAccountAccessCostEIP2929, WarmStorageReadCostEIP2929. unfold is_u64 in Hg.
  destruct (Z.ltb_spec (f_gas s) (2600 - 100)); cbn [fst snd negb]; [by wp_step; cbn; lia|].
  set (s1 := f_set_gas _ _). wp_step. unfold wp at 1.
  destruct (oldCallGas ctx o (32 * j) s1) as [r s2] eqn:Hc.
  pose proof (price_oldCallGas ctx _ scope_price_rel _ (scope_memoryGasCost _) o _ _ _ Hc) as Hs.
  destruct r as [c| | |]; cbn [fst snd]; [|cbn [call_post]; rewrite (ss_gas _ _ Hs); cbn; lia|done..].
  assert (mem_ok s1) as Hm1 by exact Hm. pose proof (oldCallGas_upper _ _ _ _ _ Hm1 Hj Hc) as Hup.
  apply oldCallGas_Ok in Hc as [Hc Hn]; [|done..]. wp_step. wp_step. wp_step. destruct Hs. cbn in *.
  assert (0 ≤ stipend o (f_stack s)) by (unfold stipend, CallStipend; by repeat case_match).
  unfold call_charged in *. cbn in *. unfold u64. rewrite (Z.mod_small (c + _)) by lia.
  split; [|split; [lia|done]]. split; cbn; try done. rewrite ss_gas0, Z.sub_add. by apply Z.mod_small.
Qed.
End prices.

(** ** Execution *)

(** The memory of a frame and what was noted for it. *)
Definition mem_same (s s' : Frame) : Prop :=
  length (f_store s') = length (f_store s) ∧ f_lastGasCost s' = f_lastGasCost s.

Lemma mem_same_ok s s' : mem_same s s' → mem_ok s → mem_ok s'.
Proof. intros [Hl Hc]. unfold mem_ok, mem_len. by rewrite Hl, Hc. Qed.

Lemma frame_rel_gas : frame_rel (λ s s', f_gas s' = f_gas s ∧ mem_same s s').
Proof.
  split; try done.
  intros s1 s2 s3 (Hg & Hl & Hc) (Hg' & Hl' & Hc'). unfold mem_same. split_and!; congruence.
Qed.

Lemma wp_pop Φ s : (∀ x l, f_stack s = x :: l → Φ (Ok x) (f_set_stack l s)) → Φ Panic s → wp pop Φ s.
Proof. intros Hs Hn. unfold wp, pop. destruct (f_stack s) eqn:H; cbn; auto. Qed.

Lemma wp_mem_Get o n Φ s : (∀ d, Φ (Ok d) s) → Φ Panic s → wp (mem_Get o n) Φ s.
Proof.
  intros Hs Hn. unfold wp, mem_Get. destruct (_ =? _); [apply Hs|]. rewrite getS_bind.
  destruct (_ <? _); [|apply Hs]. unfold liftR, zslice, go_slice. cbn. by repeat case_match; cbn.
Qed.

Lemma wp_mem_Set o n v Φ s : (∀ m, length m = length (f_store s) → Φ (Ok tt) (f_set_store m s)) → Φ Panic s →
  wp (mem_Set o n v) Φ s.
Proof.
  intros Hs Hn. unfold wp, mem_Set. destruct (_ =? _).
  { specialize (Hs (f_store s) eq_refl). by destruct s. }
  rewrite getS_bind. destruct (_ <? _); [done|]. unfold mbind, stM_bind, liftR.
  destruct (copy_into _ _ _ _) as [m|e| |] eqn:Hm; cbn; [apply Hs; by eapply copy_into_length|..|done|].
  all: unfold copy_into, zslice, go_slice in Hm; repeat case_match; discriminate Hm.
Qed.

Section execution.
Context {HC : Crypto} {HU : Uint256} {HP : Precompiles} {HI : Interpreter} {HPL : PrecompileLaws} {HGL : GasLaws}.
Context (ctx : EvmContext) (env : Env) (Heip : IsEIP150 (ec_rules ctx) = true).

(** Unless [E] holds, which is true or false in what follows, the calls end. *)
Context (E : Prop).
Context (Hends : E ∨ ∀ c i ro w, e_depth env + 1 ≤ CallCreateDepth → is_u64 (ct_Gas c) → ends (Run (e_depth env + 1) c i ro w)).

(** A call or a creation returns at most [b] gas on top of what the frame has. *)
Definition returned (b : Z) (s : Frame) (r : go_res outcome) (s' : Frame) : Prop :=
  match r with
  | Ok _ => 0 ≤ f_gas s' ≤ f_gas s + b ∧ mem_same s s'
  | NoFuel => E
  | _ => True
  end.

Lemma end_call_spec ro rs r s : 0 ≤ r.1.2 → 0 ≤ f_gas s → f_gas s + r.1.2 < two64 →
  wp (end_call ro rs r) (returned r.1.2 s) s.
Proof.
  destruct r as [[ret left] err]. cbn [fst snd]. intros Hl Hg Hsum. unfold end_call, push. repeat wp_step.
  - apply wp_mem_Set; [|done]. intros m Hm. repeat wp_step. cbn in *. unfold u64. rewrite Z.mod_small by lia.
    split; [lia|done].
  - cbn in *. unfold u64. rewrite Z.mod_small by lia. split; [lia|done].
Qed.

Lemma end_create_spec v r s : 0 ≤ r.1.2 → 0 ≤ f_gas s → f_gas s + r.1.2 < two64 →
  wp (end_create v r) (returned r.1.2 s) s.
Proof.
  destruct r as [[ret left] err]. cbn [fst snd]. intros Hl Hg Hsum. unfold end_create, push. repeat wp_step.
  cbn in *. unfold u64. rewrite Z.mod_small by lia. split; [lia|done].
Qed.

(** The entry point is given [gas] and returns at most as much. *)
Lemma invoke_spec gas call Φ s : (∀ w, uses_gas gas (call w)) → (E ∨ ∀ w, ends (call w)) →
  (∀ ret left err w, 0 ≤ left ≤ gas → Φ (Ok (ret, left, err)) (f_set_world w s)) →
  (∀ e w, Φ (Err e) (f_set_world w s)) → (∀ w, Φ Panic (f_set_world w s)) → (∀ w, E → Φ NoFuel (f_set_world w s)) →
  wp (invoke call) Φ s.
Proof.
  intros Hu He Hok Herr Hp Hn. unfold wp, invoke. specialize (Hu (f_world s)).
  assert (E ∨ ends (call (f_world s))) as He' by (destruct He; auto). destruct (call (f_world s)) as [r w] eqn:Hc.
  destruct r as [[[ret left] err]| | |]; cbn [fst snd]; auto; [apply Hok; by eapply Hu|]. by destruct He' as [|[]]; auto.
Qed.

Lemma call_spec gas call ro rs s : (∀ w, uses_gas gas (call w)) → (E ∨ ∀ w, ends (call w)) → 0 ≤ f_gas s → f_gas s + gas < two64 →
  wp (r ← invoke call; end_call ro rs r) (returned gas s) s.
Proof.
  intros Hu He Hg Hsum. wp_step. apply (invoke_spec gas); [done|done| |done..].
  intros ret left err w Hl. eapply wp_mono; [apply end_call_spec; cbn; lia|].
  intros r s' Hr. destruct r; try done. cbn in *. split; [lia|apply Hr].
Qed.

Lemma returned_mono b b' s1 s2 r s' : b ≤ b' → f_gas s2 = f_gas s1 → mem_same s1 s2 → returned b s2 r s' → returned b' s1 r s'.
Proof.
  intros Hb Hg [Hl Hc] Hr. destruct r; try done. destruct Hr as [Hr [Hl' Hc']]. split; [lia|]. split; congruence.
Qed.

Ltac pops := repeat (wp_step; apply wp_pop; [intros ? ? ?; cbn [f_stack f_set_stack] in *; subst|done]).

Ltac call_start :=
  let H := fresh in
  wp_step; apply wp_pop; [intros ? ? H|done]; wp_step; wp_step; cbn [f_callGasTemp f_set_stack]; rewrite ?H in *; clear H;
  pops; wp_step; apply wp_mem_Get; [intros ?|done]; cbn [stipend lookup list_lookup default id] in *.

Ltac u64_lia := unfold is_u64; dlia.
Ltac by_ends H := destruct Hends as [|Hr]; [by left|]; right; intros ?; apply H; [exact Hr|u64_lia].

Ltac call_end g :=
  eapply wp_mono; [apply (call_spec g); cbn; [intros ?| |lia..]|intros ? ?; apply returned_mono; [lia|done|done]].

(** A call passes on what the price noted, with the stipend. *)
Lemma exec_call_spec s : 0 ≤ f_gas s → 0 ≤ f_callGasTemp s →
  f_gas s + f_callGasTemp s + stipend gasCall (f_stack s) < two64 →
  wp (exec_call env) (returned (f_callGasTemp s + stipend gasCall (f_stack s)) s) s.
Proof.
  intros Hg Ht Hsum. unfold exec_call. call_start.
  destruct (Z.eqb_spec x1 0) as [->|Hv]; cbn [negb]; rewrite ?andb_false_r, ?andb_true_r.
  - call_end (f_callGasTemp s); [apply Call_gas; u64_lia|by_ends Call_ends].
  - unfold CallStipend in *. destruct (e_readOnly env); [wp_step; cbn; split; [lia|done]|].
    assert (u64 (f_callGasTemp s + 2300) = f_callGasTemp s + 2300) as -> by (apply Z.mod_small; lia).
    call_end (f_callGasTemp s + 2300); [apply Call_gas; u64_lia|by_ends Call_ends].
Qed.

Lemma exec_callcode_spec s : 0 ≤ f_gas s → 0 ≤ f_callGasTemp s →
  f_gas s + f_callGasTemp s + stipend gasCallCode (f_stack s) < two64 →
  wp (exec_callcode env) (returned (f_callGasTemp s + stipend gasCallCode (f_stack s)) s) s.
Proof.
  intros Hg Ht Hsum. unfold exec_callcode. call_start. destruct (Z.eqb_spec x1 0) as [->|Hv]; cbn [negb].
  - call_end (f_callGasTemp s); [apply CallCode_gas; u64_lia|by_ends CallCode_ends].
  - unfold CallStipend in *.
    assert (u64 (f_callGasTemp s + 2300) = f_callGasTemp s + 2300) as -> by (apply Z.mod_small; lia).
    call_end (f_callGasTemp s + 2300); [apply CallCode_gas; u64_lia|by_ends CallCode_ends].
Qed.

Lemma exec_delegatecall_spec s : 0 ≤ f_gas s → 0 ≤ f_callGasTemp s → f_gas s + f_callGasTemp s < two64 →
  wp (exec_delegatecall env) (returned (f_callGasTemp s) s) s.
Proof.
  intros Hg Ht Hsum. unfold exec_delegatecall. call_start. call_end (f_callGasTemp s); [apply DelegateCall_gas; u64_lia|by_ends DelegateCall_ends].
Qed.

Lemma exec_staticcall_spec s : 0 ≤ f_gas s → 0 ≤ f_callGasTemp s → f_gas s + f_callGasTemp s < two64 →
  wp (exec_staticcall env) (returned (f_callGasTemp s) s) s.
Proof.
  intros Hg Ht Hsum. unfold exec_staticcall. call_start. call_end (f_callGasTemp s); [apply StaticCall_gas; u64_lia|by_ends StaticCall_ends].
Qed.

(** A creation takes its gas from the frame. *)
Lemma create_spec gas call v s : (∀ w, uses_gas gas (call w)) → (E ∨ ∀ w, ends (call w)) → 0 ≤ gas ≤ f_gas s → f_gas s < two64 →
  wp (_ ← UseGas gas; r ← invoke call; end_create (v r) r) (returned 0 s) s.
Proof.
  intros Hu He Hg Hs. wp_step. unfold UseGas, wp at 1. rewrite (proj2 (Z.ltb_ge (f_gas s) gas)) by lia. cbn [fst snd].
  wp_step. apply (invoke_spec gas); [done|done| |done..].
  intros ret left err w Hl. eapply wp_mono; [apply end_create_spec; cbn; lia|].
  intros r s'. destruct r; try done. cbn in *. intros [Hr Hm]. split; [lia|done].
Qed.

Lemma exec_create_spec s : is_u64 (f_gas s) → wp (exec_create ctx env) (returned 0 s) s.
Proof.
  intros Hg. unfold is_u64 in Hg. unfold exec_create. destruct (e_readOnly env); [wp_step; cbn; split; [lia|done]|].
  pops. wp_step. apply wp_mem_Get; [|done]. intros input. wp_step. wp_step. rewrite Heip. cbn [f_gas f_set_stack].
  eapply wp_mono; [apply (create_spec (f_gas s - f_gas s / 64)); cbn; [| |dlia..]|].
  - intros w. apply create_gas. u64_lia.
  - by_ends create_ends.
  - intros r s'. by apply returned_mono.
Qed.

Lemma exec_create2_spec s : is_u64 (f_gas s) → wp (exec_create2 env) (returned 0 s) s.
Proof.
  intros Hg. unfold is_u64 in Hg. unfold exec_create2. destruct (e_readOnly env); [wp_step; cbn; split; [lia|done]|].
  pops. wp_step. apply wp_mem_Get; [|done]. intros input. wp_step. wp_step. cbn [f_gas f_set_stack].
  eapply wp_mono; [apply (create_spec (f_gas s - f_gas s / 64)); cbn; [| |dlia..]|].
  - intros w. apply create_gas. u64_lia.
  - by_ends create_ends.
  - intros r s'. by apply returned_mono.
Qed.

(** ** One round *)

(** The note for the memory while a price is computed. *)
Definition note_rel (j : Z) (s s' : Frame) : Prop :=
  f_store s' = f_store s ∧
  (f_lastGasCost s' = f_lastGasCost s ∨ mem_len s < 32 * j ∧ j < 2 ^ 32 ∧ f_lastGasCost s' = memFee j).

Lemma note_price_rel j : price_rel (note_rel j).
Proof.
  split; try (intros; split; [done|by left]).
  intros s1 s2 s3 [Hs1 H1] [Hs2 H2]. unfold note_rel, mem_len in *. split; [congruence|]. rewrite Hs1 in H2. intuition congruence.
Qed.

Lemma note_memoryGasCost j : 0 ≤ j → frame (note_rel j) (memoryGasCost (32 * j)).
Proof.
  intros Hj s r s'. unfold memoryGasCost. destruct (_ =? _); [intros [= <- <-]; split; [done|by left]|].
  destruct (Z.ltb_spec 0x1FFFFFFFE0 (32 * j)); [intros [= <- <-]; split; [done|by left]|].
  assert (toWordSize (32 * j) = j) as ->.
  { unfold toWordSize, MaxUint64. rewrite (proj2 (Z.ltb_ge _ _)) by lia. dlia. }
  rewrite getS_bind. unfold u64 at 1. rewrite Z.mod_small by (unfold two64; lia).
  destruct (Z.ltb_spec (mem_len s) (j * 32)) as [Hlt|Hge]; [|intros [= <- <-]; split; [done|by left]].
  rewrite modify_bind. intros [= <- <-]. split; [done|]. right. split_and!; [lia|lia|]. cbn.
  pose proof (memFee_range j ltac:(lia)). unfold memFee, u64, MemoryGas in *.
  rewrite (Z.mod_small (j * 3)), (Z.mod_small (j * j)) by (unfold two64; nia). apply Z.mod_small. unfold two64. lia.
Qed.

(** The functions that charge for the memory, and so bound it. *)
Definition charges_memory (g : gasFunc) : bool :=
  match g with
  | memoryCopierGas _ | makeGasLog _ | gasKeccak256 | pureMemoryGascost | gasCreate2 | OldCall _ | gasExtCodeCopyEIP2929
  | makeCallVariantGasCallEIP2929 _ => true
  | _ => false
  end.

(** The number of topics of a log. *)
Definition min_logs (g : gasFunc) : bool := match g with makeGasLog n => 0 <=? n | _ => true end.

Definition needs (P : Prop) {A} (m : stM Frame A) : Prop := ∀ s c s', m s = (Ok c, s') → P.

Lemma needs_l P {A B} (m : stM Frame A) (f : A → stM Frame B) : needs P m → needs P (m ≫= f).
Proof. intros Hm s c s' H. apply stM_bind_inv in H as (a & s1 & H & _). by eapply Hm. Qed.

Lemma needs_r P {A B} (m : stM Frame A) (f : A → stM Frame B) : (∀ a, needs P (f a)) → needs P (m ≫= f).
Proof. intros Hf s c s' H. apply stM_bind_inv in H as (a & s1 & _ & H). by eapply Hf. Qed.

Lemma needs_memory j : 0 ≤ j → needs (j < 2 ^ 32) (memoryGasCost (32 * j)).
Proof.
  intros Hj s c s'. unfold memoryGasCost. destruct (Z.eqb_spec (32 * j) 0); [lia|].
  destruct (Z.ltb_spec 0x1FFFFFFFE0 (32 * j)); [by intros [=]|lia].
Qed.

Lemma needs_dynamicGas j g : 0 ≤ j → charges_memory g = true → needs (j < 2 ^ 32) (dynamicGas ctx env g (32 * j)).
Proof.
  intros Hj Hg. pose proof (needs_memory j Hj) as Hm.
  assert (∀ p w, needs (j < 2 ^ 32) (wordsGas p w (32 * j))) as Hw by (intros; by apply needs_l).
  assert (∀ o, needs (j < 2 ^ 32) (oldCallGas ctx o (32 * j))) as Ho.
  { intros []; cbn [oldCallGas]; [do 3 (apply needs_r; intros ?)|..]; by apply needs_l. }
  destruct g; try done; cbn [dynamicGas]; try apply Hw; try apply Ho; try apply Hm.
  - apply needs_r. intros ?. by apply needs_l.
  - by apply needs_l.
  - unfold callVariantGas. do 2 (apply needs_r; intros ?). destruct (AddressInAccessList _ _); [done|].
    do 2 (apply needs_r; intros ?). destruct (negb _); [by intros s c s' [=]|]. by apply needs_l.
Qed.

(** The memory after it was enlarged to what was noted. *)
Definition resize (size : Z) (s : Frame) : Frame :=
  if mem_len s <? size then f_set_store (f_store s ++ replicate (Z.to_nat (size - mem_len s)) x00) s else s.

Lemma resized_mem_ok j s c s' : 0 ≤ j < 2 ^ 32 → mem_ok s → note_rel j s s' → paid j s c s' → mem_ok (resize (32 * j) s').
Proof.
  intros Hj (k & Hk & Hk0 & Hlast) [Hst Hn] [_ Hp]. assert (mem_len s' = 32 * k) as Hk' by (unfold mem_len in *; by rewrite Hst).
  unfold resize. destruct (Z.ltb_spec (mem_len s') (32 * j)) as [Hlt|Hge].
  - exists j. split_and!; try lia; [|cbn; apply Hp; lia]. unfold mem_len in *. cbn. rewrite length_app, length_replicate. lia.
  - exists k. split_and!; lia.
Qed.

(** What an instruction is charged, when it is executed or ends the run. *)
Definition charge_post (g : gasFunc) (s : Frame) (r : go_res (option error)) (s' : Frame) : Prop :=
  match r with
  | Ok None => f_stack s' = f_stack s ∧ mem_ok s' ∧
      ∃ c, min_price g ≤ c ∧ 0 ≤ c ≤ f_gas s ∧ f_gas s' = f_gas s - c ∧ f_lastGasCost s' ≤ f_lastGasCost s + c ∧
           match g with
           | OldCall o | makeCallVariantGasCallEIP2929 o => call_charged o s s' c
           | _ => True
           end
  | Ok (Some _) => 0 ≤ f_gas s' ≤ f_gas s
  | NoFuel => False
  | _ => True
  end.

(** The price of a function, whether it is of a call or not. *)
Definition dyn_post (g : gasFunc) (j : Z) (s : Frame) (r : go_res Z) (s' : Frame) : Prop :=
  match r with
  | Ok c => scope_same s s' ∧ min_price g ≤ c ∧ 0 ≤ c ∧ (charges_memory g = true → paid j s c s') ∧
      match g with
      | OldCall o | makeCallVariantGasCallEIP2929 o => call_charged o s s' c
      | _ => True
      end
  | Err _ => 0 ≤ f_gas s' ≤ f_gas s
  | _ => True
  end.

Lemma min_price_nonneg g : 0 ≤ min_price g.
Proof. destruct g; cbn; try done. by destruct (_ <=? _). Qed.

Lemma dynamicGas_pays g j : 0 ≤ j → min_logs g = true → charges_memory g = true → is_call g = false →
  pays j (dynamicGas ctx env g (32 * j)).
Proof.
  intros Hj Hl Hcm Hc. destruct g; try done; cbn [dynamicGas]; try (by apply wordsGas_pays).
  - apply logGas_pays; [done|by apply Z.leb_le].
  - by apply memoryGasCost_pays.
  - by apply extCodeCopyGas_pays.
Qed.

Lemma call_post_dyn o g j s r s' : call_post o j s r s' → (g = OldCall o ∨ g = makeCallVariantGasCallEIP2929 o) → dyn_post g j s r s'.
Proof.
  intros Hp Hg. destruct r as [c| | |]; try done. destruct Hp as (Hs & Hc & Hn). pose proof Hc as (Ht & Hl & Hc').
  assert (0 ≤ stipend o (f_stack s)) by (unfold stipend, CallStipend; by repeat case_match).
  destruct Hg as [-> | ->]; cbn; unfold paid; split_and!; try done; lia.
Qed.

Lemma dynamicGas_post g j s : refund_ok g = true → min_logs g = true → is_u64 (f_gas s) → mem_ok s → 0 ≤ j →
  wp (dynamicGas ctx env g (32 * j)) (dyn_post g j s) s.
Proof.
  intros Hr Hl Hg Hm Hj. destruct (is_call g) eqn:Hc.
  - destruct g; try done; cbn [dynamicGas].
    + eapply wp_mono; [by apply oldCallGas_post|]. intros r s' Hp. eapply call_post_dyn; [exact Hp|by left].
    + eapply wp_mono; [by apply callVariantGas_post|]. intros r s' Hp. eapply call_post_dyn; [exact Hp|by right].
  - unfold wp. destruct (dynamicGas ctx env g (32 * j) s) as [r s'] eqn:Hd. cbn [fst snd].
    assert (is_variant g = false) as Hv by (by destruct g). unfold is_u64 in Hg.
    pose proof (price_dynamicGas ctx env _ scope_price_rel _ (scope_memoryGasCost _) g Hv Hr _ _ _ Hd) as Hs.
    destruct r as [c| | |]; cbn; [|rewrite (ss_gas _ _ Hs); lia|done..].
    pose proof (dynamicGas_yields ctx env g _ Hc _ _ _ Hd). pose proof (min_price_nonneg g).
    split_and!; [done|done|lia|intros Hcm; by eapply dynamicGas_pays|by destruct g].
Qed.

Lemma memorySize_nonneg m l n b : memorySize m l = Ok (n, b) → 0 ≤ n.
Proof.
  assert (∀ o k, 0 ≤ (calcMemSize64WithUint o k).1) as H1.
  { intros o k. unfold calcMemSize64WithUint. destruct (_ =? _); [done|]. destruct (Uint64WithOverflow o) as [x []]; [done|].
    apply u64_range. }
  assert (∀ o k, 0 ≤ (calcMemSize64 o k).1) as H2 by (intros o k; unfold calcMemSize64; destruct (negb _); [done|apply H1]).
  assert (∀ i k n b, memSize l i k = Ok (n, b) → 0 ≤ n) as H3.
  { intros i k n' b' H. unfold memSize in H. go_inv. pose proof (H2 a a0) as Hp. by rewrite H in Hp. }
  assert (∀ a b' c d n b, callMemSize l a b' c d = Ok (n, b) → 0 ≤ n) as H4.
  { intros a b' c d n' b'' H. unfold callMemSize in H. apply bind_Ok in H as ([x o] & Hx & H). apply H3 in Hx.
    destruct o; [by simplify_eq|]. apply bind_Ok in H as ([y o] & Hy & H). apply H3 in Hy.
    destruct o; [by simplify_eq|]. destruct (_ <? _); by simplify_eq. }
  destruct m; cbn [memorySize]; try (by apply H3); try (by apply H4); intros H; go_inv; pose proof (H1 a) as Hp.
  - specialize (Hp 32). by rewrite H in Hp.
  - specialize (Hp 1). by rewrite H in Hp.
  - specialize (Hp 32). by rewrite H in Hp.
Qed.

Lemma wp_mem_Resize n Φ s : Φ (Ok tt) (resize n s) → wp (mem_Resize n) Φ s.
Proof. done. Qed.

Lemma wp_UseGas n Φ s : (f_gas s < n → Φ (Ok false) s) → (n ≤ f_gas s → Φ (Ok true) (f_set_gas (f_gas s - n) s)) →
  wp (UseGas n) Φ s.
Proof. intros Hlt Hge. unfold wp, UseGas. destruct (Z.ltb_spec (f_gas s) n); cbn; auto. Qed.

Lemma charge_spec g m s : refund_ok g = true → min_logs g = true → (m = None ∨ charges_memory g = true) → is_u64 (f_gas s) → mem_ok s →
  wp (charge ctx env g m) (charge_post g s) s.
Proof.
  intros Hr Hl Hcm Hg Hm. pose proof Hg as Hg'. unfold is_u64 in Hg'. unfold charge. wp_step. wp_step. wp_step. wp_step.
  destruct (match m with Some m => memorySize m (f_stack s) | None => Ok (0, false) end) as [[n overflow]| | |] eqn:Hms;
    [|done|done|by destruct m; [apply memorySize_fuel in Hms|]].
  assert (0 ≤ n ∧ (m = None → n = 0)) as [Hn0 Hn].
  { destruct m; [by split; [eapply memorySize_nonneg|]|]. by simplify_eq. }
  destruct overflow; [wp_step; cbn; lia|].
  assert (0 ≤ toWordSize n ∧ (n = 0 → toWordSize n = 0)) as [Hj Hj0].
  { unfold toWordSize. destruct (Z.ltb_spec (MaxUint64 - 31) n); [|split; [dlia|by intros ->]].
    split; [done|]. intros ->. by vm_compute in H. }
  unfold SafeMul. destruct (Z.leb_spec two64 (toWordSize n * 32)) as [|Hlt]; [wp_step; cbn; lia|].
  assert (u64 (toWordSize n * 32) = 32 * toWordSize n) as ->.
  { unfold u64. rewrite Z.mod_small by lia. lia. }
  set (j := toWordSize n) in *. wp_step. wp_step.
  pose proof (price_any_dynamicGas ctx env _ (note_price_rel j) _ (note_memoryGasCost j Hj) g (λ n s, conj eq_refl (or_introl eq_refl)) Hr) as Hnote.
  pose proof (ended_dynamicGas ctx env g (32 * j) s) as He.
  pose proof (dynamicGas_post g j s Hr Hl Hg Hm Hj) as Hp. unfold wp in Hp |- * at 1.
  destruct (dynamicGas ctx env g (32 * j) s) as [r s1] eqn:Hd. apply Hnote in Hd as Hn1. cbn [fst snd] in *.
  assert (∀ c, r = Ok c → j < 2 ^ 32) as Hj32.
  { intros c ->. destruct Hcm as [->|Hcm]; [|by eapply needs_dynamicGas]. rewrite Hj0 by auto. done. }
  destruct r as [c|e| |]; [|wp_step; exact Hp|done..]. destruct Hp as (Hs & Hlo & Hc0 & Hpaid & Hcall).
  assert (paid j s c s1) as [Hp Hp'].
  { destruct Hcm as [->|Hcm]; [|by apply Hpaid]. rewrite (Hj0 (Hn eq_refl)) in *.
    assert (0 ≤ mem_len s) by (unfold mem_len; lia). unfold paid. destruct Hn1 as [_ [->|[? _]]]; lia. }
  pose proof (ss_gas _ _ Hs) as Hgs. wp_step. apply wp_UseGas; intros Hc; cbn [negb].
  { wp_step. cbn. lia. }
  set (s2 := f_set_gas (f_gas s1 - c) s1).
  assert (mem_ok (resize (32 * j) s2)) as Hmo.
  { eapply (resized_mem_ok j s c); [split; [done|by eapply Hj32]|done|exact Hn1|by split]. }
  assert (∀ s3, s3 = s2 ∨ s3 = resize (32 * j) s2 → mem_ok s3 → charge_post g s (Ok None) s3) as Hfin.
  { intros s3 Hs3 Hm3. assert (f_stack s3 = f_stack s1 ∧ f_gas s3 = f_gas s1 - c ∧ f_callGasTemp s3 = f_callGasTemp s1 ∧
      f_lastGasCost s3 = f_lastGasCost s1) as (Hst & Hg3 & Ht & Hlast).
    { destruct Hs3 as [->| ->]; unfold resize; [|destruct (_ <? _)]; done. }
    cbn. split; [rewrite Hst; apply (ss_stack _ _ Hs)|]. split; [done|]. exists c. split_and!; [done|lia..|].
    destruct g; try done; unfold call_charged in *; by rewrite Ht, Hlast. }
  destruct (Z.ltb_spec 0 (32 * j)).
  - wp_step. apply wp_mem_Resize. wp_step. apply Hfin; [by right|done].
  - wp_step. wp_step. wp_step. apply Hfin; [by left|]. unfold resize in Hmo. rewrite (proj2 (Z.ltb_ge _ _)) in Hmo; [done|].
    unfold mem_len. lia.
Qed.

(** ** Tables *)

Definition priced_call (c : calling) (g : option gasFunc) : bool :=
  match c, g with
  | (opCreate | opCreate2), _ => true
  | opCall, Some (OldCall gasCall | makeCallVariantGasCallEIP2929 gasCall) => true
  | opCallCode, Some (OldCall gasCallCode | makeCallVariantGasCallEIP2929 gasCallCode) => true
  | opDelegateCall, Some (OldCall gasDelegateCall | makeCallVariantGasCallEIP2929 gasDelegateCall) => true
  | opStaticCall, Some (OldCall gasStaticCall | makeCallVariantGasCallEIP2929 gasStaticCall) => true
  | _, _ => false
  end.

(** The prices that make a run end: an instruction that goes on costs gas, a call is charged for
    what it passes on, and memory is paid for. *)
Definition priced_op (o : operation) : bool :=
  (0 <=? constantGas o) &&
  match op_dynamicGas o with
  | Some g => refund_ok g && min_logs g && (charges_memory g || match op_memorySize o with None => true | Some _ => false end)
  | None => true
  end &&
  match op_execute o with
  | Ending _ => true
  | Calling c => (1 <=? constantGas o) && priced_call c (op_dynamicGas o)
  | _ => 1 <=? constantGas o + from_option min_price 0 (op_dynamicGas o)
  end.

Definition priced_table (jt : JumpTable) : bool := forallb (λ b, priced_op (jt b)) all_bytes.

End execution.

Lemma all_bytes_complete b : b ∈ all_bytes.
Proof.
  unfold all_bytes. rewrite <- (z2b_b2z b). pose proof (b2z_range b). apply list_elem_of_fmap.
  exists (Z.to_nat (b2z b)). split; [f_equal; lia|]. apply elem_of_seq. lia.
Qed.

Lemma priced_table_op jt b : priced_table jt = true → priced_op (jt b) = true.
Proof. unfold priced_table. rewrite forallb_forall. intros H. apply H, list_elem_of_In, all_bytes_complete. Qed.

(** The sets of all forks. *)
Definition set_priced (m : go_res JumpTable) : bool := match m with Ok jt => priced_table jt | _ => false end.

Lemma instructionSet_set_priced r : set_priced (instructionSet r) = true.
Proof. unfold instructionSet. do 9 (match goal with |- context [if ?b then _ else _] => destruct b end; [vm_compute; reflexivity|]). vm_compute. reflexivity. Qed.

Lemma instructionSet_priced r jt : instructionSet r = Ok jt → priced_table jt = true.
Proof. intros H. pose proof (instructionSet_set_priced r) as Hs. by rewrite H in Hs. Qed.

(** ** Runs *)

Section runs.
Context {HC : Crypto} {HU : Uint256} {HP : Precompiles} {HPL : PrecompileLaws}.
Context (jt : JumpTable) (ctx : EvmContext).
Context (Hjt : priced_table jt = true) (Heip : IsEIP150 (ec_rules ctx) = true).

Section inner.
Context {HI : Interpreter} {HGL : GasLaws} (E : Prop).

(** The calls of a run at a depth end, unless [E]. *)
Definition calls_end (depth : Z) : Prop :=
  E ∨ ∀ c i ro w, depth + 1 ≤ CallCreateDepth → is_u64 (ct_Gas c) → ends (Run (depth + 1) c i ro w).

(** A round that goes on leaves less gas, by at least the fee for new memory. *)
Definition step_post (s : Frame) (r : go_res outcome) (s' : Frame) : Prop :=
  match r with
  | Ok (_, None) => 0 ≤ f_gas s' < f_gas s ∧ mem_ok s' ∧ f_gas s' + f_lastGasCost s' ≤ f_gas s + f_lastGasCost s
  | Ok (_, Some _) => 0 ≤ f_gas s' ≤ f_gas s
  | NoFuel => E
  | _ => True
  end.

Lemma exec_ending_ends env k s ret s' : exec_ending env k s = (Ok (ret, None), s') → False.
Proof.
  assert (∀ k, wp (exec_ending env k) (λ r _, match r with Ok (_, None) => False | _ => True end) s) as Hw.
  { intros []; cbn [exec_ending].
    - do 2 (wp_step; apply wp_pop; [intros|done]). wp_step. by apply wp_mem_Get.
    - do 2 (wp_step; apply wp_pop; [intros|done]). wp_step. by apply wp_mem_Get.
    - wp_step. wp_step. wp_step. wp_step. by destruct (go_index _ _).
    - by wp_step.
    - destruct (e_readOnly env); [by wp_step|]. wp_step. by apply wp_pop. }
  intros He. specialize (Hw k). unfold wp in Hw. by rewrite He in Hw.
Qed.

Ltac call_case :=
  match goal with Hp : priced_call _ ?g = true |- _ =>
    let k := fresh in
    destruct g as [[| | | | | | | | |k| | | | | |k|]|]; try done; destruct k; try done
  end.

(** The execution of an instruction that was charged [c]. *)
Lemma execute_charged env o s0 s c : calls_end (e_depth env) → priced_op o = true → is_u64 (f_gas s0) → 0 ≤ c →
  f_gas s = f_gas s0 - constantGas o - c → 0 ≤ f_gas s → mem_ok s →
  from_option min_price 0 (op_dynamicGas o) ≤ c → f_lastGasCost s ≤ f_lastGasCost s0 + c →
  match op_dynamicGas o with
  | Some (OldCall k | makeCallVariantGasCallEIP2929 k) =>
      0 ≤ f_callGasTemp s ∧ f_lastGasCost s0 ≤ f_lastGasCost s ∧
      f_callGasTemp s + stipend k (f_stack s) + (f_lastGasCost s - f_lastGasCost s0) ≤ c
  | _ => True
  end → wp (execute ctx env (op_execute o)) (step_post s0) s.
Proof.
  intros He Ho Hu Hc Hg Hg0 Hm Hmin Hpaid Hcall. unfold is_u64 in Hu. unfold priced_op in Ho.
  rewrite !andb_true_iff, Z.leb_le in Ho. destruct Ho as [[Hk _] Ho].
  destruct (match op_execute o with Calling _ => true | _ => false end) eqn:Hcl.
  - destruct (op_execute o) as [| | | | | | | | | | |k| |]; try done. cbn [execute].
    apply andb_true_iff in Ho as [Hk1%Z.leb_le Hp].
    assert (∀ b r s', returned E b s r s' → b ≤ c → b + f_lastGasCost s ≤ c + f_lastGasCost s0 → step_post s0 r s') as Hret.
    { intros b [[ret [e|]]| | |] s' Hr Hb Hb'; cbn; try done; destruct Hr as [Hr Hms]; [lia|].
      split_and!; [lia..|by eapply mem_same_ok|]. destruct Hms as [_ ->]. lia. }
    destruct k; cbn [exec_calling].
    + eapply wp_mono; [apply (exec_create_spec _ _ Heip E He); unfold is_u64; lia|]. intros r s' Hr. eapply Hret; [done|lia|lia].
    + eapply wp_mono; [apply (exec_create2_spec _ E He); unfold is_u64; lia|]. intros r s' Hr. eapply Hret; [done|lia|lia].
    + call_case; destruct Hcall as (Ht & Hl & Hs);
        (eapply wp_mono; [apply (exec_call_spec _ E He); lia|]; intros r s' Hr; eapply Hret; [done|lia|lia]).
    + call_case; destruct Hcall as (Ht & Hl & Hs);
        (eapply wp_mono; [apply (exec_callcode_spec _ E He); lia|]; intros r s' Hr; eapply Hret; [done|lia|lia]).
    + call_case; destruct Hcall as (Ht & Hl & Hs); cbn [stipend] in Hs;
        (eapply wp_mono; [apply (exec_delegatecall_spec _ E He); lia|]; intros r s' Hr; eapply Hret; [done|lia|lia]).
    + call_case; destruct Hcall as (Ht & Hl & Hs); cbn [stipend] in Hs;
        (eapply wp_mono; [apply (exec_staticcall_spec _ E He); lia|]; intros r s' Hr; eapply Hret; [done|lia|lia]).
  - assert (frame (λ s s', f_gas s' = f_gas s ∧ mem_same s s') (execute ctx env (op_execute o))) as Hf.
    { apply execute_frame; [apply frame_rel_gas|done|done|by intros k Hk1; rewrite Hk1 in Hcl|done|done]. }
    unfold wp. destruct (execute ctx env (op_execute o) s) as [r s'] eqn:Hx. pose proof (Hf _ _ _ Hx) as [Hgs Hms].
    assert (ended (execute ctx env (op_execute o))) as Hend by (apply ended_execute; intros k Hk1; by rewrite Hk1 in Hcl).
    specialize (Hend s). rewrite Hx in Hend. cbn [fst snd] in *. destruct r as [[ret [e|]]| | |]; cbn; try done; [lia|]. clear Hend.
    assert (f_gas s' < f_gas s0) as Hlt; [|split; [lia|]; split; [by eapply mem_same_ok|destruct Hms as [_ ->]; lia]].
    destruct (match op_execute o with Ending _ => true | _ => false end) eqn:Hend.
    + destruct (op_execute o) as [| | | | | | | | | | | |k|]; try done. exfalso. by eapply exec_ending_ends.
    + destruct (op_execute o); try done; apply Z.leb_le in Ho; lia.
Qed.

Lemma step_spec env s : calls_end (e_depth env) → is_u64 (f_gas s) → mem_ok s → wp (step jt ctx env) (step_post s) s.
Proof.
  intros He Hg Hm. unfold step. wp_step. wp_step. set (o := jt _). pose proof (priced_table_op jt (GetOp (ct_Code (e_contract env)) (f_pc s)) Hjt) as Ho.
  fold o in Ho. pose proof Hg as Hg'. unfold is_u64 in Hg'.
  assert (0 ≤ constantGas o) as Hk by (unfold priced_op in Ho; rewrite !andb_true_iff, Z.leb_le in Ho; naive_solver).
  wp_step; [wp_step; cbn; lia|]. wp_step; [wp_step; cbn; lia|]. wp_step.
  apply wp_UseGas; intros Hc; cbn [negb]; [wp_step; cbn; lia|]. set (s1 := f_set_gas _ s). wp_step.
  destruct (op_dynamicGas o) as [g|] eqn:Hdg.
  - assert (refund_ok g = true ∧ min_logs g = true ∧ (op_memorySize o = None ∨ charges_memory g = true)) as (Hr & Hl & Hcm).
    { unfold priced_op in Ho. rewrite Hdg, !andb_true_iff, orb_true_iff in Ho. destruct Ho as [[_ [[Hr Hl] Hcm]] _].
      split; [done|]. split; [done|]. destruct Hcm as [Hcm|Hcm]; [by right|left]. by destruct (op_memorySize o). }
    eapply wp_mono; [apply (charge_spec ctx env Heip E He g _ s1 Hr Hl Hcm); [unfold is_u64; cbn; lia|exact Hm]|].
    intros r s2 Hp. destruct r as [[e|]| | |]; try done; [wp_step; cbn in *; lia|].
    destruct Hp as (Hst & Hm2 & c & Hmin & Hc2 & Hg2 & Hp & Hcall). apply (execute_charged env o s s2 c); try done; cbn in *; try lia.
    + by rewrite Hdg.
    + rewrite Hdg. destruct g; try done; destruct Hcall as (Ht & Hlast & Hcall); rewrite Hst; cbn in *; lia.
  - wp_step. apply (execute_charged env o s s1 0); try done; cbn in *; try lia; by rewrite Hdg.
Qed.

(** The loop ends within its fuel, and returns at most the gas that it started with. *)
Definition loop_post (s : Frame) (r : go_res outcome) (s' : Frame) : Prop :=
  match r with
  | Ok _ => 0 ≤ f_gas s' ≤ f_gas s
  | NoFuel => E
  | _ => True
  end.

Lemma loop_spec env fuel s : calls_end (e_depth env) → is_u64 (f_gas s) → mem_ok s → f_gas s < Z.of_nat fuel →
  wp (loop jt ctx env fuel) (loop_post s) s.
Proof.
  intros He. revert s. induction fuel as [|fuel IH]; intros s Hg Hm Hf; [unfold is_u64 in Hg; lia|]. cbn [loop]. wp_step.
  eapply wp_mono; [by apply step_spec|]. intros r s1 Hp. destruct r as [[ret [e|]]| | |]; try done.
  destruct Hp as (Hg1 & Hm1 & _). unfold is_u64 in Hg. wp_step. wp_step.
  eapply wp_mono; [apply IH; [unfold is_u64; cbn; lia|done|cbn; lia]|]. intros r s2 Hp. destruct r; try done. cbn in *. lia.
Qed.

Lemma init_mem_ok c w : mem_ok (init_frame c w).
Proof. exists 0. by split_and!. Qed.

Lemma run_spec depth c i ro w : calls_end depth → is_u64 (ct_Gas c) →
  uses_gas (ct_Gas c) (run jt ctx depth c i ro w) ∧ (E ∨ ends (run jt ctx depth c i ro w)).
Proof.
  intros He Hg. pose proof (proj1 Hg). unfold run, ends. destruct (Nat.eqb _ _); [by split; [apply uses_all|right]|].
  pose proof (loop_spec (MkEnv c i ro depth) (S (Z.to_nat (ct_Gas c))) (init_frame c w) He Hg (init_mem_ok c w)) as Hl.
  specialize (Hl ltac:(cbn; lia)). unfold wp in Hl. destruct (loop _ _ _ _ _) as [r s'].
  split; [|by destruct r as [[]| | |]; cbn; [right|right|right|left]]. destruct r as [[ret' err']| | |]; intros ret left err w' [= <- <- <- <-]. exact Hl.
Qed.
End inner.

(** The interpreter never returns more gas than it got. *)
#[export] Instance interpreter_gas n : @GasLaws (interpreter jt ctx n).
Proof.
  induction n as [|n IH]; split; [by intros|]. intros. by apply (@run_spec (interpreter jt ctx n) IH True); [left|].
Qed.

(** The interpreter ends when it has a level for every depth that the entry points accept. *)
Lemma interpreter_ends n depth c i ro w : CallCreateDepth - depth < Z.of_nat n → depth ≤ CallCreateDepth → is_u64 (ct_Gas c) →
  ends (@Run (interpreter jt ctx n) depth c i ro w).
Proof.
  revert depth c i ro w. induction n as [|n IH]; intros depth c i ro w Hn Hd Hg; [lia|].
  destruct (@run_spec (interpreter jt ctx n) (interpreter_gas n) False depth c i ro w) as [_ [[]|He]]; [|done|exact He].
  right. intros c' i' ro' w' Hd' Hg'. apply IH; [lia|done|done].
Qed.
End runs.
