(* ===== verification/InterpRel.v ===== *)
(** * What the interpreter does to the world

    A relation between worlds that holds for every change of the state that the virtual machine can
    make ([vm_rel], Evm.v) holds between the worlds before and after a run, whatever the code does;
    likewise for a run that may only read. SELFDESTRUCT is the one instruction that is not covered by
    [vm_rel]: the relation has to hold for what it does as well. For a single round, only what its
    instruction does has to be covered ([wrel_step_at]). *)

From Stdlib Require Import ZArith Lia Strings.Byte.
From stdpp Require Import base tactics option numbers list gmap strings.
From S2P Require Import Prelude Common GoMap World Evm Analysis Machine Instr GasTable JumpTable Interp InterpGas.

(** A relation between the worlds of two frames. *)
Definition wrel (R : World → World → Prop) (s s' : Frame) : Prop := R (f_world s) (f_world s').

Section rel.
Context {HC : Crypto} {HU : Uint256} {HP : Precompiles}.
Context (jt : JumpTable) (ctx : EvmContext) (Hjt : priced_table jt = true).
Context (R : World → World → Prop).

(** What the relation has to hold for beyond [vm_rel], when the state may be written. *)
Definition destructible (ro : bool) : Prop := ro = false → ∀ a b w, R w (AddBalance a (GetBalance w b) w).

Section inner.
Context {HI : Interpreter} (ro : bool) (HR : call_rel ro R).
Context (env : Env) (Henv : e_readOnly env = ro).

#[local] Instance W_refl : Reflexive (wrel R).
Proof. intros s. apply (vr_refl _ _ HR). Qed.
#[local] Instance W_trans : Transitive (wrel R).
Proof. intros s1 s2 s3. apply (vr_trans _ _ HR). Qed.

Lemma wrel_frame_rel : frame_rel (wrel R).
Proof. split; try apply _; intros; apply (vr_refl _ _ HR). Qed.

Lemma wrel_price_rel : price_rel (wrel R).
Proof.
  split; try apply _; try (intros; apply (vr_refl _ _ HR)); intros; unfold wrel; cbn.
  - by apply (vr_address ro R).
  - by apply (vr_slot ro R).
  - by apply (vr_add_refund ro R).
  - by apply (vr_sub_refund ro R).
Qed.

Lemma wrel_same_world f : (∀ s, f_world (f s) = f_world s) → frame (wrel R) (modify f).
Proof. intros Hf. apply frame_modify. intros s. unfold wrel. rewrite Hf. apply (vr_refl _ _ HR). Qed.

Lemma wrel_memoryGasCost n : frame (wrel R) (memoryGasCost n).
Proof. unfold memoryGasCost. repeat frame_step. apply (vr_refl _ _ HR). Qed.

Lemma wrel_UseGas n : frame (wrel R) (UseGas n).
Proof. intros s r s'. unfold UseGas. destruct (_ <? _); intros [= <- <-]; [done|apply (vr_refl _ _ HR)]. Qed.

Lemma wrel_mem_Resize n : frame (wrel R) (mem_Resize n).
Proof. apply wrel_same_world. intros s. by destruct (_ <? _). Qed.

Lemma wrel_invoke call : (∀ w, R w (call w).2) → frame (wrel R) (invoke call).
Proof.
  intros Hc s r s'. unfold invoke. specialize (Hc (f_world s)). destruct (call (f_world s)) as [r' w]. by intros [= <- <-].
Qed.

Lemma wrel_try {A} (m : stM Frame A) : frame (wrel R) m → frame (wrel R) (try m).
Proof. intros Hm s r s'. unfold try. destruct (m s) as [[] s1] eqn:H; intros [= <- <-]; by eapply Hm. Qed.

Lemma wrel_end_call o n r : frame (wrel R) (end_call o n r).
Proof.
  destruct r as [[ret g] err]. unfold end_call.
  repeat (first [apply frame_push, wrel_frame_rel|apply frame_mem_Set, wrel_frame_rel|apply wrel_same_world; done|frame_step]).
Qed.

Lemma wrel_end_create v r : frame (wrel R) (end_create v r).
Proof.
  destruct r as [[ret g] err]. unfold end_create.
  repeat (first [apply frame_push, wrel_frame_rel|apply wrel_same_world; done|frame_step]).
Qed.

#[local] Hint Resolve wrel_UseGas wrel_mem_Resize wrel_end_call wrel_end_create : frame.

Ltac wframe := repeat (first [apply frame_pop, wrel_frame_rel|apply frame_mem_Get, wrel_frame_rel|apply frame_fail, wrel_frame_rel|frame_step]).

Lemma readable : call_rel true R.
Proof. destruct ro; [done|by apply call_rel_static]. Qed.

Lemma wrel_call o : o ≠ opCreate → o ≠ opCreate2 → codes_keep R ro → codes_keep R true → frame (wrel R) (exec_calling ctx env o).
Proof.
  intros H1 H2 Hro Hstatic. destruct o; [done|done|..]; cbn [exec_calling].
  - unfold exec_call. rewrite Henv. do 9 (apply frame_bind; [apply _|wframe|intros ?]).
    destruct (ro && negb (_ =? 0)) eqn:Hv; [apply frame_fail, wrel_frame_rel|]. wframe; apply wrel_invoke; intros w;
      (apply Call_rel; [done|done|]; apply andb_false_iff in Hv as [|?%negb_false_iff%Z.eqb_eq]; auto).
  - unfold exec_callcode. rewrite Henv. wframe; apply wrel_invoke; intros w; by apply CallCode_rel.
  - unfold exec_delegatecall. rewrite Henv. wframe. apply wrel_invoke. intros w. by apply DelegateCall_rel.
  - unfold exec_staticcall. wframe. apply wrel_invoke. intros w. apply StaticCall_rel; [apply readable|done].
Qed.

Lemma wrel_exec_calling o : vm_rel ro R → keeps R ro → keeps R true → frame (wrel R) (exec_calling ctx env o).
Proof.
  intros HV Hro Hstatic. pose proof (vr_refl _ _ HR) as Hrefl. destruct o; try (by apply wrel_call; auto using keeps_codes_keep); cbn [exec_calling].
  - unfold exec_create. destruct (e_readOnly env) eqn:Hre; [apply frame_fail, wrel_frame_rel|]. wframe.
    assert (vm_rel false R ∧ keeps R false) as [HV' Hk] by (by rewrite Henv).
    apply wrel_invoke. intros w. exact (create_rel R _ _ _ _ _ _ _ w HV' Hk).
  - unfold exec_create2. destruct (e_readOnly env) eqn:Hre; [apply frame_fail, wrel_frame_rel|]. wframe.
    assert (vm_rel false R ∧ keeps R false) as [HV' Hk] by (by rewrite Henv).
    apply wrel_invoke. intros w. exact (create_rel R _ _ _ _ _ _ _ w HV' Hk).
Qed.

(** A round, for what its instruction does. *)
Lemma wrel_step_at s r s' : let e := op_execute (jt (GetOp (ct_Code (e_contract env)) (f_pc s))) in
  (∀ k, e = Calling k → frame (wrel R) (exec_calling ctx env k)) → (e = Ending opSelfdestruct → destructible ro) →
  step jt ctx env s = (r, s') → wrel R s s'.
Proof.
  intros e Hcall Hd. unfold step. rewrite getS_bind.
  set (b := GetOp (ct_Code (e_contract env)) (f_pc s)) in *. set (o := jt b) in *.
  assert (priced_op o = true) as Ho by apply (priced_table_op jt b Hjt).
  assert (frame (wrel R) (execute ctx env (op_execute o))) as Hx.
  { apply execute_frame; [apply wrel_frame_rel|..].
    - intros a k v s0 Hw. apply (vr_state _ _ HR). congruence.
    - intros l s0 Hw. apply (vr_log _ _ HR). congruence.
    - exact Hcall.
    - intros He a s0 Hw. apply Hd; [exact He|congruence].
    - intros _ n s0. apply (vr_refl _ _ HR). }
  assert (∀ g, op_dynamicGas o = Some g → frame (wrel R) (charge ctx env g (op_memorySize o))) as Hch.
  { intros g Hg. assert (refund_ok g = true) as Hr.
    { unfold priced_op in Ho. rewrite Hg, !andb_true_iff in Ho. by destruct Ho as [[_ [[Hr _] _]] _]. }
    unfold charge. repeat (first [apply wrel_try|frame_step]).
    apply (price_any_dynamicGas ctx env (wrel R) wrel_price_rel); [apply wrel_memoryGasCost|intros; apply (vr_refl _ _ HR)|done]. }
  match goal with |- ?m s = _ → _ => enough (frame (wrel R) m) as H by apply H end. wframe; first [by apply Hch|done].
Qed.
End inner.

Section loop.
Context {HI : Interpreter} (ro : bool) (HR : vm_rel ro R) (Hd : destructible ro) (Hro : keeps R ro) (Hstatic : keeps R true).
Context (env : Env) (Henv : e_readOnly env = ro).

Lemma wrel_step : frame (wrel R) (step jt ctx env).
Proof. intros s r s'. apply (wrel_step_at ro HR env Henv); [|done]. intros k _. exact (wrel_exec_calling ro HR env Henv k HR Hro Hstatic). Qed.

Lemma wrel_loop fuel : frame (wrel R) (loop jt ctx env fuel).
Proof.
  pose proof (W_refl ro HR). pose proof (W_trans ro HR).
  induction fuel as [|fuel IH]; cbn [loop]; [by apply frame_liftR|]. apply frame_bind; [done|apply wrel_step|].
  intros [ret [e|]]; [by apply frame_mret|]. apply frame_bind; [done|by apply (wrel_same_world ro HR)|done].
Qed.
End loop.

Lemma run_keeps {HI : Interpreter} ro depth c i w : vm_rel ro R → destructible ro → keeps R ro → keeps R true →
  R w (run jt ctx depth c i ro w).2.
Proof.
  intros HR Hd Hk Ht. unfold run. destruct (Nat.eqb _ _); [apply (vr_refl _ _ HR)|].
  destruct (loop _ _ _ _ _) as [r s] eqn:Hl.
  apply (wrel_loop ro HR Hd Hk Ht (MkEnv c i ro depth) eq_refl) in Hl. by destruct r as [[]| | |].
Qed.

Lemma interpreter_keeps n ro : vm_rel ro R → destructible ro → @keeps (interpreter jt ctx n) R ro.
Proof.
  assert (destructible true) as Ht by intros [=].
  revert ro. induction n as [|n IH]; intros ro HR Hd depth c i w; [apply (vr_refl _ _ HR)|].
  assert (vm_rel true R) as HRt by (destruct ro; [exact HR|exact (vm_rel_static R HR)]).
  exact (@run_keeps (interpreter jt ctx n) ro depth c i w HR Hd (IH ro HR Hd) (IH true HRt Ht)).
Qed.
End rel.
