(* ===== verification/EvmCtx.v ===== *)
(** * The context of an execution

    How the context of the virtual machine is made from a block and a transaction (src/core/evm.go,
    and [NewEVM] of src/core/vm/evm.go). *)

From Stdlib Require Import ZArith Lia Strings.Byte.
From stdpp Require Import base tactics option numbers list gmap strings.
From S2P Require Import Prelude Common GoMap World Evm Analysis Machine.

(** The fields of [types.Header] that the context is made of. *)
Record Header := MkHeader {
  h_ParentHashes : list Hash;
  h_Slot : Z;
  h_Height : Z;
  h_Coinbase : Address;
  h_GasLimit : Z;
  h_Time : Z;
  h_BaseFee : option Z;
  h_Number : option Z
}.

Definition Nr (h : Header) : Z := default 0 (h_Number h).

(** The part of [vm.BlockContext] that instructions read. *)
Record BlockCtx := MkBlockCtx {
  bx_Coinbase : Address;
  bx_BlockHeight : option Z;
  bx_BlockNumber : option Z;
  bx_Time : option Z;
  bx_Difficulty : option Z;
  bx_BaseFee : option Z;
  bx_GasLimit : Z;
  bx_Slot : Z
}.

(** The difficulty is a field of the context that is not set. *)
Definition NewEVMBlockContext (header : Header) (author : option Address) : BlockCtx :=
  let beneficiary := default (h_Coinbase header) author in
  {| bx_Coinbase := beneficiary;
     bx_BlockHeight := Some (h_Height header);
     bx_BlockNumber := Some (Nr header);
     bx_Time := Some (h_Time header);
     bx_Difficulty := None;
     bx_BaseFee := h_BaseFee header;
     bx_GasLimit := h_GasLimit header;
     bx_Slot := h_Slot header |}.

(** [NewEVM] with the transaction context of a message, for a chain with the given identifier and
    slot of the last fork; [GetHash] gives the hashes of blocks. *)
Definition NewEVM (block : BlockCtx) (from : Address) (gasPrice : Z) (ChainID : option Z) (ForkSlotShanghai : Z)
    (GetHash : Z → Hash) : EvmContext :=
  MkEvmContext from (Some gasPrice) (bx_Coinbase block) (bx_GasLimit block) (bx_BlockHeight block)
    (bx_BlockNumber block) (bx_Time block) (bx_Difficulty block) (bx_BaseFee block) ChainID GetHash
    (chainRules ForkSlotShanghai (bx_Slot block)).

(** [GetHashFn]: the function that is returned keeps the hashes that it has seen; [chain] looks up
    a header. *)
Definition GetHashFn (ref : Header) (chain : Hash → option Header) (n : Z) (cache : list Hash) :
    go_res Hash * list Hash :=
  let start :=
    match cache with
    | [] => h ← go_index (h_ParentHashes ref) 0; Ok [h]
    | _ => Ok cache
    end in
  match start with
  | Ok cache =>
      match last cache ≫= chain with
      | None => (Ok (zero_fixed 32), cache)
      | Some header =>
          match go_index (h_ParentHashes header) 0 with
          | Ok lastKnownHash => (Ok lastKnownHash, cache ++ [lastKnownHash])
          | _ => (Panic, cache)
          end
      end
  | _ => (Panic, cache)
  end.
