(* ===== verification/InterpFacts.v ===== *)
(** * Theorems on the interpreter

    What the execution of contracts does, for every code: it ends, uses the gas that it is given,
    only reads in a static call, and keeps the codes that are there; where it jumps to; and the two
    places where it goes wrong, SELFDESTRUCT and DIFFICULTY. *)

From Stdlib Require Import ZArith Lia Strings.Byte.
From stdpp Require Import base tactics option numbers list gmap strings.
From S2P Require Import Prelude Common GoMap World Evm Analysis Machine Instr GasTable JumpTable Interp InterpGas InterpRel EvmCtx.

Transparent GetBalance GetNonce GetCode AddBalance SubBalance SetNonce SetCode.

(** ** Relations that the virtual machine keeps *)

(** Accounts and logs are the same; only the access list, the refund and which empty accounts there
    are may differ. *)
Definition same_state (w w' : World) : Prop := (∀ a, account w' a = account w a) ∧ logs w' = logs w.

Section relations.
Context {HC : Crypto}.

Lemma vm_rel_same_state : vm_rel true same_state.
Proof.
  split; [split|..]; try done.
  - intros w1 w2 w3 [Ha Hl] [Ha' Hl']. split; [|congruence]. intros a. by rewrite Ha', Ha.
  - intros a w Hx. split; [|done]. intros b. by apply account_CreateAccount.
  - intros a b v w [| ->]; [done|]. destruct (Transfer_moved a b 0 w) as [Ha Hl _ _]. split; [|done].
    intros c. rewrite Ha. apply set_balance_same. repeat case_decide; lia.
  - intros a w. split; [|done]. intros b. unfold AddBalance. rewrite account_update. case_decide; [subst|done].
    apply set_balance_same. unfold GetBalance. lia.
Qed.

(** What is assumed of the hash function: no code has the hash of the empty code, or zero. *)
Class CodeHashes : Prop := {
  keccak_empty c : keccak256 c = keccak256 [] → c = [];
  keccak_nonzero c : keccak256 c ≠ zero_fixed 32
}.
Context {HK : CodeHashes}.

(** A code that is there stays. *)
Definition keeps_codes (w w' : World) : Prop :=
  ∀ a, default [] (GetCode w a) ≠ [] → GetCode w' a = GetCode w a.

Lemma vacant_code w a : vacant w a = true → default [] (GetCode w a) = [].
Proof.
  unfold vacant. intros [_ Hv%bool_decide_eq_true]%andb_true_iff. unfold GetCodeHash in Hv.
  destruct (Exist w a) eqn:Hx; [|unfold Exist in Hx; apply bool_decide_eq_false in Hx; unfold GetCode, account].
  - destruct Hv as [Hv|Hv]; [by apply keccak_nonzero in Hv|by apply keccak_empty in Hv].
  - apply eq_None_not_Some in Hx. by rewrite Hx.
Qed.

Lemma keeps_codes_update f a w : (∀ x, acc_code (f x) = acc_code x) → keeps_codes w (update_account f a w).
Proof. intros Hf b _. unfold GetCode. rewrite account_update. case_decide; [subst; apply Hf|done]. Qed.

Lemma vm_rel_keeps_codes ro : vm_rel ro keeps_codes.
Proof.
  split; [split|..]; try (intros; intros ? ?; done); try (intros; by apply keeps_codes_update).
  - intros w1 w2 w3 H1 H2 a Ha. specialize (H1 a Ha). rewrite H2; [done|by rewrite H1].
  - intros a w Hx b Hb. unfold GetCode. by rewrite account_CreateAccount.
  - intros a b v w _ c Hc. unfold GetCode. by rewrite (mv_account _ _ _ _ _ (Transfer_moved a b v w)).
  - intros a w _ Hv b Hb. unfold GetCode, SetNonce. rewrite account_update. unfold account, CreateAccount. cbn.
    apply vacant_code in Hv. destruct (decide (a = b)) as [<-|Hab]; [by destruct Hb|by rewrite lookup_insert_ne].
  - intros a c w w' _ Hv Hr b Hb. unfold SetCode, GetCode. rewrite account_update.
    case_decide; [|by apply Hr]. subst. apply vacant_code in Hv. by destruct Hb.
Qed.
End relations.
Opaque GetBalance GetNonce GetCode AddBalance SubBalance SetNonce SetCode.

(** ** Jumps *)

Lemma validJumpdest_Ok code dest : 0 ≤ dest → validJumpdest code dest =
  Ok (bool_decide (dest < two64 ∧ code !! Z.to_nat dest = Some x5b ∧ data_bytes 0 code !! Z.to_nat dest = Some false)).
Proof.
  intros Hd. unfold validJumpdest, Uint64WithOverflow, IsUint64. destruct (Z.ltb_spec dest two64) as [Hlt|Hge]; cbn [negb orb].
  2: { rewrite bool_decide_eq_false_2; [done|lia]. }
  assert (u64 dest = dest) as -> by (apply Z.mod_small; lia).
  destruct (Z.leb_spec (Z.of_nat (length code)) dest) as [Hlen|Hlen].
  { rewrite bool_decide_eq_false_2; [done|]. intros (_ & Hc & _). apply lookup_lt_Some in Hc. lia. }
  destruct (lookup_lt_is_Some_2 code (Z.to_nat dest)) as [op Hop]; [lia|]. unfold go_index. rewrite Hop. cbn [deref mbind go_res_bind].
  destruct (codeBitmap_Ok code) as (bits & Hb & Hseg). destruct (Hseg dest) as (data & Hdata & Hs); [lia|].
  case_bool_decide as H5b; cbn [negb].
  - subst. rewrite Hb. cbn [mbind go_res_bind]. rewrite Hs, Hdata. f_equal. destruct data; cbn.
    + rewrite bool_decide_eq_false_2; [done|naive_solver].
    + by rewrite bool_decide_eq_true_2.
  - rewrite bool_decide_eq_false_2; [done|naive_solver].
Qed.

(** A position in the code that is a JUMPDEST instruction, and not data of a push. *)
Definition jump_target (code : bytes) (pos : Z) : Prop :=
  pos < two64 ∧ code !! Z.to_nat pos = Some x5b ∧ data_bytes 0 code !! Z.to_nat pos = Some false.

(** C20: A jump goes on exactly at the JUMPDEST instructions of the code, by the definition of data by
    recursion over the code, and to the position that it names; anywhere else it ends the run with
    an error and changes nothing. *)
Theorem jump_lands env pos s : is_word pos →
  (jump_target (ct_Code (e_contract env)) pos ∧ ∃ s', jump env pos s = (Ok ([], None), s') ∧ u64 (f_pc s' + 1) = pos ∧ s' = f_set_pc (f_pc s') s) ∨
  (¬ jump_target (ct_Code (e_contract env)) pos ∧ jump env pos s = (Ok ([], Some ErrInvalidJump), s)).
Proof.
  intros [Hp _]. unfold jump. rewrite validJumpdest_Ok by done. rewrite liftR_Ok_bind.
  case_bool_decide as Ht; cbn [negb]; [left|by right]. split; [done|]. destruct Ht as [Hlt _].
  eexists. split; [done|]. split; [|done]. cbn. unfold Uint64, u64. rewrite (Z.mod_small pos) by lia.
  rewrite Zplus_mod_idemp_l, Z.sub_add. apply Z.mod_small. lia.
Qed.

(** ** The tables of the chain *)

(** An instruction of a set. *)
Definition entry (m : go_res JumpTable) (b : byte) : option operation := match m with Ok jt => Some (jt b) | _ => None end.

(** The entries of both sets that the chain uses. *)
Lemma chain_entry fork slot jt b o : instructionSet (chainRules fork slot) = Ok jt →
  entry newLondonInstructionSet b = Some o → entry newShanghaiInstructionSet b = Some o → jt b = o.
Proof.
  intros Hs Hl Hsh. unfold instructionSet, chainRules in Hs. cbn [IsShanghai IsLondon] in Hs.
  destruct (fork <=? slot).
  - rewrite Hs in Hsh. by injection Hsh.
  - rewrite Hs in Hl. by injection Hl.
Qed.

(** ** Every execution ends *)

(** The machine of a block and a transaction. *)
Record machine (jt : JumpTable) (ctx : EvmContext) : Prop := {
  mc_rules : ∃ fork slot, ec_rules ctx = chainRules fork slot;
  mc_table : instructionSet (ec_rules ctx) = Ok jt
}.

Lemma machine_priced jt ctx : machine jt ctx → priced_table jt = true ∧ IsEIP150 (ec_rules ctx) = true.
Proof. intros [(fork & slot & Hr) Ht]. split; [by eapply instructionSet_priced|]. by rewrite Hr. Qed.

Section claims.
Context {HC : Crypto} {HU : Uint256} {HP : Precompiles}.
Context (jt : JumpTable) (ctx : EvmContext) (Hmc : machine jt ctx).

(** The levels of calls, one for every depth up to the limit. *)
Context (levels : nat) (Hlevels : CallCreateDepth < Z.of_nat levels).
#[local] Instance vm : Interpreter := interpreter jt ctx levels.

(** C3: Every execution ends. Whatever the code, a call or a creation with an amount of gas returns
    or panics: each instruction that goes on costs gas and calls nest at most 1024 deep. What it
    returns is at most the gas that it got. *)
Theorem execution_terminates {HPL : PrecompileLaws} static caller addr input code gas value w : is_u64 gas →
  let call := Call static 0 caller addr input gas value w in
  let creation := (Create static 0 caller code gas value w).2 in
  ends call ∧ uses_gas gas call ∧ ends creation ∧ uses_gas gas creation.
Proof.
  intros Hg. destruct (machine_priced _ _ Hmc) as [Hjt Heip].
  assert (GasLaws) as Hlaws by (exact (interpreter_gas jt ctx Hjt Heip levels)).
  assert (∀ c i ro w, 0 ≤ CallCreateDepth → is_u64 (ct_Gas c) → ends (Run 0 c i ro w)) as He.
  { intros c i ro w0 Hd Hc. apply (interpreter_ends jt ctx Hjt Heip); [lia|exact Hd|exact Hc]. }
  clear Hjt.
  split_and!; [by apply Call_ends|by apply Call_gas|by apply create_ends|by apply create_gas].
Qed.

(** C8: A static call changes no account and emits no log, whatever contracts it runs. *)
Theorem static_call_reads_only depth caller addr input gas w :
  same_state w (StaticCall depth caller addr input gas w).2.
Proof.
  destruct (machine_priced _ _ Hmc) as [Hjt _]. apply StaticCall_rel; [apply vm_rel_same_state|].
  apply keeps_codes_keep; [apply (vr_refl _ _ vm_rel_same_state)|]. by apply interpreter_keeps; [|apply vm_rel_same_state|].
Qed.

(** ** Rounds of known instructions *)

(** A round up to the dynamic price. *)
Lemma step_start {HI : Interpreter} env s o : jt (GetOp (ct_Code (e_contract env)) (f_pc s)) = o →
  op_minStack o ≤ Z.of_nat (length (f_stack s)) ≤ op_maxStack o → constantGas o ≤ f_gas s →
  step jt ctx env s =
    (err ← match op_dynamicGas o with Some g => charge ctx env g (op_memorySize o) | None => mret None end;
     match err with Some e => fail e | None => execute ctx env (op_execute o) end)
    (f_set_gas (f_gas s - constantGas o) s).
Proof.
  intros Ho Hst Hg. unfold step. rewrite getS_bind, Ho.
  rewrite (proj2 (Z.ltb_ge _ (op_minStack o))), (proj2 (Z.ltb_ge (op_maxStack o) _)) by lia.
  assert (UseGas (constantGas o) s = (Ok true, f_set_gas (f_gas s - constantGas o) s)) as Hu.
  { unfold UseGas. by rewrite (proj2 (Z.ltb_ge (f_gas s) (constantGas o))) by lia. }
  by rewrite (stM_Ok_bind _ _ _ _ _ Hu).
Qed.

(** The price of a SELFDESTRUCT. *)
Definition selfdestruct_price (w : World) (a beneficiary : Address) : Z :=
  (if AddressInAccessList w beneficiary then 0 else ColdAccountAccessCostEIP2929) +
  (if Empty w beneficiary && negb (GetBalance w a =? 0) then CreateBySelfdestructGas else 0).

Lemma selfdestruct_price_range w a b : 0 ≤ selfdestruct_price w a b ≤ 27600.
Proof.
  unfold selfdestruct_price, ColdAccountAccessCostEIP2929, CreateBySelfdestructGas. repeat case_match; lia.
Qed.

Definition warmed (beneficiary : Address) (w : World) : World :=
  if AddressInAccessList w beneficiary then w else AddAddressToAccessList beneficiary w.

Lemma warmed_account b w a : account (warmed b w) a = account w a.
Proof. unfold warmed. by destruct (AddressInAccessList w b). Qed.

(** A round at SELFDESTRUCT, with enough gas. *)
Lemma step_selfdestruct {HI : Interpreter} env s x l : GetOp (ct_Code (e_contract env)) (f_pc s) = xff →
  f_stack s = x :: l → (length l ≤ 1024)%nat → e_readOnly env = false → 32600 ≤ f_gas s →
  ∃ s', step jt ctx env s = (Ok ([], Some errStopToken), s') ∧
    f_gas s' = f_gas s - 5000 - selfdestruct_price (f_world s) (self env) (Bytes20 x) ∧
    f_world s' = let w := warmed (Bytes20 x) (f_world s) in AddBalance (Bytes20 x) (GetBalance w (self env)) w.
Proof.
  intros Hop Hst Hl Hro Hg. destruct Hmc as [(fork & slot & Hr) Ht]. rewrite Hr in Ht.
  assert (jt xff = dyn opSelfdestruct 5000 (makeSelfdestructGasFn false) 1 0 None) as Ho.
  { eapply chain_entry; [exact Ht|vm_compute; reflexivity..]. }
  rewrite (step_start env s _ (eq_trans (f_equal jt Hop) Ho));
    [|rewrite Hst; cbn; unfold maxStack, StackLimit, minStack; lia|cbn; lia].
  cbn [op_dynamicGas op_memorySize op_execute constantGas dyn].
  set (s1 := f_set_gas (f_gas s - 5000) s). set (p := selfdestruct_price (f_world s) (self env) (Bytes20 x)).
  pose proof (selfdestruct_price_range (f_world s) (self env) (Bytes20 x)) as Hp. fold p in Hp.
  set (s2 := f_set_gas (f_gas s - 5000 - p) (f_set_world (warmed (Bytes20 x) (f_world s)) s)).
  assert (charge ctx env (makeSelfdestructGasFn false) None s1 = (Ok None, s2)) as Hc.
  { unfold charge. rewrite getS_bind, liftR_Ok_bind. cbn [SafeMul toWordSize].
    change (toWordSize 0) with 0. change (u64 (0 * 32)) with 0. change (two64 <=? 0 * 32) with false. cbn beta iota.
    assert (try (dynamicGas ctx env (makeSelfdestructGasFn false) 0) s1 = (Ok (inl p), f_set_world (warmed (Bytes20 x) (f_world s)) s1)) as Ht1.
    { assert (peek_at 0 s1 = (Ok x, s1)) as Hpk by (unfold peek_at, back, go_index; rewrite getS_bind; cbn; by rewrite Hst).
      unfold try. cbn [dynamicGas]. unfold selfdestructGasEIP2929. rewrite (stM_Ok_bind _ _ _ _ _ Hpk).
      rewrite (stM_Ok_bind get_world _ s1 (f_world s) s1 eq_refl). unfold p, selfdestruct_price, warmed.
      destruct (AddressInAccessList (f_world s) (Bytes20 x)), (Empty _ _ && _); reflexivity. }
    rewrite (stM_Ok_bind _ _ _ _ _ Ht1). cbn beta iota.
    assert (UseGas p (f_set_world (warmed (Bytes20 x) (f_world s)) s1) = (Ok true, s2)) as Hu.
    { unfold UseGas. cbn. rewrite (proj2 (Z.ltb_ge (f_gas s - 5000) p)) by lia. done. }
    rewrite (stM_Ok_bind _ _ _ _ _ Hu). done. }
  rewrite (stM_Ok_bind _ _ _ _ _ Hc). cbn [execute exec_ending]. rewrite Hro.
  assert (pop s2 = (Ok x, f_set_stack l s2)) as Hpop by (unfold pop; cbn; by rewrite Hst).
  rewrite (stM_Ok_bind _ _ _ _ _ Hpop). eexists. split; [reflexivity|]. done.
Qed.

(** A contract that pays its balance to its caller and is gone: CALLER SELFDESTRUCT. *)
Definition payout_code : bytes := [x33; xff].

Lemma Bytes20_SetBytes (a : Address) : Bytes20 (SetBytes (fb a)) = a.
Proof.
  unfold Bytes20, SetBytes. pose proof (be_val_range (fb a)) as Hr. rewrite (length_fb a) in Hr.
  rewrite Z.mod_small by (unfold two256; change (256 ^ Z.of_nat 20) with (2 ^ 160) in Hr; lia).
  rewrite be_bytes_be_val by apply length_fb. apply BytesToFixed_fb.
Qed.

(** A round that goes on, and one that ends the run. *)
Lemma loop_next {HI : Interpreter} env fuel s s' : step jt ctx env s = (Ok ([], None), s') →
  loop jt ctx env (S fuel) s = loop jt ctx env fuel (f_set_pc (u64 (f_pc s' + 1)) s').
Proof. intros Hs. cbn [loop]. by rewrite (stM_Ok_bind _ _ _ _ _ Hs). Qed.

Lemma loop_last {HI : Interpreter} env fuel s res e s' : step jt ctx env s = (Ok (res, Some e), s') →
  loop jt ctx env (S fuel) s = (Ok (res, Some e), s').
Proof. intros Hs. cbn [loop]. by rewrite (stM_Ok_bind _ _ _ _ _ Hs). Qed.

Lemma run_payout {HI : Interpreter} depth c i w : ct_Code c = payout_code → 40000 ≤ ct_Gas c → ∃ left w1,
  run jt ctx depth c i false w = (Ok ([], left, None), AddBalance (CallerAddress c) (GetBalance w (ct_self c)) w1) ∧
  (∀ a, account w1 a = account w a) ∧ total w1 = total w ∧ logs w1 = logs w.
Proof.
  intros Hc Hg. pose proof Hmc as [(fork & slot & Hr) Ht]. rewrite Hr in Ht.
  assert (jt x33 = op opCaller 2 0 1) as Ho by (eapply chain_entry; [exact Ht|vm_compute; reflexivity..]).
  unfold run. rewrite Hc. cbn [length payout_code Nat.eqb]. set (env := MkEnv c i false depth). set (s0 := init_frame c w).
  assert (step jt ctx env s0 = (Ok ([], None), f_set_stack [SetBytes (fb (CallerAddress c))] (f_set_gas (ct_Gas c - 2) s0))) as H1.
  { rewrite (step_start env s0 (op opCaller 2 0 1)); [done| |cbn; unfold maxStack, StackLimit, minStack; lia|cbn; lia].
    cbn [e_contract env]. rewrite Hc. exact Ho. }
  replace (Z.to_nat (ct_Gas c)) with (S (Z.to_nat (ct_Gas c) - 1)) by lia. rewrite (loop_next _ _ _ _ H1).
  cbn [f_pc f_set_stack f_set_gas s0 init_frame]. change (u64 (0 + 1)) with 1. set (s1 := f_set_pc 1 _).
  destruct (step_selfdestruct env s1 (SetBytes (fb (CallerAddress c))) []) as (s2 & H2 & _ & Hw); try done.
  { cbn. by rewrite Hc. } { cbn. lia. } { cbn. lia. }
  rewrite (loop_last _ _ _ _ _ _ H2). cbn [finish_run]. rewrite Hw, Bytes20_SetBytes. cbn [f_world s1 f_set_pc f_set_stack f_set_gas s0 init_frame].
  eexists _, (warmed (CallerAddress c) w). split; [|split_and!].
  - unfold self. cbn [e_contract env]. cbv zeta.
    rewrite (GetBalance_account (warmed (CallerAddress c) w) w) by apply warmed_account. reflexivity.
  - intros a. apply warmed_account.
  - unfold warmed. by destruct (AddressInAccessList w _).
  - unfold warmed. by destruct (AddressInAccessList w _).
Qed.

Transparent GetBalance GetCode.
Lemma code_exists w a code : GetCode w a = Some code → Exist w a = true.
Proof.
  intros Hc. unfold Exist. apply bool_decide_eq_true. apply not_eq_None_Some. intros Hn. revert Hc.
  unfold GetCode, account. by rewrite Hn.
Qed.

Lemma moved_code from to value w w' a : moved from to value w w' → GetCode w' a = GetCode w a.
Proof. intros Hmv. unfold GetCode. by rewrite (mv_account _ _ _ _ _ Hmv). Qed.

Lemma moved_balance from to value w w' a : moved from to value w w' →
  GetBalance w' a = GetBalance w a - (if decide (from = a) then value else 0) + (if decide (to = a) then value else 0).
Proof. intros Hmv. unfold GetBalance at 1. by rewrite (mv_account _ _ _ _ _ Hmv). Qed.
Opaque GetBalance GetCode.

(** A call of an account with code that is not a validator's runs the code after the transfer. *)
Lemma Call_code {HI : Interpreter} static depth caller addr input gas value w code : depth ≤ CallCreateDepth → addr ∉ precompiled →
  GetCode w addr = Some code → code ≠ [] → IsValidatorAddress w addr = false → value ≤ GetBalance w caller →
  let w1 := Transfer caller addr value w in
  Call static depth caller addr input gas value w =
    finish w (Run depth (MkContract caller addr (Some value) gas code (GetCodeHash w1 addr) addr) input static w1).
Proof.
  intros Hd Hp Hc Hne Hval Hv w1. pose proof (moved_code caller addr value w w1 addr (Transfer_moved caller addr value w)) as Hc1.
  unfold Call. rewrite (proj2 (Z.ltb_ge CallCreateDepth depth)) by done. unfold CanTransfer.
  rewrite (proj2 (Z.leb_le value _)) by done. cbn [negb]. rewrite andb_false_r, (code_exists _ _ _ Hc). cbn [negb andb].
  fold w1. assert (IsValidatorAddress w1 addr = false) as -> by (unfold IsValidatorAddress in *; by rewrite Hc1).
  unfold run_at. rewrite Hc1, Hc, bool_decide_eq_false_2, decide_False by done. by destruct code.
Qed.

(** C40: SELFDESTRUCT adds the balance of the contract to the beneficiary and leaves it with the
    contract too: a call of a contract that pays its balance out doubles the money. *)
Theorem selfdestruct_mints depth caller addr input gas value w :
  depth ≤ CallCreateDepth → addr ∉ precompiled → GetCode w addr = Some payout_code → caller ≠ addr →
  0 ≤ value ≤ GetBalance w caller → 40000 ≤ gas → ∃ left w',
  Call false depth caller addr input gas value w = (Ok ([], left, None), w') ∧
  GetBalance w' addr = GetBalance w addr + value ∧
  GetBalance w' caller = GetBalance w caller + GetBalance w addr ∧
  total w' = total w + GetBalance w addr + value.
Proof.
  intros Hd Hp Hc Hne Hv Hg. rewrite (Call_code false depth caller addr input gas value w payout_code); try done; [|unfold IsValidatorAddress; by rewrite Hc|lia].
  pose proof (Transfer_moved caller addr value w) as Hmv. set (w1 := Transfer caller addr value w) in *.
  assert (∃ n, levels = S n) as [n Hn] by (destruct levels; [unfold CallCreateDepth in Hlevels; lia|eauto]).
  unfold vm. rewrite Hn.
  destruct (@run_payout (interpreter jt ctx n) depth (MkContract caller addr (Some value) gas payout_code (GetCodeHash w1 addr) addr) input w1)
    as (left & w2 & Hrun & Hacc & Htot & _); [done|done|].
  cbn [interpreter Run]. rewrite Hrun. cbn [finish CallerAddress ct_self]. eexists left, _. split; [done|].
  rewrite !GetBalance_AddBalance, total_AddBalance, Htot, (mv_total _ _ _ _ _ Hmv).
  rewrite !(GetBalance_account w2 w1) by done. rewrite !(moved_balance _ _ _ _ _ _ Hmv).
  rewrite !(decide_True (P := caller = caller)), !(decide_True (P := addr = addr)) by done.
  rewrite !(decide_False (P := caller = addr)), !(decide_False (P := addr = caller)) by done. lia.
Qed.

(** The difficulty is never set in the context of a block, and DIFFICULTY reads through the nil
    pointer: a call of a contract that begins with it makes the node panic. *)
Theorem difficulty_panics header author from price chainID fork hashes depth caller addr input gas value w code :
  ctx = NewEVM (NewEVMBlockContext header author) from price chainID fork hashes →
  depth ≤ CallCreateDepth → addr ∉ precompiled → GetCode w addr = Some (x44 :: code) →
  IsValidatorAddress w addr = false → 0 ≤ value ≤ GetBalance w caller → 2 ≤ gas →
  (Call false depth caller addr input gas value w).1 = Panic.
Proof.
  intros Hctx Hd Hp Hc Hval Hv Hg. rewrite (Call_code false depth caller addr input gas value w (x44 :: code)); try done; [|lia].
  pose proof Hmc as [(fork' & slot & Hr) Ht]. rewrite Hr in Ht.
  assert (jt x44 = op opDifficulty 2 0 1) as Ho by (eapply chain_entry; [exact Ht|vm_compute; reflexivity..]).
  assert (∃ n, levels = S n) as [n Hn] by (destruct levels; [unfold CallCreateDepth in Hlevels; lia|eauto]).
  unfold vm. rewrite Hn. cbn [interpreter Run]. unfold run. cbn [ct_Code length Nat.eqb loop ct_Gas].
  set (env := MkEnv _ _ _ _). set (s0 := init_frame _ _).
  assert (@step _ _ _ jt ctx (interpreter jt ctx n) env s0 = (Panic, f_set_gas (gas - 2) s0)) as H1.
  { rewrite (@step_start (interpreter jt ctx n) env s0 (op opDifficulty 2 0 1)); [|exact Ho|cbn; unfold maxStack, StackLimit, minStack; lia|cbn; lia].
    cbn [op_dynamicGas op_execute op]. rewrite (stM_Ok_bind (mret None) _ _ None _ eq_refl). cbn [execute exec_blockinfo].
    by rewrite Hctx. }
  unfold mbind at 1, stM_bind at 1. by rewrite H1.
Qed.
End claims.

(** ** Witnesses *)

(** The functions of the documentation of the arithmetic package. *)
Definition signed (x : Z) : Z := if x <? 2 ^ 255 then x else x - two256.

Fixpoint pow_mod (p : positive) (x : Z) : Z :=
  match p with
  | xH => x mod two256
  | xO p => let y := pow_mod p x in (y * y) mod two256
  | xI p => let y := pow_mod p x in ((y * y) mod two256 * x) mod two256
  end.

Definition ref_uint256 : Uint256 := {|
  u_Add x y := (x + y) mod two256;
  u_Sub x y := (x - y) mod two256;
  u_Mul x y := (x * y) mod two256;
  u_Div x y := if y =? 0 then 0 else x / y;
  u_SDiv x y := if y =? 0 then 0 else Z.quot (signed x) (signed y) mod two256;
  u_Mod x y := if y =? 0 then 0 else x mod y;
  u_SMod x y := if y =? 0 then 0 else Z.rem (signed x) (signed y) mod two256;
  u_Exp x y := match y with Z.pos p => pow_mod p x | _ => 1 end;
  u_ExtendSign x n :=
    if n <? 31 then
      let k := 8 * n + 8 in
      let low := x mod 2 ^ k in if low <? 2 ^ (k - 1) then low else (low - 2 ^ k) mod two256
    else x;
  u_Byte x n := if n <? 32 then (x / 256 ^ (31 - n)) mod 256 else 0;
  u_AddMod x y z := if z =? 0 then 0 else (x + y) mod z;
  u_MulMod x y z := if z =? 0 then 0 else (x * y) mod z;
  u_Lsh x n := (x * 2 ^ n) mod two256;
  u_Rsh x n := x / 2 ^ n;
  u_SRsh x n := (signed x / 2 ^ n) mod two256;
  u_Slt x y := signed x <? signed y;
  u_Sgt x y := signed y <? signed x
|}.

(** A hash of codes that tells the empty code from the others. *)
Definition code_crypto : Crypto := {| keccak256 c := BytesToHash [match c with [] => x01 | _ => x02 end] |}.

Lemma code_crypto_hashes : @CodeHashes code_crypto.
Proof.
  split; [intros [|b c]; [done|]|intros [|b c]]; cbn [keccak256 code_crypto]; intros H; apply (f_equal fb) in H; vm_compute in H; discriminate H.
Qed.

#[local] Existing Instances ref_uint256 code_crypto code_crypto_hashes.

Definition sample_addr (b : byte) : Address := BytesToAddress [b; b].
Definition sample_header : Header := MkHeader [zero_fixed 32] 100 50 (sample_addr x01) 30000000 1700000000 (Some 100) (Some 40).
Definition sample_ctx : EvmContext :=
  NewEVM (NewEVMBlockContext sample_header None) (sample_addr x02) 120 (Some 1501865) 0 (λ _, zero_fixed 32).
Definition sample_table : JumpTable :=
  match instructionSet (ec_rules sample_ctx) with Ok jt => jt | _ => λ _, op opStop 0 0 0 end.

Lemma sample_machine : machine sample_table sample_ctx.
Proof.
  split; [by exists 0, 100|]. pose proof (instructionSet_set_priced (ec_rules sample_ctx)) as Hs. unfold sample_table.
  by destruct (instructionSet (ec_rules sample_ctx)).
Qed.

(** An endless loop, and a contract that pays out. *)
Definition sample_world : World :=
  SetCode (sample_addr x04) payout_code (SetCode (sample_addr x03) [x5b; x60; x00; x56]
    (AddBalance (sample_addr x04) 7 (AddBalance (sample_addr x02) 1000 empty_world))).

Lemma levels_1025 : CallCreateDepth < Z.of_nat 1025.
Proof. vm_compute. reflexivity. Qed.

(** With a number of levels that is more than the limit. *)
Lemma execution_terminates_witness :
  ∃ levels, ends (@Call _ _ (interpreter sample_table sample_ctx levels) false 0 (sample_addr x02) (sample_addr x03) [] 100000 0 sample_world).
Proof.
  exists 1025%nat.
  refine (proj1 (execution_terminates sample_table sample_ctx sample_machine 1025 levels_1025 false (sample_addr x02) (sample_addr x03) [] []
    100000 0 sample_world _)). split; vm_compute; congruence.
Defined.

Lemma static_call_reads_only_witness :
  ∃ levels, same_state sample_world
    (@StaticCall _ _ (interpreter sample_table sample_ctx levels) 0 (sample_addr x02) (sample_addr x04) [] 100000 sample_world).2.
Proof.
  exists 1025%nat.
  exact (static_call_reads_only sample_table sample_ctx sample_machine 1025 0 (sample_addr x02) (sample_addr x04) [] 100000 sample_world).
Defined.

(** The data byte of the PUSH1 is a JUMPDEST that is no target; the last byte is one. *)
Lemma jump_lands_witness :
  let env := MkEnv (MkContract (sample_addr x02) (sample_addr x03) None 0 [x60; x5b; x5b] (zero_fixed 32) (sample_addr x03)) [] false 0 in
  let s := init_frame (e_contract env) empty_world in
  jump env 1 s = (Ok ([], Some ErrInvalidJump), s) ∧ ∃ s', jump env 2 s = (Ok ([], None), s') ∧ u64 (f_pc s' + 1) = 2.
Proof.
  intros env s. split.
  - destruct (jump_lands env 1 s) as [[(_ & _ & Hd) _]|[_ H]]; [split; vm_compute; congruence|vm_compute in Hd; discriminate Hd|exact H].
  - destruct (jump_lands env 2 s) as [[_ (s' & H & Hp & _)]|[Hn _]]; [split; vm_compute; congruence|exists s'; split; [exact H|exact Hp]|].
    destruct Hn. split; [vm_compute; reflexivity|]. split; vm_compute; reflexivity.
Defined.

Lemma not_precompiled b : bool_decide (sample_addr b ∉ precompiled) = true → sample_addr b ∉ precompiled.
Proof. apply bool_decide_eq_true_1. Qed.

Lemma selfdestruct_mints_witness :
  ∃ levels left w', @Call _ _ (interpreter sample_table sample_ctx levels) false 0 (sample_addr x02) (sample_addr x04) [] 50000 3 sample_world =
    (Ok ([], left, None), w') ∧ total w' = total sample_world + 10.
Proof.
  exists 1025%nat.
  destruct (selfdestruct_mints sample_table sample_ctx sample_machine 1025 levels_1025 0 (sample_addr x02) (sample_addr x04) [] 50000 3 sample_world)
    as (left & w' & Hc & _ & _ & Ht).
  - vm_compute. congruence.
  - apply not_precompiled. vm_compute. reflexivity.
  - vm_compute. reflexivity.
  - vm_compute. congruence.
  - split; vm_compute; congruence.
  - lia.
  - exists left, w'. split; [exact Hc|]. rewrite Ht, <- Z.add_assoc. f_equal.
Defined.

