(* ===== verification/InterpType.v ===== *)
(** * Well-formed frames

    The invariant of a run: words on the stack, at most 1024 of them, a memory of whole words that is
    paid for, and machine integers in their ranges. Every round keeps it, and stays within the stack,
    the memory and the code, in the tables of all forks. *)

From Stdlib Require Import ZArith Lia Strings.Byte.
From stdpp Require Import base tactics option numbers list gmap strings.
From S2P Require Import Prelude Common GoMap World Evm Analysis Machine Instr GasTable JumpTable Interp InterpGas InterpFacts.

(** The documented behaviour of the arithmetic: results are words. *)
Class Uint256Laws {HU : Uint256} : Prop := {
  ul_Add x y : u_Add x y = (x + y) mod two256;
  ul_arith o x y : is_word x → is_word y → is_word (arith_result o x y);
  ul_byte x y : is_word x → is_word y → is_word (u_Byte x y);
  ul_modular o x y z : is_word x → is_word y → is_word z → is_word (modular_result o x y z);
  ul_Lsh x n : is_word x → is_word (u_Lsh x n);
  ul_Rsh x n : is_word x → is_word (u_Rsh x n);
  ul_SRsh x n : is_word x → is_word (u_SRsh x n)
}.

(** ** Words *)

Lemma is_word_mod z : is_word (z mod two256).
Proof. apply Z.mod_pos_bound. done. Qed.

Lemma is_word_u64 z : is_u64 z → is_word z.
Proof. unfold is_u64, is_word, two64, two256. lia. Qed.

Lemma is_word_small z : 0 ≤ z < 2 ^ 64 → is_word z.
Proof. unfold is_word, two256. lia. Qed.

Lemma is_word_bool b : is_word (w_bool b).
Proof. by destruct b. Qed.

Lemma is_word_bits z : is_word z ↔ 0 ≤ z ∧ ∀ i, 256 ≤ i → Z.testbit z i = false.
Proof.
  split.
  - intros [H0 H1]. split; [done|]. intros i Hi. destruct (decide (z = 0)) as [->|]; [apply Z.testbit_0_l|].
    apply Z.bits_above_log2; [done|]. apply Z.log2_lt_pow2; [lia|]. eapply Z.lt_le_trans; [exact H1|]. apply Z.pow_le_mono_r; lia.
  - intros [H0 Hb]. split; [done|]. destruct (decide (z = 0)) as [->|]; [done|]. apply Z.log2_lt_pow2; [lia|].
    apply Z.nle_gt. intros Hl. specialize (Hb _ Hl). rewrite Z.bit_log2 in Hb by lia. done.
Qed.

Lemma is_word_bitwise `{!Uint256, !Uint256Laws} o x y : is_word x → is_word y → is_word (bitwise_result o x y).
Proof.
  intros Hx Hy. destruct o; cbn; [..|by apply ul_byte]; apply is_word_bits in Hx as [Hx0 Hx], Hy as [Hy0 Hy]; apply is_word_bits.
  - split; [apply Z.land_nonneg; auto|]. intros i Hi. by rewrite Z.land_spec, Hx.
  - split; [apply Z.lor_nonneg; auto|]. intros i Hi. by rewrite Z.lor_spec, Hx, Hy.
  - split; [apply Z.lxor_nonneg; tauto|]. intros i Hi. by rewrite Z.lxor_spec, Hx, Hy.
Qed.

Lemma is_word_shift `{!Uint256, !Uint256Laws} o x y : is_word x → is_word y → is_word (shift_result o x y).
Proof.
  intros Hx Hy. destruct o; cbn; [destruct (_ <? _)..|]; try done; try (by apply ul_Lsh); try (by apply ul_Rsh).
  destruct (256 <? x); [by destruct (_ <=? _)|by apply ul_SRsh].
Qed.

Lemma is_word_unary o x : is_word x → is_word (unary_result o x).
Proof. intros Hx. destruct o; cbn; [unfold w_Not, is_word in *; lia|apply is_word_bool]. Qed.

Lemma is_word_SetBytes b : is_word (SetBytes b).
Proof. apply is_word_mod. Qed.

Lemma is_word_zero : is_word 0.
Proof. done. Qed.

Lemma FromBig_word b v : FromBig b = Ok v → is_word v.
Proof. destruct b; intros [= <-]. apply is_word_mod. Qed.

Lemma is_word_u64_fn z : is_word (u64 z).
Proof. apply is_word_u64, u64_range. Qed.

Lemma is_word_byte b : is_word (b2z b).
Proof. apply is_word_small. pose proof (b2z_range b). lia. Qed.

Lemma is_word_if (b : bool) x y : is_word x → is_word y → is_word (if b then x else y).
Proof. by destruct b. Qed.

Create HintDb word.
#[export] Hint Resolve is_word_if ul_arith ul_modular is_word_bitwise is_word_shift is_word_unary is_word_bool is_word_SetBytes is_word_zero
  FromBig_word is_word_u64_fn is_word_byte is_word_u64 : word.

(** ** What an instruction needs *)

(** The words that it takes from the stack, or looks at. *)
Definition needs (e : executionFunc) : nat :=
  match e with
  | Arith _ | Compare _ | Bitwise _ | Shift _ => 2
  | Unary _ => 1
  | Modular _ => 3
  | Reading o =>
      match o with opKeccak256 => 2 | opBalance | opCallDataLoad => 1 | opCallDataCopy => 3 | _ => 0 end
  | Codes o =>
      match o with
      | opReturnDataCopy | opCodeCopy => 3
      | opExtCodeSize | opExtCodeHash => 1
      | opExtCodeCopy => 4
      | _ => 0
      end
  | BlockInfo o => match o with opBlockhash => 1 | _ => 0 end
  | Extra _ => 0
  | Flow o =>
      match o with
      | opPop | opMload | opSload | opJump => 1
      | opMstore | opMstore8 | opSstore | opJumpi => 2
      | _ => 0
      end
  | Calling o =>
      match o with opCreate => 3 | opCreate2 => 4 | opCall | opCallCode => 7 | _ => 6 end
  | Ending o => match o with opReturn | opRevert => 2 | opSelfdestruct => 1 | _ => 0 end
  | Making o =>
      match o with makeLog n => 2 + n | opPush1 | makePush _ _ => 0 | makeDup n => 1 `max` n | makeSwap n => S n end
  end.

(** The words that it leaves, for those that it takes. *)
Definition leaves (e : executionFunc) : nat :=
  match e with
  | Reading opCallDataCopy | Codes (opReturnDataCopy | opCodeCopy | opExtCodeCopy) => 0
  | Flow (opPop | opMstore | opMstore8 | opSstore | opJump | opJumpi | opJumpdest) => 0
  | Ending _ | Making (makeLog _) => 0
  | Making (makeDup n) => S (1 `max` n)
  | Making (makeSwap n) => S n
  | _ => 1
  end.

(** The memory that it reads and writes, as pairs of offset and size. *)
Definition touches (e : executionFunc) (l : list Z) : list (Z * Z) :=
  let at_ n := default 0 (l !! n) in
  match e with
  | Reading opKeccak256 | Ending (opReturn | opRevert) | Making (makeLog _) => [(at_ 0%nat, at_ 1%nat)]
  | Reading opCallDataCopy | Codes (opReturnDataCopy | opCodeCopy) => [(at_ 0%nat, at_ 2%nat)]
  | Codes opExtCodeCopy => [(at_ 1%nat, at_ 3%nat)]
  | Flow (opMload | opMstore) => [(at_ 0%nat, 32)]
  | Flow opMstore8 => [(at_ 0%nat, 1)]
  | Calling (opCreate | opCreate2) => [(at_ 1%nat, at_ 2%nat)]
  | Calling (opCall | opCallCode) => [(at_ 3%nat, at_ 4%nat); (at_ 5%nat, at_ 6%nat)]
  | Calling (opDelegateCall | opStaticCall) => [(at_ 2%nat, at_ 3%nat); (at_ 4%nat, at_ 5%nat)]
  | _ => []
  end.

(** A range of the memory. *)
Definition in_memory (s : Frame) (r : Z * Z) : Prop := r.2 = 0 ∨ 0 ≤ r.1 ∧ 0 < r.2 ∧ r.1 + r.2 ≤ mem_len s.

(** ** What a panic may come from *)

Section causes.
Context {HC : Crypto} {HP : Precompiles} {HI : Interpreter}.
Context (ctx : EvmContext) (env : Env).

(** The code that a call or a creation runs panics: that of the address on the stack, in the world of
    the call, whose accounts are those of the frame before the value is moved. *)
Definition callee_panics (o : calling) (s : Frame) : Prop :=
  let at_ n := default 0 (f_stack s !! n) in
  let depth := e_depth env + 1 in
  let addr := Bytes20 (at_ 1%nat) in
  ∃ w gas input, accounts w = accounts (f_world s) ∧
  match o with
  | opCreate | opCreate2 => ∃ a hash,
      (Run depth (MkContract (self env) a (Some (at_ 0%nat)) gas input hash a) [] false (prepared (self env) a (at_ 0%nat) w)).1 = Panic
  | opCall =>
      (run_at depth (self env) addr (Some (at_ 2%nat)) gas addr input (e_readOnly env) (entered (self env) addr (at_ 2%nat) w)).1 = Panic
  | opCallCode => (run_at depth (self env) (self env) (Some (at_ 2%nat)) gas addr input (e_readOnly env) w).1 = Panic
  | opDelegateCall =>
      (run_at depth (CallerAddress (e_contract env)) (self env) (ct_value (e_contract env)) gas addr input (e_readOnly env) w).1 = Panic
  | opStaticCall => (run_at depth (self env) addr (Some 0) gas addr input true (AddBalance addr 0 w)).1 = Panic
  end.

(** An instruction panics where the code that it calls does, or reads a nil pointer of the context. *)
Definition exec_cause (e : executionFunc) (s : Frame) : Prop :=
  match e with
  | Calling o => callee_panics o s
  | Reading opCallValue => ct_value (e_contract env) = None
  | BlockInfo opGasprice => ec_GasPrice ctx = None
  | BlockInfo opTimestamp => ec_Time ctx = None
  | BlockInfo opNumber => ec_BlockHeight ctx = None
  | BlockInfo opDifficulty => ec_Difficulty ctx = None
  | Extra opChainID => ec_ChainID ctx = None
  | Extra opBaseFee => ec_BaseFee ctx = None
  | Making (makeLog _) => ec_BlockNumber ctx = None
  | _ => False
  end.

(** The refund that a write of a cleared slot takes back. *)
Definition clearing_refund (g : gasFunc) : option Z :=
  match g with
  | gasSStore => Some NetSstoreClearRefund
  | gasSStoreEIP2200 => Some SstoreClearsScheduleRefundEIP2200
  | makeGasSStoreFunc clearingRefund => Some clearingRefund
  | _ => None
  end.

(** The price of an SSTORE panics when the contract is not on the access list, or when a slot that was
    cleared is written again and the counter is below the refund that was given for it. *)
Definition sstore_cause (g : gasFunc) (s : Frame) : Prop :=
  let w := f_world s in
  let slot := Bytes32 (default 0 (f_stack s !! 0%nat)) in
  ∃ clearingRefund, clearing_refund g = Some clearingRefund ∧
  (g = makeGasSStoreFunc clearingRefund ∧ SlotInAccessList w (self env) slot = (false, false) ∨
   refund w < clearingRefund ∧ GetCommittedState w (self env) slot ≠ zero_fixed 32 ∧
     GetState w (self env) slot = zero_fixed 32 ∧ Bytes32 (default 0 (f_stack s !! 1%nat)) ≠ zero_fixed 32).

Definition panic_cause (o : operation) (s : Frame) : Prop :=
  exec_cause (op_execute o) s ∨ op_execute o = Flow opSstore ∧ ∃ g, op_dynamicGas o = Some g ∧ sstore_cause g s.
End causes.

(** The data of a run fit the machine. *)
Definition fits (b : bytes) : Prop := Z.of_nat (length b) < 2 ^ 62.

Record sized (env : Env) (s : Frame) : Prop := {
  sz_code : fits (ct_Code (e_contract env));
  sz_input : fits (e_input env);
  sz_returnData : fits (f_returnData s);
  sz_codes a : fits (default [] (GetCode (f_world s) a))
}.

(** ** Accesses in range *)

Lemma zslice_in lo hi b : 0 ≤ lo ≤ hi → hi ≤ Z.of_nat (length b) →
  zslice lo hi b = Ok (take (Z.to_nat hi - Z.to_nat lo) (drop (Z.to_nat lo) b)).
Proof.
  intros Hlo Hhi. unfold zslice, go_slice. rewrite (proj2 (Z.ltb_ge lo 0)), (proj2 (Z.ltb_ge hi 0)) by lia. cbn [orb].
  by rewrite (proj2 (Nat.leb_le _ _)), (proj2 (Nat.leb_le _ _)) by lia.
Qed.

(** [u64_small] with the bound written out. *)
Lemma u64_id z : 0 ≤ z < 2 ^ 64 → u64 z = z.
Proof. apply Z.mod_small. Qed.

Lemma int64_small z : 0 ≤ z < 2 ^ 63 → int64 z = z.
Proof. intros Hz. unfold int64. by rewrite (proj2 (Z.ltb_lt _ _)) by lia. Qed.

Lemma copy_into_in lo hi v m : 0 ≤ lo ≤ hi → hi ≤ Z.of_nat (length m) → ∃ m', copy_into lo hi v m = Ok m'.
Proof. intros Hlo Hhi. unfold copy_into. rewrite zslice_in by done. cbn. eauto. Qed.

Section memory.
Context (s : Frame) (Hm : mem_len s < 2 ^ 62).

Lemma wp_mem_Get_in o n Φ : in_memory s (o, n) → (∀ d, Φ (Ok d) s) → wp (mem_Get (Uint64 o) (Uint64 n)) Φ s.
Proof.
  intros Hin Hok. unfold mem_Get, Uint64. destruct Hin as [Hz|(Ho & Hn & Hle)]; cbn [fst snd] in *.
  { subst n. change (u64 0 =? 0) with true. cbn iota. wp_step. apply Hok. }
  rewrite !(u64_id n), !(u64_id o) by lia. rewrite !(int64_small o), !(int64_small n) by lia. rewrite (u64_id (o + n)) by lia.
  rewrite (int64_small (o + n)) by lia. rewrite (proj2 (Z.eqb_neq n 0)) by lia. do 2 wp_step.
  rewrite (proj2 (Z.ltb_lt _ _)) by lia. wp_step. unfold mem_len in *. rewrite zslice_in by lia. apply Hok.
Qed.

Lemma wp_mem_Set_in o n v Φ : in_memory s (o, n) → (∀ m, length m = length (f_store s) → Φ (Ok tt) (f_set_store m s)) →
  wp (mem_Set (Uint64 o) (Uint64 n) v) Φ s.
Proof.
  intros Hin Hok. unfold mem_Set, Uint64. destruct Hin as [Hz|(Ho & Hn & Hle)]; cbn [fst snd] in *.
  { subst n. change (u64 0 =? 0) with true. cbn iota. wp_step. specialize (Hok (f_store s) eq_refl). by destruct s. }
  rewrite !(u64_id n), !(u64_id o) by lia. rewrite (u64_id (o + n)) by lia.
  rewrite (proj2 (Z.eqb_neq n 0)) by lia. do 2 wp_step. rewrite (proj2 (Z.ltb_ge _ _)) by lia. unfold mem_len in *.
  destruct (copy_into_in o (o + n) v (f_store s)) as [m Hc]; [lia|lia|]. wp_step. wp_step. rewrite Hc. wp_step.
  apply Hok. by eapply copy_into_length.
Qed.

Lemma wp_mem_Set32_in o v Φ : in_memory s (o, 32) → (∀ m, length m = length (f_store s) → Φ (Ok tt) (f_set_store m s)) →
  wp (mem_Set32 (Uint64 o) v) Φ s.
Proof.
  intros [?|(Ho & Hn & Hle)] Hok; cbn [fst snd] in *; [done|]. unfold mem_Set32, Uint64.
  rewrite !(u64_id o) by lia. rewrite (u64_id (o + 32)) by lia. do 2 wp_step.
  rewrite (proj2 (Z.ltb_ge _ _)) by lia. unfold mem_len in *.
  destruct (copy_into_in o (Z.of_nat (length (f_store s))) (fb (Bytes32 v)) (f_store s)) as [m Hc]; [lia|lia|].
  wp_step. wp_step. rewrite Hc. wp_step. apply Hok. by eapply copy_into_length.
Qed.

Lemma in_memory_small o n : in_memory s (o, n) → 0 ≤ n < 2 ^ 62.
Proof. intros [Hz|H]; cbn in *; lia. Qed.

Lemma in_memory_size o n : in_memory s (o, n) → 0 ≤ Uint64 n < 2 ^ 62.
Proof. intros Hin%in_memory_small. unfold Uint64. rewrite u64_id; lia. Qed.

Lemma store_index o : in_memory s (o, 1) → ∃ b, go_index (f_store s) (Z.to_nat (Uint64 o)) = Ok b.
Proof.
  intros [|(Ho & _ & Hle)]; cbn [fst snd] in *; [done|]. unfold Uint64, mem_len, go_index in *. rewrite u64_id by lia.
  destruct (lookup_lt_is_Some_2 (f_store s) (Z.to_nat o)) as [b ->]; [lia|]. by exists b.
Qed.

Lemma getData_in b start n : 0 ≤ start → fits b → 0 ≤ n < 2 ^ 62 → getData b start n ≠ Panic.
Proof.
  intros Hst Hb Hn. unfold fits in Hb. unfold getData. set (L := Z.of_nat (length b)) in *.
  set (st := if L <? start then L else start).
  assert (0 ≤ st ≤ L) by (unfold st; destruct (Z.ltb_spec L start); lia). rewrite u64_id by lia.
  rewrite zslice_in; [done|destruct (Z.ltb_spec L (st + n)); lia|destruct (Z.ltb_spec L (st + n)); lia].
Qed.

Lemma wp_getData b start n (Φ : go_res bytes → Frame → Prop) : 0 ≤ start → 0 ≤ n < 2 ^ 62 →
  (∀ d, Φ (Ok d) s) → (¬ fits b → Φ Panic s) → wp (liftR (getData b start n)) Φ s.
Proof.
  intros Hst Hn Hok Hp. wp_step. destruct (getData b start n) as [d|e| |] eqn:Hd; [apply Hok| | |].
  - unfold getData, zslice, go_slice in Hd. by repeat case_match.
  - apply Hp. intros Hb. by eapply getData_in.
  - by apply getData_fuel in Hd.
Qed.
End memory.

(** ** Execution *)

Lemma wp_pop_cons x l Φ s : f_stack s = x :: l → Φ (Ok x) (f_set_stack l s) → wp pop Φ s.
Proof. intros Hs Hok. unfold wp, pop. by rewrite Hs. Qed.

Lemma wp_push x Φ s : Φ (Ok tt) (f_set_stack (x :: f_stack s) s) → wp (push x) Φ s.
Proof. done. Qed.

Lemma wp_FromBig b (Φ : go_res Z → Frame → Prop) s : (∀ v, is_word v → Φ (Ok v) s) → (b = None → Φ Panic s) →
  wp (liftR (FromBig b)) Φ s.
Proof. intros Hok Hn. wp_step. destruct b as [z|]; [apply Hok, is_word_mod|by apply Hn]. Qed.

Lemma wp_pop_n n Φ s : (n ≤ length (f_stack s))%nat → Φ (Ok (take n (f_stack s))) (f_set_stack (drop n (f_stack s)) s) →
  wp (pop_n n) Φ s.
Proof.
  revert Φ s. induction n as [|n IH]; intros Φ s Hn Hok; cbn [pop_n]; [wp_step; by destruct s|].
  destruct (f_stack s) as [|x l] eqn:Hs; cbn in Hn; [lia|]. wp_step. apply (wp_pop_cons x l); [done|].
  wp_step. apply IH; cbn; [lia|]. by wp_step.
Qed.

(** Runs to the end of an instruction. The frame is taken apart, so that its fields compute. *)
Ltac ty_step :=
  lazymatch goal with
  | |- wp pop _ _ => eapply wp_pop_cons; [reflexivity|]
  | |- wp (push _) _ _ => apply wp_push
  | |- wp (liftR (FromBig _)) _ _ => apply wp_FromBig; [intros ? ?|try discriminate; intros ?]
  | |- wp (mem_Get _ _) _ _ => apply wp_mem_Get_in; [assumption|assumption|intros ?]
  | |- wp (mem_Set _ _ _) _ _ => apply wp_mem_Set_in; [assumption|assumption|intros ? ?]
  | |- wp (mem_Set32 _ _) _ _ => apply wp_mem_Set32_in; [assumption|assumption|intros ? ?]
  | |- wp (liftR (getData _ _ _)) _ _ =>
      apply wp_getData; [first [apply u64_range|case_match; [done|apply u64_range]]|first [done|eapply in_memory_size; eassumption]|intros ?|
        let Hnf := fresh in intros Hnf [? ? ? ?]; destruct Hnf; auto]
  | |- wp (liftR _) _ _ => fail
  | _ => wp_step
  end; cbn [f_set_stack f_set_world f_set_store f_set_gas f_set_pc f_set_returnData f_stack f_store f_pc f_gas f_world f_returnData
            f_callGasTemp f_lastGasCost fst snd].

Section safe.
Context {HC : Crypto} {HU : Uint256} {HP : Precompiles} {HI : Interpreter} {HUL : Uint256Laws}.
Context (ctx : EvmContext) (env : Env).

Definition safe_post (e : executionFunc) (s : Frame) (r : go_res outcome) (s' : Frame) : Prop :=
  match r with
  | Ok (_, None) =>
      Forall is_word (f_stack s') ∧ (length (f_stack s') + needs e = length (f_stack s) + leaves e)%nat ∧ is_u64 (f_pc s')
  | Panic => sized env s → exec_cause ctx env e s
  | _ => True
  end.

(** What is known when an instruction is executed. *)
Record ready (e : executionFunc) (s : Frame) : Prop := {
  rd_words : Forall is_word (f_stack s);
  rd_needs : (needs e ≤ length (f_stack s))%nat;
  rd_memory : Forall (in_memory s) (touches e (f_stack s));
  rd_len : mem_len s < 2 ^ 62;
  rd_gas : is_u64 (f_gas s);
  rd_pc : is_u64 (f_pc s)
}.

Ltac ty_end := cbn; split_and!; [repeat (apply Forall_cons; split; [auto with word|]); assumption|lia|try assumption; apply u64_range].

(** Takes the frame and the words that are needed apart. *)
Ltac ty_start :=
  let Hw := fresh "Hw" in let Hn := fresh "Hn" in let Hin := fresh "Hin" in let Hlen := fresh "Hlen" in
  let Hg := fresh "Hg" in let Hpc := fresh "Hpc" in intros [Hw Hn Hin Hlen Hg Hpc];
  lazymatch goal with s : Frame |- _ => destruct s as [w pc l m fee g rd t] end;
  cbn [f_stack f_gas f_pc needs touches Nat.add] in *;
  repeat (lazymatch type of Hn with
          | (S _ ≤ length ?l)%nat => destruct l; [cbn in Hn; lia|]; cbn [length] in Hn; apply le_S_n in Hn
          end);
  cbn [lookup list_lookup default from_option id] in Hin; decompose_Forall_hyps.

Lemma safe_pure e s : ready e s →
  match e with Arith _ | Compare _ | Unary _ | Bitwise _ | Modular _ | Shift _ => True | _ => False end →
  wp (execute ctx env e) (safe_post e s) s.
Proof.
  intros Hr He. revert Hr. destruct e as [o|o|o|o|o|o|o|o|o|o|o|o|o|o]; try done; ty_start; cbn [execute]; unfold binary.
  all: repeat ty_step; ty_end.
Qed.

Lemma safe_reading o s : ready (Reading o) s → wp (exec_reading ctx env o) (safe_post (Reading o) s) s.
Proof.
  destruct o; ty_start; cbn [exec_reading]; repeat ty_step; try ty_end; by intros ?.
Qed.

(** The range that RETURNDATACOPY reads; the offset and the size cannot wrap around. *)
Lemma return_data_range x y data : is_word x → 0 ≤ y < 2 ^ 62 → negb (IsUint64 x) = false →
  negb (IsUint64 (u_Add x y)) || (Z.of_nat (length data) <? u64 (u_Add x y)) = false → ∃ d, zslice (u64 x) (u64 (u_Add x y)) data = Ok d.
Proof.
  unfold IsUint64, is_word. intros Hx Hy Hlt%negb_false_iff%Z.ltb_lt [Hlt2%negb_false_iff%Z.ltb_lt Hle%Z.ltb_ge]%orb_false_iff.
  rewrite ul_Add, Z.mod_small in * by (unfold two64, two256 in *; lia). rewrite !u64_id in * by (unfold two64 in *; lia).
  rewrite zslice_in by lia. eauto.
Qed.

Lemma safe_codes o s : ready (Codes o) s → wp (exec_codes env o) (safe_post (Codes o) s) s.
Proof.
  destruct o; ty_start; cbn [exec_codes]; unfold code_copy, Uint64WithOverflow;
    repeat ty_step; try ty_end; try done.
  match goal with |- wp (liftR (zslice (u64 ?x) (u64 (u_Add ?x ?y)) _)) _ _ =>
    destruct (return_data_range x y rd) as [d Hd]; [assumption|eapply in_memory_small; eassumption|assumption..|]; wp_step; rewrite Hd end.
  repeat ty_step. ty_end.
Qed.

Context (Hlimit : is_u64 (ec_GasLimit ctx)).

Lemma safe_blockinfo o s : ready (BlockInfo o) s → wp (exec_blockinfo ctx o) (safe_post (BlockInfo o) s) s.
Proof. destruct o; ty_start; cbn [exec_blockinfo]; repeat ty_step; try ty_end; first [done|by intros ?]. Qed.

Lemma safe_extra o s : ready (Extra o) s → wp (exec_extra ctx env o) (safe_post (Extra o) s) s.
Proof. destruct o; ty_start; cbn [exec_extra]; repeat ty_step; try ty_end; first [done|by intros ?]. Qed.

Lemma wp_jump pos (Φ : go_res outcome → Frame → Prop) s : is_word pos → Φ (Ok ([], Some ErrInvalidJump)) s →
  Φ (Ok ([], None)) (f_set_pc (u64 (Uint64 pos - 1)) s) → wp (jump env pos) Φ s.
Proof.
  intros [Hp _] He Hok. unfold jump. rewrite validJumpdest_Ok by done. wp_step. wp_step. destruct (bool_decide _); cbn [negb]; by repeat wp_step.
Qed.

Lemma safe_flow o s : ready (Flow o) s → wp (exec_flow env o) (safe_post (Flow o) s) s.
Proof.
  destruct o; ty_start; cbn [exec_flow]; repeat ty_step; try (apply wp_jump; [assumption| |]); try ty_end; try done.
  - change (mem_Get (Uint64 z) 32) with (mem_Get (Uint64 z) (Uint64 32)). repeat ty_step. ty_end.
  - destruct (store_index _ Hlen z ltac:(eassumption)) as [b Hb]. cbn in Hb. wp_step. rewrite Hb. repeat ty_step. ty_end.
Qed.

Lemma safe_ending o s : ready (Ending o) s → (o = opUndefined → is_Some (ct_Code (e_contract env) !! Z.to_nat (f_pc s))) →
  wp (exec_ending env o) (safe_post (Ending o) s) s.
Proof.
  intros Hr Hu. revert Hr. destruct o; ty_start; cbn [exec_ending]; repeat ty_step; try done.
  destruct (Hu eq_refl) as [b Hb]. cbn in Hb. wp_step. unfold go_index. rewrite Hb. done.
Qed.

Lemma word_lookup l i : Forall is_word l → (i < length l)%nat → ∃ x, go_index l i = Ok x ∧ is_word x.
Proof.
  intros Hl Hi. destruct (lookup_lt_is_Some_2 l i Hi) as [x Hx]. exists x. unfold go_index. rewrite Hx. split; [done|].
  by eapply (proj1 (Forall_lookup _ _) Hl).
Qed.

(** The bytes of the code after the instruction, which are there or are not. *)
Lemma push_range code pc n : fits code → is_u64 pc → pc < Z.of_nat (length code) → 0 ≤ n →
  let codeLen := Z.of_nat (length code) in
  let startMin := if int64 (u64 (pc + 1)) <? codeLen then int64 (u64 (pc + 1)) else codeLen in
  let endMin := if startMin + n <? codeLen then startMin + n else codeLen in
  ∃ d, zslice startMin endMin code = Ok d.
Proof.
  intros Hc [Hp _] Hlt Hn codeLen. unfold fits in Hc. fold codeLen in Hc, Hlt.
  rewrite u64_id, int64_small by lia. intros startMin endMin.
  assert (0 ≤ startMin ≤ codeLen) by (unfold startMin; destruct (Z.ltb_spec (pc + 1) codeLen); lia).
  rewrite zslice_in; [eauto|..]; unfold endMin; destruct (Z.ltb_spec (startMin + n) codeLen); lia.
Qed.

Lemma safe_making o s : ready (Making o) s →
  (∀ size n, o = makePush size n → f_pc s < Z.of_nat (length (ct_Code (e_contract env))) ∧ 0 ≤ n) →
  wp (exec_making ctx env o) (safe_post (Making o) s) s.
Proof.
  intros Hr Hp. revert Hr. destruct o as [n| |size n|n|n]; ty_start; cbn [exec_making].
  - wp_step; [by wp_step|]. repeat ty_step. apply wp_pop_n; [assumption|]. repeat ty_step. wp_step.
    destruct (ec_BlockNumber ctx) eqn:Hbn; cbn [deref]; [|by intros _]. repeat ty_step. cbn.
    split_and!; [by apply Forall_drop|rewrite length_drop; lia|done].
  - repeat ty_step. cbn. split_and!; [|lia|apply u64_range]. constructor; [|done].
    destruct (_ !! _); [apply is_word_byte|done].
  - destruct (Hp size n eq_refl) as [Hlt Hn0]. pose proof (λ Hc, push_range _ _ _ Hc Hpc Hlt Hn0) as Hd. cbn [f_pc] in *.
    do 3 ty_step. wp_step. destruct (zslice _ _ _) as [d|e| |]; [repeat ty_step; ty_end|done| |done].
    intros [Hc _ _ _]. by destruct (Hd Hc).
  - unfold dup. repeat ty_step. destruct (word_lookup l (n - 1)) as (x & Hx & Hwx); [done|lia|].
    wp_step. rewrite Hx. repeat ty_step. ty_end.
  - unfold swap. replace (n + 1 - 1)%nat with n by lia. assert (Forall is_word (z :: l)) as Hl by (by constructor).
    destruct (word_lookup (z :: l) 0) as (x & Hx & Hwx); [done|cbn; lia|]. destruct (word_lookup (z :: l) n) as (y & Hy & Hwy); [done|cbn; lia|]. repeat ty_step. wp_step. rewrite Hx. repeat ty_step.
    wp_step. rewrite Hy. repeat ty_step. unfold safe_post. cbn [f_stack f_pc f_set_stack]. rewrite !length_insert. split_and!; [|cbn; lia|done].
    by apply Forall_insert; [apply Forall_insert|].
Qed.

Lemma wp_invoke call Φ s : (∀ r w, (call (f_world s)).1 = r → Φ r (f_set_world w s)) → wp (invoke call) Φ s.
Proof. intros Hr. unfold wp, invoke. specialize (Hr (call (f_world s)).1). destruct (call (f_world s)). by apply Hr. Qed.

(** A panic of a call, as one of the causes. *)
Ltac callee :=
  intros _; eexists _, _, _; split; [reflexivity|];
  first [by eapply Call_Panic|by eapply CallCode_Panic|by eapply DelegateCall_Panic|by eapply StaticCall_Panic
        |eexists _, _; eapply create_Panic; match goal with H : _ = Panic |- _ => exact H end].

(** As [ty_step], with the result of a call; a panic in it is one of the causes. *)
Ltac call_step :=
  lazymatch goal with
  | |- wp (invoke _) _ _ => apply wp_invoke; intros [[[? ?] ?]| | |] ? ?; [|exact I|callee|exact I]
  | |- wp (UseGas _) _ _ => apply wp_UseGas; intros ?
  | |- wp (if bool_decide ?P then _ else _) _ _ => destruct (bool_decide P)
  | _ => ty_step
  end.

Lemma safe_calling o s : ready (Calling o) s → wp (exec_calling ctx env o) (safe_post (Calling o) s) s.
Proof.
  destruct o; ty_start; cbn [exec_calling];
    unfold exec_create, exec_create2, exec_call, exec_callcode, exec_delegatecall, exec_staticcall, end_create, end_call.
  all: repeat call_step; try done; ty_end.
Qed.

Lemma execute_safe e s : ready e s →
  (e = Ending opUndefined → is_Some (ct_Code (e_contract env) !! Z.to_nat (f_pc s))) →
  (∀ size n, e = Making (makePush size n) → f_pc s < Z.of_nat (length (ct_Code (e_contract env))) ∧ 0 ≤ n) →
  wp (execute ctx env e) (safe_post e s) s.
Proof.
  intros Hr Hu Hp. destruct e as [o|o|o|o|o|o|o|o|o|o|o|o|o|o]; try (by apply safe_pure); cbn [execute].
  - by apply safe_reading.
  - by apply safe_codes.
  - by apply safe_blockinfo.
  - by apply safe_extra.
  - by apply safe_flow.
  - by apply safe_calling.
  - apply safe_ending; [done|]. intros ->. by apply Hu.
  - apply safe_making; [done|]. intros size n ->. by eapply Hp.
Qed.
End safe.

(** ** Prices *)

(** A computation that leaves the stack as it is, and does not panic when there are [k] words. *)
Definition calm {A} (k : nat) (m : stM Frame A) : Prop :=
  ∀ s, (k ≤ length (f_stack s))%nat → (m s).1 ≠ Panic ∧ f_stack (m s).2 = f_stack s.

Section calm.
Context (k : nat).

Lemma calm_bind {A B} (m : stM Frame A) (f : A → stM Frame B) : calm k m → (∀ a, calm k (f a)) → calm k (m ≫= f).
Proof.
  intros Hm Hf s Hs. destruct (Hm s Hs) as [Hp Hst]. unfold mbind, stM_bind. destruct (m s) as [[a|e| |] s'] eqn:H; cbn in *; [|done..].
  rewrite <- Hst in Hs. destruct (Hf a s' Hs) as [Hp' Hst']. split; [done|congruence].
Qed.

Lemma calm_mret {A} (a : A) : calm k (mret a).
Proof. done. Qed.

Lemma calm_liftR {A} (r : go_res A) : r ≠ Panic → calm k (liftR r).
Proof. done. Qed.

Lemma calm_getS : calm k getS.
Proof. done. Qed.

Lemma calm_get_world : calm k get_world.
Proof. done. Qed.

Lemma calm_mod_world f : calm k (mod_world f).
Proof. done. Qed.

Lemma calm_modify f : (∀ s, f_stack (f s) = f_stack s) → calm k (modify f).
Proof. intros Hf s _. split; [done|apply Hf]. Qed.

Lemma calm_UseGas n : calm k (UseGas n).
Proof. intros s _. unfold UseGas. by destruct (_ <? _). Qed.

Lemma calm_peek_at n : (n < k)%nat → calm k (peek_at n).
Proof.
  intros Hn s Hs. unfold peek_at, back, go_index. rewrite getS_bind. cbn.
  destruct (lookup_lt_is_Some_2 (f_stack s) n) as [x ->]; [lia|done].
Qed.

Lemma calm_checked r : calm k (checked r).
Proof. unfold checked. by destruct r as [z []]. Qed.

Lemma calm_back64 n : (n < k)%nat → calm k (back64 n).
Proof.
  intros Hn s Hs. unfold back64, back, go_index. rewrite getS_bind.
  destruct (lookup_lt_is_Some_2 (f_stack s) n) as [x ->]; [lia|]. by apply (calm_checked (Uint64WithOverflow x) s).
Qed.

Lemma calm_memoryGasCost n : calm k (memoryGasCost n).
Proof.
  intros s _. unfold memoryGasCost. destruct (_ =? _); [done|]. destruct (_ <? _); [done|]. rewrite getS_bind. by destruct (_ <? _).
Qed.
End calm.

Create HintDb calm.
#[export] Hint Resolve calm_mret calm_getS calm_get_world calm_mod_world calm_UseGas calm_checked calm_memoryGasCost : calm.

Ltac calm_step :=
  match goal with
  | |- calm _ (mbind _ _) => apply calm_bind; [|intros ?]
  | |- calm _ (let '(_, _) := ?x in _) => destruct x
  | |- calm _ (if ?b then _ else _) => destruct b
  | |- calm _ (peek_at _) => apply calm_peek_at; lia
  | |- calm _ (back64 _) => apply calm_back64; lia
  | |- calm _ (modify _) => apply calm_modify; done
  | |- calm _ (liftR _) => apply calm_liftR; discriminate
  | |- calm _ _ => solve [auto with calm|done]
  end.

(** The words that a price looks at. *)
Definition gas_needs (g : gasFunc) : nat :=
  match g with
  | memoryCopierGas k => S k
  | gasSStore | gasSStoreEIP2200 | makeGasSStoreFunc _ | makeGasLog _ | gasKeccak256 | gasExpFrontier | gasExpEIP158 => 2
  | pureMemoryGascost => 0
  | gasCreate2 => 3
  | OldCall _ | makeCallVariantGasCallEIP2929 _ => 3
  | gasExtCodeCopyEIP2929 => 4
  | gasSelfdestruct | gasSLoadEIP2929 | gasEip2929AccountCheck | makeSelfdestructGasFn _ => 1
  end.

Definition is_sstore (g : gasFunc) : bool :=
  match g with gasSStore | gasSStoreEIP2200 | makeGasSStoreFunc _ => true | _ => false end.

Section prices.
Context {HC : Crypto}.
Context (ctx : EvmContext) (env : Env).

Lemma calm_noteCallGas k g : (0 < k)%nat → calm k (noteCallGas ctx g).
Proof.
  intros Hk. unfold noteCallGas. repeat calm_step. apply calm_liftR. unfold callGas. by repeat case_match.
Qed.

Lemma calm_oldCallGas o m : calm 3 (oldCallGas ctx o m).
Proof. destruct o; cbn [oldCallGas]; repeat (first [apply calm_noteCallGas; lia|calm_step]). Qed.

Lemma calm_wordsGas k p g m : (p < k)%nat → calm k (wordsGas p g m).
Proof. intros Hp. unfold wordsGas. repeat calm_step. Qed.

Lemma calm_dynamicGas g m : is_sstore g = false → calm (gas_needs g) (dynamicGas ctx env g m).
Proof.
  intros Hg. destruct g; try done; cbn [dynamicGas gas_needs].
  all: unfold logGas, expGas, selfdestructGas, sloadGasEIP2929, extCodeCopyGasEIP2929, accountCheckGas, selfdestructGasEIP2929,
    callVariantGas; repeat (first [apply calm_oldCallGas|apply calm_wordsGas; lia|calm_step]).
Qed.

(** The price of an SSTORE. *)
Lemma sstoreNet_Panic c n i cl r1 r2 r3 o cu v s : (sstoreNet c n i cl r1 r2 r3 o cu v s).1 = Panic →
  refund (f_world s) < r1 ∧ o ≠ zero_fixed 32 ∧ cu = zero_fixed 32 ∧ v ≠ zero_fixed 32.
Proof.
  unfold sstoreNet. destruct (decide (refund (f_world s) < r1)) as [Hlt|Hge]; repeat case_bool_decide; try done.
  all: try (intros _; split_and!; congruence).
  all: unfold subRefund, SubRefund, mbind, stM_bind; rewrite (proj2 (Z.ltb_ge _ _)) by lia; done.
Qed.

Lemma sstore_Panic g n s : is_sstore g = true → (2 ≤ length (f_stack s))%nat →
  (dynamicGas ctx env g n s).1 = Panic → sstore_cause env g s.
Proof.
  intros Hg Hs. unfold sstore_cause. destruct (f_stack s) as [|x [|y l]] eqn:Hl; [cbn in Hs; lia..|]. cbn [lookup list_lookup default id].
  assert (peek_at 0 s = (Ok x, s) ∧ peek_at 1 s = (Ok y, s)) as [H0 H1] by (unfold peek_at; rewrite !getS_bind, Hl; done).
  assert (get_world s = (Ok (f_world s), s)) as Hw by done.
  intros Hp. destruct g; try done; cbn [dynamicGas clearing_refund] in *; eexists; (split; [reflexivity|]); revert Hp.
  - unfold sstoreGas. rewrite (stM_Ok_bind _ _ _ _ _ H1), (stM_Ok_bind _ _ _ _ _ H0), (stM_Ok_bind _ _ _ _ _ Hw). destruct (_ || _).
    + unfold sstoreLegacy. by repeat case_match.
    + intros Hp. right. by apply sstoreNet_Panic in Hp.
  - unfold sstoreGasEIP2200. rewrite getS_bind. destruct (_ <=? _); [done|].
    rewrite (stM_Ok_bind _ _ _ _ _ H1), (stM_Ok_bind _ _ _ _ _ H0), (stM_Ok_bind _ _ _ _ _ Hw). intros Hp. right. by apply sstoreNet_Panic in Hp.
  - unfold sstoreGasEIP2929. rewrite getS_bind. destruct (_ <=? _); [done|].
    rewrite (stM_Ok_bind _ _ _ _ _ H1), (stM_Ok_bind _ _ _ _ _ H0), (stM_Ok_bind _ _ _ _ _ Hw).
    destruct (SlotInAccessList (f_world s) (self env) (Bytes32 x)) as [[] []]; intros Hp; [right; by apply sstoreNet_Panic in Hp..|by left].
Qed.

(** ** Memory *)

Definition mem_needs (m : memorySizeFunc) : nat :=
  match m with
  | memoryKeccak256 | memoryReturn | memoryRevert | memoryLog => 2
  | memoryCallDataCopy | memoryReturnDataCopy | memoryCodeCopy | memoryCreate | memoryCreate2 => 3
  | memoryExtCodeCopy => 4
  | memoryMLoad | memoryMStore8 | memoryMStore => 1
  | memoryCall => 7
  | memoryDelegateCall | memoryStaticCall => 6
  end.

(** The memory function that belongs to an instruction. *)
Definition memory_of (e : executionFunc) : option memorySizeFunc :=
  match e with
  | Reading opKeccak256 => Some memoryKeccak256
  | Reading opCallDataCopy => Some memoryCallDataCopy
  | Codes opReturnDataCopy => Some memoryReturnDataCopy
  | Codes opCodeCopy => Some memoryCodeCopy
  | Codes opExtCodeCopy => Some memoryExtCodeCopy
  | Flow opMload => Some memoryMLoad
  | Flow opMstore => Some memoryMStore
  | Flow opMstore8 => Some memoryMStore8
  | Calling opCreate => Some memoryCreate
  | Calling opCreate2 => Some memoryCreate2
  | Calling (opCall | opCallCode) => Some memoryCall
  | Calling opDelegateCall => Some memoryDelegateCall
  | Calling opStaticCall => Some memoryStaticCall
  | Ending opReturn => Some memoryReturn
  | Ending opRevert => Some memoryRevert
  | Making (makeLog _) => Some memoryLog
  | _ => None
  end.

Lemma memSize_Ok l i j : (i < length l)%nat → (j < length l)%nat →
  memSize l i j = Ok (calcMemSize64 (default 0 (l !! i)) (default 0 (l !! j))).
Proof.
  intros Hi Hj. unfold memSize, back, go_index. destruct (lookup_lt_is_Some_2 l i Hi) as [x ->], (lookup_lt_is_Some_2 l j Hj) as [y ->].
  done.
Qed.

Lemma calcMemSize64_in s o n v : is_word o → is_word n → calcMemSize64 o n = (v, false) → v ≤ mem_len s → in_memory s (o, n).
Proof.
  unfold calcMemSize64, calcMemSize64WithUint, Uint64WithOverflow, Uint64, IsUint64, is_word. intros Ho Hn.
  destruct (Z.ltb_spec n two64) as [Hlt|]; [|done]. cbn [negb]. rewrite (u64_id n) by (unfold two64 in *; lia).
  destruct (Z.eqb_spec n 0) as [->|Hn0]; [by left|]. destruct (Z.ltb_spec o two64) as [Hlto|]; [|done]. cbn [negb].
  rewrite (u64_id o) by (unfold two64 in *; lia). intros [= <- Hge%Z.ltb_ge] Hle. right. cbn.
  assert (u64 (o + n) = o + n); [|lia]. unfold u64, two64 in *.
  destruct (Z.lt_ge_cases (o + n) 18446744073709551616); [apply Z.mod_small; lia|].
  rewrite <- (Z.mod_add (o + n) (-1)), Z.mod_small in Hge by lia. lia.
Qed.

Lemma word_default l i : Forall is_word l → is_word (default 0 (l !! i)).
Proof. intros Hl. destruct (l !! i) eqn:H; [|done]. by eapply (proj1 (Forall_lookup _ _) Hl). Qed.

Lemma callMemSize_in s l a b c d n : Forall is_word l → (a < length l)%nat → (b < length l)%nat → (c < length l)%nat → (d < length l)%nat →
  callMemSize l a b c d = Ok (n, false) → n ≤ mem_len s →
  in_memory s (default 0 (l !! c), default 0 (l !! d)) ∧ in_memory s (default 0 (l !! a), default 0 (l !! b)).
Proof.
  intros Hl Ha Hb Hc Hd. unfold callMemSize. rewrite !memSize_Ok by done. cbn.
  destruct (calcMemSize64 (default 0 (l !! a)) _) as [x []] eqn:Hx; [done|].
  destruct (calcMemSize64 (default 0 (l !! c)) _) as [y []] eqn:Hy; [done|].
  intros [= <-] Hle. destruct (Z.ltb_spec y x); split; eapply calcMemSize64_in; eauto using word_default; lia.
Qed.

(** The memory that the function of an instruction computes covers what the instruction touches. *)
Lemma memorySize_covers e m s l n : memory_of e = Some m → Forall is_word l → (mem_needs m ≤ length l)%nat →
  memorySize m l = Ok (n, false) → n ≤ mem_len s → Forall (in_memory s) (touches e l).
Proof.
  intros He Hl Hn Hm Hle.
  assert (∀ i j, (i < length l)%nat → (j < length l)%nat → memSize l i j = Ok (n, false) →
    Forall (in_memory s) [(default 0 (l !! i), default 0 (l !! j))]) as H1.
  { intros i j Hi Hj H. rewrite memSize_Ok in H by done. injection H as H. constructor; [|done].
    eapply calcMemSize64_in; eauto using word_default. }
  assert (∀ k, calcMemSize64 (default 0 (l !! 0%nat)) k = calcMemSize64WithUint (default 0 (l !! 0%nat)) k →
    (o ← back l 0; Ok (calcMemSize64WithUint o k)) = Ok (n, false) → is_word k → Forall (in_memory s) [(default 0 (l !! 0%nat), k)]) as H2.
  { intros k Hk H Hw. destruct l as [|x l]; [done|]. injection H as H. constructor; [|done].
    eapply calcMemSize64_in; eauto using word_default. cbn in *. by rewrite Hk. }
  assert (∀ a b c d, (a < length l)%nat → (b < length l)%nat → (c < length l)%nat → (d < length l)%nat →
    callMemSize l a b c d = Ok (n, false) →
    Forall (in_memory s) [(default 0 (l !! c), default 0 (l !! d)); (default 0 (l !! a), default 0 (l !! b))]) as H3.
  { intros a b c d Ha Hb Hc Hd H. destruct (callMemSize_in s l a b c d n) as [Hx Hy]; try done.
    constructor; [exact Hx|]. constructor; [exact Hy|constructor]. }
  destruct e as [o|o|o|o|o|o|o|o|o|o|o|o|o|o]; try done; destruct o; try done; injection He as <-; cbn [memorySize mem_needs touches] in *;
    first [apply H1; [lia|lia|done]|apply H2; done|apply H3; [lia|lia|lia|lia|done]].
Qed.

Lemma memory_none e l : memory_of e = None → touches e l = [].
Proof. destruct e as [o|o|o|o|o|o|o|o|o|o|o|o|o|o]; try done; by destruct o. Qed.

Lemma memorySize_calm m l : (mem_needs m ≤ length l)%nat → memorySize m l ≠ Panic.
Proof.
  intros Hn. assert (0 < length l)%nat as H0 by (destruct m; cbn in Hn; lia).
  destruct m; cbn [mem_needs memorySize] in *; unfold callMemSize; rewrite ?memSize_Ok by lia; cbn; try done;
    try (destruct l; [cbn in H0; lia|done]); destruct (calcMemSize64 _ _) as [? []]; try done; by destruct (calcMemSize64 _ _) as [? []].
Qed.
End prices.

#[export] Instance memorySizeFunc_eq_dec : EqDecision memorySizeFunc.
Proof. solve_decision. Defined.

(** ** Tables *)

(** The entries of a table agree with what the instructions need. *)
Definition fitting_op (o : operation) : bool :=
  let e := op_execute o in
  (Z.of_nat (needs e) <=? op_minStack o) &&
  (Z.of_nat (from_option gas_needs O (op_dynamicGas o)) <=? op_minStack o) &&
  (Z.of_nat (from_option mem_needs O (op_memorySize o)) <=? op_minStack o) &&
  (op_maxStack o + Z.of_nat (leaves e) - Z.of_nat (needs e) <=? StackLimit) &&
  bool_decide (op_memorySize o = memory_of e) &&
  match op_memorySize o, op_dynamicGas o with Some _, None => false | _, _ => true end &&
  match op_dynamicGas o, e with Some (gasSStore | gasSStoreEIP2200 | makeGasSStoreFunc _), Flow opSstore => true | Some g, _ => negb (is_sstore g) | None, _ => true end &&
  match e with Making (makePush _ n) => 0 <=? n | _ => true end.

(** The instructions that read the code at the program counter. *)
Definition reads_code (e : executionFunc) : bool :=
  match e with Ending opUndefined | Making (makePush _ _) => true | _ => false end.

Definition fitting_table (jt : JumpTable) : bool :=
  forallb (λ b, fitting_op (jt b)) all_bytes && negb (reads_code (op_execute (jt x00))).

Definition set_fitting (m : go_res JumpTable) : bool := match m with Ok jt => fitting_table jt | _ => false end.

Lemma instructionSet_set_fitting r : set_fitting (instructionSet r) = true.
Proof. unfold instructionSet. do 9 (match goal with |- context [if ?b then _ else _] => destruct b end; [vm_compute; reflexivity|]). vm_compute. reflexivity. Qed.

Lemma instructionSet_fitting r jt : instructionSet r = Ok jt → fitting_table jt = true.
Proof. intros H. pose proof (instructionSet_set_fitting r) as Hs. by rewrite H in Hs. Qed.

Record fitting (o : operation) : Prop := {
  fo_needs : Z.of_nat (needs (op_execute o)) ≤ op_minStack o;
  fo_gas g : op_dynamicGas o = Some g → Z.of_nat (gas_needs g) ≤ op_minStack o;
  fo_mem m : op_memorySize o = Some m → Z.of_nat (mem_needs m) ≤ op_minStack o;
  fo_max : op_maxStack o + Z.of_nat (leaves (op_execute o)) - Z.of_nat (needs (op_execute o)) ≤ StackLimit;
  fo_memory : op_memorySize o = memory_of (op_execute o);
  fo_charged : op_dynamicGas o = None → op_memorySize o = None;
  fo_sstore g : op_dynamicGas o = Some g → is_sstore g = true → op_execute o = Flow opSstore;
  fo_push size n : op_execute o = Making (makePush size n) → 0 ≤ n
}.

Lemma fitting_table_op jt b : fitting_table jt = true → fitting (jt b).
Proof.
  unfold fitting_table. intros [Hall _]%andb_true_iff. rewrite forallb_forall in Hall.
  specialize (Hall b (proj1 (list_elem_of_In _ _) (all_bytes_complete b))). revert Hall. generalize (jt b). intros o Ho.
  unfold fitting_op in Ho. rewrite !andb_true_iff, !Z.leb_le, bool_decide_eq_true in Ho.
  destruct Ho as [[[[[[[H1 H2] H3] H4] H5] H6] H7] H8]. split; try done.
  - intros g Hg. by rewrite Hg in H2.
  - intros m Hm. by rewrite Hm in H3.
  - intros Hd. rewrite Hd in H6. by destruct (op_memorySize o).
  - intros g Hg Hs. rewrite Hg in H7. destruct g; try done; (destruct (op_execute o) as [| | | | | | | | | |k| | |]; try done; by destruct k).
  - intros size n He. rewrite He in H8. by apply Z.leb_le.
Qed.

Lemma fitting_table_code jt code pc : fitting_table jt = true → reads_code (op_execute (jt (GetOp code pc))) = true →
  (Z.to_nat pc < length code)%nat.
Proof.
  unfold fitting_table. intros [_ H0%negb_true_iff]%andb_true_iff Hr. apply Nat.nle_gt. intros Hge.
  unfold GetOp in Hr. rewrite lookup_ge_None_2 in Hr by done. cbn in Hr. congruence.
Qed.

(** ** Rounds *)

(** What a price leaves as it is. *)
Record kept (s s' : Frame) : Prop := {
  kp_stack : f_stack s' = f_stack s;
  kp_pc : f_pc s' = f_pc s;
  kp_returnData : f_returnData s' = f_returnData s;
  kp_accounts : accounts (f_world s') = accounts (f_world s)
}.

Lemma kept_price_rel : price_rel kept.
Proof. split; try done. intros s1 s2 s3 [H1 H2 H3 H4] [H1' H2' H3' H4']. split; congruence. Qed.
#[export] Instance kept_refl : Reflexive kept := pr_refl _ kept_price_rel.
#[export] Instance kept_trans : Transitive kept := pr_trans _ kept_price_rel.

Lemma frame_try {S A} (R : S → S → Prop) (m : stM S A) : frame R m → frame R (try m).
Proof. intros Hm s r s' H. unfold try in H. destruct (m s) as [[] s1] eqn:Hs; injection H as <- <-; by eapply Hm. Qed.

Lemma kept_memoryGasCost n : frame kept (memoryGasCost n).
Proof. unfold memoryGasCost. repeat frame_step. done. Qed.

Transparent GetCode.
Lemma kept_sized env s s' : kept s s' → sized env s → sized env s'.
Proof.
  intros [_ _ Hr Hc] [H1 H2 H3 H4]. split; [done|done|by rewrite Hr|]. intros a. unfold GetCode, account in *. rewrite Hc. apply H4.
Qed.
Opaque GetCode.

Lemma kept_cause {HC : Crypto} {HP : Precompiles} {HI : Interpreter} ctx env e s s' : kept s s' →
  exec_cause ctx env e s' → exec_cause ctx env e s.
Proof. intros [Hs _ _ Ha]. destruct e; try done. cbn. unfold callee_panics. by rewrite Hs, Ha. Qed.

Section charge.
Context {HC : Crypto}.
Context (ctx : EvmContext) (env : Env).

Lemma kept_charge g m : refund_ok g = true → frame kept (charge ctx env g m).
Proof.
  intros Hr. unfold charge.
  assert (∀ n, frame kept (UseGas n)) by (intros n s r s'; unfold UseGas; destruct (_ <? _); intros [= <- <-]; done).
  assert (∀ n, frame kept (mem_Resize n)) by (intros n; apply frame_modify; intros s; by destruct (_ <? _)).
  assert (∀ n, frame kept (try (dynamicGas ctx env g n))).
  { intros n. apply frame_try, price_any_dynamicGas; [apply kept_price_rel|apply kept_memoryGasCost|done|done]. }
  repeat (first [by auto|frame_step]).
Qed.

Lemma resize_len n s : n ≤ mem_len (resize n s).
Proof.
  unfold resize. destruct (Z.ltb_spec (mem_len s) n); [|done]. unfold mem_len in *. cbn. rewrite length_app, length_replicate. lia.
Qed.

(** The memory is enlarged to what the instruction needs; only the price of an SSTORE can panic, for
    its causes. *)
Definition charge_covers (g : gasFunc) (m : option memorySizeFunc) (s : Frame) (r : go_res (option error)) (s' : Frame) : Prop :=
  match r with
  | Ok None => ∀ m', m = Some m' → ∃ n, memorySize m' (f_stack s) = Ok (n, false) ∧ n ≤ mem_len s'
  | Panic => is_sstore g = true ∧ sstore_cause env g s
  | _ => True
  end.

Lemma toWordSize_covers n : 0 ≤ n → toWordSize n * 32 < two64 → n ≤ toWordSize n * 32.
Proof.
  unfold toWordSize, MaxUint64, two64. intros Hn. destruct (Z.ltb_spec (18446744073709551615 - 31) n); [|dlia].
  change (18446744073709551615 / 32) with 576460752303423487. lia.
Qed.

Lemma charge_safe g m s : (gas_needs g ≤ length (f_stack s))%nat → (∀ m', m = Some m' → (mem_needs m' ≤ length (f_stack s))%nat) →
  wp (charge ctx env g m) (charge_covers g m s) s.
Proof.
  intros Hg Hm. unfold charge. do 4 wp_step.
  destruct (match m with Some m => memorySize m (f_stack s) | None => Ok (0, false) end) as [[n overflow]| | |] eqn:Hms;
    [|done|destruct m as [m'|]; [by apply memorySize_calm in Hms; [|apply Hm]|done]|done].
  destruct overflow; [by wp_step|]. unfold SafeMul. destruct (Z.leb_spec two64 (toWordSize n * 32)) as [|Hlt]; [by wp_step|].
  wp_step. wp_step. unfold wp at 1. pose proof (calm_dynamicGas ctx env g (u64 (toWordSize n * 32))) as Hcalm.
  destruct (dynamicGas ctx env g (u64 (toWordSize n * 32)) s) as [r s1] eqn:Hd. cbn [fst snd].
  destruct r as [c|e| |]; [|by wp_step| |done].
  2: { destruct (is_sstore g) eqn:Hs.
       { split; [done|]. apply (sstore_Panic ctx env g (u64 (toWordSize n * 32))); [done|by destruct g|by rewrite Hd]. } specialize (Hcalm eq_refl s Hg). rewrite Hd in Hcalm. by destruct Hcalm. }
  wp_step. apply wp_UseGas; intros _; cbn [negb]; [by wp_step|].
  assert (∀ m', m = Some m' → memorySize m' (f_stack s) = Ok (n, false) ∧ 0 ≤ n) as Hn.
  { intros m' ->. split; [done|by eapply memorySize_nonneg]. }
  assert (∀ m', m = Some m' → n ≤ u64 (toWordSize n * 32)) as Hle.
  { intros m' [_ Hn0]%Hn. pose proof (toWordSize_covers n Hn0 Hlt). rewrite u64_id; [done|]. unfold two64 in Hlt. lia. }
  wp_step. destruct (Z.ltb_spec 0 (u64 (toWordSize n * 32))).
  - apply wp_mem_Resize. wp_step. intros m' Hm'. exists n. split; [by apply Hn|]. etrans; [by eapply Hle|apply resize_len].
  - wp_step. wp_step. intros m' Hm'. exists n. split; [by apply Hn|]. specialize (Hle m' Hm'). unfold mem_len. lia.
Qed.
End charge.

(** A well-formed frame of a run that was given an amount of gas. *)
Record typed (gas : Z) (s : Frame) : Prop := {
  ty_words : Forall is_word (f_stack s);
  ty_height : Z.of_nat (length (f_stack s)) ≤ StackLimit;
  ty_memory : mem_ok s;
  ty_paid : f_gas s + f_lastGasCost s ≤ gas;
  ty_gas : is_u64 (f_gas s);
  ty_pc : is_u64 (f_pc s)
}.

Lemma mem_ok_len s : mem_ok s → mem_len s < 2 ^ 62.
Proof. intros (k & Hk & Hr & _). lia. Qed.

(** Frames between which whole rounds lie. *)
Inductive rounds `{!Crypto, !Uint256, !Precompiles, !Interpreter} (jt : JumpTable) (ctx : EvmContext) (env : Env) (s : Frame) : Frame → Prop :=
  | rounds_refl : rounds jt ctx env s s
  | rounds_step s1 s2 res : rounds jt ctx env s s1 → step jt ctx env s1 = (Ok (res, None), s2) →
      rounds jt ctx env s (f_set_pc (u64 (f_pc s2 + 1)) s2).

Section rounds.
Context {HC : Crypto} {HU : Uint256} {HP : Precompiles} {HPL : PrecompileLaws} {HI : Interpreter} {HGL : GasLaws} {HUL : Uint256Laws}.
Context (jt : JumpTable) (ctx : EvmContext).
Context (Hjt : priced_table jt = true) (Hfit : fitting_table jt = true) (Heip : IsEIP150 (ec_rules ctx) = true).
Context (Hlimit : is_u64 (ec_GasLimit ctx)).

(** The instruction at the program counter. *)
Definition current (env : Env) (s : Frame) : operation := jt (GetOp (ct_Code (e_contract env)) (f_pc s)).

Definition round_post (env : Env) (s : Frame) (r : go_res outcome) (s' : Frame) : Prop :=
  match r with
  | Ok (_, None) => Forall is_word (f_stack s') ∧ Z.of_nat (length (f_stack s')) ≤ StackLimit ∧ is_u64 (f_pc s')
  | Panic => sized env s → panic_cause ctx env (current env s) s
  | _ => True
  end.

(** The execution after the charge. *)
Lemma round_execute gas env s s1 : typed gas s → kept s s1 →
  op_minStack (current env s) ≤ Z.of_nat (length (f_stack s)) ≤ op_maxStack (current env s) →
  Forall (in_memory s1) (touches (op_execute (current env s)) (f_stack s1)) → mem_ok s1 → is_u64 (f_gas s1) →
  wp (execute ctx env (op_execute (current env s))) (round_post env s) s1.
Proof.
  intros [Hw Hh _ _ _ Hpc] Hk Hst Hin Hm Hg. pose proof (fitting_table_op jt (GetOp (ct_Code (e_contract env)) (f_pc s)) Hfit) as Ho.
  fold (current env s) in Ho. set (o := current env s) in *. pose proof (fo_needs _ Ho). pose proof (fo_max _ Ho).
  pose proof (kp_stack _ _ Hk) as Hks. pose proof (kp_pc _ _ Hk) as Hkp.
  assert (reads_code (op_execute o) = true → (Z.to_nat (f_pc s1) < length (ct_Code (e_contract env)))%nat) as Hcode.
  { intros Hr. rewrite Hkp. by eapply fitting_table_code. }
  eapply wp_mono.
  - apply execute_safe.
    + exact Hlimit.
    + split; [by rewrite Hks|rewrite Hks; lia|done|by apply mem_ok_len|done|by rewrite Hkp].
    + intros He. rewrite He in Hcode. apply lookup_lt_is_Some_2. by apply Hcode.
    + intros size n He. rewrite He in Hcode. split; [|by eapply fo_push].
      pose proof (Hcode eq_refl). rewrite Hkp in *. destruct Hpc. lia.
  - intros [[res [e|]]| | |] s2 Hp; try done; [|by intros Hsz; left; eapply kept_cause, Hp, kept_sized]. destruct Hp as (Hw2 & Hl & Hpc2). rewrite Hks in Hl. split_and!; [done|lia|done].
Qed.

Lemma round_safe gas env s : typed gas s → wp (step jt ctx env) (round_post env s) s.
Proof.
  intros Hty. pose proof (fitting_table_op jt (GetOp (ct_Code (e_contract env)) (f_pc s)) Hfit) as Ho.
  pose proof (priced_table_op jt (GetOp (ct_Code (e_contract env)) (f_pc s)) Hjt) as Hpr.
  unfold step. do 2 wp_step. fold (current env s) in *. destruct (Z.ltb_spec (Z.of_nat (length (f_stack s))) (op_minStack (current env s))); [by wp_step|].
  destruct (Z.ltb_spec (op_maxStack (current env s)) (Z.of_nat (length (f_stack s)))); [by wp_step|].
  pose proof (ty_gas _ _ Hty) as Hg. unfold is_u64 in Hg.
  assert (0 ≤ constantGas (current env s)) as Hc0 by (unfold priced_op in Hpr; rewrite !andb_true_iff, Z.leb_le in Hpr; naive_solver).
  wp_step. apply wp_UseGas; intros Hc; cbn [negb]; [by wp_step|]. set (s1 := f_set_gas _ s).
  assert (kept s s1) as Hk1 by done. wp_step. destruct (op_dynamicGas (current env s)) as [g|] eqn:Hdg.
  - assert (refund_ok g = true ∧ min_logs g = true ∧ (op_memorySize (current env s) = None ∨ charges_memory g = true)) as (Hr & Hl & Hcm).
    { unfold priced_op in Hpr. rewrite Hdg, !andb_true_iff, orb_true_iff in Hpr. destruct Hpr as [[_ [[Hr Hl] Hcm]] _].
      split; [done|]. split; [done|]. destruct Hcm as [Hcm|Hcm]; [by right|left]. by destruct (op_memorySize _). }
    assert (calls_end True (e_depth env)) as Hce by (by left).
    pose proof (charge_spec ctx env Heip True Hce g (op_memorySize (current env s)) s1 Hr Hl Hcm) as Hcharge.
    specialize (Hcharge ltac:(unfold is_u64; cbn; lia) (ty_memory _ _ Hty)).
    pose proof (charge_safe ctx env g (op_memorySize (current env s)) s1) as Hsafe.
    specialize (Hsafe ltac:(pose proof (fo_gas _ Ho g Hdg); cbn; lia) ltac:(intros m Hm; pose proof (fo_mem _ Ho m Hm); cbn; lia)).
    unfold wp in Hcharge, Hsafe |- * at 1. destruct (charge ctx env g (op_memorySize (current env s)) s1) as [r s2] eqn:Hch.
    pose proof (kept_charge ctx env g _ Hr _ _ _ Hch) as Hk2. cbn [fst snd] in *.
    destruct r as [[e|]| | |]; [by wp_step| |done| |done].
    + destruct Hcharge as (Hst & Hm2 & c & _ & Hc2 & Hg2 & _).
      apply (round_execute gas); [done|by etrans|lia| |done|unfold is_u64; cbn in *; lia].
      destruct (op_memorySize (current env s)) as [m|] eqn:Hms.
      * destruct (Hsafe m eq_refl) as (n & Hn & Hle). rewrite Hst. pose proof (fo_mem _ Ho m Hms).
        eapply memorySize_covers; [by rewrite <- (fo_memory _ Ho)|apply Hty|cbn in *; lia|done|done].
      * rewrite memory_none; [constructor|]. by rewrite <- (fo_memory _ Ho).
    + intros _. destruct Hsafe as [Hsst Hcause]. right. split; [by eapply fo_sstore|]. by exists g.
  - wp_step. apply (round_execute gas); [done|done|lia| |apply Hty|unfold is_u64; cbn; lia].
    rewrite memory_none; [constructor|]. rewrite <- (fo_memory _ Ho). by apply fo_charged.
Qed.
End rounds.

(** ** Theorems *)

Section claims.
Context {HC : Crypto} {HU : Uint256} {HP : Precompiles} {HPL : PrecompileLaws} {HUL : Uint256Laws}.
Context (jt : JumpTable) (ctx : EvmContext) (Hmc : machine jt ctx) (Hlimit : is_u64 (ec_GasLimit ctx)).

(** The contracts that are called run in an interpreter of any number of levels. *)
Context (n : nat).
#[local] Instance inner : Interpreter := interpreter jt ctx n.

Lemma machine_fitting : fitting_table jt = true.
Proof. destruct Hmc as [_ Ht]. by eapply instructionSet_fitting. Qed.

Lemma typed_init c w : is_u64 (ct_Gas c) → typed (ct_Gas c) (init_frame c w).
Proof. intros Hg. split; [constructor|done|apply init_mem_ok|cbn; lia|done|done]. Qed.

Lemma step_typed gas env s res s' : typed gas s → step jt ctx env s = (Ok (res, None), s') → typed gas s'.
Proof.
  intros Hty Hs. destruct (machine_priced _ _ Hmc) as [Hjt Heip]. pose proof (interpreter_gas jt ctx Hjt Heip n) as Hlaws.
  pose proof (round_safe jt ctx Hjt machine_fitting Heip Hlimit gas env s Hty) as Hr.
  pose proof (step_spec jt ctx Hjt Heip True env s (or_introl I) (ty_gas _ _ Hty) (ty_memory _ _ Hty)) as Hg. clear Hjt.
  unfold wp in Hr, Hg. rewrite Hs in Hr, Hg. destruct Hr as (Hw & Hh & Hp), Hg as (Hg & Hm & Hpaid).
  pose proof (ty_gas _ _ Hty) as Hg0. pose proof (ty_paid _ _ Hty). cbn [snd] in *. split; [done..|lia| |done]. unfold is_u64 in *. lia.
Qed.

Lemma rounds_typed gas env s s' : typed gas s → rounds jt ctx env s s' → typed gas s'.
Proof.
  intros Hty. induction 1 as [|s1 s2 res _ IH Hs]; [exact Hty|]. apply (step_typed gas) in Hs as [Hw Hh Hm Hp Hg _]; [|exact IH].
  split; [exact Hw|exact Hh|exact Hm|exact Hp|exact Hg|apply u64_range].
Qed.

(** C9: In a run of a contract every frame is well formed. The stack holds words of 256 bits and at
    most 1024 of them. The memory is a whole number of words, and the fee for all of them, three for a
    word and one for every 512 of the square, is noted and was paid: with the gas that is left it is at
    most the gas of the contract. The gas and the program counter are machine integers. *)
Theorem frames_typed env w s : is_u64 (ct_Gas (e_contract env)) →
  rounds jt ctx env (init_frame (e_contract env) w) s → typed (ct_Gas (e_contract env)) s.
Proof. intros Hg. apply rounds_typed. by apply typed_init. Qed.

End claims.

(** ** Witnesses *)

Lemma pow_mod_word p x : is_word (pow_mod p x).
Proof. destruct p; apply is_word_mod. Qed.

Lemma ref_uint256_laws : @Uint256Laws ref_uint256.
Proof.
  assert (∀ x y, is_word x → is_word y → is_word (if y =? 0 then 0 else x / y)) as Hdiv.
  { unfold is_word. intros x y Hx Hy. destruct (Z.eqb_spec y 0); [done|]. split; [apply Z.div_pos; lia|].
    eapply Z.le_lt_trans; [|apply Hx]. apply Z.div_le_upper_bound; nia. }
  assert (∀ x y, is_word y → is_word (if y =? 0 then 0 else x mod y)) as Hmod.
  { unfold is_word. intros x y Hy. destruct (Z.eqb_spec y 0); [done|]. pose proof (Z.mod_pos_bound x y ltac:(lia)). lia. }
  assert (∀ b z, is_word (if b : bool then 0 else z mod two256)) as Hif by (intros [] z; [done|apply is_word_mod]).
  split; [done|..].
  - intros [] x y Hx Hy; cbn; try apply is_word_mod; auto.
    + destruct y; [done|apply pow_mod_word|done].
    + destruct (Z.ltb_spec x 31); [|done]. destruct (_ <? _); [|apply is_word_mod].
      unfold is_word in *. pose proof (Z.mod_pos_bound y (2 ^ (8 * x + 8)) ltac:(apply Z.pow_pos_nonneg; lia)).
      assert (2 ^ (8 * x + 8) ≤ 2 ^ 256) by (apply Z.pow_le_mono_r; lia). unfold two256. lia.
  - intros x y Hx Hy. cbn. destruct (y <? 32); [|done]. pose proof (Z.mod_pos_bound (x / 256 ^ (31 - y)) 256 ltac:(lia)). apply is_word_small. lia.
  - intros [] x y z Hx Hy Hz; cbn; auto.
  - intros. apply is_word_mod.
  - intros x k Hx. cbn. destruct (Z.lt_ge_cases k 0); [by rewrite Z.pow_neg_r, Zdiv_0_r by done|]. destruct Hx.
    pose proof (Z.pow_pos_nonneg 2 k ltac:(lia) ltac:(lia)). split; [apply Z.div_pos; lia|]. eapply Z.le_lt_trans; [|done]. apply Z.div_le_upper_bound; nia.
  - intros. apply is_word_mod.
Qed.

#[local] Existing Instances ref_uint256 ref_uint256_laws code_crypto.

(** PUSH1 5, DIFFICULTY. *)
Definition sample_env : Env :=
  MkEnv (MkContract (sample_addr x02) (sample_addr x05) (Some 0) 1000 [x60; x05; x44] (zero_fixed 32) (sample_addr x05)) [] false 0.

Definition sample_start : Frame := init_frame (e_contract sample_env) empty_world.
Definition sample_pushed : Frame := f_set_pc 2 (f_set_stack [5] (f_set_gas 997 sample_start)).

Lemma sample_gas_limit : is_u64 (ec_GasLimit sample_ctx).
Proof. split; vm_compute; congruence. Qed.

Lemma sample_rounds : @rounds _ _ _ (interpreter sample_table sample_ctx 0) sample_table sample_ctx sample_env sample_start sample_pushed.
Proof.
  apply (@rounds_step _ _ _ (interpreter sample_table sample_ctx 0) sample_table sample_ctx sample_env sample_start sample_start
    (f_set_pc 1 (f_set_stack [5] (f_set_gas 997 sample_start))) []).
  - apply rounds_refl.
  - vm_compute. reflexivity.
Qed.

Lemma frames_typed_witness : typed 1000 sample_pushed.
Proof.
  apply (frames_typed sample_table sample_ctx sample_machine sample_gas_limit 0 sample_env empty_world sample_pushed);
    [split; vm_compute; congruence|exact sample_rounds].
Defined.

