(* ===== verification/Transition.v ===== *)
(** * State transition

    Applying a message to the state (src/core/state_transition.go, src/core/gaspool.go): the checks,
    buying gas, the intrinsic gas, the dispatch to the virtual machine, the token processor or the
    validator processor, the refund and the reward of the creator of the block.

    The validator processor is that of ValProcessor.v and the entry points of the virtual machine
    those of Evm.v; the interpreter and the token processor are interfaces. The state is the world
    and the gas pool of the block, which are shared with the caller, and the gas of the
    transition. *)

From Stdlib Require Import ZArith Lia Strings.Byte.
From stdpp Require Import base tactics option numbers list gmap strings.
From S2P Require Import Prelude Common Chain GoMap DelegRules ValOps World TxLog ValStorage DepositSig ValProcessor.
From S2P Require Import Fees Evm.

Definition ErrNonceTooLow : error := Error "core.ErrNonceTooLow".
Definition ErrNonceTooHigh : error := Error "core.ErrNonceTooHigh".
Definition ErrGasLimitReached : error := Error "core.ErrGasLimitReached".
Definition ErrInsufficientFundsForTransfer : error := Error "core.ErrInsufficientFundsForTransfer".
Definition ErrInsufficientFunds : error := Error "core.ErrInsufficientFunds".
Definition ErrGasUintOverflow : error := Error "core.ErrGasUintOverflow".
Definition ErrIntrinsicGas : error := Error "core.ErrIntrinsicGas".
Definition ErrTipAboveFeeCap : error := Error "core.ErrTipAboveFeeCap".
Definition ErrTipVeryHigh : error := Error "core.ErrTipVeryHigh".
Definition ErrFeeCapVeryHigh : error := Error "core.ErrFeeCapVeryHigh".
Definition ErrFeeCapTooLow : error := Error "core.ErrFeeCapTooLow".
Definition ErrSenderNoEOA : error := Error "core.ErrSenderNoEOA".

Definition TxGas : Z := 21000.
Definition TxGasContractCreation : Z := 53000.
Definition TxDataZeroGas : Z := 4.
Definition TxDataNonZeroGasEIP2028 : Z := 16.
Definition TxAccessListAddressGas : Z := 2400.
Definition RefundQuotientEIP3529 : Z := 5.

(** ** Gas pool *)

Definition AddGas (amount gp : Z) : go_res Z :=
  if MaxUint64 - amount <? gp then Panic else Ok (gp + amount).

Definition SubGas (amount gp : Z) : go_res Z :=
  if gp <? amount then Err ErrGasLimitReached else Ok (gp - amount).

(** ** Messages *)

Abbreviation AccessList := (list (Address * list Hash)).

Definition StorageKeys (al : AccessList) : Z := foldl (λ sum t, sum + Z.of_nat (length t.2)) 0 al.

Record Message := MkMessage {
  m_From : Address;
  m_To : option Address;
  m_GasPrice : Z;
  m_GasFeeCap : option Z;
  m_GasTipCap : option Z;
  m_Gas : Z;
  m_Value : Z;
  m_Nonce : Z;
  m_IsFake : bool;
  m_Data : bytes;
  m_AccessList : option AccessList;
  m_TxHash : Hash
}.

(** A transaction with the sender that its signature gives. *)
Record Transaction := MkTransaction {
  tx_Nonce : Z;
  tx_Gas : Z;
  tx_GasPrice : Z;
  tx_GasFeeCap : Z;
  tx_GasTipCap : Z;
  tx_To : option Address;
  tx_Value : Z;
  tx_Data : bytes;
  tx_AccessList : option AccessList;
  tx_Hash : Hash;
  tx_Sender : go_res Address
}.

(** With a base fee, the price is the effective price. *)
Definition AsMessage (tx : Transaction) (baseFee : option Z) : go_res Message :=
  let gasPrice :=
    match baseFee with
    | None => tx_GasPrice tx
    | Some baseFee => Z.min (tx_GasTipCap tx + baseFee) (tx_GasFeeCap tx)
    end in
  from ← tx_Sender tx;
  Ok (MkMessage from (tx_To tx) gasPrice (Some (tx_GasFeeCap tx)) (Some (tx_GasTipCap tx)) (tx_Gas tx)
        (tx_Value tx) (tx_Nonce tx) false (tx_Data tx) (tx_AccessList tx) (tx_Hash tx)).

(** ** The environment *)

(** The token processor, with the decoder of its operations; TokenTx.v has the instance. *)
Class TokenProcessor := {
  TokenOperation : Type;
  IsTokenCreate : bytes → bool;
  TokenDecodeBytes : bytes → go_res TokenOperation;
  IsToken : World → Address → go_res bool;
  TokenCall : Address → Address → Z → TokenOperation → stM World bytes
}.

(** The fields of [evm.Context] and [evm.Config]. *)
Record TxContext := MkTxContext {
  tc_block : BlockContext;
  tc_Coinbase : Address;
  tc_BaseFee : option Z;
  tc_NoBaseFee : bool
}.

Inductive TxType :=
| DefaultTxType
| TokenCreationTxType
| TokenMethodTxType
| ContractCreationTxType
| ContractMethodTxType
| ValidatorMethodTxType
| ValidatorSyncTxType
| UnknownTxType.

#[export] Instance TxType_eq_dec : EqDecision TxType.
Proof. solve_decision. Defined.

Record ExecutionResult := MkResult {
  UsedGas : Z;
  res_Err : option error;
  ReturnData : bytes
}.

(** [st.state], [st.gp], [st.gas] and [st.initialGas]. *)
Record TxState := MkTxState {
  ts_world : World;
  ts_gp : Z;
  ts_gas : Z;
  ts_initialGas : Z
}.

Definition set_world (w : World) (s : TxState) : TxState := MkTxState w (ts_gp s) (ts_gas s) (ts_initialGas s).
Definition set_gp (gp : Z) (s : TxState) : TxState := MkTxState (ts_world s) gp (ts_gas s) (ts_initialGas s).
Definition set_gas (g : Z) (s : TxState) : TxState := MkTxState (ts_world s) (ts_gp s) g (ts_initialGas s).
Definition set_initialGas (g : Z) (s : TxState) : TxState := MkTxState (ts_world s) (ts_gp s) (ts_gas s) g.

(** A change of the world. *)
Definition modifyW (f : World → World) : stM TxState unit := modify (λ s, set_world (f (ts_world s)) s).

(** A call of a processor, whose error is the error of the execution. *)
Definition callW (m : stM World bytes) : stM TxState (bytes * option error) := λ s,
  match m (ts_world s) with
  | (Ok ret, w) => (Ok (ret, None), set_world w s)
  | (Err e, w) => (Ok ([], Some e), set_world w s)
  | (Panic, w) => (Panic, set_world w s)
  | (NoFuel, w) => (NoFuel, set_world w s)
  end.

(** A call of the virtual machine, which also returns the gas. *)
Definition callVM (f : Z → World → go_res vmres * World) : stM TxState (bytes * option error) := λ s,
  match f (ts_gas s) (ts_world s) with
  | (Ok (ret, gas, err), w) => (Ok (ret, err), set_gas gas (set_world w s))
  | (Err e, w) => (Err e, set_world w s)
  | (Panic, w) => (Panic, set_world w s)
  | (NoFuel, w) => (NoFuel, set_world w s)
  end.

(** ** Intrinsic gas *)

(** The gas of the data and of the access list on top of [gas]. The data does not overflow; the
    access list may, as in the source. *)
Definition dataGas (data : bytes) (accessList : option AccessList) (gas : Z) : go_res Z :=
  let nz := Z.of_nat (length (filter (λ b, b ≠ x00) data)) in
  gas ← (if Nat.eqb (length data) 0 then Ok gas else
         _ ← fail_if ((MaxUint64 - gas) / TxDataNonZeroGasEIP2028 <? nz) ErrGasUintOverflow;
         let gas := gas + nz * TxDataNonZeroGasEIP2028 in
         let z := Z.of_nat (length data) - nz in
         _ ← fail_if ((MaxUint64 - gas) / TxDataZeroGas <? z) ErrGasUintOverflow;
         Ok (gas + z * TxDataZeroGas));
  Ok (match accessList with
      | None => gas
      | Some al => u64 (gas + Z.of_nat (length al) * TxAccessListAddressGas +
                        StorageKeys al * TxAccessListStorageKeyGas)
      end).

Section transition.
Context `{!Bitlist, !MapRange, !SortSlice, !Crypto, !SigScheme, !Precompiles, !Interpreter, !TokenProcessor}.
Context (bc : Blockchain) (ctx : TxContext).

Definition IntrinsicGas (data : bytes) (accessList : option AccessList)
    (isContractCreation isValidatorOp : bool) : go_res Z :=
  if isContractCreation then dataGas data accessList TxGasContractCreation
  else if isValidatorOp then
    valOp ← DecodeOperation data;
    match valOp with
    | OpSync _ => Ok 0
    | _ => dataGas data accessList TxGas
    end
  else dataGas data accessList TxGas.

(** ** Kinds of transactions *)

Definition GetTxType (w : World) (msg : Message) : go_res TxType :=
  if Nat.eqb (length (m_Data msg)) 0 then Ok DefaultTxType else
  match m_To msg with
  | None => Ok (if IsTokenCreate (m_Data msg) then TokenCreationTxType else ContractCreationTxType)
  | Some to =>
      isToken ← IsToken w to;
      if isToken : bool then Ok TokenMethodTxType
      else if IsValidatorOp bc (Some to) then
        match DecodeOperation (m_Data msg) with
        | Ok (OpSync _) => Ok ValidatorSyncTxType
        | Ok _ => Ok ValidatorMethodTxType
        | Err _ => Ok UnknownTxType
        | Panic => Panic
        | NoFuel => NoFuel
        end
      else Ok ContractMethodTxType
  end.

(** ** Transition *)

Section message.
Variable msg : Message.

(** [st.to()] *)
Definition to : Address := default (zero_fixed 20) (m_To msg).

(** The tip per gas that the fee cap leaves above the base fee. *)
Definition cappedTips (baseFee tips : Z) : Z :=
  match m_GasFeeCap msg with
  | Some cap => if cap <? baseFee + tips then cap - baseFee else tips
  | None => tips
  end.

Definition buyGas : stM TxState unit :=
  baseFee ← liftR (deref (tc_BaseFee ctx));
  let txFee :=
    match m_GasTipCap msg with
    | None => m_Gas msg * baseFee
    | Some tips => m_Gas msg * (baseFee + cappedTips baseFee tips)
    end in
  let balanceCheck :=
    match m_GasFeeCap msg with
    | None => txFee
    | Some cap => m_Gas msg * cap + m_Value msg
    end in
  s ← getS;
  _ ← guard (GetBalance (ts_world s) (m_From msg) <? balanceCheck) (Wrapped "address" ErrInsufficientFunds);
  gp ← liftR (SubGas (m_Gas msg) (ts_gp s));
  _ ← modify (set_gp gp);
  _ ← modify (λ s, set_gas (u64 (ts_gas s + m_Gas msg)) s);
  _ ← modify (set_initialGas (m_Gas msg));
  modifyW (SubBalance (m_From msg) txFee).

(** A message of a validator to the address of the validators. *)
Definition isValOp (w : World) : go_res bool :=
  match m_To msg with
  | None => Ok false
  | Some to =>
      stateAddress ← deref (ValidatorsStateAddress (config bc));
      Ok (bool_decide (stateAddress = to) && IsValidatorAddress w (m_From msg))
  end.

Definition checkNonce (w : World) (isValOp : bool) : go_res unit :=
  let stNonce := GetNonce w (m_From msg) in
  _ ← fail_if (stNonce <? m_Nonce msg) (Wrapped "address" ErrNonceTooHigh);
  _ ← fail_if (m_Nonce msg <? stNonce) (Wrapped "address" ErrNonceTooLow);
  if isValOp then Ok tt else
  let codeHash := GetCodeHash w (m_From msg) in
  fail_if (bool_decide (codeHash ≠ emptyCodeHash ∧ codeHash ≠ zero_fixed 32) &&
           negb (IsValidatorAddress w (m_From msg))) (Wrapped "address" ErrSenderNoEOA).

Definition checkFees (isValOp : bool) : go_res unit :=
  feeCap ← deref (m_GasFeeCap msg);
  tipCap ← deref (m_GasTipCap msg);
  if tc_NoBaseFee ctx && (feeCap =? 0) && (tipCap =? 0) then Ok tt else
  _ ← fail_if (256 <? bitlen (Z.abs feeCap)) (Wrapped "address" ErrFeeCapVeryHigh);
  _ ← fail_if (256 <? bitlen (Z.abs tipCap)) (Wrapped "address" ErrTipVeryHigh);
  _ ← fail_if (feeCap <? tipCap) (Wrapped "address" ErrTipAboveFeeCap);
  baseFee ← deref (tc_BaseFee ctx);
  fail_if ((feeCap <? baseFee) && negb isValOp) (Wrapped "address" ErrFeeCapTooLow).

Definition preCheck : stM TxState unit :=
  s ← getS;
  valOp ← liftR (isValOp (ts_world s));
  _ ← (if m_IsFake msg then mret tt else liftR (checkNonce (ts_world s) valOp));
  _ ← liftR (checkFees valOp);
  buyGas.

Definition gasUsed (s : TxState) : Z := u64 (ts_initialGas s - ts_gas s).

Definition refundGas (refundQuotient : Z) : stM TxState unit :=
  s ← getS;
  let refunded := gasUsed s / refundQuotient in
  let refunded := if refund (ts_world s) <? refunded then refund (ts_world s) else refunded in
  _ ← modify (set_gas (u64 (ts_gas s + refunded)));
  s ← getS;
  _ ← modifyW (AddBalance (m_From msg) (ts_gas s * m_GasPrice msg));
  gp ← liftR (AddGas (ts_gas s) (ts_gp s));
  modify (set_gp gp).

(** [PrepareAccessList] *)
Definition PrepareAccessList (w : World) : World :=
  let w := AddAddressToAccessList (m_From msg) w in
  let w := match m_To msg with Some to => AddAddressToAccessList to w | None => w end in
  let w := foldl (λ w a, AddAddressToAccessList a w) w precompiled in
  foldl (λ w el, foldl (λ w k, AddSlotToAccessList el.1 k w) (AddAddressToAccessList el.1 w) el.2)
    w (default [] (m_AccessList msg)).

(** The execution, by the kind of the transaction. *)
Definition execute (txType : TxType) : stM TxState (bytes * option error) :=
  match txType with
  | ContractCreationTxType => callVM (λ gas w, (Create false 0 (m_From msg) (m_Data msg) gas (m_Value msg) w).2)
  | TokenCreationTxType | TokenMethodTxType =>
      op ← liftR (TokenDecodeBytes (m_Data msg));
      callW (TokenCall (m_From msg) to (m_Value msg) op)
  | ValidatorMethodTxType | ValidatorSyncTxType =>
      callW (ValProcessor.Call bc (tc_block ctx) (m_From msg) to (Some (m_Value msg)) (m_Data msg) (m_TxHash msg))
  | DefaultTxType | ContractMethodTxType | UnknownTxType =>
      _ ← modifyW (λ w, SetNonce (m_From msg) (u64 (GetNonce w (m_From msg) + 1)) w);
      callVM (λ gas, Call false 0 (m_From msg) to (m_Data msg) gas (m_Value msg))
  end.

(** The part of the base fee and the tips that the creator of the block gets. *)
Definition creatorReward : go_res Z :=
  baseFee ← deref (tc_BaseFee ctx);
  reward ← CalcCreatorReward (m_Gas msg) baseFee;
  match m_GasTipCap msg with
  | None => Ok reward
  | Some tips => Ok (reward + m_Gas msg * cappedTips baseFee tips)
  end.

Definition TransitionDb : stM TxState ExecutionResult :=
  _ ← preCheck;
  s ← getS;
  txType ← liftR (GetTxType (ts_world s) msg);
  let isValidatorOp := bool_decide (txType = ValidatorMethodTxType ∨ txType = ValidatorSyncTxType) in
  let isContractCreation := bool_decide (txType = ContractCreationTxType) in
  gas ← liftR (IntrinsicGas (m_Data msg) (m_AccessList msg) isContractCreation isValidatorOp);
  _ ← (if decide (txType = ValidatorSyncTxType) then mret tt else
       _ ← guard (ts_gas s <? gas) (Wrapped "have, want" ErrIntrinsicGas);
       modify (set_gas (ts_gas s - gas)));
  _ ← guard ((0 <? m_Value msg) && negb (CanTransfer (ts_world s) (m_From msg) (m_Value msg)))
        (Wrapped "address" ErrInsufficientFundsForTransfer);
  _ ← modifyW PrepareAccessList;
  '(ret, vmerr) ← execute txType;
  _ ← refundGas RefundQuotientEIP3529;
  reward ← liftR creatorReward;
  _ ← modifyW (AddBalance (tc_Coinbase ctx) reward);
  s ← getS;
  mret (MkResult (gasUsed s) vmerr ret).

(** [ApplyMessage] on a world and a gas pool. *)
Definition ApplyMessage (w : World) (gp : Z) : go_res ExecutionResult * (World * Z) :=
  let '(r, s) := TransitionDb (MkTxState w gp 0 0) in (r, (ts_world s, ts_gp s)).
End message.
End transition.
