(* ===== verification/TransFacts.v ===== *)
(** * Theorems on state transitions

    What a message costs and what it does: gas and fees, a plain transfer, and a deposit from the
    message to the record of the validator. *)

From Stdlib Require Import ZArith Lia Strings.Byte.
From stdpp Require Import base tactics option numbers list gmap strings.
From S2P Require Import Prelude Common Chain GoMap DelegRules ValOps World TxLog ValStorage DepositSig ValProcessor.
From S2P Require Import ValCache ValProcFacts ValLife Fees Evm Transition.

Section facts.
Context {HB : Bitlist} {HM : MapRange} {HS : SortSlice} {HC : Crypto} {HG : SigScheme} {HP : Precompiles} {HI : Interpreter}
  {HT : TokenProcessor}.
Context (bc : Blockchain) (ctx : TxContext) (msg : Message).

(** The price of a unit of gas that [buyGas] takes. *)
Definition price (baseFee tips : Z) : Z := baseFee + cappedTips msg baseFee tips.

(** A message that passed the checks, and what it is charged. *)
Record bought (w : World) (gp baseFee cap tips : Z) : Prop := {
  bg_base : tc_BaseFee ctx = Some baseFee;
  bg_cap : m_GasFeeCap msg = Some cap;
  bg_tips : m_GasTipCap msg = Some tips;
  bg_nonce : m_IsFake msg = true ∨ GetNonce w (m_From msg) = m_Nonce msg;
  bg_funds : m_Gas msg * cap + m_Value msg ≤ GetBalance w (m_From msg);
  bg_pool : m_Gas msg ≤ gp
}.

Lemma preCheck_Ok w gp u s' : 0 ≤ m_Gas msg < two64 →
  preCheck bc ctx msg (MkTxState w gp 0 0) = (Ok u, s') → ∃ baseFee cap tips,
  bought w gp baseFee cap tips ∧
  s' = MkTxState (SubBalance (m_From msg) (m_Gas msg * price baseFee tips) w) (gp - m_Gas msg) (m_Gas msg) (m_Gas msg).
Proof.
  intros Hg Hp. unfold preCheck in Hp. st_inv_step Hp. st_inv_step Hp.
  apply stM_bind_inv in Hp as (u1 & s1 & Hn & Hp).
  assert (s1 = MkTxState w gp 0 0 ∧ (m_IsFake msg = true ∨ GetNonce w (m_From msg) = m_Nonce msg)) as [-> Hnonce].
  { destruct (m_IsFake msg); [apply mret_inv in Hn as [_ ->]; eauto|].
    apply liftR_inv in Hn as [Hn ->]. split; [done|]. right. unfold checkNonce in Hn. cbn [ts_world] in Hn.
    go_inv. rewrite Z.ltb_ge in *. lia. }
  st_inv_step Hp. unfold checkFees in Hm0.
  apply bind_Ok in Hm0 as (cap & Hcap%deref_Ok & Hm0). apply bind_Ok in Hm0 as (tips & Htips%deref_Ok & _). unfold buyGas in Hp.
  st_inv Hp. unfold modifyW in Hp. apply modify_inv in Hp as ->. cbn [ts_world ts_gp ts_gas ts_initialGas set_gp set_gas set_world set_initialGas] in *.
  apply deref_Ok in Hm0. unfold SubGas in Hm2. apply Z.ltb_ge in Hm1. rewrite Hcap, Htips in *.
  destruct (Z.ltb_spec gp (m_Gas msg)); simplify_eq. exists x1, cap, tips. split; [by split|].
  unfold price. cbn. rewrite Z.add_0_l. unfold u64. by rewrite Z.mod_small.
Qed.

Lemma PrepareAccessList_same w :
  accounts (PrepareAccessList msg w) = accounts w ∧ logs (PrepareAccessList msg w) = logs w ∧
  refund (PrepareAccessList msg w) = refund w.
Proof.
  assert (∀ w1 w2 w3, accounts w2 = accounts w1 ∧ logs w2 = logs w1 ∧ refund w2 = refund w1 →
    accounts w3 = accounts w2 ∧ logs w3 = logs w2 ∧ refund w3 = refund w2 →
    accounts w3 = accounts w1 ∧ logs w3 = logs w1 ∧ refund w3 = refund w1) as Htr by naive_solver congruence.
  assert (∀ {A} (f : World → A → World) l, (∀ w x, accounts (f w x) = accounts w ∧ logs (f w x) = logs w ∧ refund (f w x) = refund w) →
    ∀ w, accounts (foldl f w l) = accounts w ∧ logs (foldl f w l) = logs w ∧ refund (foldl f w l) = refund w) as Hf.
  { intros A f l Hstep. induction l as [|x l IH]; intros w0; [done|]. eapply Htr; [apply Hstep|apply IH]. }
  unfold PrepareAccessList. eapply Htr; [|apply Hf].
  2: { intros w0 el. eapply Htr; [|apply Hf; done]. done. }
  eapply Htr; [|apply Hf; done]. by destruct (m_To msg).
Qed.

(** What the transition relies on: gas is used and never made, and the refund counter stays in its
    range. InterpGas.v proves this of the interpreter. *)
Class InterpreterLaws : Prop := {
  il_prices :: PrecompileLaws;
  il_gas :: GasLaws;
  il_refund : keeps (λ w w', is_u64 (refund w) → is_u64 (refund w')) false
}.
Context {HL : InterpreterLaws}.

(** What the transitions rely on of the token processor: whatever the virtual machine keeps, the
    processor keeps. Its changes are among those of the virtual machine. *)
Class TokenLaws : Prop := {
  TokenCall_rel R from to value op w : vm_rel false R → R w (TokenCall from to value op w).2
}.
Context {HK : TokenLaws}.

Lemma ValidatorCall_refund caller toAddr value data txHash w r w' :
  ValProcessor.Call bc (tc_block ctx) caller toAddr value data txHash w = (r, w') → refund w' = refund w.
Proof.
  unfold ValProcessor.Call, revertOnError, mbind, stM_bind, liftR, modify.
  destruct (DecodeOperation data) as [op| | |]; [|by intros [= _ <-]..].
  destruct (handle _ _ _ _ _ _ _ _) as [r1 w1] eqn:Hh. intros Hc.
  apply (handle_frame bc (tc_block ctx) (λ w w', refund w' = refund w)) in Hh; try done.
  - destruct r1; simplify_eq; done.
  - intros w2 w3 w4. congruence.
Qed.

(** The execution returns gas, and leaves the pool to the refund. *)
Record executed (s s' : TxState) : Prop := {
  ex_gp : ts_gp s' = ts_gp s;
  ex_initialGas : ts_initialGas s' = ts_initialGas s;
  ex_gas : 0 ≤ ts_gas s' ≤ ts_gas s;
  ex_refund : is_u64 (refund (ts_world s)) → is_u64 (refund (ts_world s'))
}.

Lemma callW_executed m s r s' : (∀ w, is_u64 (refund w) → is_u64 (refund (m w).2)) →
  callW m s = (Ok r, s') → 0 ≤ ts_gas s → executed s s'.
Proof.
  intros Hm Hc Hg. unfold callW in Hc. specialize (Hm (ts_world s)).
  destruct (m (ts_world s)) as [[] w]; simplify_eq; split; cbn; done || lia.
Qed.

Lemma callVM_executed f s r s' : is_u64 (ts_gas s) → uses_gas (ts_gas s) (f (ts_gas s) (ts_world s)) →
  (is_u64 (refund (ts_world s)) → is_u64 (refund (f (ts_gas s) (ts_world s)).2)) →
  callVM f s = (Ok r, s') → executed s s'.
Proof.
  intros Hg Hu Hr Hc. unfold callVM in Hc. destruct (f (ts_gas s) (ts_world s)) as [[[[ret g] err]| | |] w]; simplify_eq.
  specialize (Hu _ _ _ _ eq_refl). by split.
Qed.

Lemma execute_executed txType s r s' : execute bc ctx msg txType s = (Ok r, s') → is_u64 (ts_gas s) → executed s s'.
Proof.
  intros He Hg. pose proof (proj1 Hg) as Hg0. unfold execute in He. destruct txType.
  1,5,8: st_inv_step He; eapply callVM_executed in He as [];
    [by split|done|by apply Call_gas|apply Call_rel; [apply vm_rel_refund|apply keeps_codes_keep, il_refund; by intros ? ?|by left]].
  1,2: st_inv_step He; (eapply callW_executed in He; [exact He|intros w; apply TokenCall_rel, vm_rel_refund|done]).
  2,3: (eapply callW_executed in He; [exact He| |done]); intros w Hw; destruct (ValProcessor.Call _ _ _ _ _ _ _ w) eqn:Hv;
    cbn; by rewrite (ValidatorCall_refund _ _ _ _ _ _ _ _ Hv).
  eapply callVM_executed in He; [exact He|done|by apply create_gas|
    exact (create_rel _ _ _ _ _ _ _ _ _ vm_rel_refund il_refund)].
Qed.

Lemma dataGas_nonneg data al gas r : 0 ≤ gas → dataGas data al gas = Ok r → 0 ≤ r.
Proof.
  intros Hg. unfold dataGas. intros Hd. apply bind_Ok in Hd as (g & Hb & Hd). injection Hd as <-.
  assert (0 ≤ g).
  { destruct (Nat.eqb _ _); [by simplify_eq|]. go_inv.
    pose proof (length_filter (λ b, b ≠ x00) data). unfold TxDataNonZeroGasEIP2028, TxDataZeroGas. lia. }
  destruct al; [|done]. unfold u64, two64. apply Z.mod_pos_bound. lia.
Qed.

Lemma IntrinsicGas_nonneg data al cc vo r : IntrinsicGas data al cc vo = Ok r → 0 ≤ r.
Proof.
  unfold IntrinsicGas, TxGasContractCreation, TxGas. destruct cc; [by apply dataGas_nonneg|].
  destruct vo; [|by apply dataGas_nonneg]. intros Hi. apply bind_Ok in Hi as (op & _ & Hi).
  destruct op; [by apply dataGas_nonneg in Hi|by simplify_eq|by apply dataGas_nonneg in Hi..].
Qed.
(** The gas that is left after the execution and the refund. *)
Definition gas_left (s2 : TxState) : Z :=
  ts_gas s2 + Z.min (refund (ts_world s2)) ((m_Gas msg - ts_gas s2) / RefundQuotientEIP3529).

(** The state before the execution. *)
Definition charged (w : World) (gp fee gas : Z) : TxState :=
  MkTxState (PrepareAccessList msg (SubBalance (m_From msg) fee w)) (gp - m_Gas msg) gas (m_Gas msg).

(** A transition that returns a result: the kind of the transaction, the gas that is taken first
    and the state after the execution. *)
Record transition (w : World) (gp : Z) (res : ExecutionResult) (w' : World) (gp' : Z)
    (baseFee cap tips : Z) (txType : TxType) (gas reward : Z) (s2 : TxState) : Prop := {
  tr_bought : bought w gp baseFee cap tips;
  tr_type : GetTxType bc (SubBalance (m_From msg) (m_Gas msg * price baseFee tips) w) msg = Ok txType;
  tr_gas : 0 ≤ gas ≤ m_Gas msg;
  tr_intrinsic :
    if decide (txType = ValidatorSyncTxType) then gas = 0 else
    IntrinsicGas (m_Data msg) (m_AccessList msg) (bool_decide (txType = ContractCreationTxType))
      (bool_decide (txType = ValidatorMethodTxType ∨ txType = ValidatorSyncTxType)) = Ok gas;
  tr_execute :
    execute bc ctx msg txType (charged w gp (m_Gas msg * price baseFee tips) (m_Gas msg - gas)) =
      (Ok (ReturnData res, res_Err res), s2);
  tr_reward : creatorReward ctx msg = Ok reward;
  tr_left : 0 ≤ ts_gas s2 ≤ m_Gas msg - gas;
  tr_refund : is_u64 (refund (ts_world s2));
  tr_used : UsedGas res = m_Gas msg - gas_left s2;
  tr_world : w' = AddBalance (tc_Coinbase ctx) reward
                    (AddBalance (m_From msg) (gas_left s2 * m_GasPrice msg) (ts_world s2));
  tr_pool : gp' = gp - UsedGas res
}.

Lemma gas_left_range gas s2 : 0 ≤ gas → is_u64 (refund (ts_world s2)) → 0 ≤ ts_gas s2 ≤ m_Gas msg - gas →
  ts_gas s2 ≤ gas_left s2 ≤ m_Gas msg.
Proof. intros Hg [Hr _] Hl. unfold gas_left, RefundQuotientEIP3529. dlia. Qed.

(** The refund. *)
Lemma refunded_left s : is_u64 (m_Gas msg) → is_u64 (refund (ts_world s)) → 0 ≤ ts_gas s ≤ m_Gas msg →
  ts_initialGas s = m_Gas msg →
  u64 (ts_gas s + (if refund (ts_world s) <? gasUsed s / RefundQuotientEIP3529
        then refund (ts_world s) else gasUsed s / RefundQuotientEIP3529)) = gas_left s.
Proof.
  intros Hg Hr Hl Hi. pose proof (gas_left_range 0 s ltac:(lia) Hr ltac:(lia)) as Hleft. unfold is_u64 in *.
  assert (gasUsed s = m_Gas msg - ts_gas s) as ->
    by (unfold gasUsed, u64; rewrite Hi; apply Z.mod_small; unfold two64 in *; lia).
  unfold gas_left, RefundQuotientEIP3529 in *.
  destruct (Z.ltb_spec (refund (ts_world s)) ((m_Gas msg - ts_gas s) / 5));
    [rewrite Z.min_l in * by lia|rewrite Z.min_r in * by lia]; unfold u64; apply Z.mod_small; lia.
Qed.

Definition refunded (s : TxState) : TxState :=
  MkTxState (AddBalance (m_From msg) (gas_left s * m_GasPrice msg) (ts_world s)) (ts_gp s + gas_left s)
    (gas_left s) (m_Gas msg).

Lemma refundGas_eq s : is_u64 (m_Gas msg) → is_u64 (refund (ts_world s)) → 0 ≤ ts_gas s ≤ m_Gas msg →
  ts_initialGas s = m_Gas msg → refundGas msg RefundQuotientEIP3529 s =
    match AddGas (gas_left s) (ts_gp s) with
    | Ok _ => (Ok tt, refunded s)
    | r => (u ← r; Ok tt, set_gp (ts_gp s) (refunded s))
    end.
Proof.
  intros Hg Hr Hl Hi. unfold refundGas. rewrite getS_bind, refunded_left by done.
  rewrite modify_bind, getS_bind. unfold modifyW, AddGas. rewrite modify_bind. unfold refunded.
  destruct s as [w gp g ig]. cbn [ts_gas ts_world ts_gp ts_initialGas set_gas set_world set_gp] in *. subst.
  by destruct (_ <? _).
Qed.

Lemma ApplyMessage_Ok w gp res w' gp' : is_u64 (m_Gas msg) → is_u64 (refund w) →
  ApplyMessage bc ctx msg w gp = (Ok res, (w', gp')) → ∃ baseFee cap tips txType gas reward s2,
  transition w gp res w' gp' baseFee cap tips txType gas reward s2.
Proof.
  intros Hg Hrf Ha. unfold ApplyMessage in Ha.
  destruct (TransitionDb bc ctx msg (MkTxState w gp 0 0)) as [r s'] eqn:Ht. injection Ha as -> <- <-.
  unfold TransitionDb in Ht. apply stM_bind_inv in Ht as (u & s1 & Hp & Ht).
  destruct (preCheck_Ok w gp u s1 Hg Hp) as (baseFee & cap & tips & Hb & ->).
  st_inv_step Ht. st_inv_step Ht. cbn [ts_world] in Hm. st_inv_step Ht. rename x into txType, x0 into gas.
  apply IntrinsicGas_nonneg in Hm0 as Hg0.
  apply stM_bind_inv in Ht as (u2 & s3 & Hgas & Ht). cbn [ts_gas] in Hgas.
  assert (∃ gas', 0 ≤ gas' ≤ m_Gas msg ∧
    (if decide (txType = ValidatorSyncTxType) then gas' = 0 else gas' = gas) ∧
    s3 = MkTxState (SubBalance (m_From msg) (m_Gas msg * price baseFee tips) w) (gp - m_Gas msg)
           (m_Gas msg - gas') (m_Gas msg)) as (gas' & Hg' & Hi & ->).
  { unfold is_u64 in Hg. case_decide as Hty.
    - apply mret_inv in Hgas as [_ ->]. exists 0. rewrite Z.sub_0_r. split_and!; (lia || done).
    - st_inv_step Hgas. apply modify_inv in Hgas as ->. apply Z.ltb_ge in Hm1. exists gas. split_and!; (lia || done). }
  st_inv_step Ht. st_inv_step Ht. apply stM_bind_inv in Ht as ([ret err] & s2 & Hx & Ht).
  pose proof (execute_executed _ _ _ _ Hx) as [Hgp Hig Hgs Hrf2]; [cbn; unfold is_u64 in *; lia|]. cbn in Hgp, Hig, Hgs, Hrf2.
  apply stM_bind_inv in Ht as (u3 & s4 & Hr & Ht).
  assert (refund (PrepareAccessList msg (SubBalance (m_From msg) (m_Gas msg * price baseFee tips) w)) = refund w) as Hpal.
  { by destruct (PrepareAccessList_same (SubBalance (m_From msg) (m_Gas msg * price baseFee tips) w)) as (_ & _ & ->). }
  rewrite refundGas_eq in Hr; [|done|by apply Hrf2; rewrite Hpal|lia|done].
  destruct (AddGas (gas_left s2) (ts_gp s2)); simplify_eq. unfold refunded in Ht.
  st_inv_step Ht. st_inv_step Ht. st_inv_step Ht. apply mret_inv in Ht as [-> ->].
  pose proof (Hrf2 ltac:(by rewrite Hpal)) as Hrf3.
  pose proof (gas_left_range gas' s2 ltac:(lia) Hrf3 ltac:(lia)) as Hleft.
  rename x0 into reward. exists baseFee, cap, tips, txType, gas', reward, s2.
  assert (gasUsed (set_world (AddBalance (tc_Coinbase ctx) reward (AddBalance (m_From msg) (gas_left s2 * m_GasPrice msg) (ts_world s2)))
            (MkTxState (AddBalance (m_From msg) (gas_left s2 * m_GasPrice msg) (ts_world s2))
               (ts_gp s2 + gas_left s2) (gas_left s2) (m_Gas msg))) = m_Gas msg - gas_left s2) as Hused.
  { unfold gasUsed, u64. cbn. apply Z.mod_small. unfold is_u64 in *. lia. }
  split; cbn [UsedGas ReturnData res_Err]; try done.
  - case_decide; [done|]. by subst.
  - cbn in *. lia.
Qed.

Lemma price_cap w gp baseFee cap tips : bought w gp baseFee cap tips →
  price baseFee tips = Z.min (tips + baseFee) cap.
Proof.
  intros []. unfold price, cappedTips. rewrite bg_cap0.
  destruct (Z.ltb_spec cap (baseFee + tips)); [rewrite Z.min_r by lia; lia|rewrite Z.min_l by lia; lia].
Qed.

(** The price of the message is the effective price, as [AsMessage] sets it. *)
Definition priced : Prop := ∀ baseFee cap tips,
  tc_BaseFee ctx = Some baseFee → m_GasFeeCap msg = Some cap → m_GasTipCap msg = Some tips →
  m_GasPrice msg = Z.min (tips + baseFee) cap.

Lemma priced_price w gp baseFee cap tips : bought w gp baseFee cap tips → priced →
  m_GasPrice msg = price baseFee tips.
Proof. intros Hb Hp. rewrite (price_cap _ _ _ _ _ Hb). destruct Hb. by apply Hp. Qed.

(** ** Fees *)

(** The kinds of transactions that the virtual machine and the token processor execute. *)
Definition vm_type (t : TxType) : bool :=
  match t with
  | ValidatorMethodTxType | ValidatorSyncTxType => false
  | _ => true
  end.

Lemma total_accounts w w' : accounts w = accounts w' → total w = total w'.
Proof. unfold total. by intros ->. Qed.

(** A relation that the changes of the virtual machine and its interpreter keep holds for the
    whole execution of a transaction of the virtual machine or on a token. *)
Lemma execute_rel R txType s r s' : vm_rel false R → keeps R false → vm_type txType = true →
  execute bc ctx msg txType s = (Ok r, s') → R (ts_world s) (ts_world s').
Proof.
  assert (∀ f s r s', R (ts_world s) (f (ts_gas s) (ts_world s)).2 → callVM f s = (Ok r, s') →
    R (ts_world s) (ts_world s')) as HV.
  { intros f s0 r0 s0' Hf Hc. unfold callVM in Hc.
    by destruct (f (ts_gas s0) (ts_world s0)) as [[[[ret g] err]| | |] w]; simplify_eq. }
  intros HR Hk Hv He. unfold execute in He. destruct txType; try done.
  2,3: st_inv_step He; pose proof (TokenCall_rel R (m_From msg) (to msg) (m_Value msg) x (ts_world s) HR) as Ht;
    unfold callW in He; destruct (TokenCall _ _ _ x (ts_world s)) as [[] w]; by simplify_eq.
  1,3,4: st_inv_step He; (eapply HV in He; [|apply Call_rel; [apply HR|apply keeps_codes_keep; [apply (vr_refl false R HR)|done]|by left]]);
    eapply (vr_trans false R HR); [|exact He]; by apply (vr_nonce false R).
  eapply HV in He; [exact He|]. exact (create_rel R _ _ _ _ _ _ _ _ HR Hk).
Qed.

Lemma charged_total w gp fee gas : total (ts_world (charged w gp fee gas)) = total w - fee.
Proof.
  unfold charged. cbn [ts_world].
  rewrite (total_accounts _ (SubBalance (m_From msg) fee w)) by apply PrepareAccessList_same. apply total_SubBalance.
Qed.

(** C14: The gas of a message is accounted for. It uses at most the gas that it bought and at
    least four fifths of its intrinsic gas, refunds included, and the gas pool of the block
    shrinks by exactly what was used; only the operations of the coordinating network are free. *)
Theorem gas_accounting w gp res w' gp' : is_u64 (m_Gas msg) → is_u64 (refund w) →
  ApplyMessage bc ctx msg w gp = (Ok res, (w', gp')) →
  0 ≤ UsedGas res ≤ m_Gas msg ≤ gp ∧ gp' = gp - UsedGas res ∧
  ∃ baseFee cap tips txType, bought w gp baseFee cap tips ∧
    GetTxType bc (SubBalance (m_From msg) (m_Gas msg * price baseFee tips) w) msg = Ok txType ∧
    (txType ≠ ValidatorSyncTxType → ∃ gas,
       IntrinsicGas (m_Data msg) (m_AccessList msg) (bool_decide (txType = ContractCreationTxType))
         (bool_decide (txType = ValidatorMethodTxType ∨ txType = ValidatorSyncTxType)) = Ok gas ∧
       4 * gas ≤ 5 * UsedGas res).
Proof.
  intros Hg Hr Ha. destruct (ApplyMessage_Ok w gp res w' gp' Hg Hr Ha)
    as (baseFee & cap & tips & txType & gas & reward & s2 & []).
  pose proof (gas_left_range gas s2 ltac:(lia) tr_refund0 tr_left0) as Hleft. pose proof (bg_pool _ _ _ _ _ tr_bought0).
  rewrite tr_used0. split; [lia|]. split; [by rewrite <- tr_used0|]. exists baseFee, cap, tips, txType. split; [done|]. split; [done|].
  intros Hty. exists gas. rewrite decide_False in tr_intrinsic0 by done. split; [done|].
  unfold gas_left, RefundQuotientEIP3529. dlia.
Qed.

(** When the execution makes no money, for the transactions that are [ok], such a transaction makes
    none apart from the reward of the creator. *)
Lemma supply_of_execution (ok : TxType → Prop) w gp res w' gp' :
  (∀ txType fee gas r s2, ok txType → execute bc ctx msg txType (charged w gp fee gas) = (Ok r, s2) →
     total (ts_world s2) ≤ total (ts_world (charged w gp fee gas))) →
  is_u64 (m_Gas msg) → is_u64 (refund w) → priced → ApplyMessage bc ctx msg w gp = (Ok res, (w', gp')) →
  ∃ baseFee cap tips txType reward, bought w gp baseFee cap tips ∧
    GetTxType bc (SubBalance (m_From msg) (m_Gas msg * price baseFee tips) w) msg = Ok txType ∧
    creatorReward ctx msg = Ok reward ∧
    (ok txType → total w' ≤ total w - UsedGas res * price baseFee tips + reward).
Proof.
  intros Hk Hg Hr Hp Ha. destruct (ApplyMessage_Ok w gp res w' gp' Hg Hr Ha)
    as (baseFee & cap & tips & txType & gas & reward & s2 & []).
  exists baseFee, cap, tips, txType, reward. split; [done|]. split; [done|]. split; [done|]. intros Hv.
  pose proof (Hk _ _ _ _ _ Hv tr_execute0) as Ht.
  rewrite charged_total in Ht. rewrite tr_world0, !total_AddBalance, tr_used0, (priced_price _ _ _ _ _ tr_bought0 Hp).
  lia.
Qed.

(** ** Messages that pass the checks *)

(** A message to [t] that its sender can pay for. *)
Record affordable (w : World) (gp : Z) (t : Address) (baseFee cap tips : Z) : Prop := {
  af_to : m_To msg = Some t;
  af_value : 0 ≤ m_Value msg;
  af_config : ∃ sa, ValidatorsStateAddress (config bc) = Some sa;
  af_gas : is_u64 (m_Gas msg);
  af_nonce : m_IsFake msg = false ∧ m_Nonce msg = GetNonce w (m_From msg);
  af_sender : IsValidatorAddress w (m_From msg) = true ∨
    GetCodeHash w (m_From msg) = emptyCodeHash ∨ GetCodeHash w (m_From msg) = zero_fixed 32;
  af_fees : tc_BaseFee ctx = Some baseFee ∧ m_GasFeeCap msg = Some cap ∧ m_GasTipCap msg = Some tips;
  af_caps : 0 ≤ baseFee ≤ cap ∧ 0 ≤ tips ≤ cap ∧ cap < 2 ^ 256;
  af_price : m_GasPrice msg = price baseFee tips;
  af_funds : m_Gas msg * cap + m_Value msg ≤ GetBalance w (m_From msg);
  af_pool : m_Gas msg ≤ gp < two64;
  af_refund : refund w = 0
}.

Lemma preCheck_affordable w gp t baseFee cap tips : affordable w gp t baseFee cap tips →
  preCheck bc ctx msg (MkTxState w gp 0 0) =
    (Ok tt, MkTxState (SubBalance (m_From msg) (m_Gas msg * price baseFee tips) w) (gp - m_Gas msg) (m_Gas msg) (m_Gas msg)).
Proof.
  intros []. destruct af_config0 as [sa Hsa], af_nonce0 as [Hf Hn].
  destruct af_fees0 as (Hb & Hc & Ht), af_caps0 as (Hb0 & Ht0 & Hc0).
  unfold preCheck. rewrite getS_bind. cbn [ts_world]. unfold isValOp. rewrite af_to0, Hsa. cbn [deref mbind go_res_bind].
  rewrite liftR_Ok_bind, Hf. set (vo := bool_decide (sa = t) && _).
  assert (checkNonce msg w vo = Ok tt) as ->.
  { unfold checkNonce. rewrite <- Hn, Z.ltb_irrefl. cbn. destruct vo; [done|].
    destruct af_sender0 as [Hv|Hh]; [by rewrite Hv, andb_false_r|].
    rewrite bool_decide_eq_false_2 by naive_solver. done. }
  rewrite liftR_Ok_bind.
  assert (checkFees ctx msg vo = Ok tt) as ->.
  { assert (∀ z, 0 ≤ z < 2 ^ 256 → 256 <? bitlen (Z.abs z) = false) as Hbits.
    { intros z Hz. apply Z.ltb_ge. rewrite Z.abs_eq by lia. unfold bitlen. destruct (Z.eqb_spec z 0); [lia|].
      assert (Z.log2 z < 256); [|lia]. apply Z.log2_lt_pow2; lia. }
    unfold checkFees. rewrite Hc, Ht. cbn [deref mbind go_res_bind]. destruct (tc_NoBaseFee ctx && (cap =? 0) && (tips =? 0)); [done|].
    rewrite !Hbits by lia. rewrite (proj2 (Z.ltb_ge cap tips)) by lia. cbn [fail_if].
    rewrite Hb. cbn. by rewrite (proj2 (Z.ltb_ge cap baseFee)) by lia. }
  rewrite liftR_Ok_bind. unfold buyGas. rewrite Hb, Hc, Ht. cbn [deref]. rewrite liftR_Ok_bind, getS_bind.
  cbn [ts_world ts_gp]. rewrite (proj2 (Z.ltb_ge (GetBalance w (m_From msg)) _)) by done.
  unfold SubGas. rewrite (proj2 (Z.ltb_ge gp (m_Gas msg))) by lia. unfold price.
  unfold guard, fail_if. rewrite !liftR_Ok_bind.
  rewrite !modify_bind. unfold modifyW, modify. cbn [ts_gas set_gas set_gp set_initialGas set_world ts_world ts_gp ts_initialGas].
  rewrite Z.add_0_l. unfold u64. by rewrite Z.mod_small.
Qed.

Lemma affordable_price w gp t baseFee cap tips : affordable w gp t baseFee cap tips → 0 ≤ price baseFee tips ≤ cap.
Proof.
  intros []. destruct af_fees0 as (_ & Hc & _), af_caps0 as (? & ? & _).
  unfold price, cappedTips. rewrite Hc. destruct (Z.ltb_spec cap (baseFee + tips)); lia.
Qed.

Lemma affordable_reward w gp t baseFee cap tips : affordable w gp t baseFee cap tips → ∃ reward,
  creatorReward ctx msg = Ok reward ∧ m_Gas msg * (price baseFee tips - baseFee) ≤ reward ∧
  m_Gas msg * baseFee ≤ 3 * (reward - m_Gas msg * (price baseFee tips - baseFee)) + 2.
Proof.
  intros []. destruct af_fees0 as (Hb & Hc & Ht). unfold is_u64 in af_gas0.
  destruct (creator_reward_spec (m_Gas msg) baseFee) as (r & Hr & Hr0 & Hr3 & _); [nia|].
  exists (r + m_Gas msg * cappedTips msg baseFee tips). unfold creatorReward. rewrite Hb. cbn [deref mbind go_res_bind].
  rewrite Hr. cbn [mbind go_res_bind]. rewrite Ht. split; [done|]. unfold price. nia.
Qed.

(** The rest of the transition, after the checks, when the execution returns. *)
Lemma ApplyMessage_run w gp t baseFee cap tips txType gas ret err s2 reward :
  affordable w gp t baseFee cap tips →
  GetTxType bc (SubBalance (m_From msg) (m_Gas msg * price baseFee tips) w) msg = Ok txType →
  txType ≠ ValidatorSyncTxType →
  IntrinsicGas (m_Data msg) (m_AccessList msg) (bool_decide (txType = ContractCreationTxType))
    (bool_decide (txType = ValidatorMethodTxType ∨ txType = ValidatorSyncTxType)) = Ok gas →
  gas ≤ m_Gas msg →
  execute bc ctx msg txType (charged w gp (m_Gas msg * price baseFee tips) (m_Gas msg - gas)) = (Ok (ret, err), s2) →
  ts_gp s2 = gp - m_Gas msg → ts_gas s2 = m_Gas msg - gas → ts_initialGas s2 = m_Gas msg → refund (ts_world s2) = 0 →
  creatorReward ctx msg = Ok reward →
  ApplyMessage bc ctx msg w gp = (Ok (MkResult gas err ret),
    (AddBalance (tc_Coinbase ctx) reward
       (AddBalance (m_From msg) ((m_Gas msg - gas) * price baseFee tips) (ts_world s2)), gp - gas)).
Proof.
  intros Ha Hty Hns Hi Hgas Hx Hgp Hg Hig Hrf Hrw. pose proof (affordable_price _ _ _ _ _ _ Ha) as Hpr.
  pose proof (IntrinsicGas_nonneg _ _ _ _ _ Hi) as Hg0. pose proof (af_gas _ _ _ _ _ _ Ha) as Hu. unfold is_u64 in Hu.
  pose proof (af_funds _ _ _ _ _ _ Ha). pose proof (af_pool _ _ _ _ _ _ Ha).
  assert (gas_left s2 = m_Gas msg - gas) as Hleft.
  { unfold gas_left, RefundQuotientEIP3529. rewrite Hrf, Hg. dlia. }
  unfold ApplyMessage, TransitionDb.
  rewrite (stM_Ok_bind _ _ _ _ _ (preCheck_affordable _ _ _ _ _ _ Ha)), getS_bind. cbn [ts_world ts_gas].
  rewrite Hty, liftR_Ok_bind, Hi, liftR_Ok_bind. rewrite decide_False by done.
  rewrite (proj2 (Z.ltb_ge (m_Gas msg) gas)) by done.
  erewrite (stM_Ok_bind (guard false (Wrapped "have, want" ErrIntrinsicGas) ≫= λ _, modify (set_gas (m_Gas msg - gas))));
    [|reflexivity]. cbn [set_gas ts_world ts_gp ts_initialGas].
  unfold guard, CanTransfer. world_simpl. rewrite decide_True by done.
  rewrite (proj2 (Z.leb_le (m_Value msg) _)) by nia. rewrite andb_false_r. cbn [fail_if]. rewrite liftR_Ok_bind.
  unfold modifyW. rewrite modify_bind. erewrite stM_Ok_bind; [|exact Hx]. cbn beta iota.
  erewrite stM_Ok_bind.
  2: { rewrite refundGas_eq; [|done|by rewrite Hrf|lia|done]. unfold AddGas, MaxUint64. rewrite Hleft, Hgp.
       rewrite (proj2 (Z.ltb_ge _ _)) by (unfold two64 in *; lia). done. }
  rewrite Hrw, liftR_Ok_bind, modify_bind, getS_bind. unfold refunded. cbn.
  rewrite Hleft, Hgp, (af_price _ _ _ _ _ _ Ha). unfold gasUsed, u64. cbn. do 3 f_equal.
  all: try (rewrite Z.mod_small; lia). lia.
Qed.

(** ** Transfers *)

(** A transfer to an account without code or to a validator, with enough gas. *)
Record transferable (w : World) (gp : Z) (t : Address) (baseFee cap tips gas : Z) : Prop := {
  tf_affordable : affordable w gp t baseFee cap tips;
  tf_data : m_Data msg = [];
  tf_receiver : t ∉ precompiled ∧ (default [] (GetCode w t) = [] ∨ IsValidatorAddress w t = true);
  tf_gas : IntrinsicGas [] (m_AccessList msg) false false = Ok gas ∧ gas ≤ m_Gas msg
}.

Lemma account_accounts w w' a : accounts w = accounts w' → account w a = account w' a.
Proof. unfold account. by intros ->. Qed.

Lemma charged_account w gp fee gas a :
  account (ts_world (charged w gp fee gas)) a = account (SubBalance (m_From msg) fee w) a.
Proof. apply account_accounts. cbn [ts_world charged]. apply PrepareAccessList_same. Qed.

Lemma account_ext {x y : Account} : acc_nonce x = acc_nonce y → acc_balance x = acc_balance y →
  acc_code x = acc_code y → acc_storage x = acc_storage y → acc_committed x = acc_committed y →
  acc_suicided x = acc_suicided y → x = y.
Proof. destruct x, y; cbn. by intros -> -> -> -> -> ->. Qed.

Transparent GetBalance GetNonce GetCode AddBalance SubBalance SetNonce.
Lemma charged_bumped w gp fee gas a :
  let w1 := ts_world (charged w gp fee gas) in
  account (SetNonce (m_From msg) (u64 (GetNonce w1 (m_From msg) + 1)) w1) a =
    set_nonce (if decide (m_From msg = a) then u64 (GetNonce w a + 1) else GetNonce w a)
      (set_balance (GetBalance w a - if decide (m_From msg = a) then fee else 0) (account w a)).
Proof.
  cbv zeta. unfold SetNonce, GetNonce. rewrite account_update, !charged_account.
  unfold SubBalance, GetBalance. rewrite !account_update.
  destruct (decide (m_From msg = a)) as [<-|]; [by rewrite decide_True|]. apply account_ext; cbn; lia || done.
Qed.

Lemma transfer_run w gp t baseFee cap tips gas : transferable w gp t baseFee cap tips gas → ∃ reward w',
  ApplyMessage bc ctx msg w gp = (Ok (MkResult gas None []), (w', gp - gas)) ∧ creatorReward ctx msg = Ok reward ∧
  (∀ a, account w' a =
    set_nonce (if decide (m_From msg = a) then u64 (GetNonce w a + 1) else GetNonce w a)
      (set_balance (GetBalance w a - (if decide (m_From msg = a) then m_Value msg + gas * price baseFee tips else 0) +
           (if decide (t = a) then m_Value msg else 0) + (if decide (tc_Coinbase ctx = a) then reward else 0))
        (account w a))) ∧
  logs w' = logs w ∧ total w' = total w - gas * price baseFee tips + reward.
Proof.
  intros [Ha Hd [Hp Hc] [Hi Hg]]. pose proof (affordable_price _ _ _ _ _ _ Ha) as Hpr.
  pose proof (af_funds _ _ _ _ _ _ Ha). pose proof (af_gas _ _ _ _ _ _ Ha) as Hu. unfold is_u64 in Hu.
  destruct (affordable_reward _ _ _ _ _ _ Ha) as (reward & Hrw & _).
  set (s1 := charged w gp (m_Gas msg * price baseFee tips) (m_Gas msg - gas)).
  set (w2 := SetNonce (m_From msg) (u64 (GetNonce (ts_world s1) (m_From msg) + 1)) (ts_world s1)).
  pose proof (charged_bumped w gp (m_Gas msg * price baseFee tips) (m_Gas msg - gas)) as Hw2. fold s1 w2 in Hw2.
  assert (GetCode w2 t = GetCode w t) as Hct by (unfold GetCode; rewrite Hw2; done).
  destruct (Call_plain false 0 (m_From msg) t [] (m_Gas msg - gas) (m_Value msg) w2) as (w3 & Hcall & Hmv).
  { unfold CallCreateDepth. lia. } { done. }
  { unfold IsValidatorAddress in *. by rewrite Hct. }
  { unfold GetBalance. rewrite Hw2. cbn. rewrite decide_True by done. unfold GetBalance in *. nia. }
  destruct Hmv as [Hacc Hlog Hrf Htot].
  set (s2 := MkTxState w3 (gp - m_Gas msg) (m_Gas msg - gas) (m_Gas msg)).
  assert (execute bc ctx msg DefaultTxType s1 = (Ok ([], None), s2)) as Hx.
  { cbn [execute]. unfold modifyW. rewrite modify_bind. unfold callVM, to. cbn [ts_world ts_gas set_world].
    rewrite (af_to _ _ _ _ _ _ Ha), Hd. cbn [default id]. fold w2. unfold s1 at 1. cbn [ts_gas charged]. by rewrite Hcall. }
  pose proof (PrepareAccessList_same (SubBalance (m_From msg) (m_Gas msg * price baseFee tips) w)) as (_ & Hpl & Hpr').
  exists reward. eexists. split.
  { eapply (ApplyMessage_run w gp t baseFee cap tips DefaultTxType gas); try exact Ha; try exact Hx; try done.
    - unfold GetTxType. by rewrite Hd.
    - by rewrite Hd.
    - cbn. rewrite Hrf. cbn. rewrite Hpr'. apply (af_refund _ _ _ _ _ _ Ha). }
  split; [done|]. cbn [ts_world s2]. split; [|split].
  - intros a. unfold AddBalance. rewrite !account_update.
    unfold GetBalance in *. rewrite !Hacc. unfold GetBalance. rewrite !Hw2.
    destruct (decide (tc_Coinbase ctx = a)) as [<-|], (decide (m_From msg = _)) as [<-|]; cbn;
      apply account_ext; cbn; rewrite ?decide_True by done; cbn; try done; repeat case_decide; try done; lia.
  - cbn. rewrite Hlog. unfold w2, s1. cbn. by rewrite Hpl.
  - rewrite !total_AddBalance, Htot. unfold w2, s1. rewrite total_SetNonce, charged_total. lia.
Qed.
Opaque GetBalance GetNonce GetCode AddBalance SubBalance SetNonce.

(** C15: A transfer that its sender can pay for succeeds. It uses exactly the intrinsic gas: the
    sender pays the value and the price of this gas, the receiver gets the value, the creator of
    the block the reward, and the nonce of the sender grows by one. Codes, storages, logs and all
    other accounts stay. *)
Theorem transfer_effect w gp t baseFee cap tips gas : transferable w gp t baseFee cap tips gas → ∃ reward w',
  ApplyMessage bc ctx msg w gp = (Ok (MkResult gas None []), (w', gp - gas)) ∧
  creatorReward ctx msg = Ok reward ∧ m_Gas msg * (price baseFee tips - baseFee) ≤ reward ∧
  (∀ a, account w' a =
    set_nonce (if decide (m_From msg = a) then u64 (GetNonce w a + 1) else GetNonce w a)
      (set_balance (GetBalance w a - (if decide (m_From msg = a) then m_Value msg + gas * price baseFee tips else 0) +
           (if decide (t = a) then m_Value msg else 0) + (if decide (tc_Coinbase ctx = a) then reward else 0))
        (account w a))) ∧
  logs w' = logs w.
Proof.
  intros Ht. destruct (transfer_run _ _ _ _ _ _ _ Ht) as (reward & w' & Hr & Hrw & Hacc & Hlog & _).
  destruct (affordable_reward _ _ _ _ _ _ (tf_affordable _ _ _ _ _ _ _ Ht)) as (r & Hr' & Hle & _).
  rewrite Hrw in Hr'. injection Hr' as <-. by exists reward, w'.
Qed.

(** C38: The reward is a share of the gas limit, and the unused gas is paid back: a transfer whose
    gas limit is large enough makes money. *)
Theorem transfer_mints w gp t baseFee cap tips gas : transferable w gp t baseFee cap tips gas →
  3 * (gas * price baseFee tips) + 2 < m_Gas msg * baseFee →
  ∃ w', ApplyMessage bc ctx msg w gp = (Ok (MkResult gas None []), (w', gp - gas)) ∧ total w < total w'.
Proof.
  intros Ht Hlarge. destruct (transfer_run _ _ _ _ _ _ _ Ht) as (reward & w' & Hr & Hrw & _ & _ & Htot).
  pose proof (tf_affordable _ _ _ _ _ _ _ Ht) as Ha. pose proof (af_gas _ _ _ _ _ _ Ha) as Hu. unfold is_u64 in Hu.
  destruct (affordable_reward _ _ _ _ _ _ Ha) as (r & Hr' & Hle & Hthird).
  rewrite Hrw in Hr'. injection Hr' as <-. exists w'. split; [done|].
  assert (0 ≤ m_Gas msg * (price baseFee tips - baseFee)); [|lia].
  apply Z.mul_nonneg_nonneg; [lia|]. destruct Ha. destruct af_fees0 as (_ & Hc & _), af_caps0 as (? & ? & _).
  unfold price, cappedTips. rewrite Hc. destruct (_ <? _); lia.
Qed.

(** A message whose gas does not cover its intrinsic gas is an error, but what it paid for its
    gas is gone, its gas is taken from the pool of the block and its nonce stays, so that it can be
    repeated. *)
Theorem intrinsic_gas_charged w gp t baseFee cap tips gas : affordable w gp t baseFee cap tips → m_Data msg = [] →
  IntrinsicGas [] (m_AccessList msg) false false = Ok gas → m_Gas msg < gas →
  ApplyMessage bc ctx msg w gp =
    (Err (Wrapped "have, want" ErrIntrinsicGas),
     (SubBalance (m_From msg) (m_Gas msg * price baseFee tips) w, gp - m_Gas msg)).
Proof.
  intros Ha Hd Hi Hg. unfold ApplyMessage, TransitionDb.
  rewrite (stM_Ok_bind _ _ _ _ _ (preCheck_affordable _ _ _ _ _ _ Ha)), getS_bind. cbn [ts_world ts_gas].
  unfold GetTxType. rewrite Hd. cbn [length Nat.eqb]. rewrite liftR_Ok_bind.
  rewrite !bool_decide_eq_false_2 by naive_solver. rewrite Hi, liftR_Ok_bind. rewrite decide_False by done. by rewrite (proj2 (Z.ltb_lt (m_Gas msg) gas)) by done.
Qed.
End facts.

(** ** Witnesses *)

#[local] Existing Instances ssz_bitlist list_range merge_slice toy_sig.

(** Contracts that use half of their gas and clear a storage slot. *)
#[export] Instance toy_interpreter : Interpreter := {|
  Run := λ _ c _ _ w, (Ok ([x2a], ct_Gas c / 2, None), AddRefund 4800 w)
|}.

#[export] Instance toy_interpreter_laws : InterpreterLaws.
Proof.
  split.
  - apply _.
  - split. intros depth c i ro w Hg ret left err w' [= <- <- <- <-]. unfold is_u64 in Hg. dlia.
  - intros depth c i w _. cbn. unfold is_u64, u64, two64. by apply Z.mod_pos_bound.
Qed.

(** No tokens. *)
#[export] Instance toy_tokens : TokenProcessor := {|
  TokenOperation := unit;
  IsTokenCreate := λ _, false;
  TokenDecodeBytes := λ _, Err (Error "operation.ErrPrefixNotValid");
  IsToken := λ _ _, Ok false;
  TokenCall := λ _ _ _ _ w, (Err (Error "token.ErrTokenAddressNotValid"), w)
|}.

#[export] Instance toy_token_laws {HC : Crypto} : TokenLaws.
Proof. split. intros R from to value op w HR. apply (vr_refl false R HR). Qed.

Definition toy_txctx : TxContext := MkTxContext toy_ctx (toy_addr x55) (Some 100) false.
Definition toy_message (t : Address) (gas value : Z) (data : bytes) : Message :=
  MkMessage (toy_addr x11) (Some t) 120 (Some 300) (Some 20) gas value 0 false data None (BytesToHash [x08]).
Definition toy_code_world : World := SetCode (toy_addr x66) [x60; x00] toy_rich.

Lemma toy_priced t gas value data : priced toy_txctx (toy_message t gas value data).
Proof. by intros baseFee cap tips [= <-] [= <-] [= <-]. Qed.

Lemma toy_affordable gas : 0 ≤ gas ≤ 1000000 →
  affordable toy_bc toy_txctx (toy_message (toy_addr x44) gas 5 []) toy_rich 1000000 (toy_addr x44) 100 300 20.
Proof.
  intros Hg. split; try done.
  - by exists toy_vsa.
  - unfold is_u64, two64. cbn. lia.
  - right. left. vm_compute. reflexivity.
  - assert (1000000 * 300 + 5 ≤ GetBalance toy_rich (toy_addr x11)) by (vm_compute; congruence).
    cbn [m_Gas m_Value m_From toy_message]. lia.
  - by split; [cbn; lia|].
Qed.

Lemma toy_transferable gas : 21000 ≤ gas ≤ 1000000 →
  transferable toy_bc toy_txctx (toy_message (toy_addr x44) gas 5 []) toy_rich 1000000 (toy_addr x44) 100 300 20 21000.
Proof.
  intros Hg. split; [apply toy_affordable; lia|done| |by split; [|cbn; lia]].
  split; [|by left]. apply (bool_decide_eq_true_1 (toy_addr x44 ∉ precompiled)). vm_compute. reflexivity.
Qed.

(** The rest of a result, when its first part is known. *)
Lemma result_eq {A B C} (r : go_res A * (B * C)) a : r.1 = Ok a → r = (Ok a, (r.2.1, r.2.2)).
Proof. destruct r as [r1 [b c]]. by intros [= ->]. Qed.

Lemma gas_accounting_witness :
  let msg := toy_message (toy_addr x66) 100000 5 [x01] in
  let r := ApplyMessage toy_bc toy_txctx msg toy_code_world 1000000 in
  ∃ res, r.1 = Ok res ∧ UsedGas res = 55708 ∧ r.2.2 = 1000000 - UsedGas res.
Proof.
  intros msg r. exists (MkResult 55708 None [x2a]).
  destruct (gas_accounting toy_bc toy_txctx msg toy_code_world 1000000 (MkResult 55708 None [x2a]) r.2.1 r.2.2)
    as (_ & Hgp & _).
  - split; vm_compute; congruence.
  - split; vm_compute; congruence.
  - apply result_eq. vm_compute. reflexivity.
  - split; [vm_compute; reflexivity|]. split; [reflexivity|exact Hgp].
Defined.

Lemma transfer_effect_witness :
  ∃ reward w', ApplyMessage toy_bc toy_txctx (toy_message (toy_addr x44) 21000 5 []) toy_rich 1000000 =
      (Ok (MkResult 21000 None []), (w', 979000)) ∧
    GetBalance w' (toy_addr x44) = 5 ∧ GetBalance w' (toy_addr x55) = reward.
Proof.
  destruct (transfer_effect toy_bc toy_txctx (toy_message (toy_addr x44) 21000 5 []) toy_rich 1000000
    (toy_addr x44) 100 300 20 21000) as (reward & w' & Hr & _ & _ & Ha & _).
  - apply toy_transferable. lia.
  - exists reward, w'. split; [exact Hr|]. split.
    + change (GetBalance w' (toy_addr x44)) with (acc_balance (account w' (toy_addr x44))). rewrite Ha. reflexivity.
    + change (GetBalance w' (toy_addr x55)) with (acc_balance (account w' (toy_addr x55))). rewrite Ha. reflexivity.
Defined.

Lemma transfer_mints_witness :
  ∃ w', ApplyMessage toy_bc toy_txctx (toy_message (toy_addr x44) 100000 5 []) toy_rich 1000000 =
    (Ok (MkResult 21000 None []), (w', 979000)) ∧ total toy_rich < total w'.
Proof.
  apply (transfer_mints toy_bc toy_txctx (toy_message (toy_addr x44) 100000 5 []) toy_rich 1000000
    (toy_addr x44) 100 300 20 21000).
  - apply toy_transferable. lia.
  - vm_compute. reflexivity.
Defined.

