(* ===== verification/InterpTx.v ===== *)
(** * Transactions that run contracts

    The interpreter of Interp.v in the transitions of Transition.v: the laws that the transitions rely
    on are proved of it, and what holds for every execution becomes a theorem about transactions. *)

From Stdlib Require Import ZArith Lia Strings.Byte.
From stdpp Require Import base tactics option numbers list gmap strings.
From S2P Require Import Prelude Common Chain GoMap DelegRules ValOps World TxLog ValStorage DepositSig ValProcessor Validator.
From S2P Require Import ValCache ValProcFacts ValInv ValLife Fees Evm Analysis Machine Instr GasTable JumpTable Interp InterpGas InterpRel.
From S2P Require Import EvmCtx InterpFacts Transition TransFacts.

Lemma record_code w a v : GetValidator w a = Ok v → default [] (GetCode w a) ≠ [].
Proof. unfold GetValidator. destruct (GetCode w a) as [[|b c]|]; [|done..]. vm_compute. congruence. Qed.

Section transactions.
Context {HB : Bitlist} {HM : MapRange} {HS : SortSlice} {HC : Crypto} {HG : SigScheme} {HP : Precompiles}
  {HT : TokenProcessor} {HU : Uint256} {HPL : PrecompileLaws} {HK : TokenLaws}.
Context (bc : Blockchain) (ctx : TxContext) (msg : Message).

(** The laws of the transitions hold for every table with sound prices. *)
Lemma interpreter_laws jt ectx n : priced_table jt = true → IsEIP150 (ec_rules ectx) = true →
  @InterpreterLaws HP (interpreter jt ectx n).
Proof.
  intros Hjt Heip. split; [exact HPL|exact (interpreter_gas jt ectx Hjt Heip n)|].
  apply interpreter_keeps; [exact Hjt|apply vm_rel_refund|]. intros _ a b w Hw. exact Hw.
Qed.

Context (jt : JumpTable) (ectx : EvmContext) (Hmc : machine jt ectx) (levels : nat).

Section chain.
#[local] Instance chain_vm : Interpreter := interpreter jt ectx levels.

(** C4: Contracts and tokens cannot touch the validators: a transaction that is not one of a validator
    changes no code that is there, whatever contracts it runs, and so neither a record of a validator nor the list of
    the validators, which are stored as codes. *)
Theorem contracts_keep_codes {HH : CodeHashes} w gp res w' gp' : is_u64 (m_Gas msg) → is_u64 (refund w) →
  ApplyMessage bc ctx msg w gp = (Ok res, (w', gp')) →
  ∃ baseFee cap tips txType, bought ctx msg w gp baseFee cap tips ∧
    GetTxType bc (SubBalance (m_From msg) (m_Gas msg * price msg baseFee tips) w) msg = Ok txType ∧
    (vm_type txType = true → keeps_codes w w' ∧ ∀ a v, GetValidator w a = Ok v → GetValidator w' a = Ok v).
Proof.
  intros Hg Hr Ha. destruct (machine_priced _ _ Hmc) as [Hjt Heip].
  assert InterpreterLaws as Hlaws by exact (interpreter_laws jt ectx levels Hjt Heip).
  destruct (ApplyMessage_Ok bc ctx msg w gp res w' gp' Hg Hr Ha)
    as (baseFee & cap & tips & txType & gas & reward & s2 & []).
  exists baseFee, cap, tips, txType. split; [done|]. split; [done|]. intros Hv.
  assert (keeps_codes (ts_world (charged msg w gp (m_Gas msg * price msg baseFee tips) (m_Gas msg - gas))) (ts_world s2)) as Hk.
  { eapply execute_rel; [exact HK|apply vm_rel_keeps_codes| |done|exact tr_execute].
    apply interpreter_keeps; [exact Hjt|apply vm_rel_keeps_codes|]. intros _ a b w0 c _. by world_simpl. }
  assert (keeps_codes w w') as Hkw.
  { intros a Hc. subst w'. world_simpl.
    assert (GetCode (ts_world (charged msg w gp (m_Gas msg * price msg baseFee tips) (m_Gas msg - gas))) a = GetCode w a) as Hca.
    { rewrite (GetCode_account _ (SubBalance (m_From msg) (m_Gas msg * price msg baseFee tips) w)) by apply charged_account. by world_simpl. }
    rewrite <- Hca. apply Hk. by rewrite Hca. }
  split; [done|]. intros a v Hval. rewrite (GetValidator_code w w'); [done|]. apply Hkw. by eapply record_code.
Qed.
End chain.

End transactions.

(** ** Witnesses *)

#[local] Existing Instances ssz_bitlist list_range merge_slice toy_sig code_crypto code_crypto_hashes ref_uint256 toy_tokens toy_token_laws.

(** A contract that stores the caller and returns a word. *)
Definition store_code : bytes := [x33; x60; x01; x55; x60; x2a; x60; x00; x52; x60; x20; x60; x00; xf3].
Definition store_world : World := SetCode (toy_addr x66) store_code toy_rich.
Definition store_message : Message := toy_message (toy_addr x66) 100000 5 [x01].

Definition run_with (vm : Interpreter) : go_res ExecutionResult * (World * Z) :=
  @ApplyMessage _ _ _ _ _ _ vm _ toy_bc toy_txctx store_message store_world 1000000.

Lemma contracts_keep_codes_witness :
  ∃ levels res, (run_with (interpreter sample_table sample_ctx levels)).1 = Ok res ∧ res_Err res = None ∧
    GetCode (run_with (interpreter sample_table sample_ctx levels)).2.1 (toy_addr x66) = Some store_code.
Proof.
  exists 1%nat. pose (r := run_with (interpreter sample_table sample_ctx 1)).
  pose (res := match r.1 with Ok res => res | _ => MkResult 0 None [] end). exists res.
  split; [vm_compute; reflexivity|]. split; [vm_compute; reflexivity|].
  destruct (contracts_keep_codes toy_bc toy_txctx store_message sample_table sample_ctx sample_machine 1 store_world 1000000 res r.2.1 r.2.2)
    as (baseFee & cap & tips & ty & Hb & Hty & Hk).
  - split; vm_compute; congruence.
  - split; vm_compute; congruence.
  - apply result_eq. vm_compute. reflexivity.
  - destruct Hb as [[= <-] [= <-] [= <-] _ _ _]. vm_compute in Hty. injection Hty as <-.
    destruct (Hk eq_refl) as [Hc _]. apply (Hc (toy_addr x66)). vm_compute. congruence.
Defined.
