(* ===== verification/Supply.v ===== *)
(** * The supply of money

    SELFDESTRUCT is the one instruction that makes money: it adds the balance of the contract to the
    beneficiary and takes it from nobody. A world in which no code has this instruction, nor one that
    creates contracts with other codes, makes no money: the program counter of a run stays on the
    instructions of the code, and so it never executes a byte that is data of a push; the codes that
    are called are those of the world; and they do not change. The theorem about transactions is of
    the tables of the chain. *)

From Stdlib Require Import ZArith Lia Strings.Byte.
From stdpp Require Import base tactics option numbers list gmap strings.
From S2P Require Import Prelude Common Chain GoMap DelegRules ValOps World TxLog ValStorage DepositSig ValProcessor Validator.
From S2P Require Import ValCache ValProcFacts ValInv ValLife Fees Evm Analysis Machine Instr GasTable JumpTable Interp InterpGas InterpRel.
From S2P Require Import EvmCtx InterpFacts InterpType Transition TransFacts InterpTx.

(** ** Instructions of a code *)

(** CREATE, CREATE2 and SELFDESTRUCT. *)
Definition barred (op : byte) : bool := bool_decide (op ∈ [xf0; xf5; xff]).

(** A code without these instructions; data of a push may have any value. *)
Definition plain_code (code : bytes) : bool :=
  (Z.of_nat (length code) <? 2 ^ 62) && forallb (λ p, p.2 || negb (barred p.1)) (zip code (data_bytes 0 code)).

(** A position of an instruction, or one after the code. *)
Definition at_instr (code : bytes) (pc : Z) : Prop :=
  0 ≤ pc ∧ (pc < Z.of_nat (length code) → data_bytes 0 code !! Z.to_nat pc = Some false).

Lemma data_bytes_length code : ∀ skip, length (data_bytes skip code) = length code.
Proof. induction code as [|op code IH]; intros [|skip]; cbn; by rewrite ?IH. Qed.

Lemma data_bytes_drop code i : ∀ skip, data_bytes skip code !! i = Some false →
  drop i (data_bytes skip code) = data_bytes 0 (drop i code).
Proof.
  revert i. induction code as [|op code IH]; intros i skip H; [done|].
  destruct skip as [|skip]; destruct i as [|i]; try done; cbn in *; by apply IH.
Qed.

(** The instruction after another one. *)
Lemma next_instr code pc op : at_instr code pc → code !! Z.to_nat pc = Some op →
  at_instr code (pc + 1 + Z.of_nat (push_data op)).
Proof.
  intros [H0 Hd] Hop. pose proof (lookup_lt_Some _ _ _ Hop) as Hlt. specialize (Hd ltac:(lia)). split; [lia|]. intros Hle.
  replace (Z.to_nat (pc + 1 + Z.of_nat (push_data op))) with (Z.to_nat pc + S (push_data op))%nat by lia.
  rewrite <- lookup_drop, (data_bytes_drop _ _ _ Hd), (drop_S _ _ _ Hop). cbn [data_bytes]. rewrite lookup_cons.
  rewrite data_bytes_skip. set (k := push_data op) in *. set (rest := drop (S (Z.to_nat pc)) code).
  assert (k < length rest)%nat by (unfold rest; rewrite length_drop; lia).
  rewrite Nat.min_l, lookup_app_r by (rewrite ?length_replicate; lia). rewrite length_replicate, Nat.sub_diag.
  destruct (drop k rest) as [|b l] eqn:Hr; [|done]. apply (f_equal length) in Hr. rewrite length_drop in Hr. cbn in Hr. lia.
Qed.

Lemma plain_code_op code pc : plain_code code = true → at_instr code pc → barred (GetOp code pc) = false.
Proof.
  intros [_ Hall]%andb_true_iff [H0 Hd]. unfold GetOp. destruct (code !! Z.to_nat pc) as [op|] eqn:Hop; [|done]. cbn [default id].
  pose proof (lookup_lt_Some _ _ _ Hop). specialize (Hd ltac:(lia)). rewrite forallb_forall in Hall.
  specialize (Hall (op, false)). apply negb_true_iff, Hall, list_elem_of_In, list_elem_of_lookup.
  exists (Z.to_nat pc). by rewrite lookup_zip_with, Hop, Hd.
Qed.

(** ** Tables *)

(** The instructions of a table are those that the analysis of the code knows. *)
Definition lawful_op (b : byte) (e : executionFunc) : bool :=
  match e with
  | Calling (opCreate | opCreate2) | Ending opSelfdestruct => barred b
  | _ => true
  end &&
  match e with
  | Making opPush1 => Nat.eqb (push_data b) 1
  | Making (makePush size _) => Z.of_nat (push_data b) =? size
  | _ => Nat.eqb (push_data b) 0
  end.

Definition lawful_table (jt : JumpTable) : bool :=
  forallb (λ b, lawful_op b (op_execute (jt b))) all_bytes &&
  match op_execute (jt x00) with Ending _ => true | _ => false end.

Definition set_lawful (m : go_res JumpTable) : bool := match m with Ok jt => lawful_table jt | _ => false end.

Lemma instructionSet_set_lawful r : set_lawful (instructionSet r) = true.
Proof. unfold instructionSet. do 9 (match goal with |- context [if ?b then _ else _] => destruct b end; [vm_compute; reflexivity|]). vm_compute. reflexivity. Qed.

Lemma instructionSet_lawful r jt : instructionSet r = Ok jt → lawful_table jt = true.
Proof. intros H. pose proof (instructionSet_set_lawful r) as Hs. by rewrite H in Hs. Qed.

Lemma lawful_table_op jt b : lawful_table jt = true → lawful_op b (op_execute (jt b)) = true.
Proof.
  intros [Hall _]%andb_true_iff. rewrite forallb_forall in Hall. apply Hall, list_elem_of_In, all_bytes_complete.
Qed.

(** ** The program counter *)

Definition same_pc (s s' : Frame) : Prop := f_pc s' = f_pc s.

Lemma same_pc_frame_rel : frame_rel same_pc.
Proof. split; try done. intros s1 s2 s3. unfold same_pc. congruence. Qed.
#[export] Instance same_pc_refl : Reflexive same_pc := fr_refl _ same_pc_frame_rel.
#[export] Instance same_pc_trans : Transitive same_pc := fr_trans _ same_pc_frame_rel.

Lemma validJumpdest_instr code dest : validJumpdest code dest = Ok true → data_bytes 0 code !! Z.to_nat (u64 dest) = Some false.
Proof.
  intros Hv. assert (validJumpdest code (u64 dest) = Ok true) as Hu.
  { revert Hv. unfold validJumpdest, Uint64WithOverflow, IsUint64. destruct (Z.ltb_spec dest two64); [|done]. cbn [negb].
    pose proof (u64_range dest) as [H0 H1]. rewrite (proj2 (Z.ltb_lt _ _)) by done. cbn [negb].
    by rewrite (u64_id (u64 dest)). }
  rewrite validJumpdest_Ok in Hu by apply u64_range. injection Hu as Hu%bool_decide_eq_true. apply Hu.
Qed.

Section pc.
Context {HC : Crypto} {HU : Uint256} {HP : Precompiles} {HI : Interpreter}.
Context (jt : JumpTable) (ctx : EvmContext) (Hjt : priced_table jt = true) (Hlaw : lawful_table jt = true).
Context (env : Env).
Let code := ct_Code (e_contract env).

Lemma same_pc_invoke call : frame same_pc (invoke call).
Proof. intros s r s'. unfold invoke. destruct (call (f_world s)). by intros [= <- <-]. Qed.

Lemma same_pc_UseGas n : frame same_pc (UseGas n).
Proof. intros s r s'. unfold UseGas. destruct (_ <? _); by intros [= <- <-]. Qed.
#[local] Hint Resolve same_pc_invoke same_pc_UseGas : frame.

Lemma same_pc_calling o : frame same_pc (exec_calling ctx env o).
Proof.
  destruct o; cbn [exec_calling];
    unfold exec_create, exec_create2, exec_call, exec_callcode, exec_delegatecall, exec_staticcall, end_create, end_call;
    repeat (first [apply frame_pop, same_pc_frame_rel|apply frame_push, same_pc_frame_rel|apply frame_mem_Get, same_pc_frame_rel
      |apply frame_mem_Set, same_pc_frame_rel|apply frame_fail, same_pc_frame_rel|frame_step]); done.
Qed.

(** A jump goes to an instruction. *)
Lemma jump_instr pos s ret s' : Z.of_nat (length code) < 2 ^ 62 → jump env pos s = (Ok (ret, None), s') →
  at_instr code (u64 (f_pc s' + 1)).
Proof.
  intros Hlen. unfold jump. destruct (validJumpdest _ pos) as [[]| | |] eqn:Hv; try done. intros [= _ <-]. cbn [f_pc f_set_pc].
  apply validJumpdest_instr in Hv. pose proof (u64_range pos) as [H0 H1]. unfold Uint64.
  assert (u64 (u64 (u64 pos - 1) + 1) = u64 pos) as ->; [|by split].
  unfold u64 at 1 2. rewrite Zplus_mod_idemp_l, Z.sub_add. by apply Z.mod_small.
Qed.
(** The instruction after one that goes on. *)
Lemma execute_instr s ret s' : Z.of_nat (length code) < 2 ^ 62 → at_instr code (f_pc s) →
  Instr.execute ctx env (op_execute (jt (GetOp code (f_pc s)))) s = (Ok (ret, None), s') → at_instr code (u64 (f_pc s' + 1)).
Proof.
  intros Hlen Hat. unfold GetOp. pose proof (proj1 Hat). destruct (code !! Z.to_nat (f_pc s)) as [b|] eqn:Hb; cbn [default id].
  2: { apply andb_true_iff in Hlaw as [_ Hstop]. destruct (op_execute (jt x00)) as [| | | | | | | | | | | |k|]; try done.
       intros Hx. by apply exec_ending_ends in Hx. }
  pose proof (lookup_lt_Some _ _ _ Hb). pose proof (lawful_table_op jt b Hlaw) as [_ Hpush]%andb_true_iff.
  pose proof (next_instr _ _ _ Hat Hb) as Hnext. set (e := op_execute (jt b)) in *.
  assert (moves_pc e = false → Nat.eqb (push_data b) 0 = true) as Hp0.
  { destruct e as [| | | | | | | | | | | | |k]; try done. by destruct k. }
  destruct (moves_pc e) eqn:Hm.
  - destruct e as [| | | | | | | | | |k| | |k]; try done; destruct k; try done; cbn [Instr.execute exec_flow exec_making].
    + unfold pop, mbind, stM_bind. destruct (f_stack s); [done|]. by apply jump_instr.
    + unfold pop, mbind, stM_bind. destruct (f_stack s) as [|x [|y l]]; [done..|]. cbn [f_stack f_set_stack].
      destruct (negb _); [by apply jump_instr|]. intros [= _ <-]. cbn. apply Nat.eqb_eq in Hpush. rewrite Hpush, Z.add_0_r in Hnext.
      by rewrite u64_id by lia.
    + intros [= _ <-]. cbn. apply Nat.eqb_eq in Hpush. rewrite Hpush in Hnext. by rewrite (u64_id (f_pc s + 1)), u64_id by lia.
    + rewrite getS_bind. destruct (zslice _ _ _) as [d| | |]; try done. intros [= _ <-]. cbn. apply Z.eqb_eq in Hpush.
      assert (push_data b ≤ 32)%nat by (destruct (decide (push_data b = 0%nat)); [lia|]; apply push_opcode in n; lia).
      rewrite (u64_id (f_pc s + size)), u64_id by lia. rewrite Hpush in Hnext. by replace (f_pc s + size + 1) with (f_pc s + 1 + size) by lia.
  - intros Hx. assert (same_pc s s') as ->.
    { eapply (execute_frame same_pc same_pc_frame_rel); [..|exact Hx]; try done; [intros o _; apply same_pc_calling|by rewrite Hm]. }
    apply Nat.eqb_eq in Hp0; [|done]. rewrite Hp0, Z.add_0_r in Hnext. by rewrite u64_id by lia.
Qed.

Lemma step_instr s ret s' : Z.of_nat (length code) < 2 ^ 62 → at_instr code (f_pc s) →
  step jt ctx env s = (Ok (ret, None), s') → at_instr code (u64 (f_pc s' + 1)).
Proof.
  intros Hlen Hat. unfold step. rewrite getS_bind. fold code. set (o := jt (GetOp code (f_pc s))).
  assert (priced_op o = true) as Ho by apply (priced_table_op _ _ Hjt).
  destruct (_ <? _); [done|]. destruct (_ <? _); [done|]. intros Hx.
  apply stM_bind_inv in Hx as (ok & s1 & H1 & Hx). apply same_pc_UseGas in H1. destruct ok; [|done]. cbn [negb] in Hx.
  apply stM_bind_inv in Hx as (err & s2 & H2 & Hx). destruct err; [done|].
  assert (f_pc s2 = f_pc s) as Hpc.
  { rewrite <- H1. destruct (op_dynamicGas o) as [g|] eqn:Hg; [|by injection H2 as ->].
    apply kept_charge in H2; [by apply H2|]. unfold priced_op in Ho. rewrite Hg, !andb_true_iff in Ho. apply Ho. }
  rewrite <- Hpc in Hat. apply (execute_instr s2 ret); [done|done|]. by rewrite Hpc.
Qed.
End pc.

(** ** Worlds without the instructions *)

Definition plain_world (w : World) : Prop := ∀ a, plain_code (default [] (GetCode w a)) = true.

Definition same_codes (w w' : World) : Prop := ∀ a, default [] (GetCode w' a) = default [] (GetCode w a).

(** From such a world on, no money is made and the codes stay. *)
Definition bounded (w w' : World) : Prop := plain_world w → total w' ≤ total w ∧ same_codes w w'.

Lemma same_codes_plain w w' : same_codes w w' → plain_world w → plain_world w'.
Proof. intros Hs Hp a. by rewrite Hs. Qed.

Lemma same_codes_account w w' : (∀ a, acc_code (account w' a) = acc_code (account w a)) → same_codes w w'.
Proof. Transparent GetCode. intros Ha a. unfold GetCode. by rewrite Ha. Opaque GetCode. Qed.

Lemma same_codes_update f b w : (∀ x, acc_code (f x) = acc_code x) → same_codes w (update_account f b w).
Proof. intros Hf. apply same_codes_account. intros a. rewrite account_update. case_decide; [subst; apply Hf|done]. Qed.

Transparent AddBalance SubBalance SetNonce SetCode.
Lemma same_codes_rel : call_rel false same_codes.
Proof.
  split; try (intros; by apply same_codes_account); try (intros; by apply same_codes_update).
  - by intros w a.
  - intros w1 w2 w3 H1 H2 a. by rewrite H2, H1.
  - intros a w Hx. apply same_codes_account. intros b. by rewrite account_CreateAccount.
  - intros a b v w _. apply same_codes_account. intros c. by rewrite (mv_account _ _ _ _ _ (Transfer_moved a b v w)).
Qed.

Lemma same_codes_nonce a n w : same_codes w (SetNonce a n w).
Proof. by apply same_codes_update. Qed.
Opaque AddBalance SubBalance SetNonce SetCode.

Section relation.
Context {HC : Crypto}.

Lemma bounded_rel ro : call_rel ro bounded.
Proof.
  enough (call_rel false bounded) by (destruct ro; [by apply call_rel_static|done]).
  pose proof same_codes_rel as []. pose proof (vr_call _ _ vm_rel_total) as []. split; try (intros; intros ?; split; by auto).
  intros w1 w2 w3 H1 H2 Hp. destruct (H1 Hp) as [Ht1 Hc1], (H2 (same_codes_plain _ _ Hc1 Hp)) as [Ht2 Hc2]. split; [lia|by etrans].
Qed.
End relation.

Section runs.
Context {HC : Crypto} {HU : Uint256} {HP : Precompiles}.
Context (jt : JumpTable) (ctx : EvmContext) (Hjt : priced_table jt = true) (Hlaw : lawful_table jt = true).

(** The interpreter keeps the relation for a code without the instructions. *)
Definition plain_keeps {HI : Interpreter} : Prop :=
  ∀ depth c i ro w, plain_code (ct_Code c) = true → bounded w (Run depth c i ro w).2.

Lemma plain_codes_keep {HI : Interpreter} ro : plain_keeps → codes_keep bounded ro.
Proof.
  intros Hk depth caller self value gas addr input w. unfold run_at. case_decide; [apply (vr_refl _ _ (bounded_rel ro))|].
  intros Hp. by apply Hk; [apply Hp|].
Qed.

Lemma plain_step {HI : Interpreter} env s r s' : plain_keeps → plain_code (ct_Code (e_contract env)) = true →
  at_instr (ct_Code (e_contract env)) (f_pc s) → step jt ctx env s = (r, s') → wrel bounded s s'.
Proof.
  intros Hk Hc Hat. pose proof (plain_code_op _ _ Hc Hat) as Hb.
  pose proof (lawful_table_op jt (GetOp (ct_Code (e_contract env)) (f_pc s)) Hlaw) as [Hop _]%andb_true_iff.
  apply (wrel_step_at jt ctx Hjt bounded (e_readOnly env) (bounded_rel _) env eq_refl).
  - intros k He. rewrite He in Hop. apply (wrel_call ctx bounded (e_readOnly env) (bounded_rel _) env eq_refl); [..|by apply plain_codes_keep|by apply plain_codes_keep].
    + intros ->. congruence.
    + intros ->. congruence.
  - intros He. rewrite He in Hop. congruence.
Qed.

Lemma plain_loop {HI : Interpreter} env fuel : plain_keeps → plain_code (ct_Code (e_contract env)) = true → ∀ s,
  at_instr (ct_Code (e_contract env)) (f_pc s) → wrel bounded s (loop jt ctx env fuel s).2.
Proof.
  intros Hk Hc. pose proof Hc as [Hlen%Z.ltb_lt _]%andb_true_iff.
  induction fuel as [|fuel IH]; intros s Hat; cbn [loop]; [apply (vr_refl _ _ (bounded_rel false))|].
  unfold mbind at 1, stM_bind at 1. destruct (step jt ctx env s) as [r s1] eqn:Hs. pose proof (plain_step _ _ _ _ Hk Hc Hat Hs) as H1.
  destruct r as [[ret [e|]]| | |]; try exact H1. rewrite modify_bind.
  eapply (vr_trans _ _ (bounded_rel false)); [exact H1|]. apply (IH (f_set_pc (u64 (f_pc s1 + 1)) s1)).
  by apply (step_instr jt ctx Hjt Hlaw env s ret).
Qed.

Lemma interpreter_plain n : @plain_keeps (interpreter jt ctx n).
Proof.
  induction n as [|n IH]; intros depth c i ro w Hc; [apply (vr_refl _ _ (bounded_rel false))|]. cbn [interpreter Run]. unfold run.
  destruct (Nat.eqb _ _); [apply (vr_refl _ _ (bounded_rel false))|].
  pose proof (@plain_loop (interpreter jt ctx n) (MkEnv c i ro depth) (S (Z.to_nat (ct_Gas c))) IH Hc (init_frame c w)) as Hl.
  specialize (Hl ltac:(cbn; split; [done|]; destruct (ct_Code c); [cbn; lia|done])). unfold wrel in Hl.
  by destruct (loop _ _ _ _ _) as [[[]| | |] s].
Qed.
End runs.

(** ** Transactions *)

Transparent GetCode.
Lemma CreateAccount_plain a w : plain_world w → plain_world (CreateAccount a w).
Proof.
  intros Hp b. specialize (Hp b). revert Hp. unfold GetCode, account, CreateAccount. cbn.
  destruct (decide (a = b)) as [<-|Hab]; [by rewrite lookup_insert_eq|by rewrite lookup_insert_ne].
Qed.
Opaque GetCode.

Lemma prepared_plain caller address value w : plain_world w → plain_world (prepared caller address value w).
Proof.
  intros Hp. unfold prepared. eapply same_codes_plain; [apply (vr_transfer _ _ same_codes_rel); by left|].
  eapply same_codes_plain; [apply same_codes_nonce|]. apply CreateAccount_plain.
  eapply same_codes_plain; [apply (vr_address _ _ same_codes_rel)|]. by eapply same_codes_plain; [apply same_codes_nonce|].
Qed.

Lemma total_prepared caller address value w : total (prepared caller address value w) = total w.
Proof. unfold prepared. by rewrite total_Transfer, total_SetNonce, total_CreateAccount, total_AddAddress, total_SetNonce. Qed.

(** A creation whose code is without the instructions; what it stores is not run. *)
Lemma create_bound {HC : Crypto} {HP : Precompiles} {HI : Interpreter} static depth caller code codeHash gas value address w :
  plain_keeps → plain_world w → plain_code code = true →
  total (create static depth caller code codeHash gas value address w).2 ≤ total w.
Proof.
  intros Hk Hp Hc. unfold create. destruct (_ <? _); [done|]. destruct (negb _); [done|].
  set (w1 := AddAddressToAccessList address _). assert (total w1 = total w) as <- by apply total_SetNonce.
  destruct (negb _); [done|]. apply (finish_rel (λ w w', total w' ≤ total w)); [by intros ?|].
  pose proof (Hk depth (MkContract caller address (Some value) gas code codeHash address) [] static
    (prepared caller address value w) Hc (prepared_plain _ _ _ _ Hp)) as [Hr _].
  rewrite total_prepared in Hr. assert (total w1 = total w) as -> by apply total_SetNonce. revert Hr.
  change (Transfer caller address value _) with (prepared caller address value w).
  destruct (Run _ _ _ _ _) as [[[[ret left] [e|]]| | |] w']; try done. cbn [snd]. unfold storeCode. intros Hr.
  repeat case_match; cbn [snd]; rewrite ?total_SetCode; done.
Qed.

Section transactions.
Context {HB : Bitlist} {HM : MapRange} {HS : SortSlice} {HC : Crypto} {HG : SigScheme} {HP : Precompiles}
  {HT : TokenProcessor} {HU : Uint256} {HPL : PrecompileLaws} {HK : TokenLaws}.
Context (bc : Blockchain) (ctx : TxContext) (msg : Message).
Context (jt : JumpTable) (ectx : EvmContext) (Hmc : machine jt ectx) (levels : nat).
#[local] Instance supply_vm : Interpreter := interpreter jt ectx levels.

Lemma machine_plain : plain_keeps.
Proof.
  destruct (machine_priced _ _ Hmc) as [Hjt _]. apply interpreter_plain; [done|]. eapply instructionSet_lawful, Hmc.
Qed.

(** The execution of a transaction in a world without the instructions. *)
Lemma execute_bound w gp fee gas txType r s2 : plain_world w → vm_type txType = true →
  (txType = ContractCreationTxType → plain_code (m_Data msg) = true) →
  Transition.execute bc ctx msg txType (charged msg w gp fee gas) = (Ok r, s2) →
  total (ts_world s2) ≤ total (ts_world (charged msg w gp fee gas)).
Proof.
  intros Hp Hv Hc. set (s := charged msg w gp fee gas). assert (plain_world (ts_world s)) as Hs.
  { eapply same_codes_plain; [|exact Hp]. intros a. f_equal.
    rewrite (GetCode_account _ (SubBalance (m_From msg) fee w)) by apply charged_account. by world_simpl. }
  assert (∀ f s r s', total (f (ts_gas s) (ts_world s)).2 ≤ total (ts_world s) → callVM f s = (Ok r, s') →
    total (ts_world s') ≤ total (ts_world s)) as HV.
  { intros f s0 r0 s0' Hf He. unfold callVM in He. by destruct (f (ts_gas s0) (ts_world s0)) as [[[[ret g] err]| | |] w0]; simplify_eq. }
  pose proof machine_plain as Hk. intros He. unfold Transition.execute in He. destruct txType; try done.
  2,3: st_inv_step He; pose proof (TokenCall_rel _ (m_From msg) (to msg) (m_Value msg) x (ts_world s) vm_rel_total) as Ht;
    unfold callW in He; destruct (TokenCall _ _ _ x (ts_world s)) as [[] w1]; by simplify_eq.
  1,3,4: st_inv_step He; (eapply HV in He; [cbn [ts_world set_world] in He; by rewrite total_SetNonce in He|]);
    (apply (Call_rel bounded); [apply bounded_rel|by apply plain_codes_keep|by left|]);
    by eapply same_codes_plain; [apply same_codes_nonce|].
  eapply HV in He; [exact He|]. apply create_bound; auto.
Qed.

(** C10: SELFDESTRUCT is the one instruction that makes money. In a world where no code has it, nor
    CREATE or CREATE2, at the position of an instruction, a transaction of the virtual machine or on a
    token makes no money apart from the reward of the creator, whatever the contracts do: the sum of all
    balances afterwards is at most the sum before, less the price of the gas that was used, plus the
    reward. For the creation of a contract the same is asked of its data, which are run. *)
Theorem supply_bound w gp res w' gp' : plain_world w → is_u64 (m_Gas msg) → is_u64 (refund w) → priced ctx msg →
  ApplyMessage bc ctx msg w gp = (Ok res, (w', gp')) →
  ∃ baseFee cap tips txType reward, bought ctx msg w gp baseFee cap tips ∧
    GetTxType bc (SubBalance (m_From msg) (m_Gas msg * price msg baseFee tips) w) msg = Ok txType ∧
    creatorReward ctx msg = Ok reward ∧
    (vm_type txType = true ∧ (txType = ContractCreationTxType → plain_code (m_Data msg) = true) →
     total w' ≤ total w - UsedGas res * price msg baseFee tips + reward).
Proof.
  intros Hp. destruct (machine_priced _ _ Hmc) as [Hjt Heip].
  assert InterpreterLaws as Hlaws by exact (interpreter_laws jt ectx levels Hjt Heip).
  apply (supply_of_execution bc ctx msg (HL := Hlaws) (HK := HK)
    (λ t, vm_type t = true ∧ (t = ContractCreationTxType → plain_code (m_Data msg) = true))).
  intros txType fee gas r s2 [Hv Hc]. by apply execute_bound.
Qed.
End transactions.

(** ** Witness *)

#[local] Existing Instances ssz_bitlist list_range merge_slice toy_sig code_crypto code_crypto_hashes ref_uint256 toy_tokens toy_token_laws.

(** The contract pushes the byte of SELFDESTRUCT, which is not executed, and stores the caller there. *)
Definition pushing_code : bytes := [x33; x60; xff; x55; x60; x2a; x60; x00; x52; x60; x20; x60; x00; xf3].
Definition pushing_world : World := SetCode (toy_addr x66) pushing_code toy_rich.
Definition pushing_message : Message := toy_message (toy_addr x66) 100000 5 [x01].

Definition pushing_run : go_res ExecutionResult * (World * Z) :=
  @ApplyMessage _ _ _ _ _ _ (interpreter sample_table sample_ctx 1) _ toy_bc toy_txctx pushing_message pushing_world 1000000.

Lemma pushing_plain : plain_world pushing_world.
Proof.
  intros a. unfold pushing_world. destruct (decide (toy_addr x66 = a)) as [<-|Ha]; [vm_compute; reflexivity|].
  rewrite GetCode_SetCode, decide_False by done. unfold toy_rich. world_simpl. vm_compute. reflexivity.
Qed.

Lemma supply_bound_witness : ∃ res reward, pushing_run.1 = Ok res ∧ creatorReward toy_txctx pushing_message = Ok reward ∧
  total pushing_run.2.1 ≤ total pushing_world - UsedGas res * 120 + reward.
Proof.
  pose (res := match pushing_run.1 with Ok res => res | _ => MkResult 0 None [] end). exists res.
  destruct (supply_bound toy_bc toy_txctx pushing_message sample_table sample_ctx sample_machine 1 pushing_world 1000000 res
    pushing_run.2.1 pushing_run.2.2) as (baseFee & cap & tips & ty & reward & Hb & Hty & Hrw & Ht).
  - apply pushing_plain.
  - split; vm_compute; congruence.
  - split; vm_compute; congruence.
  - apply toy_priced.
  - apply result_eq. vm_compute. reflexivity.
  - exists reward. split; [vm_compute; reflexivity|]. split; [exact Hrw|].
    destruct Hb as [[= <-] [= <-] [= <-] _ _ _]. vm_compute in Hty. injection Hty as <-. apply Ht. split; [reflexivity|intros [=]].
Defined.
