(* ===== verification/TokenOps.v ===== *)
(** * Token operations

    The operations of src/token/operation and their binary form: a prefix, a code and the RLP
    encoding of a struct. All operations but the creation share the struct [opData], filled from and
    into the fields an operation has by reflection; [op_fields] lists those fields. The tag [tail] of
    its last field has no effect, since the decoder of a byte slice does not look at it
    ([makeListDecoder] of src/rlp/decode.go). The struct of a creation has optional fields and a
    pointer with the tag [nil], which are decoded here.

    The theorem: an operation that passes its own checks is decoded from its encoding, with zero
    for a number that was not set; the exceptions are a creation with no decimals and a standard that
    is not known. *)

From Stdlib Require Import ZArith Lia Strings.Byte.
From stdpp Require Import base tactics option numbers list strings.
From S2P Require Import Prelude Common RlpEnc RlpDec.

Definition ErrNoTokenSupply : error := Error "operation.ErrNoTokenSupply".
Definition ErrNoName : error := Error "operation.ErrNoName".
Definition ErrNoSymbol : error := Error "operation.ErrNoSymbol".
Definition ErrNoBaseURI : error := Error "operation.ErrNoBaseURI".
Definition ErrNoAddress : error := Error "operation.ErrNoAddress".
Definition ErrNoOwner : error := Error "operation.ErrNoOwner".
Definition ErrNoValue : error := Error "operation.ErrNoValue".
Definition ErrNoTo : error := Error "operation.ErrNoTo".
Definition ErrNoFrom : error := Error "operation.ErrNoFrom".
Definition ErrNoSpender : error := Error "operation.ErrNoSpender".
Definition ErrNoOperator : error := Error "operation.ErrNoOperator".
Definition ErrNoTokenId : error := Error "operation.ErrNoTokenId".
Definition ErrStandardNotValid : error := Error "operation.ErrStandardNotValid".
Definition ErrPrefixNotValid : error := Error "operation.ErrPrefixNotValid".
Definition ErrRawDataShort : error := Error "operation.ErrRawDataShort".
Definition ErrOpNotValid : error := Error "operation.ErrOpNotValid".

(** ** Operations *)

Definition DefaultDecimals : Z := 18.
Definition StdWRC20 : Z := 20.
Definition StdWRC721 : Z := 721.

(** [Std.MarshalBinary] and [Std.UnmarshalBinary] *)
Definition std_MarshalBinary (s : Z) : bytes := PutUint16BE s.
Definition std_UnmarshalBinary (buf : bytes) : go_res Z := Uint16BE buf.

Record createOperation := MkCreate {
  c_Std : Z;
  c_name : bytes;
  c_symbol : bytes;
  c_decimals : Z;
  c_totalSupply : option Z;
  c_baseURI : option bytes;
  c_percentFee : Z
}.

(** The other operations, with the fields of the Go structs; a nil [*big.Int] is [None]. The
    constructors of the package and the decoder refuse a nil value or identifier where the methods
    would dereference it, so those are numbers. *)
Inductive TokenOp :=
| OpCreate (op : createOperation)
| OpApprove (std : Z) (spender : Address) (value : Z)
| OpTransfer (std : Z) (to : Address) (value : Z)
| OpTransferFrom (std : Z) (from to : Address) (value : Z)
| OpSafeTransferFrom (std : Z) (from to : Address) (value : Z) (data : bytes)
| OpProperties (address : Address) (id : option Z)
| OpBalanceOf (address owner : Address)
| OpAllowance (std : Z) (address owner spender : Address)
| OpIsApprovedForAll (std : Z) (address owner operator : Address)
| OpSetApprovalForAll (std : Z) (operator : Address) (approved : bool)
| OpMint (std : Z) (to : Address) (id : Z) (metadata : bytes)
| OpBurn (std : Z) (id : Z)
| OpTokenOfOwnerByIndex (std : Z) (address owner : Address) (index : option Z)
| OpSetPrice (id : option Z) (value : Z)
| OpBuy (id newCost : option Z)
| OpCost (address : Address) (id : option Z).

(** [Standard()]; operations without a standard answer zero. *)
Definition Standard (op : TokenOp) : Z :=
  match op with
  | OpCreate c => c_Std c
  | OpApprove std _ _ | OpTransfer std _ _ | OpTransferFrom std _ _ _ | OpSafeTransferFrom std _ _ _ _
  | OpAllowance std _ _ _ | OpIsApprovedForAll std _ _ _ | OpSetApprovalForAll std _ _ | OpMint std _ _ _
  | OpBurn std _ | OpTokenOfOwnerByIndex std _ _ _ => std
  | OpProperties _ _ | OpBalanceOf _ _ | OpSetPrice _ _ | OpBuy _ _ | OpCost _ _ => 0
  end.

(** [createOperation.init] *)
Definition create_init (std : Z) (name symbol : bytes) (decimals percentFee totalSupply : option Z)
    (baseURI : option bytes) : go_res createOperation :=
  if Nat.eqb (length name) 0 then Err ErrNoName
  else if Nat.eqb (length symbol) 0 then Err ErrNoSymbol
  else if std =? StdWRC20 then
    match totalSupply with
    | None => Err ErrNoTokenSupply
    | Some _ => Ok (MkCreate std name symbol (default DefaultDecimals decimals) totalSupply None 0)
    end
  else if std =? StdWRC721 then
    if Nat.eqb (length (default [] baseURI)) 0 then Err ErrNoBaseURI
    else Ok (MkCreate std name symbol 0 None baseURI (default 0 percentFee))
  else Err ErrStandardNotValid.

(** ** Codes *)

Definition Prefix : byte := xf3.
Definition CreateCode : byte := x0c.
Definition ApproveCode : byte := x0d.
Definition TransferCode : byte := x1e.
Definition TransferFromCode : byte := x1f.
Definition PropertiesCode : byte := x21.
Definition BalanceOfCode : byte := x22.
Definition AllowanceCode : byte := x23.
Definition IsApprovedForAllCode : byte := x24.
Definition SetApprovalForAllCode : byte := x25.
Definition MintCode : byte := x26.
Definition BurnCode : byte := x27.
Definition TokenOfOwnerByIndexCode : byte := x28.
Definition SafeTransferFromCode : byte := x29.
Definition SetPriceCode : byte := x2a.
Definition BuyCode : byte := x2b.
Definition CostCode : byte := x2c.

Definition tok_GetOpCode (b : bytes) : go_res byte :=
  match b with
  | prefix :: code :: _ => if bool_decide (prefix ≠ Prefix) then Err ErrPrefixNotValid else Ok code
  | _ => Err ErrRawDataShort
  end.

(** The code that [EncodeToBytes] writes for an operation. *)
Definition op_code (op : TokenOp) : byte :=
  match op with
  | OpCreate _ => CreateCode
  | OpApprove _ _ _ => ApproveCode
  | OpTransfer _ _ _ => TransferCode
  | OpTransferFrom _ _ _ _ => TransferFromCode
  | OpSafeTransferFrom _ _ _ _ _ => SafeTransferFromCode
  | OpProperties _ _ => PropertiesCode
  | OpBalanceOf _ _ => BalanceOfCode
  | OpAllowance _ _ _ _ => AllowanceCode
  | OpIsApprovedForAll _ _ _ _ => IsApprovedForAllCode
  | OpSetApprovalForAll _ _ _ => SetApprovalForAllCode
  | OpMint _ _ _ _ => MintCode
  | OpBurn _ _ => BurnCode
  | OpTokenOfOwnerByIndex _ _ _ _ => TokenOfOwnerByIndexCode
  | OpSetPrice _ _ => SetPriceCode
  | OpBuy _ _ => BuyCode
  | OpCost _ _ => CostCode
  end.

(** ** The shared struct *)

Record opData := MkOpData {
  d_Std : Z;
  d_Address : Address;
  d_TokenId : option Z;
  d_Owner : Address;
  d_Spender : Address;
  d_Operator : Address;
  d_From : Address;
  d_To : Address;
  d_NewCost : option Z;
  d_Value : option Z;
  d_Index : option Z;
  d_IsApproved : bool;
  d_Data : bytes
}.

Definition opData_type : rtype :=
  TStruct [TUint 16; TArray 20; TPtr TBigInt; TArray 20; TArray 20; TArray 20; TArray 20; TArray 20;
           TPtr TBigInt; TPtr TBigInt; TPtr TBigInt; TBool; TBytes].

Definition big_ptr (o : option Z) : rvalue :=
  match o with
  | Some z => VPtr (VBig z)
  | None => VNil
  end.

Definition opData_value (d : opData) : rvalue :=
  VStruct [VUint (d_Std d); VArray (fb (d_Address d)); big_ptr (d_TokenId d); VArray (fb (d_Owner d));
           VArray (fb (d_Spender d)); VArray (fb (d_Operator d)); VArray (fb (d_From d)); VArray (fb (d_To d));
           big_ptr (d_NewCost d); big_ptr (d_Value d); big_ptr (d_Index d); VBool (d_IsApproved d);
           VBytes (d_Data d)].

(** The struct that a decoded value fills; a decoder gives values of the type. *)
Definition opData_of (v : rvalue) : go_res opData :=
  match v with
  | VStruct [VUint std; VArray address; VPtr (VBig id); VArray owner; VArray spender; VArray operator;
             VArray from; VArray to; VPtr (VBig newCost); VPtr (VBig value); VPtr (VBig index); VBool approved;
             VBytes data] =>
      Ok (MkOpData std (BytesToAddress address) (Some id) (BytesToAddress owner) (BytesToAddress spender)
            (BytesToAddress operator) (BytesToAddress from) (BytesToAddress to) (Some newCost) (Some value)
            (Some index) approved data)
  | _ => Panic
  end.

(** [FieldByName]: the fields of the struct of an operation, embedded ones included. *)
Definition op_fields (code : byte) : list string :=
  if decide (code = ApproveCode) then ["Std"; "TokenValue"; "SpenderAddress"]
  else if decide (code = TransferCode) then ["Std"; "TokenValue"; "ToAddress"]
  else if decide (code = TransferFromCode) then ["Std"; "TokenValue"; "ToAddress"; "FromAddress"]
  else if decide (code = SafeTransferFromCode) then ["Std"; "TokenValue"; "ToAddress"; "FromAddress"; "OperationData"]
  else if decide (code = PropertiesCode) then ["TokenAddress"; "Id"]
  else if decide (code = BalanceOfCode) then ["TokenAddress"; "OwnerAddress"]
  else if decide (code = AllowanceCode) then ["Std"; "TokenAddress"; "OwnerAddress"; "SpenderAddress"]
  else if decide (code = IsApprovedForAllCode) then ["Std"; "TokenAddress"; "OwnerAddress"; "OperatorAddress"]
  else if decide (code = SetApprovalForAllCode) then ["Std"; "OperatorAddress"; "Approved"]
  else if decide (code = MintCode) then ["Std"; "ToAddress"; "Id"; "TokenMetadata"]
  else if decide (code = BurnCode) then ["Std"; "Id"]
  else if decide (code = TokenOfOwnerByIndexCode) then ["Std"; "TokenAddress"; "OwnerAddress"; "TokenIndex"]
  else if decide (code = SetPriceCode) then ["TokenValue"; "Id"]
  else if decide (code = BuyCode) then ["Id"; "NewCostVal"]
  else if decide (code = CostCode) then ["TokenAddress"; "Id"]
  else [].

(** [setFieldValue]: a field that the operation has must be valid. *)
Definition setFieldValue (fields : list string) (name : string) (isValid : bool) (e : error) : go_res unit :=
  fail_if (bool_decide (name ∈ fields) && negb isValid) e.

Definition no_address (a : Address) : bool := bool_decide (a = zero_fixed 20).

(** [rlpDecode]: the checks, before the values are set. *)
Definition rlpDecode (code : byte) (b : bytes) : go_res opData :=
  v ← RlpDec.DecodeBytes opData_type b;
  data ← opData_of v;
  let check := setFieldValue (op_fields code) in
  _ ← check "Std" ((d_Std data =? StdWRC20) || (d_Std data =? StdWRC721) || (d_Std data =? 0)) ErrStandardNotValid;
  _ ← check "TokenAddress" (negb (no_address (d_Address data))) ErrNoAddress;
  _ ← check "NewCostVal" (bool_decide (d_NewCost data ≠ None)) ErrNoValue;
  _ ← check "TokenValue" (bool_decide (d_Value data ≠ None)) ErrNoValue;
  _ ← check "OwnerAddress" (negb (no_address (d_Owner data))) ErrNoOwner;
  _ ← check "FromAddress" (negb (no_address (d_From data))) ErrNoFrom;
  _ ← check "ToAddress" (negb (no_address (d_To data))) ErrNoTo;
  _ ← check "OperatorAddress" (negb (no_address (d_Operator data))) ErrNoOperator;
  _ ← check "SpenderAddress" (negb (no_address (d_Spender data))) ErrNoSpender;
  _ ← check "Id" (bool_decide (d_TokenId data ≠ None)) ErrNoTokenId;
  Ok data.

(** The operation with the values of the struct. *)
Definition op_of (code : byte) (d : opData) : go_res TokenOp :=
  if decide (code = ApproveCode) then v ← deref (d_Value d); Ok (OpApprove (d_Std d) (d_Spender d) v)
  else if decide (code = TransferCode) then v ← deref (d_Value d); Ok (OpTransfer (d_Std d) (d_To d) v)
  else if decide (code = TransferFromCode) then
    v ← deref (d_Value d); Ok (OpTransferFrom (d_Std d) (d_From d) (d_To d) v)
  else if decide (code = SafeTransferFromCode) then
    v ← deref (d_Value d); Ok (OpSafeTransferFrom (d_Std d) (d_From d) (d_To d) v (d_Data d))
  else if decide (code = PropertiesCode) then Ok (OpProperties (d_Address d) (d_TokenId d))
  else if decide (code = BalanceOfCode) then Ok (OpBalanceOf (d_Address d) (d_Owner d))
  else if decide (code = AllowanceCode) then Ok (OpAllowance (d_Std d) (d_Address d) (d_Owner d) (d_Spender d))
  else if decide (code = IsApprovedForAllCode) then
    Ok (OpIsApprovedForAll (d_Std d) (d_Address d) (d_Owner d) (d_Operator d))
  else if decide (code = SetApprovalForAllCode) then Ok (OpSetApprovalForAll (d_Std d) (d_Operator d) (d_IsApproved d))
  else if decide (code = MintCode) then i ← deref (d_TokenId d); Ok (OpMint (d_Std d) (d_To d) i (d_Data d))
  else if decide (code = BurnCode) then i ← deref (d_TokenId d); Ok (OpBurn (d_Std d) i)
  else if decide (code = TokenOfOwnerByIndexCode) then
    Ok (OpTokenOfOwnerByIndex (d_Std d) (d_Address d) (d_Owner d) (d_Index d))
  else if decide (code = SetPriceCode) then v ← deref (d_Value d); Ok (OpSetPrice (d_TokenId d) v)
  else if decide (code = BuyCode) then Ok (OpBuy (d_TokenId d) (d_NewCost d))
  else if decide (code = CostCode) then Ok (OpCost (d_Address d) (d_TokenId d))
  else Err ErrOpNotValid.

(** [rlpEncode]: the struct with the values of the operation. *)
Definition op_data (op : TokenOp) : opData :=
  let z := zero_fixed 20 in
  match op with
  | OpCreate _ => MkOpData 0 z None z z z z z None None None false []
  | OpApprove std spender v => MkOpData std z None z spender z z z None (Some v) None false []
  | OpTransfer std to v => MkOpData std z None z z z z to None (Some v) None false []
  | OpTransferFrom std from to v => MkOpData std z None z z z from to None (Some v) None false []
  | OpSafeTransferFrom std from to v data => MkOpData std z None z z z from to None (Some v) None false data
  | OpProperties a id => MkOpData 0 a id z z z z z None None None false []
  | OpBalanceOf a owner => MkOpData 0 a None owner z z z z None None None false []
  | OpAllowance std a owner spender => MkOpData std a None owner spender z z z None None None false []
  | OpIsApprovedForAll std a owner operator => MkOpData std a None owner z operator z z None None None false []
  | OpSetApprovalForAll std operator ap => MkOpData std z None z z operator z z None None None ap []
  | OpMint std to id md => MkOpData std z (Some id) z z z z to None None None false md
  | OpBurn std id => MkOpData std z (Some id) z z z z z None None None false []
  | OpTokenOfOwnerByIndex std a owner index => MkOpData std a None owner z z z z None None index false []
  | OpSetPrice id v => MkOpData 0 z id z z z z z None (Some v) None false []
  | OpBuy id newCost => MkOpData 0 z id z z z z z newCost None None false []
  | OpCost a id => MkOpData 0 a id z z z z z None None None false []
  end.

Definition rlpEncode (op : TokenOp) : go_res bytes := RlpEnc.EncodeToBytes opData_type (opData_value (op_data op)).

(** ** The struct of a creation *)

(** [makeNilPtrDecoder]: an empty value is a nil pointer. *)
Definition decodeNilPtr (t : rtype) (nilKind : Kind) (s : Stream) : go_res (rvalue * Stream) :=
  '(kind, size, _, s1) ← wrap (stream_Kind s);
  if bool_decide (kind ≠ KByte) && (size =? 0) then
    if bool_decide (kind ≠ nilKind) then Err (Error "rlp: wrong kind of empty value")
    else Ok (VNil, set_kind None s1)
  else '(v, s2) ← decode t s1; Ok (VPtr v, s2).

(** The loop of [makeStructDecoder] with optional fields, which have their zero here: at the end of
    the list the rest of the fields is zero. *)
Fixpoint decode_tagged (fs : list ((Stream → go_res (rvalue * Stream)) * option rvalue)) (s : Stream) :
    go_res (list rvalue * Stream) :=
  match fs with
  | [] => Ok ([], s)
  | (d, zero) :: fs' =>
      match d s with
      | Ok (v, s') => '(l, s'') ← decode_tagged fs' s'; Ok (v :: l, s'')
      | Err e =>
          if decide (e = EOL) then
            match zero with
            | Some z => Ok (z :: map (λ f, default VNil f.2) fs', s)
            | None => Err errTooFew
            end
          else Err e
      | Panic => Panic
      | NoFuel => NoFuel
      end
  end.

(** [createOpData]. The tag [nil] of the supply has no effect either: a [*big.Int] has its own
    decoder, which does not return nil. *)
Definition create_fields : list ((Stream → go_res (rvalue * Stream)) * option rvalue) :=
  [(decode (TUint 16), None); (decode TBytes, None); (decode TBytes, None); (decode (TPtr TBigInt), None);
   (decodeNilPtr (TUint 8) KString, None); (decode TBytes, Some VNil); (decode (TPtr (TUint 8)), Some VNil)].

Definition create_struct (b : bytes) : go_res (list rvalue) :=
  '(_, s1) ← wrap (stream_List (stream_Reset b));
  '(l, s2) ← decode_tagged create_fields s1;
  s3 ← wrap (stream_ListEnd s2);
  match s_in s3 with
  | [] => Ok l
  | _ => Err ErrMoreThanOneValue
  end.

Definition uint8_ptr (v : rvalue) : option Z :=
  match v with
  | VPtr (VUint z) => Some z
  | _ => None
  end.

Definition create_UnmarshalBinary (b : bytes) : go_res createOperation :=
  l ← create_struct b;
  match l with
  | [VUint std; VBytes name; VBytes symbol; VPtr (VBig totalSupply); decimals; baseURI; percentFee] =>
      create_init std name symbol (uint8_ptr decimals) (uint8_ptr percentFee) (Some totalSupply)
        (match baseURI with VBytes b => Some b | _ => None end)
  | _ => Panic
  end.

(** Both pointers are set, so no field is left out of the list. *)
Definition create_type : rtype :=
  TStruct [TUint 16; TBytes; TBytes; TPtr TBigInt; TPtr (TUint 8); TBytes; TPtr (TUint 8)].

Definition create_MarshalBinary (op : createOperation) : go_res bytes :=
  RlpEnc.EncodeToBytes create_type
    (VStruct [VUint (c_Std op); VBytes (c_name op); VBytes (c_symbol op); big_ptr (c_totalSupply op);
              VPtr (VUint (c_decimals op)); VBytes (default [] (c_baseURI op)); VPtr (VUint (c_percentFee op))]).

(** ** The binary form *)

Definition op_codes : list byte :=
  [CreateCode; ApproveCode; TransferCode; TransferFromCode; PropertiesCode; BalanceOfCode; AllowanceCode;
   IsApprovedForAllCode; SetApprovalForAllCode; MintCode; BurnCode; TokenOfOwnerByIndexCode; SafeTransferFromCode;
   SetPriceCode; BuyCode; CostCode].

(** [DecodeBytes] *)
Definition tok_DecodeBytes (b : bytes) : go_res TokenOp :=
  opCode ← tok_GetOpCode b;
  _ ← fail_if (bool_decide (opCode ∉ op_codes)) ErrOpNotValid;
  b ← go_slice 2 (length b) b;
  if decide (opCode = CreateCode) then op ← create_UnmarshalBinary b; Ok (OpCreate op)
  else
    data ← rlpDecode opCode b;
    op_of opCode data.

(** [EncodeToBytes] *)
Definition tok_EncodeToBytes (op : TokenOp) : go_res bytes :=
  b ← match op with
      | OpCreate c => create_MarshalBinary c
      | _ => rlpEncode op
      end;
  Ok (Prefix :: op_code op :: b).

(** ** What decoding makes of an operation *)

(** A standard is a [uint16]; the constructors take any, and the decoder refuses an unknown one. *)
Definition std_ok (std : Z) : Prop := 0 ≤ std < 2 ^ 16.
Definition std_known (std : Z) : bool := (std =? StdWRC20) || (std =? StdWRC721) || (std =? 0).
Definition some_address (a : Address) : Prop := a ≠ zero_fixed 20.
Definition natural (o : option Z) : Prop := 0 ≤ default 0 o.

(** The operations that [create_init] makes. *)
Definition create_ok (c : createOperation) : Prop :=
  (0 < length (c_name c))%nat ∧ (0 < length (c_symbol c))%nat ∧
  ((c_Std c = StdWRC20 ∧ (∃ ts, c_totalSupply c = Some ts ∧ 0 ≤ ts) ∧ 0 ≤ c_decimals c < 256 ∧
    c_baseURI c = None ∧ c_percentFee c = 0) ∨
   (c_Std c = StdWRC721 ∧ c_totalSupply c = None ∧ c_decimals c = 0 ∧
    (∃ uri, c_baseURI c = Some uri ∧ (0 < length uri)%nat) ∧ 0 ≤ c_percentFee c < 256)).

(** The operations that the constructors of the package make, with any [uint16] as the standard and
    with numbers that are not negative. *)
Definition tok_op_ok (op : TokenOp) : Prop :=
  match op with
  | OpCreate c => create_ok c
  | OpApprove std spender v => std_ok std ∧ some_address spender ∧ 0 ≤ v
  | OpTransfer std to v => std_ok std ∧ some_address to ∧ 0 ≤ v
  | OpTransferFrom std from to v | OpSafeTransferFrom std from to v _ =>
      std_ok std ∧ some_address from ∧ some_address to ∧ 0 ≤ v
  | OpProperties a id | OpCost a id => some_address a ∧ natural id
  | OpBalanceOf a owner => some_address a ∧ some_address owner
  | OpAllowance std a owner spender => std_ok std ∧ some_address a ∧ some_address owner ∧ some_address spender
  | OpIsApprovedForAll std a owner operator =>
      std_ok std ∧ some_address a ∧ some_address owner ∧ some_address operator
  | OpSetApprovalForAll std operator _ => std_ok std ∧ some_address operator
  | OpMint std to id _ => std_ok std ∧ some_address to ∧ 0 ≤ id
  | OpBurn std id => std_ok std ∧ 0 ≤ id
  | OpTokenOfOwnerByIndex std a owner index => std_ok std ∧ some_address a ∧ some_address owner ∧ natural index
  | OpSetPrice id v => natural id ∧ 0 ≤ v
  | OpBuy id newCost => natural id ∧ natural newCost
  end.

(** A number that is not set is encoded as zero, and zero decimals as decimals that are not set. *)
Definition set_zero (o : option Z) : option Z := Some (default 0 o).

Definition decoded_create (c : createOperation) : createOperation :=
  if c_Std c =? StdWRC20 then
    MkCreate (c_Std c) (c_name c) (c_symbol c) (if c_decimals c =? 0 then DefaultDecimals else c_decimals c)
      (c_totalSupply c) None 0
  else c.

Definition decoded_op (op : TokenOp) : TokenOp :=
  match op with
  | OpCreate c => OpCreate (decoded_create c)
  | OpProperties a id => OpProperties a (set_zero id)
  | OpTokenOfOwnerByIndex std a owner index => OpTokenOfOwnerByIndex std a owner (set_zero index)
  | OpSetPrice id v => OpSetPrice (set_zero id) v
  | OpBuy id newCost => OpBuy (set_zero id) (set_zero newCost)
  | OpCost a id => OpCost a (set_zero id)
  | _ => op
  end.

(** The outcome of decoding: an operation with a field for the standard must have a known one. *)
Definition decoded_res (op : TokenOp) : go_res TokenOp :=
  match op with
  | OpApprove std _ _ | OpTransfer std _ _ | OpTransferFrom std _ _ _ | OpSafeTransferFrom std _ _ _ _
  | OpAllowance std _ _ _ | OpIsApprovedForAll std _ _ _ | OpSetApprovalForAll std _ _ | OpMint std _ _ _
  | OpBurn std _ | OpTokenOfOwnerByIndex std _ _ _ => if std_known std then Ok (decoded_op op) else Err ErrStandardNotValid
  | _ => Ok (decoded_op op)
  end.

(** The structs that are encoded, without nil pointers. *)
Definition fill_data (d : opData) : opData :=
  MkOpData (d_Std d) (d_Address d) (set_zero (d_TokenId d)) (d_Owner d) (d_Spender d) (d_Operator d) (d_From d) (d_To d)
    (set_zero (d_NewCost d)) (set_zero (d_Value d)) (set_zero (d_Index d)) (d_IsApproved d) (d_Data d).

Definition create_value (c : createOperation) : list rvalue :=
  [VUint (c_Std c); VBytes (c_name c); VBytes (c_symbol c); VPtr (VBig (default 0 (c_totalSupply c)));
   VPtr (VUint (c_decimals c)); VBytes (default [] (c_baseURI c)); VPtr (VUint (c_percentFee c))].

Definition op_struct (op : TokenOp) : rvalue :=
  match op with
  | OpCreate c => VStruct (create_value c)
  | _ => opData_value (fill_data (op_data op))
  end.

(** The encoding has a length that a Go slice can have. *)
Definition encodable (op : TokenOp) : Prop := Z.of_nat (vsize (op_struct op)) < two64.

Lemma encode_fill d : RlpEnc.EncodeToBytes opData_type (opData_value d) =
  RlpEnc.EncodeToBytes opData_type (opData_value (fill_data d)).
Proof.
  unfold RlpEnc.EncodeToBytes, opData_type, opData_value, fill_data.
  cbn [d_Std d_Address d_TokenId d_Owner d_Spender d_Operator d_From d_To d_NewCost d_Value d_Index d_IsApproved d_Data].
  destruct (d_TokenId d), (d_NewCost d), (d_Value d), (d_Index d); done.
Qed.

Lemma opData_of_value d : opData_of (opData_value (fill_data d)) = Ok (fill_data d).
Proof. cbn. by rewrite !BytesToFixed_fb. Qed.

(** The numbers of the struct are not negative. *)
Definition data_ok (d : opData) : Prop :=
  0 ≤ d_Std d < 2 ^ 16 ∧ natural (d_TokenId d) ∧ natural (d_NewCost d) ∧ natural (d_Value d) ∧ natural (d_Index d).

Lemma data_typed d : data_ok d → typed true opData_type (opData_value (fill_data d)).
Proof.
  intros (Hs & Hi & Hc & Hv & Hx). cbn. unfold natural in *. rewrite !length_fb.
  split_and!; try done; lia || (right; left; done).
Qed.

Lemma address_check a : some_address a → no_address a = false.
Proof. intros H. by apply bool_decide_false. Qed.

Lemma op_data_ok op : tok_op_ok op → data_ok (op_data op).
Proof.
  unfold data_ok, natural. destruct op; cbn [tok_op_ok op_data d_Std d_TokenId d_NewCost d_Value d_Index default];
    unfold natural; intros H; split_and!; try lia; try (naive_solver lia); cbn; apply H.
Qed.

(** A decoded struct passes the checks, that of the standard apart, and gives the operation. *)
Lemma rlpDecode_op op b : (∀ c, op ≠ OpCreate c) → tok_op_ok op →
  RlpDec.DecodeBytes opData_type b = Ok (opData_value (fill_data (op_data op))) →
  (data ← rlpDecode (op_code op) b; op_of (op_code op) data) = decoded_res op.
Proof.
  intros Hnc Hok Hd. unfold rlpDecode. rewrite Hd, Ok_bind, opData_of_value, Ok_bind.
  destruct op; cbn [tok_op_ok] in Hok; unfold setFieldValue;
    [by destruct (Hnc op)|..]; cbn; try (unfold std_known; destruct (_ || _); [|done]; cbn);
    repeat match goal with
      | H : _ ∧ _ |- _ => destruct H
      | H : some_address _ |- _ => rewrite (address_check _ H); clear H
      end; done.
Qed.

(** ** A creation is read back *)

(** A decoder of a field reads [v] from the bytes [bs]. *)
Definition field_reads (d : Stream → go_res (rvalue * Stream)) (v : rvalue) (bs : bytes) : Prop :=
  ∀ s rest, wf s → s_kind s = None → s_in s = bs ++ rest → room (length bs) s → d s = Ok (v, advance (length bs) s).

Lemma decode_reads t v bs : typed true t v → ref t v = Ok bs → field_reads (decode t) v bs.
Proof. intros Hty Hr s rest Hwf Hk Hin Hroom. by apply (decode_ref v t Hty bs s rest). Qed.

Lemma Kind_again s k size bv s1 : stream_Kind s = Ok (k, size, bv, s1) → stream_Kind s1 = Ok (k, size, bv, s1).
Proof.
  unfold stream_Kind at 1. destruct (s_kind s) as [[[k' sz] b']|] eqn:Hk.
  - intros [= -> -> -> ->]. unfold stream_Kind. by rewrite Hk.
  - destruct (decide (listLimit s = Some 0)); [done|]. intros H. apply bind_Ok in H as ([[[k' sz] b'] s2] & _ & H).
    destruct (match listLimit s with Some l => l <? sz | None => false end); [done|].
    destruct (s_limited s2 && (s_remaining s2 <? sz)); [done|]. by injection H as <- <- <- <-.
Qed.

(** Zero is read as a nil pointer. *)
Lemma nil_ptr_reads z : 0 ≤ z < 256 →
  field_reads (decodeNilPtr (TUint 8) KString) (if z =? 0 then VNil else VPtr (VUint z)) (ref_uint z).
Proof.
  intros Hz s rest Hwf Hk Hin Hroom. pose proof (uint_fwd 8 z rest s (or_introl eq_refl) Hz Hwf Hk Hin Hroom) as Hu.
  assert (z < two64) as Hlt by (unfold two64; lia). rewrite ref_uint_string in * by lia.
  assert (∃ k size bv s1, stream_Kind s = Ok (k, size, bv, s1) ∧
    if z =? 0 then k = KString ∧ size = 0 ∧ set_kind None s1 = advance (length (ref_string (big_bytes z))) s
    else bool_decide (k ≠ KByte) && (size =? 0) = false) as (k & size & bv & s1 & HK & Hcase).
  { destruct (string_cases (big_bytes z)) as [(c & Hb & Hc)|Hb].
    - rewrite Hb, ref_string_byte in Hin, Hroom by done. rewrite (byte_fwd c rest) by done.
      do 4 eexists. split; [done|]. destruct (Z.eqb_spec z 0) as [->|]; [done|]. done.
    - destruct (string_fwd _ rest s Hwf Hk Hb Hin Hroom) as (s0 & -> & Hwf0 & Hk0 & Hin0 & Hr0 & Ha).
      do 4 eexists. split; [done|]. destruct (Z.eqb_spec z 0) as [->|Hnz].
      + split_and!; [done|done|]. rewrite <- Ha. cbn [length big_bytes]. change (length (big_bytes 0)) with 0%nat.
        rewrite advance_0 by done. destruct s0. cbn in *. by subst.
      + cbn. rewrite length_big_bytes by lia. pose proof (nbytes_pos z ltac:(lia)). destruct (Z.eqb_spec (Z.of_nat (nbytes z)) 0); [lia|done]. }
  unfold decodeNilPtr. rewrite HK. cbn. destruct (Z.eqb_spec z 0) as [->|Hnz].
  - destruct Hcase as (-> & -> & <-). done.
  - rewrite Hcase. unfold stream_uint in *. rewrite (Kind_again _ _ _ _ _ HK). rewrite HK in Hu. by rewrite Hu.
Qed.

Lemma decode_tagged_reads fs : ∀ vs bss s rest,
  Forall2 (λ f vb, field_reads f.1 vb.1 vb.2) fs (zip vs bss) → length vs = length bss →
  wf s → s_kind s = None → s_in s = concat bss ++ rest → room (length (concat bss)) s →
  decode_tagged fs s = Ok (vs, advance (length (concat bss)) s).
Proof.
  induction fs as [|[d zero] fs IH]; intros vs bss s rest Hf Hl Hwf Hk Hin Hroom.
  { apply Forall2_nil_inv_l in Hf. destruct vs, bss; try done. cbn. by rewrite advance_0. }
  apply Forall2_cons_inv_l in Hf as ([v b] & l & Hd & Hf & Heq). destruct vs as [|v0 vs], bss as [|b0 bss]; try done.
  cbn in Heq. simplify_eq. cbn [concat decode_tagged fst snd] in *. rewrite length_app in *. rewrite <- app_assoc in Hin.
  rewrite (Hd s (concat bss ++ rest)) by (done || (eapply room_le; [|done]; lia)).
  rewrite (IH vs bss _ rest); try done.
  - cbn. by rewrite advance_advance.
  - apply advance_wf; [done|]. rewrite Hin, length_app. lia.
  - cbn. by rewrite Hin, drop_app_length.
  - by apply room_advance.
Qed.

(** The values that the struct of a creation is decoded to. *)
Definition create_decoded (c : createOperation) : list rvalue :=
  [VUint (c_Std c); VBytes (c_name c); VBytes (c_symbol c); VPtr (VBig (default 0 (c_totalSupply c)));
   if c_decimals c =? 0 then VNil else VPtr (VUint (c_decimals c));
   VBytes (default [] (c_baseURI c)); VPtr (VUint (c_percentFee c))].

Definition create_parts (c : createOperation) : list bytes :=
  [ref_uint (c_Std c); ref_string (c_name c); ref_string (c_symbol c); ref_string (big_bytes (default 0 (c_totalSupply c)));
   ref_uint (c_decimals c); ref_string (default [] (c_baseURI c)); ref_uint (c_percentFee c)].

Record create_ranges (c : createOperation) : Prop := {
  cr_std : 0 ≤ c_Std c < 2 ^ 16;
  cr_supply : 0 ≤ default 0 (c_totalSupply c);
  cr_decimals : 0 ≤ c_decimals c < 256;
  cr_fee : 0 ≤ c_percentFee c < 256
}.

Lemma create_ok_ranges c : create_ok c → create_ranges c.
Proof.
  unfold StdWRC20, StdWRC721, create_ok. intros (_ & _ & [(Hs & (ts & Ht & ?) & ? & _ & ?)|(Hs & Ht & ? & _ & ?)]);
    unfold StdWRC20, StdWRC721 in Hs; split; rewrite ?Ht; cbn; lia.
Qed.

Lemma create_typed c : create_ranges c → typed true create_type (VStruct (create_value c)).
Proof. intros [Hs Ht Hd Hf]. cbn. split_and!; try done; try lia; [right; left|left|left]; done. Qed.

Lemma create_ref c : create_ranges c → ref create_type (VStruct (create_value c)) = Ok (ref_list (concat (create_parts c))).
Proof.
  intros [Hs Ht Hd Hf]. unfold create_type, create_value. cbn [ref]. rewrite !ref_fields_cons. cbn [ref].
  destruct (Z.ltb_spec (default 0 (c_totalSupply c)) 0); [lia|done].
Qed.

Lemma create_fields_read c : create_ranges c →
  Forall2 (λ f vb, field_reads f.1 vb.1 vb.2) create_fields (zip (create_decoded c) (create_parts c)).
Proof.
  intros [Hs Ht Hd Hf]. unfold create_fields. cbn [zip zip_with create_decoded create_parts].
  repeat apply Forall2_cons_2; try apply Forall2_nil_2; cbn [fst snd];
    first [by apply nil_ptr_reads | apply decode_reads; cbn; try done].
  - split; [right; left; done|lia].
  - destruct (Z.ltb_spec (default 0 (c_totalSupply c)) 0); [lia|done].
  - split; [left; done|lia].
Qed.

Lemma create_struct_of c bs : create_ranges c → ref create_type (VStruct (create_value c)) = Ok bs →
  Z.of_nat (length bs) < two64 → create_struct bs = Ok (create_decoded c).
Proof.
  intros Hr Href Hlen. assert (bs = ref_list (concat (create_parts c))) as -> by (rewrite create_ref in Href by done; congruence).
  set (p := concat (create_parts c)) in *. pose proof (stream_Reset_wf (ref_list p) Hlen) as Hwf.
  destruct (List_fwd p [] (stream_Reset (ref_list p))) as (s0 & HL & Hwf0 & Hin0 & Hr0 & Ha);
    [done|done|cbn [stream_Reset s_in]; by rewrite app_nil_r|done|].
  assert (is_u64 (Z.of_nat (length p))) as Hu.
  { destruct Hwf0 as (_ & Hrem & ? & _). rewrite Hin0, length_app in Hrem. unfold is_u64. lia. }
  unfold create_struct. rewrite (wrap_fwd _ _ HL), Ok_bind.
  rewrite (decode_tagged_reads create_fields (create_decoded c) (create_parts c) _ []); fold p.
  - rewrite Ok_bind, ListEnd_fwd. cbn [wrap]. rewrite Ok_bind, Ha. cbn. by rewrite drop_all.
  - by apply create_fields_read.
  - done.
  - by apply enter_wf.
  - done.
  - done.
  - unfold room, enter. cbn. lia.
Qed.

Lemma create_init_decoded c : create_ok c →
  create_init (c_Std c) (c_name c) (c_symbol c) (if c_decimals c =? 0 then None else Some (c_decimals c))
    (Some (c_percentFee c)) (Some (default 0 (c_totalSupply c))) (Some (default [] (c_baseURI c))) = Ok (decoded_create c).
Proof.
  destruct c as [std name symbol dec supply uri fee]. unfold create_ok, create_init, decoded_create.
  cbn [c_Std c_name c_symbol c_decimals c_totalSupply c_baseURI c_percentFee].
  intros (Hn & Hs & Hcase). destruct (Nat.eqb_spec (length name) 0), (Nat.eqb_spec (length symbol) 0); [lia..|].
  destruct Hcase as [(-> & (ts & -> & _) & _)|(-> & -> & -> & (u & -> & Hu) & _)]; cbn.
  - by destruct (dec =? 0).
  - destruct u; [cbn in Hu; lia|done].
Qed.

Lemma create_roundtrip c : create_ok c → Z.of_nat (vsize (VStruct (create_value c))) < two64 →
  ∃ bs, create_MarshalBinary c = Ok bs ∧ create_UnmarshalBinary bs = Ok (decoded_create c).
Proof.
  intros Hok Hsz. pose proof (create_ok_ranges c Hok) as Hr.
  destruct (Encode_Decode_size create_type (VStruct (create_value c))) as (bs & He & _ & Hl & Href);
    [by apply create_typed|done|].
  exists bs. split.
  - rewrite <- He. unfold create_MarshalBinary, RlpEnc.EncodeToBytes, create_value. by destruct (c_totalSupply c).
  - unfold create_UnmarshalBinary. rewrite (create_struct_of c) by (done || lia). rewrite Ok_bind.
    rewrite <- create_init_decoded by done. unfold create_decoded. by destruct (c_decimals c =? 0).
Qed.

Lemma op_code_known op : op_code op ∈ op_codes.
Proof. destruct op; apply (bool_decide_unpack _); vm_compute; exact I. Qed.

(** C28: an operation on tokens that its constructor makes, with numbers that are not negative, is
    encoded, and decoding gives it back with these changes: an id, cost or index that was not set comes
    back as zero, and the creation of a token with zero decimals comes back with the default of 18.
    The constructors of approvals and transfers take any [uint16] as the standard; the encoding of an
    operation whose standard is none of 0, 20 and 721 is refused by the decoder, with
    [ErrStandardNotValid]. *)
Theorem token_operation_roundtrip op : tok_op_ok op → encodable op →
  ∃ bs, tok_EncodeToBytes op = Ok bs ∧ tok_DecodeBytes bs = decoded_res op.
Proof.
  intros Hok Hsz. unfold encodable in Hsz.
  assert (∃ b, match op with OpCreate c => create_MarshalBinary c | _ => rlpEncode op end = Ok b ∧
    (if decide (op_code op = CreateCode) then c ← create_UnmarshalBinary b; Ok (OpCreate c)
     else data ← rlpDecode (op_code op) b; op_of (op_code op) data) = decoded_res op) as (b & He & Hd).
  { destruct (decide (op_code op = CreateCode)) as [Hc|Hc].
    - destruct op; try done. destruct (create_roundtrip op Hok Hsz) as (b & ? & Hb). exists b. split; [done|]. by rewrite Hb.
    - assert (∀ c, op ≠ OpCreate c) as Hnc by (by intros c ->).
      destruct (Encode_Decode_size opData_type (opData_value (fill_data (op_data op)))) as (b & He & Hd & _).
      + by apply data_typed, op_data_ok.
      + by destruct op.
      + exists b. split; [|by apply rlpDecode_op]. rewrite <- He, <- encode_fill. by destruct op. }
  exists (Prefix :: op_code op :: b). split; [unfold tok_EncodeToBytes; by rewrite He|].
  unfold tok_DecodeBytes. cbn [tok_GetOpCode]. rewrite bool_decide_false by naive_solver. rewrite Ok_bind.
  rewrite bool_decide_false by (intros H; apply H, op_code_known). cbn [fail_if]. rewrite Ok_bind.
  rewrite (go_slice_suffix [Prefix; op_code op] b) by done. by rewrite Ok_bind.
Qed.

Definition sample_create : createOperation :=
  MkCreate StdWRC20 [x47; x57] [x47] 0 (Some 1000000) None 0.

Lemma token_operation_roundtrip_witness :
  (∃ bs, tok_EncodeToBytes (OpCreate sample_create) = Ok bs ∧
    tok_DecodeBytes bs = Ok (OpCreate (MkCreate StdWRC20 [x47; x57] [x47] 18 (Some 1000000) None 0))).
Proof.
  apply (token_operation_roundtrip (OpCreate sample_create)).
  - split_and!; cbn; [lia|lia|]. left. split_and!; try done. by exists 1000000.
  - vm_compute. reflexivity.
Defined.
