(* ===== verification/TokenStream.v ===== *)
(** * Storage streams of tokens

    The stream of src/token/storage/stream.go: a token keeps its data in the storage of its
    account, read and written as one long row of bytes at big-integer offsets, 32 bytes to a slot.
    The slots that an operation touches are loaded into [bufferedSlots] and go back to the state
    with [Flush]. The field [buf] of the Go struct is the slot at hand, an alias of the buffered
    slot; here [getSlot] returns its key, and what is copied into [buf] is stored under the key.

    A stream is a memory of bytes ([mem]): [WriteAt] replaces a range of it, [ReadAt] returns one,
    and [Flush] makes the memory of the account that of the stream. *)

From Stdlib Require Import ZArith Lia Strings.Byte.
From stdpp Require Import base tactics option numbers list gmap strings.
From S2P Require Import Prelude Common GoMap World.

Definition ErrInvalidOff : error := Error "storage.ErrInvalidOff".

Record StorageStream := MkStorageStream {
  stateDb : World;
  tokenAddress : Address;
  bufferedSlots : gmap Hash Hash
}.

Definition NewStorageStream (tokenAddr : Address) (statedb : World) : StorageStream :=
  MkStorageStream statedb tokenAddr ∅.

Definition set_stateDb (w : World) (s : StorageStream) : StorageStream :=
  MkStorageStream w (tokenAddress s) (bufferedSlots s).
Definition buffer_slot (k v : Hash) (s : StorageStream) : StorageStream :=
  MkStorageStream (stateDb s) (tokenAddress s) (<[k := v]> (bufferedSlots s)).

(** The slot of an offset, and the position of the offset in the slot. *)
Definition slot (shift : Z) : go_res Hash :=
  if shift <? 0 then Err ErrInvalidOff else
  s ← FillBytes 32 (shift / 32);
  Ok (BytesToHash s).

Definition position (shift : Z) : go_res nat :=
  if shift <? 0 then Err ErrInvalidOff else Ok (Z.to_nat (shift mod 32)).

Definition getSlot (off : Z) : stM StorageStream Hash :=
  slotKey ← liftR (slot off);
  s ← getS;
  match bufferedSlots s !! slotKey with
  | Some _ => mret slotKey
  | None =>
      _ ← modify (buffer_slot slotKey (GetState (stateDb s) (tokenAddress s) slotKey));
      mret slotKey
  end.

(** What copies bytes between the slot and the caller's slice: the number of bytes copied, and
    the contents of both afterwards. *)
Definition copier : Type := bytes → bytes → nat * bytes * bytes.

Definition copy_in : copier := λ streamBuf b, (length streamBuf `min` length b, go_copy streamBuf b, b)%nat.
Definition copy_out : copier := λ streamBuf b, (length b `min` length streamBuf, streamBuf, go_copy b streamBuf)%nat.

(** The loop of [do]; every round copies at least a byte, so the length of the slice is enough
    fuel. *)
Fixpoint do_loop (fuel : nat) (action : copier) (b : bytes) (off : Z) (res slotPos : nat) :
    stM StorageStream (nat * bytes) :=
  if Nat.ltb res (length b) then
    match fuel with
    | O => liftR NoFuel
    | S fuel' =>
        key ← getSlot (off + Z.of_nat res);
        s ← getS;
        let buf := fb (default (zero_fixed 32) (bufferedSlots s !! key)) in
        let '(wb, buf', b') := action (drop slotPos buf) (drop res b) in
        _ ← modify (buffer_slot key (BytesToHash (take slotPos buf ++ buf')));
        do_loop fuel' action (take res b ++ b') off (res + wb) 0
    end
  else mret (res, b).

(** [do]; [do] is a keyword. *)
Definition do_at (action : copier) (b : bytes) (off : Z) : stM StorageStream (nat * bytes) :=
  if off <? 0 then liftR (Err ErrInvalidOff) else
  slotPos ← liftR (position off);
  do_loop (length b) action b off 0 slotPos.

Definition WriteAt (b : bytes) (off : Z) : stM StorageStream nat :=
  '(n, _) ← do_at copy_in b off; mret n.

(** The count, and the contents of the slice. *)
Definition ReadAt (b : bytes) (off : Z) : stM StorageStream (nat * bytes) := do_at copy_out b off.

Definition Flush `{!MapRange} (s : StorageStream) : StorageStream :=
  set_stateDb (foldl (λ w '(k, v), SetState (tokenAddress s) k v w) (stateDb s) (range (bufferedSlots s))) s.

(** ** The memory of a stream *)

Definition slots_number : Z := 2 ^ 256.
Definition mem_size : Z := 32 * slots_number.

Definition slot_key (k : Z) : Hash := BytesToHash (be_bytes 32 k).

Definition slot_at (s : StorageStream) (k : Z) : Hash :=
  default (GetState (stateDb s) (tokenAddress s) (slot_key k)) (bufferedSlots s !! slot_key k).

Definition mem (s : StorageStream) (i : Z) : byte :=
  default x00 (fb (slot_at s (i / 32)) !! Z.to_nat (i mod 32)).

(** [n] bytes of a memory from an offset on. *)
Definition bytes_at (m : Z → byte) (off : Z) (n : nat) : bytes :=
  map (λ k, m (off + Z.of_nat k)) (seq 0 n).

(** A memory after the bytes [b] have been written to it. *)
Definition write_mem (off : Z) (b : bytes) (m : Z → byte) (i : Z) : byte :=
  if (off <=? i) && (i <? off + Z.of_nat (length b)) then default x00 (b !! Z.to_nat (i - off)) else m i.

(** Two streams of the same account over the same state, with memories that agree. *)
Definition same_but_mem (s s' : StorageStream) : Prop :=
  stateDb s' = stateDb s ∧ tokenAddress s' = tokenAddress s.

Definition has_mem (s : StorageStream) (m : Z → byte) : Prop := ∀ i, 0 ≤ i < mem_size → mem s i = m i.

(** Bytes that fit the memory. *)
Definition in_mem (off : Z) (n : nat) : Prop := 0 ≤ off ∧ off + Z.of_nat n ≤ mem_size.

Lemma in_slot off : 0 ≤ off < mem_size → 0 ≤ off / 32 < slots_number.
Proof. unfold mem_size. intros H. split; [apply Z.div_pos; lia|apply Z.div_lt_upper_bound; lia]. Qed.

Lemma fb_slot_key k : fb (slot_key k) = be_bytes 32 k.
Proof. unfold slot_key. rewrite fb_BytesToFixed. apply fit_id, length_be_bytes. Qed.

Lemma slot_key_inj k k' : 0 ≤ k < slots_number → 0 ≤ k' < slots_number → slot_key k = slot_key k' → k = k'.
Proof.
  intros Hk Hk' He. apply (f_equal (λ h, be_val (fb h))) in He. rewrite !fb_slot_key in He.
  rewrite !be_val_be_bytes_small in He by exact Hk || exact Hk'. done.
Qed.

Lemma slot_Ok off : 0 ≤ off < mem_size → slot off = Ok (slot_key (off / 32)).
Proof.
  intros Hoff. pose proof (in_slot off Hoff) as Hs. unfold slot, FillBytes.
  destruct (Z.ltb_spec off 0); [lia|]. rewrite Z.abs_eq by lia.
  destruct (Z.ltb_spec (off / 32) (256 ^ Z.of_nat 32)) as [|Hge]; [done|].
  change (256 ^ Z.of_nat 32) with slots_number in Hge. lia.
Qed.

Lemma getSlot_Ok off s : 0 ≤ off < mem_size →
  getSlot off s = (Ok (slot_key (off / 32)), buffer_slot (slot_key (off / 32)) (slot_at s (off / 32)) s).
Proof.
  intros Hoff. unfold getSlot. rewrite slot_Ok by done. st_step. st_step. unfold slot_at.
  destruct (bufferedSlots s !! slot_key (off / 32)) as [v|] eqn:Hv; [|done].
  unfold buffer_slot. cbn [default]. rewrite insert_id by done. by destruct s.
Qed.

Lemma slot_at_buffer k v s k' : 0 ≤ k < slots_number → 0 ≤ k' < slots_number →
  slot_at (buffer_slot (slot_key k) v s) k' = if decide (k' = k) then v else slot_at s k'.
Proof.
  intros Hk Hk'. unfold slot_at, buffer_slot. simpl. case_decide as Heq.
  - subst. by rewrite lookup_insert_eq.
  - rewrite lookup_insert_ne; [done|]. intros He. apply Heq. by apply slot_key_inj.
Qed.

Lemma mem_buffer k v s i : 0 ≤ k < slots_number → 0 ≤ i < mem_size →
  mem (buffer_slot (slot_key k) v s) i = if decide (i / 32 = k) then default x00 (fb v !! Z.to_nat (i mod 32)) else mem s i.
Proof.
  intros Hk Hi. unfold mem. rewrite slot_at_buffer by (done || by apply in_slot).
  by case_decide.
Qed.

Lemma go_copy_lookup {A} (dst src : list A) j : (j < length dst)%nat →
  go_copy dst src !! j = if decide (j < length src)%nat then src !! j else dst !! j.
Proof.
  intros Hj. unfold go_copy. case_decide as Hs.
  - rewrite lookup_app_l by (rewrite length_take; lia). by apply lookup_take_lt.
  - rewrite lookup_app_r by (rewrite length_take; lia). rewrite lookup_drop. f_equal.
    rewrite length_take. lia.
Qed.

(** A round of the loop: the slot at hand is buffered with what the action makes of it. *)
Lemma do_loop_round fuel action b off res s : (res < length b)%nat → 0 ≤ off + Z.of_nat res < mem_size →
  let o := off + Z.of_nat res in
  let p := Z.to_nat (o mod 32) in
  let buf := fb (slot_at s (o / 32)) in
  do_loop (S fuel) action b off res p s =
  let '(wb, buf', b') := action (drop p buf) (drop res b) in
  do_loop fuel action (take res b ++ b') off (res + wb) 0
    (buffer_slot (slot_key (o / 32)) (BytesToHash (take p buf ++ buf')) s).
Proof.
  intros Hres Ho o p buf. cbn [do_loop]. destruct (Nat.ltb_spec res (length b)); [|lia].
  erewrite stM_Ok_bind by (by apply getSlot_Ok). cbv beta. st_step. fold o.
  change (bufferedSlots (buffer_slot ?k ?v s)) with (<[k := v]> (bufferedSlots s)).
  rewrite lookup_insert_eq. cbv zeta. change (fb (default _ (Some _))) with buf.
  destruct (action (drop p buf) (drop res b)) as [[wb buf'] b']. st_step. f_equal.
  unfold buffer_slot. cbn [stateDb tokenAddress bufferedSlots]. by rewrite insert_insert_eq.
Qed.

Lemma do_loop_end fuel action b off p s : do_loop fuel action b off (length b) p s = (Ok (length b, b), s).
Proof. destruct fuel; cbn [do_loop]; by rewrite Nat.ltb_irrefl. Qed.

(** The position in the slot after a round. *)
Lemma next_position o n : (0 < n)%nat → 0 ≤ o → let p := Z.to_nat (o mod 32) in
  let wb := ((32 - p) `min` n)%nat in
  (0 < wb)%nat ∧ (wb < n → Z.to_nat ((o + Z.of_nat wb) mod 32) = 0)%nat.
Proof.
  intros Hn Ho p wb. pose proof (Z.mod_pos_bound o 32 ltac:(lia)). split; [lia|]. intros Hw.
  assert (Z.of_nat wb = 32 - o mod 32) as -> by lia.
  replace (o + (32 - o mod 32)) with ((o / 32 + 1) * 32) by dlia. by rewrite Z_mod_mult.
Qed.

(** The slot that a write leaves, and its bytes. *)
Lemma written_slot_lookup p (buf b : bytes) j : length buf = 32%nat → (p < 32)%nat → (j < 32)%nat →
  fb (BytesToHash (take p buf ++ go_copy (drop p buf) b)) !! j =
  if decide (p ≤ j < p + length b)%nat then b !! (j - p)%nat else buf !! j.
Proof.
  intros Hl Hp Hj. rewrite fb_BytesToFixed, fit_id.
  2:{ rewrite length_app, length_go_copy, length_take, length_drop. lia. }
  destruct (decide (j < p)%nat) as [Hjp|Hjp].
  - rewrite lookup_app_l by (rewrite length_take; lia). rewrite lookup_take_lt by done.
    rewrite decide_False by lia. done.
  - rewrite lookup_app_r by (rewrite length_take; lia). rewrite length_take.
    replace (p `min` length buf)%nat with p by lia. rewrite go_copy_lookup by (rewrite length_drop; lia).
    destruct (decide (j - p < length b)%nat); [rewrite decide_True by lia; done|].
    rewrite decide_False by lia. rewrite lookup_drop. f_equal. lia.
Qed.

Lemma mem_write_round s o b i : 0 ≤ o < mem_size → 0 ≤ i < mem_size →
  let p := Z.to_nat (o mod 32) in
  let buf := fb (slot_at s (o / 32)) in
  let s' := buffer_slot (slot_key (o / 32)) (BytesToHash (take p buf ++ go_copy (drop p buf) b)) s in
  mem s' i = write_mem o (take (32 - p) b) (mem s) i.
Proof.
  intros Ho Hi p buf s'. pose proof (Z.mod_pos_bound o 32 ltac:(lia)). pose proof (Z.mod_pos_bound i 32 ltac:(lia)).
  pose proof (Z.div_mod o 32 ltac:(lia)). pose proof (Z.div_mod i 32 ltac:(lia)).
  unfold s'. rewrite mem_buffer by (done || by apply in_slot). unfold write_mem. rewrite length_take.
  case_decide as Hk.
  - rewrite written_slot_lookup by (apply length_fb || lia).
    destruct (decide (p ≤ Z.to_nat (i mod 32) < p + length b)%nat) as [Hin|Hin].
    + destruct (Z.leb_spec o i), (Z.ltb_spec i (o + Z.of_nat ((32 - p) `min` length b))); simpl; try lia.
      rewrite lookup_take_lt by lia. do 2 f_equal. lia.
    + destruct (Z.leb_spec o i), (Z.ltb_spec i (o + Z.of_nat ((32 - p) `min` length b))); simpl; try lia;
        unfold buf, mem; by rewrite <- Hk.
  - destruct (Z.leb_spec o i), (Z.ltb_spec i (o + Z.of_nat ((32 - p) `min` length b))); simpl; try done.
    exfalso. apply Hk. lia.
Qed.

Lemma write_mem_app off b c m i :
  write_mem off (b ++ c) m i = write_mem (off + Z.of_nat (length b)) c (write_mem off b m) i.
Proof.
  unfold write_mem. rewrite length_app.
  destruct (Z.leb_spec off i), (Z.ltb_spec i (off + Z.of_nat (length b + length c))),
    (Z.leb_spec (off + Z.of_nat (length b)) i),
    (Z.ltb_spec i (off + Z.of_nat (length b) + Z.of_nat (length c))),
    (Z.ltb_spec i (off + Z.of_nat (length b))); simpl; try lia; try done.
  - rewrite lookup_app_r by lia. do 2 f_equal. lia.
  - by rewrite lookup_app_l by lia.
Qed.

Lemma write_mem_ext off b m m' i : m i = m' i → write_mem off b m i = write_mem off b m' i.
Proof. unfold write_mem. by intros ->. Qed.

Lemma write_mem_nil off m i : write_mem off [] m i = m i.
Proof.
  unfold write_mem. cbn [length]. destruct (Z.leb_spec off i), (Z.ltb_spec i (off + Z.of_nat 0)); [lia|done..].
Qed.

(** The loop writes what is left of the slice. *)
Lemma write_loop b off : in_mem off (length b) → ∀ fuel res s,
  (res ≤ length b)%nat → (length b - res ≤ fuel)%nat →
  let o := off + Z.of_nat res in
  ∃ s', do_loop fuel copy_in b off res (if decide (res < length b)%nat then Z.to_nat (o mod 32) else 0%nat) s
      = (Ok (length b, b), s') ∧
    same_but_mem s s' ∧ has_mem s' (write_mem o (drop res b) (mem s)).
Proof.
  intros Hin. induction fuel as [|fuel IH]; intros res s Hres Hf o.
  { replace res with (length b) by lia. rewrite do_loop_end. exists s. split_and!; [done|done|].
    intros i Hi. by rewrite drop_all, write_mem_nil. }
  case_decide as Hlt.
  2:{ replace res with (length b) by lia. rewrite do_loop_end. exists s. split_and!; [done|done|].
      intros i Hi. by rewrite drop_all, write_mem_nil. }
  destruct Hin as [H0 Hsz]. unfold o. rewrite do_loop_round by lia. fold o. cbn [copy_in].
  set (p := Z.to_nat (o mod 32)). set (buf := fb (slot_at s (o / 32))).
  set (s1 := buffer_slot _ _ s). unfold copy_in. rewrite take_drop, !length_drop.
  replace (length buf) with 32%nat by (symmetry; apply length_fb).
  destruct (next_position o (length b - res) ltac:(lia) ltac:(lia)) as [Hpos Hnext]. fold p in Hpos, Hnext.
  set (wb := ((32 - p) `min` (length b - res))%nat) in *.
  destruct (IH (res + wb)%nat s1) as (s' & Hrun & Hsame & Hmem); [lia..|].
  exists s'. split_and!.
  - rewrite <- Hrun. f_equal. case_decide; [|done]. rewrite Nat2Z.inj_add, Z.add_assoc.
    fold o. symmetry. apply Hnext. lia.
  - done.
  - intros i Hi. rewrite Hmem by done.
    rewrite <- (take_drop wb (drop res b)) at 1. rewrite write_mem_app, drop_drop, length_take, length_drop.
    replace (wb `min` (length b - res))%nat with wb by lia.
    rewrite Nat2Z.inj_add, Z.add_assoc. apply write_mem_ext. unfold s1, p, buf.
    rewrite mem_write_round by (done || lia). fold p. f_equal.
    unfold wb. rewrite <- take_take. f_equal. symmetry. apply take_ge. rewrite length_drop. lia.
Qed.

Lemma position_Ok off : 0 ≤ off → position off = Ok (Z.to_nat (off mod 32)).
Proof. intros H. unfold position. destruct (Z.ltb_spec off 0); [lia|done]. Qed.

Lemma bytes_at_app m off n k : bytes_at m off (n + k) = bytes_at m off n ++ bytes_at m (off + Z.of_nat n) k.
Proof.
  unfold bytes_at. rewrite seq_app, map_app. f_equal. rewrite <- (Nat.add_0_r (0 + n)), <- fmap_add_seq, map_map.
  apply map_ext. intros j. f_equal. lia.
Qed.

Lemma bytes_at_ext m m' off n : (∀ i, off ≤ i < off + Z.of_nat n → m i = m' i) → bytes_at m off n = bytes_at m' off n.
Proof. intros H. apply map_ext_in. intros j Hj%in_seq. apply H. lia. Qed.

Lemma length_bytes_at m off n : length (bytes_at m off n) = n.
Proof. unfold bytes_at. by rewrite length_map, length_seq. Qed.

Lemma lookup_bytes_at m off n j : (j < n)%nat → bytes_at m off n !! j = Some (m (off + Z.of_nat j)).
Proof. intros Hj. unfold bytes_at. rewrite list_lookup_fmap, lookup_seq_lt by done. done. Qed.

Lemma take_go_copy {A} (dst src : list A) n : (n ≤ length dst)%nat → (n ≤ length src)%nat →
  take n (go_copy dst src) = take n src.
Proof.
  intros Hd Hs. unfold go_copy. rewrite take_app_le by (rewrite length_take; lia).
  rewrite take_take. f_equal. lia.
Qed.

(** The bytes of the slot at hand. *)
Lemma slot_bytes s o n : 0 ≤ o → let p := Z.to_nat (o mod 32) in (n ≤ 32 - p)%nat →
  take n (drop p (fb (slot_at s (o / 32)))) = bytes_at (mem s) o n.
Proof.
  intros Ho p Hn. pose proof (Z.mod_pos_bound o 32 ltac:(lia)). pose proof (length_fb (slot_at s (o / 32))) as Hl.
  apply list_eq. intros j. destruct (decide (j < n)%nat) as [Hj|Hj].
  - rewrite lookup_take_lt, lookup_drop, lookup_bytes_at by done. unfold mem.
    assert ((o + Z.of_nat j) / 32 = o / 32 ∧ (o + Z.of_nat j) mod 32 = o mod 32 + Z.of_nat j) as [-> ->] by dlia.
    replace (Z.to_nat (o mod 32 + Z.of_nat j)) with (p + j)%nat by lia.
    destruct (lookup_lt_is_Some_2 (fb (slot_at s (o / 32))) (p + j)) as [x Hx]; [lia|]. by rewrite Hx.
  - rewrite !lookup_ge_None_2; [done|rewrite length_bytes_at; lia|rewrite length_take, length_drop; lia].
Qed.

Lemma mem_load s o i : 0 ≤ o < mem_size → 0 ≤ i < mem_size →
  mem (buffer_slot (slot_key (o / 32)) (slot_at s (o / 32)) s) i = mem s i.
Proof.
  intros Ho Hi. rewrite mem_buffer by (done || by apply in_slot). case_decide as He; [|done].
  unfold mem. by rewrite <- He.
Qed.

(** A round of a read: the slot is loaded and copied out. *)
Lemma read_round fuel b off res s : (res < length b)%nat → 0 ≤ off + Z.of_nat res < mem_size →
  let o := off + Z.of_nat res in
  let p := Z.to_nat (o mod 32) in
  let wb := ((32 - p) `min` (length b - res))%nat in
  do_loop (S fuel) copy_out b off res p s =
  do_loop fuel copy_out (take res b ++ go_copy (drop res b) (drop p (fb (slot_at s (o / 32))))) off (res + wb) 0
    (buffer_slot (slot_key (o / 32)) (slot_at s (o / 32)) s).
Proof.
  intros Hres Ho o p wb. unfold p, o. rewrite do_loop_round by lia. fold o. unfold copy_out. cbv beta iota.
  rewrite take_drop, BytesToFixed_fb, !length_drop, length_fb, Nat.min_comm. done.
Qed.

(** The loop reads what is left of the slice, and only buffers slots. *)
Lemma read_loop off n : in_mem off n → ∀ fuel res b s,
  length b = n → (res ≤ n)%nat → (n - res ≤ fuel)%nat →
  let o := off + Z.of_nat res in
  ∃ s', do_loop fuel copy_out b off res (if decide (res < n)%nat then Z.to_nat (o mod 32) else 0%nat) s
      = (Ok (n, take res b ++ bytes_at (mem s) o (n - res)), s') ∧
    same_but_mem s s' ∧ has_mem s' (mem s).
Proof.
  intros Hin. induction fuel as [|fuel IH]; intros res b s Hb Hres Hf o.
  { replace res with (length b) by lia. rewrite <- Hb, do_loop_end, Nat.sub_diag, firstn_all, app_nil_r. by exists s. }
  case_decide as Hlt.
  2:{ replace res with (length b) by lia. rewrite <- Hb, do_loop_end, Nat.sub_diag, firstn_all, app_nil_r. by exists s. }
  destruct Hin as [H0 Hsz]. unfold o. rewrite read_round by lia. fold o. rewrite Hb.
  destruct (next_position o (n - res) ltac:(lia) ltac:(lia)) as [Hpos Hnext].
  set (p := Z.to_nat (o mod 32)) in *. set (buf := fb (slot_at s (o / 32))).
  set (wb := ((32 - p) `min` (n - res))%nat) in *. set (s1 := buffer_slot _ _ s).
  assert (∀ i, 0 ≤ i < mem_size → mem s1 i = mem s i) as Hm1 by (intros i Hi; apply mem_load; lia).
  destruct (IH (res + wb)%nat (take res b ++ go_copy (drop res b) (drop p buf)) s1) as (s' & Hrun & Hsame & Hmem).
  { rewrite length_app, length_go_copy, length_take, length_drop. lia. }
  { lia. }
  { lia. }
  exists s'. split_and!.
  - etrans; [|etrans; [exact Hrun|]].
    + f_equal. case_decide; [|done]. rewrite Nat2Z.inj_add, Z.add_assoc. fold o. symmetry. apply Hnext. lia.
    + do 3 f_equal. rewrite take_app, length_take, (take_ge (take res b)) by (rewrite length_take; lia).
      replace (res + wb - res `min` length b)%nat with wb by lia. rewrite <- app_assoc. f_equal.
      replace (n - res)%nat with (wb + (n - (res + wb)))%nat by lia. rewrite bytes_at_app.
      assert (length buf = 32%nat) as Hbuf by apply length_fb.
      rewrite take_go_copy by (rewrite length_drop; lia). unfold buf, p. rewrite slot_bytes by lia.
      rewrite Nat2Z.inj_add, Z.add_assoc. f_equal. apply bytes_at_ext. intros i Hi. apply Hm1. lia.
  - done.
  - intros i Hi. rewrite Hmem by done. by apply Hm1.
Qed.

Lemma WriteAt_Ok b off s : in_mem off (length b) → ∃ s', WriteAt b off s = (Ok (length b), s') ∧
  same_but_mem s s' ∧ has_mem s' (write_mem off b (mem s)).
Proof.
  intros Hin. destruct (write_loop b off Hin (length b) 0 s) as (s' & Hrun & Hs & Hm); [lia..|].
  exists s'. rewrite Z.add_0_r in *. split_and!; [|done|done].
  unfold WriteAt, do_at. destruct (Z.ltb_spec off 0) as [|Hoff]; [destruct Hin; lia|].
  rewrite position_Ok by done. erewrite stM_Ok_bind; [|rewrite liftR_Ok_bind; cbv beta].
  2:{ rewrite <- Hrun. case_decide; [done|]. destruct b; [done|simpl in *; lia]. }
  done.
Qed.

Lemma ReadAt_Ok b off s : in_mem off (length b) → ∃ s', ReadAt b off s = (Ok (length b, bytes_at (mem s) off (length b)), s') ∧
  same_but_mem s s' ∧ has_mem s' (mem s).
Proof.
  intros Hin. destruct (read_loop off (length b) Hin (length b) 0 b s) as (s' & Hrun & Hs & Hm); [done|lia..|].
  exists s'. rewrite Z.add_0_r in *. split_and!; [|done|done].
  unfold ReadAt, do_at. destruct (Z.ltb_spec off 0) as [|Hoff]; [destruct Hin; lia|].
  rewrite position_Ok by done. rewrite liftR_Ok_bind. cbv beta. rewrite Nat.sub_0_r in Hrun. etrans; [|exact Hrun].
  case_decide; [done|]. destruct b; [done|simpl in *; lia].
Qed.

(** ** Flush *)

Section flush.
Context `{!MapRange}.

Lemma GetState_SetState a k v w a' k' :
  GetState (SetState a k v w) a' k' = if decide (a = a' ∧ k = k') then v else GetState w a' k'.
Proof.
  unfold GetState, SetState. rewrite account_update. destruct (decide (a = a')) as [->|Ha].
  - unfold set_slot. cbn [acc_storage]. destruct (decide (k = k')) as [->|Hk].
    + rewrite lookup_insert_eq. by rewrite decide_True.
    + rewrite lookup_insert_ne by done. rewrite decide_False; [done|]. by intros [_ ?].
  - rewrite decide_False; [done|]. by intros [? _].
Qed.

Definition store_slots (a : Address) (l : list (Hash * Hash)) (w : World) : World :=
  foldl (λ w '(k, v), SetState a k v w) w l.

Lemma GetState_store_slots a l w a' k : NoDup l.*1 →
  GetState (store_slots a l w) a' k =
  if decide (a = a') then default (GetState w a' k) (list_to_map (M := gmap Hash Hash) l !! k) else GetState w a' k.
Proof.
  unfold store_slots. revert w. induction l as [|[k0 v0] l IH]; intros w Hnd; cbn [foldl].
  { cbn. by case_decide. }
  apply NoDup_cons in Hnd as [Hk0 Hnd]. rewrite IH by done. rewrite GetState_SetState. cbn [list_to_map foldr].
  case_decide as Ha; [|rewrite decide_False; [done|naive_solver]]. subst.
  destruct (decide (k0 = k)) as [->|Hk].
  - rewrite lookup_insert_eq, decide_True by done. rewrite not_elem_of_list_to_map_1 by done. done.
  - rewrite lookup_insert_ne, decide_False by naive_solver. done.
Qed.

Lemma range_map {A} (m : gmap Hash A) : NoDup (range m).*1 ∧ list_to_map (range m) = m.
Proof.
  assert (NoDup (range m).*1) as Hnd by (rewrite range_perm; apply NoDup_fst_map_to_list).
  split; [done|]. rewrite (list_to_map_proper (range m) (map_to_list m)); [apply list_to_map_to_list|done|apply range_perm].
Qed.

Lemma GetState_Flush s a k : GetState (stateDb (Flush s)) a k =
  if decide (tokenAddress s = a) then default (GetState (stateDb s) a k) (bufferedSlots s !! k) else GetState (stateDb s) a k.
Proof.
  destruct (range_map (bufferedSlots s)) as [Hnd Hm]. 
  change (stateDb (Flush s)) with (store_slots (tokenAddress s) (range (bufferedSlots s)) (stateDb s)).
  rewrite GetState_store_slots by done. by rewrite Hm.
Qed.

(** After a flush a new stream has the memory of the old one. *)
Lemma mem_Flush s i : mem (NewStorageStream (tokenAddress s) (stateDb (Flush s))) i = mem s i.
Proof.
  unfold mem, slot_at, NewStorageStream. cbn [bufferedSlots stateDb tokenAddress]. rewrite lookup_empty. cbn [default].
  rewrite GetState_Flush. by rewrite decide_True.
Qed.

End flush.

(** ** Streams with the same memory *)

(** The stream of the same account over the same state with the same memory: what reading makes of
    a stream. *)
Definition sim (s s' : StorageStream) : Prop := same_but_mem s s' ∧ has_mem s' (mem s).

#[export] Instance sim_equivalence : Equivalence sim.
Proof.
  split.
  - by intros s.
  - intros s s' [[Hw Ht] Hm]. split; [done|]. intros i Hi. symmetry. by apply Hm.
  - intros s1 s2 s3 [[Hw1 Ht1] Hm1] [[Hw2 Ht2] Hm2]. split; [split; congruence|].
    intros i Hi. rewrite Hm2 by done. by apply Hm1.
Qed.

(** A computation that returns [a] and at most buffers slots. *)
Definition fetches {A} (m : stM StorageStream A) (s : StorageStream) (a : A) : Prop :=
  ∃ s', m s = (Ok a, s') ∧ sim s s'.

Lemma fetches_bind {A B} (m : stM StorageStream A) (f : A → stM StorageStream B) s a b :
  fetches m s a → (∀ s', sim s s' → fetches (f a) s' b) → fetches (m ≫= f) s b.
Proof.
  intros (s1 & Hm & Hs1) Hf. destruct (Hf s1 Hs1) as (s2 & Hm2 & Hs2). exists s2.
  split; [by erewrite stM_Ok_bind|by etrans].
Qed.

Lemma fetches_mret {A} (a : A) s : fetches (mret a) s a.
Proof. by exists s. Qed.

Lemma fetches_liftR {A} (r : go_res A) s a : r = Ok a → fetches (liftR r) s a.
Proof. intros ->. by exists s. Qed.

Lemma fetches_getS {A} (f : StorageStream → stM StorageStream A) s a :
  fetches (f s) s a → fetches (getS ≫= f) s a.
Proof. intros (s' & H & Hs). by exists s'. Qed.

(** The bytes [b] lie at an offset. *)
Definition holds (s : StorageStream) (off : Z) (b : bytes) : Prop :=
  in_mem off (length b) ∧ bytes_at (mem s) off (length b) = b.

#[export] Instance holds_proper : Proper (sim ==> eq ==> eq ==> iff) holds.
Proof.
  assert (∀ s s' off b, sim s s' → holds s off b → holds s' off b) as Hone.
  { intros s s' off b [_ Hm] [Hin Hb]. split; [done|]. destruct Hin. rewrite <- Hb at 2.
    apply bytes_at_ext. intros i Hi. apply Hm. lia. }
  intros s s' Hs off ? <- b ? <-. split; by apply Hone.
Qed.

Lemma holds_app s off b c : holds s off (b ++ c) ↔ holds s off b ∧ holds s (off + Z.of_nat (length b)) c.
Proof.
  unfold holds, in_mem. rewrite length_app, bytes_at_app. split.
  - intros [Hin Hb]. apply app_inj_1 in Hb as [Hb Hc]; [|by rewrite length_bytes_at]. split; (split; [lia|done]).
  - intros [[? Hb] [? Hc]]. split; [lia|]. by rewrite Hb, Hc.
Qed.

Lemma holds_cons s off x b : holds s off (x :: b) ↔ holds s off [x] ∧ holds s (off + 1) b.
Proof. apply (holds_app s off [x] b). Qed.

Lemma fetch_bytes buf off s b : length buf = length b → holds s off b → fetches (ReadAt buf off) s (length b, b).
Proof.
  intros Hl [Hin Hb]. rewrite <- Hl in Hin, Hb. destruct (ReadAt_Ok buf off s Hin) as (s' & Hr & Hs).
  exists s'. rewrite Hr, Hb, <- Hl. done.
Qed.

(** Whatever lies there. *)
Lemma fetch_any buf off s : in_mem off (length buf) →
  fetches (ReadAt buf off) s (length buf, bytes_at (mem s) off (length buf)).
Proof. intros Hin. destruct (ReadAt_Ok buf off s Hin) as (s' & Hr & Hs). by exists s'. Qed.

(** ** Every access ends *)

Lemma slot_bad off : 0 ≤ off → ¬ off < mem_size → slot off = Panic.
Proof.
  intros H0 Hoff. unfold slot, FillBytes. destruct (Z.ltb_spec off 0); [lia|].
  pose proof (Z.div_pos off 32 H0 ltac:(lia)). rewrite Z.abs_eq by lia.
  destruct (Z.ltb_spec (off / 32) (256 ^ Z.of_nat 32)) as [Hlt|]; [|done].
  change (256 ^ Z.of_nat 32) with slots_number in Hlt. exfalso. apply Hoff. unfold mem_size. dlia.
Qed.

(** Reading never runs out of rounds, and leaves the memory also when it fails. *)
Lemma read_loop_ends : ∀ fuel b off res s, 0 ≤ off → (length b - res ≤ fuel)%nat →
  let r := do_loop fuel copy_out b off res
    (if decide (res < length b)%nat then Z.to_nat ((off + Z.of_nat res) mod 32) else 0%nat) s in
  r.1 ≠ NoFuel ∧ sim s r.2.
Proof.
  induction fuel as [|fuel IH]; intros b off res s H0 Hf r; subst r.
  { cbn [do_loop]. destruct (Nat.ltb_spec res (length b)); [lia|done]. }
  case_decide as Hlt; [|cbn [do_loop]; by destruct (Nat.ltb_spec res (length b)); [lia|]].
  set (o := off + Z.of_nat res). destruct (decide (o < mem_size)) as [Ho|Ho].
  - rewrite read_round by lia. fold o. set (b' := _ ++ _). set (s1 := buffer_slot _ _ s).
    destruct (next_position o (length b - res) ltac:(lia) ltac:(lia)) as [Hpos Hnext].
    set (wb := (_ `min` _)%nat) in *.
    assert (length b' = length b) as Hb'.
    { unfold b'. rewrite length_app, length_go_copy, length_take, length_drop. lia. }
    destruct (IH b' off (res + wb)%nat s1) as [Hn Hs]; [done|lia|].
    assert (sim s s1) as Hs1 by (split; [done|intros i Hi; apply mem_load; lia]).
    rewrite Hb', Nat2Z.inj_add, Z.add_assoc in Hn, Hs. fold o in Hn, Hs.
    case_decide; [rewrite Hnext in Hn, Hs by lia|]; split; try done; by etrans.
  - cbn [do_loop]. destruct (Nat.ltb_spec res (length b)); [|lia]. unfold getSlot. fold o.
    rewrite slot_bad by lia. done.
Qed.

Lemma ReadAt_ends b off s : (ReadAt b off s).1 ≠ NoFuel ∧ sim s (ReadAt b off s).2.
Proof.
  unfold ReadAt, do_at. destruct (Z.ltb_spec off 0) as [|Hoff]; [done|]. rewrite position_Ok by done.
  rewrite liftR_Ok_bind. cbv beta. destruct (read_loop_ends (length b) b off 0 s Hoff ltac:(lia)) as [Hn Hs].
  rewrite Z.add_0_r in Hn, Hs. case_decide; [done|]. destruct b; [done|simpl in *; lia].
Qed.
