(* ===== verification/TokenSig.v ===== *)
(** * Signatures of token storages

    The signature of src/token/storage/signature.go: the head of a token's memory describes its
    fields, each with a name and the properties of its values (a scalar, an array, a slice or a
    map), in a binary form that [ReadFromStream] parses back, and the offsets and lengths of the
    fields follow from it. A Go interface [ValueProperties] is the inductive type of its four
    implementations; a method that an implementation answers with an error does so here.

    The theorems: the signature that [WriteToStream] writes is read back, and the parser of any
    memory terminates. *)

From Stdlib Require Import ZArith Lia Strings.Byte.
From stdpp Require Import base tactics option numbers list gmap strings.
From S2P Require Import Prelude Common GoMap World TokenStream.

Definition ErrNoKeyProperties : error := Error "storage.ErrNoKeyProperties".
Definition ErrNoValueProperties : error := Error "storage.ErrNoValueProperties".
Definition ErrNoLength : error := Error "storage.ErrNoLength".
Definition ErrWrongType : error := Error "storage.ErrWrongType".
Definition ErrWrongKeyType : error := Error "storage.ErrWrongKeyType".
Definition ErrIsNotScalarType : error := Error "storage.ErrIsNotScalarType".
Definition ErrNameTooBig : error := Error "storage.ErrNameTooBig".
Definition ErrSliceNotInMap : error := Error "storage.ErrSliceNotInMap".
Definition ErrTooManyFields : error := Error "storage.ErrTooManyFields".

(** The largest allocation of the Go run-time on amd64 and arm64. *)
Definition maxAlloc : Z := 2 ^ 48.

(** [make([]byte, n)], which panics when [n] is no [int] or is above the largest allocation; that the
    memory of the machine may be too small, which ends the process, is not represented. *)
Definition make_bytes (n : Z) : go_res bytes :=
  if n <=? maxAlloc then Ok (replicate (Z.to_nat n) x00) else Panic.

(** ** Types *)

(** [Type]: an identifier and the size of a scalar. *)
Record SType := MkSType { type_Id : byte; type_Size : byte }.

#[export] Instance SType_eq_dec : EqDecision SType.
Proof. solve_decision. Defined.

Definition Uint8Type : SType := MkSType x01 x01.
Definition Uint16Type : SType := MkSType x01 x02.
Definition Uint32Type : SType := MkSType x01 x04.
Definition Uint64Type : SType := MkSType x01 x08.
Definition Uint256Type : SType := MkSType x01 x20.
Definition Int32Type : SType := MkSType x02 x04.
Definition Int64Type : SType := MkSType x02 x08.
Definition ArrayType : SType := MkSType x03 x00.
Definition SliceType : SType := MkSType x04 x00.
Definition MapType : SType := MkSType x05 x00.

Definition isScalar (tp : byte) : bool := b2z tp <? b2z (type_Id ArrayType).
Definition isArray (tp : byte) : bool := bool_decide (tp = type_Id ArrayType).
Definition isSlice (tp : byte) : bool := bool_decide (tp = type_Id SliceType).
Definition isMap (tp : byte) : bool := bool_decide (tp = type_Id MapType).

(** ** Properties of values *)

Inductive ValueProperties :=
| ScalarProperties (internalType : SType)
| ArrayProperties (valueProperties : ValueProperties) (len : Z)
| SliceProperties (valueProperties : ValueProperties)
| MapProperties (keyProperties valueProperties : ValueProperties).

#[export] Instance ValueProperties_eq_dec : EqDecision ValueProperties.
Proof. solve_decision. Defined.

Definition vp_Type (vp : ValueProperties) : SType :=
  match vp with
  | ScalarProperties t => t
  | ArrayProperties _ _ => ArrayType
  | SliceProperties _ => SliceType
  | MapProperties _ _ => MapType
  end.

Definition vp_KeyProperties (vp : ValueProperties) : go_res ValueProperties :=
  match vp with
  | MapProperties k _ => Ok k
  | _ => Err ErrNoKeyProperties
  end.

Definition vp_ValueProperties (vp : ValueProperties) : go_res ValueProperties :=
  match vp with
  | ScalarProperties _ => Err ErrNoValueProperties
  | ArrayProperties v _ | SliceProperties v | MapProperties _ v => Ok v
  end.

Definition NewScalarProperties (internalType : SType) : go_res ValueProperties :=
  if isScalar (type_Id internalType) then Ok (ScalarProperties internalType) else Err ErrIsNotScalarType.

Definition NewMapProperties (key value : ValueProperties) : go_res ValueProperties :=
  if bool_decide (vp_Type key = MapType ∨ vp_Type key = SliceType) then Err ErrWrongKeyType
  else Ok (MapProperties key value).

(** [MarshalBinary] of the four implementations. *)
Fixpoint vp_MarshalBinary (vp : ValueProperties) : bytes :=
  match vp with
  | ScalarProperties t => [type_Id t; type_Size t]
  | ArrayProperties v len => type_Id ArrayType :: PutUint64BE len ++ vp_MarshalBinary v
  | SliceProperties v => type_Id SliceType :: vp_MarshalBinary v
  | MapProperties k v => type_Id MapType :: vp_MarshalBinary k ++ vp_MarshalBinary v
  end.

(** The bytes of the marshalled properties. On scalar properties the methods that the other
    cases call fail. *)
Fixpoint calculatePropertiesSize (vp : ValueProperties) : go_res Z :=
  match vp with
  | ScalarProperties t =>
      let id := type_Id t in
      if isScalar id then Ok 2
      else if isArray id || isSlice id then Err ErrNoValueProperties
      else if isMap id then Err ErrNoKeyProperties else Err ErrWrongType
  | ArrayProperties v _ => vpSize ← calculatePropertiesSize v; Ok (u64 (1 + 8 + vpSize))
  | SliceProperties v => vpSize ← calculatePropertiesSize v; Ok (u64 (1 + vpSize))
  | MapProperties k v =>
      kSize ← calculatePropertiesSize k;
      vSize ← calculatePropertiesSize v;
      Ok (u64 (1 + kSize + vSize))
  end.

(** The bytes of a value; none for a map, which lives elsewhere, and for a slice. *)
Fixpoint calculateFieldLength (vp : ValueProperties) : go_res Z :=
  match vp with
  | ScalarProperties t =>
      let id := type_Id t in
      if isScalar id then Ok (b2z (type_Size t))
      else if isArray id then Err ErrNoValueProperties
      else if isMap id || isSlice id then Ok 0 else Err ErrWrongType
  | ArrayProperties v l => vpSize ← calculateFieldLength v; Ok (u64 (l * vpSize))
  | SliceProperties _ | MapProperties _ _ => Ok 0
  end.

(** The implementation a type byte calls for; [None] is the nil interface, whose methods panic. *)
Inductive PropsKind := KScalar | KArray | KSlice | KMap.

Definition newProperties (tp : byte) : option PropsKind :=
  if isScalar tp then Some KScalar
  else if isArray tp then Some KArray
  else if isSlice tp then Some KSlice
  else if isMap tp then Some KMap else None.

(** [UnmarshalBinary] of the four implementations; a nested value is shorter than the data, so
    the length of the data is enough fuel. *)
Fixpoint unmarshal_props (fuel : nat) (kind : PropsKind) (data : bytes) : go_res ValueProperties :=
  match fuel with
  | O => NoFuel
  | S fuel' =>
      let nested (data : bytes) : go_res ValueProperties :=
        tp ← go_index data 0;
        kind ← deref (newProperties tp);
        unmarshal_props fuel' kind data in
      match kind with
      | KScalar =>
          t ← go_slice 0 2 data;
          id ← go_index t 0;
          size ← go_index t 1;
          Ok (ScalarProperties (MkSType id size))
      | KArray =>
          tp ← go_index data 0;
          _ ← fail_if (bool_decide (tp ≠ type_Id ArrayType)) ErrWrongType;
          data ← go_slice 1 (length data) data;
          lenB ← go_slice 0 8 data;
          l ← Uint64BE lenB;
          data ← go_slice 8 (length data) data;
          vp ← nested data;
          Ok (ArrayProperties vp l)
      | KSlice =>
          tp ← go_index data 0;
          _ ← fail_if (bool_decide (tp ≠ type_Id SliceType)) ErrWrongType;
          data ← go_slice 1 (length data) data;
          vp ← nested data;
          Ok (SliceProperties vp)
      | KMap =>
          tp ← go_index data 0;
          _ ← fail_if (bool_decide (tp ≠ type_Id MapType)) ErrWrongType;
          data ← go_slice 1 (length data) data;
          ktp ← go_index data 0;
          _ ← fail_if (bool_decide (ktp = type_Id MapType)) ErrWrongType;
          kp ← nested data;
          off ← calculatePropertiesSize kp;
          data ← go_slice (Z.to_nat off) (length data) data;
          vp ← nested data;
          Ok (MapProperties kp vp)
      end
  end.

(** ** Descriptors *)

Record fieldDescriptor := MkDescriptor {
  fd_name : bytes;
  fd_vp : ValueProperties
}.

#[export] Instance fieldDescriptor_eq_dec : EqDecision fieldDescriptor.
Proof. solve_decision. Defined.

Definition NewFieldDescriptor (fieldName : bytes) (v : ValueProperties) : go_res fieldDescriptor :=
  if isSlice (type_Id (vp_Type v)) then Err ErrSliceNotInMap
  else if Nat.ltb 255 (length fieldName) then Err ErrNameTooBig
  else Ok (MkDescriptor fieldName v).

Definition fd_MarshalBinary (fd : fieldDescriptor) : bytes :=
  z2b (Z.of_nat (length (fd_name fd))) :: fd_name fd ++ vp_MarshalBinary (fd_vp fd).

Definition fd_UnmarshalBinary (data : bytes) : go_res fieldDescriptor :=
  nameLenB ← go_index data 0;
  let nameLen := Z.to_nat (b2z nameLenB) in
  data ← go_slice 1 (length data) data;
  name ← go_slice 0 nameLen data;
  data ← go_slice nameLen (length data) data;
  tp ← go_index data 0;
  kind ← deref (newProperties tp);
  vp ← unmarshal_props (length data) kind data;
  Ok (MkDescriptor name vp).

(** [FieldInfo]; the offset is nil until it is calculated. *)
Record FieldInfo := MkFieldInfo {
  fi_descriptor : fieldDescriptor;
  fi_offset : option Z;
  fi_length : Z
}.

Fixpoint calculateFieldsOffset (start : Z) (fields : list FieldInfo) : list FieldInfo :=
  match fields with
  | [] => []
  | f :: fields' =>
      MkFieldInfo (fi_descriptor f) (Some (i64 start)) (fi_length f) ::
      calculateFieldsOffset (u64 (start + fi_length f)) fields'
  end.

(** ** Signatures *)

Definition signatureV1 : Z := 1.

Record SignatureV1 := MkSignature {
  sig_version : Z;
  sig_fields : list FieldInfo
}.

(** The loop of [NewSignatureV1]. *)
Fixpoint new_fields (totalSize : Z) (fd : list fieldDescriptor) : go_res (Z * list FieldInfo) :=
  match fd with
  | [] => Ok (totalSize, [])
  | descriptor :: fd' =>
      l ← calculateFieldLength (fd_vp descriptor);
      s ← calculatePropertiesSize (fd_vp descriptor);
      '(totalSize, fields) ← new_fields (u64 (totalSize + u64 (s + (1 + Z.of_nat (length (fd_name descriptor)))))) fd';
      Ok (totalSize, MkFieldInfo descriptor None l :: fields)
  end.

Definition NewSignatureV1 (fd : list fieldDescriptor) : go_res SignatureV1 :=
  if Nat.ltb 255 (length fd) then Err ErrTooManyFields else
  '(totalSize, fields) ← new_fields (2 + 1) fd;
  Ok (MkSignature signatureV1 (calculateFieldsOffset totalSize fields)).

Definition sig_bytes (s : SignatureV1) : bytes :=
  PutUint16BE (sig_version s) ++ [z2b (Z.of_nat (length (sig_fields s)))] ++
  concat (map (λ f, fd_MarshalBinary (fi_descriptor f)) (sig_fields s)).

Definition WriteToStream (s : SignatureV1) : stM StorageStream nat := WriteAt (sig_bytes s) 0.

(** [calculatePropsEnd]: each nested call reads a type byte behind the one before, and ends at a
    zero, so the bytes that are not zero are enough fuel. *)
Fixpoint calculatePropsEnd (fuel : nat) (currPos : Z) : stM StorageStream Z :=
  match fuel with
  | O => liftR NoFuel
  | S fuel' =>
      '(n, uint8Buf) ← ReadAt [x00] currPos;
      let pos := currPos + Z.of_nat n in
      tp ← liftR (go_index uint8Buf 0);
      if isScalar tp then mret (pos + 1)
      else if isArray tp then calculatePropsEnd fuel' (pos + 8)
      else if isSlice tp then calculatePropsEnd fuel' pos
      else if isMap tp then
        pos ← calculatePropsEnd fuel' pos;
        calculatePropsEnd fuel' pos
      else liftR (Err ErrWrongType)
  end.

(** The bytes of the storage of an account and of the buffered slots that may be other than zero. *)
Definition props_fuel (s : StorageStream) : nat :=
  S (32 * (size (bufferedSlots s) + size (acc_storage (account (stateDb s) (tokenAddress s))))).

(** A round of the loop of [ReadFromStream]: a field from a position on, and the next position. *)
Definition read_field (pos : Z) : stM StorageStream (FieldInfo * Z) :=
  '(n, uint8Buf) ← ReadAt [x00] pos;
  let pos := pos + Z.of_nat n in
  nameLen ← liftR (go_index uint8Buf 0);
  '(n, nameBuf) ← ReadAt (replicate (Z.to_nat (b2z nameLen)) x00) pos;
  let pos := pos + Z.of_nat n in
  s ← getS;
  posEnd ← calculatePropsEnd (props_fuel s) pos;
  fieldBuf ← liftR (make_bytes (u64 (u64 (1 + Z.of_nat (length nameBuf)) + u64 (posEnd - pos))));
  rest ← liftR (go_slice (1 + length nameBuf) (length fieldBuf) fieldBuf);
  '(n, rest) ← ReadAt rest pos;
  let pos := pos + Z.of_nat n in
  descriptor ← liftR (fd_UnmarshalBinary (nameLen :: nameBuf ++ rest));
  l ← liftR (calculateFieldLength (fd_vp descriptor));
  mret (MkFieldInfo descriptor None l, pos).

Fixpoint read_fields (count : nat) (pos : Z) : stM StorageStream (list FieldInfo * Z) :=
  match count with
  | O => mret ([], pos)
  | S count' =>
      '(f, pos) ← read_field pos;
      '(fs, pos) ← read_fields count' pos;
      mret (f :: fs, pos)
  end.

(** The signature and the number of its bytes. *)
Definition ReadFromStream : stM StorageStream (SignatureV1 * Z) :=
  '(n, sigVersionBuf) ← ReadAt [x00; x00] 0;
  let pos := Z.of_nat n in
  '(n, countBuf) ← ReadAt [x00] pos;
  let pos := pos + Z.of_nat n in
  count ← liftR (go_index countBuf 0);
  '(fields, pos) ← read_fields (Z.to_nat (b2z count)) pos;
  version ← liftR (Uint16BE sigVersionBuf);
  mret (MkSignature version (calculateFieldsOffset (u64 pos) fields), i64 (u64 pos)).

(** ** Properties that the constructors make *)

Fixpoint wf_props (vp : ValueProperties) : Prop :=
  match vp with
  | ScalarProperties t => isScalar (type_Id t) = true
  | ArrayProperties v len => is_u64 len ∧ wf_props v
  | SliceProperties v => wf_props v
  | MapProperties k v => vp_Type k ≠ MapType ∧ wf_props k ∧ wf_props v
  end.

Definition wf_descriptor (fd : fieldDescriptor) : Prop := (length (fd_name fd) ≤ 255)%nat ∧ wf_props (fd_vp fd).

Definition kind_of (vp : ValueProperties) : PropsKind :=
  match vp with
  | ScalarProperties _ => KScalar
  | ArrayProperties _ _ => KArray
  | SliceProperties _ => KSlice
  | MapProperties _ _ => KMap
  end.

Lemma newProperties_of vp : wf_props vp → newProperties (type_Id (vp_Type vp)) = Some (kind_of vp).
Proof. destruct vp as [t| | |]; cbn; [|done..]. unfold newProperties. by intros ->. Qed.

Lemma map_id vp : wf_props vp → type_Id (vp_Type vp) = type_Id MapType → vp_Type vp = MapType.
Proof. destruct vp as [t| | |]; cbn; try done. intros Ht He. rewrite He in Ht. done. Qed.

Ltac len_marshal := cbn [length vp_MarshalBinary] in *; rewrite ?length_app, ?length_PutUint64BE in *.
Ltac len_in H := cbn [length vp_MarshalBinary] in H; rewrite ?length_app, ?length_PutUint64BE in H.

Lemma size_marshal vp : wf_props vp → Z.of_nat (length (vp_MarshalBinary vp)) < two64 →
  calculatePropertiesSize vp = Ok (Z.of_nat (length (vp_MarshalBinary vp))).
Proof.
  induction vp as [t|v IH len|v IH|k IHk v IHv]; intros Hwf Hl; cbn [calculatePropertiesSize].
  - cbn in Hwf. by rewrite Hwf.
  - destruct Hwf as [_ Hwf]. len_marshal. rewrite IH by (done || lia). cbn. f_equal.
    rewrite u64_small by (unfold is_u64; lia). lia.
  - len_marshal. rewrite IH by (done || lia). cbn. f_equal. rewrite u64_small by (unfold is_u64; lia). lia.
  - destruct Hwf as (_ & Hk & Hv). len_marshal. rewrite IHk, IHv by (done || lia). cbn. f_equal.
    rewrite u64_small by (unfold is_u64; lia). lia.
Qed.

Lemma go_slice_from {A} (a b : list A) n : n = length a → go_slice n (length (a ++ b)) (a ++ b) = Ok b.
Proof. intros ->. apply go_slice_suffix; [done|]. by rewrite length_app. Qed.

Lemma go_slice_tail {A} (x : A) l : go_slice 1 (length (x :: l)) (x :: l) = Ok l.
Proof. by apply (go_slice_from [x] l). Qed.

Lemma go_index_head {A} (x : A) l : go_index (x :: l) 0 = Ok x.
Proof. done. Qed.

Lemma marshal_index vp rest : go_index (vp_MarshalBinary vp ++ rest) 0 = Ok (type_Id (vp_Type vp)).
Proof. by destruct vp. Qed.

Lemma Uint64BE_Put z : is_u64 z → Uint64BE (PutUint64BE z) = Ok z.
Proof.
  intros Hz. unfold Uint64BE, UintBE, PutUint64BE. rewrite length_be_bytes. cbn [Nat.ltb Nat.leb].
  rewrite take_ge by (by rewrite length_be_bytes). by rewrite be_val_be_bytes_small.
Qed.

(** Marshalled properties are parsed back, whatever follows them. *)
Lemma unmarshal_marshal vp : wf_props vp → Z.of_nat (length (vp_MarshalBinary vp)) < two64 →
  ∀ fuel rest, (length (vp_MarshalBinary vp) ≤ fuel)%nat →
  unmarshal_props fuel (kind_of vp) (vp_MarshalBinary vp ++ rest) = Ok vp.
Proof.
  assert (∀ v fuel rest, wf_props v → unmarshal_props fuel (kind_of v) (vp_MarshalBinary v ++ rest) = Ok v →
    (tp ← go_index (vp_MarshalBinary v ++ rest) 0; kind ← deref (newProperties tp);
     unmarshal_props fuel kind (vp_MarshalBinary v ++ rest)) = Ok v) as Hnest.
  { intros v fuel rest Hv Hu. rewrite marshal_index, Ok_bind, newProperties_of by done. exact Hu. }
  induction vp as [t|v IH len|v IH|k IHk v IHv]; intros Hwf Hl fuel rest Hf;
    (destruct fuel as [|fuel]; [len_in Hf; lia|]); cbn [unmarshal_props kind_of].
  - by destruct t.
  - destruct Hwf as [Hlen Hwf]. len_in Hl. len_in Hf. cbn [vp_MarshalBinary app]. rewrite go_index_head, Ok_bind. cbn [fail_if bool_decide].
    rewrite <- app_assoc, go_slice_tail, !Ok_bind, go_slice_prefix, Ok_bind by done.
    rewrite Uint64BE_Put, Ok_bind, go_slice_from, Ok_bind by done. cbv zeta.
    rewrite Hnest by (done || apply IH; done || lia). done.
  - len_in Hl. len_in Hf. cbn [vp_MarshalBinary app]. rewrite go_index_head, Ok_bind. cbn [fail_if bool_decide].
    rewrite go_slice_tail, !Ok_bind. cbv zeta. rewrite Hnest by (done || apply IH; done || lia). done.
  - destruct Hwf as (Hkm & Hk & Hv). len_in Hl. len_in Hf. cbn [vp_MarshalBinary app]. rewrite go_index_head, Ok_bind. cbn [fail_if bool_decide].
    rewrite go_slice_tail, !Ok_bind, <- app_assoc. cbv zeta.
    rewrite Hnest by (done || apply IHk; done || lia).
    replace (bool_decide (type_Id MapType ≠ type_Id MapType)) with false by done. cbn [fail_if]. rewrite Ok_bind.
    rewrite marshal_index, Ok_bind, bool_decide_false by (intros He; by apply Hkm, map_id). cbn [fail_if].
    rewrite !Ok_bind, size_marshal, Ok_bind, Nat2Z.id, go_slice_from, Ok_bind by (done || lia).
    rewrite Hnest by (done || apply IHv; done || lia). done.
Qed.

Lemma fd_unmarshal_marshal fd rest : wf_descriptor fd → Z.of_nat (length (vp_MarshalBinary (fd_vp fd))) < two64 →
  fd_UnmarshalBinary (fd_MarshalBinary fd ++ rest) = Ok fd.
Proof.
  intros [Hn Hwf] Hl. destruct fd as [name vp]. cbn [fd_name fd_vp] in *. unfold fd_UnmarshalBinary, fd_MarshalBinary.
  cbn [fd_name fd_vp app]. rewrite go_index_head, Ok_bind, go_slice_tail, Ok_bind, b2z_z2b.
  rewrite Z.mod_small, Nat2Z.id by lia. rewrite <- app_assoc, go_slice_prefix, Ok_bind, go_slice_from, Ok_bind by done.
  rewrite marshal_index, Ok_bind, newProperties_of by done. cbn [deref]. rewrite Ok_bind.
  rewrite unmarshal_marshal; [done..|]. rewrite length_app. lia.
Qed.

(** ** Reading properties *)

(** How deep the properties are nested. *)
Fixpoint depth (vp : ValueProperties) : nat :=
  match vp with
  | ScalarProperties _ => 1
  | ArrayProperties v _ | SliceProperties v => S (depth v)
  | MapProperties k v => S (depth k `max` depth v)
  end.

Lemma fetches_eq {A} (m : stM StorageStream A) s a b : a = b → fetches m s a → fetches m s b.
Proof. by intros ->. Qed.

Lemma propsEnd_of vp : wf_props vp → ∀ fuel pos s, (depth vp ≤ fuel)%nat → holds s pos (vp_MarshalBinary vp) →
  fetches (calculatePropsEnd fuel pos) s (pos + Z.of_nat (length (vp_MarshalBinary vp))).
Proof.
  induction vp as [t|v IH len|v IH|k IHk v IHv]; intros Hwf fuel pos s Hf Hh;
    (destruct fuel as [|fuel]; [cbn in Hf; lia|]); cbn [calculatePropsEnd vp_MarshalBinary depth] in *;
    apply holds_cons in Hh as [Hh1 Hh2]; (eapply fetches_bind; [eapply fetch_bytes; [|exact Hh1]; done|]);
    cbv beta iota; cbn [length]; intros s1 Hs1; rewrite go_index_head;
    (eapply fetches_bind; [by apply fetches_liftR|]); intros s2 Hs2; cbv beta; assert (sim s s2) as Hs by (by etrans).
  - cbn in Hwf. rewrite Hwf. replace (pos + Z.of_nat 2) with (pos + Z.of_nat 1 + 1) by lia. apply fetches_mret.
  - destruct Hwf as [_ Hwf]. apply holds_app in Hh2 as [_ Hh2]. rewrite length_PutUint64BE, Hs in Hh2.
    apply (fetches_eq _ _ (pos + 1 + 8 + Z.of_nat (length (vp_MarshalBinary v)))); [len_marshal; lia|].
    apply (IH Hwf fuel (pos + Z.of_nat 1 + 8) s2); [lia|done].
  - rewrite Hs in Hh2.
    apply (fetches_eq _ _ (pos + 1 + Z.of_nat (length (vp_MarshalBinary v)))); [len_marshal; lia|].
    apply (IH Hwf fuel (pos + Z.of_nat 1) s2); [lia|done].
  - destruct Hwf as (_ & Hk & Hv). apply holds_app in Hh2 as [Hhk Hhv]. rewrite Hs in Hhk, Hhv.
    apply (fetches_eq _ _ (pos + 1 + Z.of_nat (length (vp_MarshalBinary k)) + Z.of_nat (length (vp_MarshalBinary v))));
      [len_marshal; lia|].
    apply (fetches_bind (calculatePropsEnd fuel (pos + Z.of_nat 1)) _ s2 (pos + 1 + Z.of_nat (length (vp_MarshalBinary k)))).
    + apply (IHk Hk); [lia|done].
    + intros s3 Hs3. apply (IHv Hv); [lia|]. by rewrite <- Hs3.
Qed.

Lemma frame_ReadAt b off : frame sim (ReadAt b off).
Proof. intros s r s' Hr. destruct (ReadAt_ends b off s) as [_ H]. by rewrite Hr in H. Qed.
#[local] Hint Resolve frame_ReadAt : frame.

Lemma frame_propsEnd fuel : ∀ pos, frame sim (calculatePropsEnd fuel pos).
Proof. induction fuel as [|fuel IH]; intros pos; cbn [calculatePropsEnd]; repeat frame_step. Qed.
#[local] Hint Resolve frame_propsEnd : frame.

Lemma frame_ReadFromStream : frame sim ReadFromStream.
Proof.
  assert (∀ count pos, frame sim (read_fields count pos)) as Hf.
  { induction count as [|count IH]; intros pos; cbn [read_fields]; [apply frame_mret, _|].
    unfold read_field. repeat frame_step. }
  unfold ReadFromStream. repeat frame_step.
Qed.

(** More fuel does not change a result. *)
Lemma propsEnd_mono fuel : ∀ fuel' pos s r s', (fuel ≤ fuel')%nat →
  calculatePropsEnd fuel pos s = (r, s') → r ≠ NoFuel → calculatePropsEnd fuel' pos s = (r, s').
Proof.
  induction fuel as [|fuel IH]; intros fuel' pos s r s' Hle; [by intros [= <- <-]|].
  destruct fuel' as [|fuel']; [lia|]. cbn [calculatePropsEnd]. unfold mbind, stM_bind.
  destruct (ReadAt [x00] pos s) as [[[n b]| | |] s1]; [|done..]. destruct (liftR _ s1) as [[tp| | |] s2]; [|done..].
  destruct (isScalar tp), (isArray tp), (isSlice tp), (isMap tp); try done; try (apply IH; lia).
  destruct (calculatePropsEnd fuel (pos + Z.of_nat n) s2) as [[p| | |] s3] eqn:Hk; intros He Hr; simplify_eq;
    rewrite (IH fuel' _ _ _ _ ltac:(lia) Hk) by done; [|done..].
  apply IH; [lia|done|done].
Qed.

(** *** Reading ends *)

(** The places of a stream that may hold another byte than zero. *)
Definition places (s : StorageStream) : list Z :=
  let keys := (map_to_list (bufferedSlots s)).*1 ++
              (map_to_list (acc_storage (account (stateDb s) (tokenAddress s)))).*1 in
  concat (map (λ k, map (λ j, be_val (fb k) * 32 + Z.of_nat j) (seq 0 32)) keys).

Definition after (pos : Z) (l : list Z) : nat := length (filter (λ i, pos ≤ i) l).

Lemma length_places s : S (length (places s)) = props_fuel s.
Proof.
  unfold places, props_fuel. f_equal. rewrite <- !length_map_to_list, <- !(length_fmap fst), <- length_app.
  induction (_ ++ _) as [|k l IH]; [done|]. cbn [map concat length]. rewrite length_app, length_map, length_seq, IH. lia.
Qed.

Lemma slot_key_val k : 0 ≤ k < slots_number → be_val (fb (slot_key k)) = k.
Proof. intros Hk. rewrite fb_slot_key. by apply be_val_be_bytes_small. Qed.

Lemma nonzero_place s i : 0 ≤ i < mem_size → mem s i ≠ x00 → i ∈ places s.
Proof.
  intros Hi Hnz. pose proof (in_slot i Hi) as Hk. pose proof (Z.mod_pos_bound i 32 ltac:(lia)).
  enough (slot_key (i / 32) ∈ (map_to_list (bufferedSlots s)).*1 ++
              (map_to_list (acc_storage (account (stateDb s) (tokenAddress s)))).*1) as Hin.
  { unfold places. apply list_elem_of_In, in_concat. eexists. split.
    - apply in_map, list_elem_of_In, Hin.
    - rewrite slot_key_val by done. apply in_map_iff. exists (Z.to_nat (i mod 32)). split; [dlia|].
      apply in_seq. lia. }
  apply elem_of_app. rewrite !list_elem_of_fmap.
  destruct (bufferedSlots s !! slot_key (i / 32)) as [v|] eqn:Hb.
  { left. exists (slot_key (i / 32), v). split; [done|]. by apply elem_of_map_to_list. }
  right. destruct (acc_storage (account (stateDb s) (tokenAddress s)) !! slot_key (i / 32)) as [v|] eqn:Hv.
  { exists (slot_key (i / 32), v). split; [done|]. by apply elem_of_map_to_list. }
  exfalso. apply Hnz. unfold mem, slot_at, GetState. rewrite Hb, Hv. cbn [default].
  assert (fb (zero_fixed 32) = replicate 32 x00) as Hz by reflexivity. unfold id. rewrite Hz.
  rewrite lookup_replicate_2 by lia. done.
Qed.

Lemma after_lt l p q : p ∈ l → p < q → (after q l < after p l)%nat.
Proof.
  assert (∀ l, p < q → (after q l ≤ after p l)%nat) as Hle.
  { intros l' Hpq. induction l' as [|x l' IH]; [done|]. unfold after in *. rewrite !filter_cons.
    repeat case_decide; cbn [length]; lia. }
  intros Hp Hpq. induction l as [|x l IH]; [by apply elem_of_nil in Hp|]. unfold after in *. rewrite !filter_cons.
  apply elem_of_cons in Hp as [->|Hp].
  - rewrite decide_False, decide_True by lia. cbn [length]. specialize (Hle l Hpq). unfold after in Hle. lia.
  - specialize (IH Hp). repeat case_decide; cbn [length]; lia.
Qed.

Lemma ReadAt_byte pos s : (∃ s', ReadAt [x00] pos s = (Ok (1%nat, [mem s pos]), s') ∧ sim s s' ∧ 0 ≤ pos < mem_size) ∨
  (∀ x, (ReadAt [x00] pos s).1 ≠ Ok x).
Proof.
  destruct (decide (0 ≤ pos < mem_size)) as [Hp|Hp].
  - left. destruct (fetch_any [x00] pos s) as (s' & Hr & Hs); [unfold in_mem; cbn; lia|]. exists s'. split; [|done].
    rewrite Hr. cbn. by rewrite Z.add_0_r.
  - right. intros x. unfold ReadAt, do_at. destruct (Z.ltb_spec pos 0); [done|]. rewrite position_Ok, liftR_Ok_bind by done.
    cbn [length do_loop Nat.ltb Nat.leb]. unfold getSlot. rewrite Z.add_0_r, slot_bad by lia. done.
Qed.

(** The parser of properties ends on every memory. *)
Lemma propsEnd_ends P fuel : ∀ pos s, (∀ i, 0 ≤ i < mem_size → mem s i ≠ x00 → i ∈ P) → (after pos P < fuel)%nat →
  (calculatePropsEnd fuel pos s).1 ≠ NoFuel ∧ ∀ e, (calculatePropsEnd fuel pos s).1 = Ok e → pos < e.
Proof.
  induction fuel as [|fuel IH]; intros pos s HP Hf; [lia|]. cbn [calculatePropsEnd]. unfold mbind, stM_bind.
  pose proof (ReadAt_ends [x00] pos s) as [Hnf _].
  destruct (ReadAt_byte pos s) as [(s1 & Hr & Hs1 & Hp)|Hbad].
  2:{ destruct (ReadAt [x00] pos s) as [[x| | |] s1]; try done. by destruct (Hbad x). }
  rewrite Hr. cbn [liftR go_index lookup list_lookup deref].
  assert (∀ i, 0 ≤ i < mem_size → mem s1 i ≠ x00 → i ∈ P) as HP1.
  { destruct Hs1 as [_ Hm]. intros i Hi. rewrite Hm by done. by apply HP. }
  cbn. change (Z.of_nat 1) with 1. set (tp := mem s pos).
  destruct (isScalar tp) eqn:Hsc; [cbn; split; [done|]; intros e [= <-]; lia|].
  assert (pos ∈ P) as Hin by (apply HP; [done|]; intros Hz; fold tp in Hz; by rewrite Hz in Hsc).
  assert (∀ q, pos < q → (after q P < fuel)%nat) as Hq by (intros q Hlt; pose proof (after_lt P pos q Hin Hlt); lia).
  destruct (isArray tp), (isSlice tp), (isMap tp); try done;
    try (destruct (IH (pos + 1 + 8) s1 HP1 (Hq (pos + 1 + 8) ltac:(lia))) as [H1 H2]; split; [done|]; intros e He; specialize (H2 e He); lia);
    try (destruct (IH (pos + 1) s1 HP1 (Hq (pos + 1) ltac:(lia))) as [H1 H2]; split; [done|]; intros e He; specialize (H2 e He); lia).
  destruct (IH (pos + 1) s1 HP1 (Hq (pos + 1) ltac:(lia))) as [H1 H2].
  destruct (calculatePropsEnd fuel (pos + 1) s1) as [[e1| | |] s2] eqn:Hk; try done.
  specialize (H2 e1 eq_refl). pose proof (frame_propsEnd fuel _ _ _ _ Hk) as [_ Hm2].
  destruct (IH e1 s2) as [H3 H4]; [|by apply Hq; lia|].
  { intros i Hi. rewrite Hm2 by done. by apply HP1. }
  split; [done|]. intros e He. specialize (H4 e He). lia.
Qed.

Lemma after_length pos l : (after pos l ≤ length l)%nat.
Proof. unfold after. apply length_filter. Qed.

Lemma propsEnd_total pos s : (calculatePropsEnd (props_fuel s) pos s).1 ≠ NoFuel.
Proof.
  apply (propsEnd_ends (places s)); [apply nonzero_place|]. rewrite <- length_places.
  pose proof (after_length pos (places s)). lia.
Qed.

Lemma propsEnd_fetches vp pos s : wf_props vp → holds s pos (vp_MarshalBinary vp) →
  fetches (calculatePropsEnd (props_fuel s) pos) s (pos + Z.of_nat (length (vp_MarshalBinary vp))).
Proof.
  intros Hwf Hh. set (F := (depth vp `max` props_fuel s)%nat).
  destruct (propsEnd_of vp Hwf F pos s (Nat.le_max_l _ _) Hh) as (s' & HF & Hs). pose proof (propsEnd_total pos s) as Hn.
  destruct (calculatePropsEnd (props_fuel s) pos s) as [r s1] eqn:Hr. exists s'. split; [|done].
  rewrite (propsEnd_mono _ F _ _ _ _ (Nat.le_max_r _ _) Hr Hn) in HF. by rewrite Hr.
Qed.

(** ** Signatures are read back *)

Lemma field_length_wf vp : wf_props vp → ∃ l, calculateFieldLength vp = Ok l ∧ is_u64 l.
Proof.
  induction vp as [t|v IH len|v IH|k IHk v IHv]; cbn [calculateFieldLength wf_props].
  - intros ->. eexists. split; [done|]. pose proof (b2z_range (type_Size t)). unfold is_u64, two64. lia.
  - intros [_ Hwf]. destruct (IH Hwf) as (l & -> & _). eexists. split; [done|]. apply Z.mod_pos_bound. done.
  - intros _. by exists 0.
  - intros _. by exists 0.
Qed.

Definition small (b : bytes) : Prop := Z.of_nat (length b) ≤ maxAlloc.

Lemma length_fd_marshal fd : length (fd_MarshalBinary fd) = (1 + length (fd_name fd) + length (vp_MarshalBinary (fd_vp fd)))%nat.
Proof. unfold fd_MarshalBinary. cbn [length]. rewrite length_app. lia. Qed.

Ltac fetch_step tac := eapply fetches_bind; [tac|]; let s1 := fresh "s" in let H := fresh "Hs" in intros s1 H; cbv beta iota.

Lemma read_field_of fd pos s l : wf_descriptor fd → small (fd_MarshalBinary fd) → calculateFieldLength (fd_vp fd) = Ok l →
  holds s pos (fd_MarshalBinary fd) →
  fetches (read_field pos) s (MkFieldInfo fd None l, pos + Z.of_nat (length (fd_MarshalBinary fd))).
Proof.
  intros Hwf Hsm Hl Hh. pose proof (fd_unmarshal_marshal fd [] Hwf) as Hun. rewrite app_nil_r in Hun.
  unfold small in Hsm. rewrite length_fd_marshal in *. destruct Hwf as [Hn Hvp].
  unfold fd_MarshalBinary in Hh, Hun. apply holds_cons in Hh as [H1 Hh]. apply holds_app in Hh as [H2 H3].
  set (name := fd_name fd) in *. set (vpb := vp_MarshalBinary (fd_vp fd)) in *.
  unfold read_field. fetch_step ltac:(eapply fetch_bytes; [|exact H1]; done). rewrite go_index_head. cbn [length].
  fetch_step ltac:(by apply fetches_liftR). rewrite b2z_z2b, Z.mod_small, Nat2Z.id by lia.
  rewrite Hs, Hs0 in H2, H3.
  fetch_step ltac:(eapply fetch_bytes; [|exact H2]; by rewrite length_replicate). rewrite Hs1 in H3.
  apply fetches_getS. fetch_step ltac:(by apply propsEnd_fetches). fold vpb. change (Z.of_nat 1) with 1.
  set (p1 := pos + 1 + Z.of_nat (length name)). 
  assert (∀ z, 0 ≤ z ≤ maxAlloc → u64 z = z) as Hu by (intros z Hz; apply u64_small; unfold is_u64, two64, maxAlloc in *; lia).
  rewrite (Hu (1 + Z.of_nat (length name))), (Hu (_ - p1)), Hu by lia.
  unfold make_bytes. destruct (Z.leb_spec (1 + Z.of_nat (length name) + (p1 + Z.of_nat (length vpb) - p1)) maxAlloc); [|lia].
  fetch_step ltac:(by apply fetches_liftR).
  replace (Z.to_nat _) with (1 + length name + length vpb)%nat by lia. rewrite replicate_add.
  fetch_step ltac:(apply fetches_liftR, go_slice_from; by rewrite length_replicate).
  rewrite Hs2, Hs3, Hs4 in H3. fetch_step ltac:(eapply fetch_bytes; [|exact H3]; by rewrite length_replicate).
  fetch_step ltac:(apply fetches_liftR, Hun; unfold two64, maxAlloc in *; lia).
  fetch_step ltac:(by apply fetches_liftR). eapply fetches_eq; [|apply fetches_mret]. f_equal. unfold p1. fold vpb. lia.
Qed.

(** The fields that the loop of [NewSignatureV1] collects. *)
Lemma new_fields_of fds : Forall wf_descriptor fds → ∀ total, 0 ≤ total →
  let bs := concat (map fd_MarshalBinary fds) in
  total + Z.of_nat (length bs) ≤ maxAlloc →
  ∃ fs, new_fields total fds = Ok (total + Z.of_nat (length bs), fs) ∧
    Forall2 (λ fd f, ∃ l, calculateFieldLength (fd_vp fd) = Ok l ∧ f = MkFieldInfo fd None l) fds fs.
Proof.
  induction 1 as [|fd fds Hfd Hfds IH]; intros total Ht bs Hlt.
  { exists []. split; [|constructor]. cbn. by rewrite Z.add_0_r. }
  cbn [new_fields map concat] in *. unfold bs in *. rewrite length_app, length_fd_marshal in *.
  destruct Hfd as [Hn Hvp]. destruct (field_length_wf _ Hvp) as (l & Hl & _). rewrite Hl, Ok_bind.
  assert (∀ z, 0 ≤ z ≤ maxAlloc → u64 z = z) as Hu by (intros z Hz; apply u64_small; unfold is_u64, two64, maxAlloc in *; lia).
  rewrite size_marshal, Ok_bind by (done || unfold two64, maxAlloc in *; lia).
  rewrite (Hu (Z.of_nat _ + _)), Hu by lia.
  destruct (IH (total + (Z.of_nat (length (vp_MarshalBinary (fd_vp fd))) + (1 + Z.of_nat (length (fd_name fd)))))) as (fs & -> & Hfs);
    [lia..|].
  exists (MkFieldInfo fd None l :: fs). cbn. split; [do 2 f_equal; lia|]. constructor; [by exists l|done].
Qed.

Lemma read_fields_of fds fs :
  Forall2 (λ fd f, ∃ l, calculateFieldLength (fd_vp fd) = Ok l ∧ f = MkFieldInfo fd None l) fds fs →
  Forall wf_descriptor fds → ∀ pos s, let bs := concat (map fd_MarshalBinary fds) in
  small bs → holds s pos bs → fetches (read_fields (length fds) pos) s (fs, pos + Z.of_nat (length bs)).
Proof.
  induction 1 as [|fd f fds fs (l & Hl & ->) Hfs IH]; intros Hwf pos s bs Hsm Hh; cbn [read_fields length].
  { eapply fetches_eq; [|apply fetches_mret]. cbn. f_equal. lia. }
  apply Forall_cons in Hwf as [Hfd Hwf]. unfold bs, small in *. cbn [map concat] in *. rewrite length_app in *.
  apply holds_app in Hh as [Hh1 Hh2].
  fetch_step ltac:(apply (read_field_of fd pos s l); try done; unfold small; lia).
  rewrite Hs in Hh2. fetch_step ltac:(apply (IH Hwf); [lia|done]).
  eapply fetches_eq; [|apply fetches_mret]. f_equal. lia.
Qed.

Lemma descriptors_offsets start fs : map fi_descriptor (calculateFieldsOffset start fs) = map fi_descriptor fs.
Proof. revert start. induction fs as [|f fs IH]; intros start; [done|]. cbn. by rewrite IH. Qed.

Lemma descriptors_of fds fs :
  Forall2 (λ fd f, ∃ l, calculateFieldLength (fd_vp fd) = Ok l ∧ f = MkFieldInfo fd None l) fds fs →
  map fi_descriptor fs = fds.
Proof. induction 1 as [|fd f fds fs (l & Hl & ->) Hfs IH]; [done|]. cbn. by rewrite IH. Qed.

(** The bytes of the signature of some descriptors. *)
Definition head_bytes (fds : list fieldDescriptor) : bytes :=
  PutUint16BE signatureV1 ++ [z2b (Z.of_nat (length fds))] ++ concat (map fd_MarshalBinary fds).

Lemma Signature_of fds : Forall wf_descriptor fds → (length fds ≤ 255)%nat → small (head_bytes fds) →
  ∃ sig, NewSignatureV1 fds = Ok sig ∧ sig_bytes sig = head_bytes fds ∧ map fi_descriptor (sig_fields sig) = fds ∧
    ∀ s, holds s 0 (head_bytes fds) → fetches ReadFromStream s (sig, Z.of_nat (length (head_bytes fds))).
Proof.
  intros Hwf Hlen Hsm. unfold small, head_bytes in *. rewrite !length_app in *. cbn [length] in *.
  set (bs := concat (map fd_MarshalBinary fds)) in *. change (length (PutUint16BE signatureV1)) with 2%nat in *.
  destruct (new_fields_of fds Hwf (2 + 1)) as (fs & Hnew & Hfs); [lia|fold bs; lia|]. fold bs in Hnew.
  exists (MkSignature signatureV1 (calculateFieldsOffset (2 + 1 + Z.of_nat (length bs)) fs)).
  pose proof (descriptors_of _ _ Hfs) as Hd. split_and!.
  - unfold NewSignatureV1. destruct (Nat.ltb_spec 255 (length fds)); [lia|]. by rewrite Hnew.
  - unfold sig_bytes. cbn [sig_version sig_fields].
    rewrite <- (map_map fi_descriptor fd_MarshalBinary), <- (length_map fi_descriptor).
    by rewrite !descriptors_offsets, Hd.
  - cbn [sig_fields]. by rewrite descriptors_offsets.
  - intros s Hh. apply holds_app in Hh as [H1 Hh]. apply holds_app in Hh as [H2 H3]. unfold ReadFromStream.
    fetch_step ltac:(eapply fetch_bytes; [|exact H1]; done). rewrite Hs in H2, H3.
    fetch_step ltac:(eapply fetch_bytes; [|exact H2]; done). rewrite Hs0 in H3. rewrite go_index_head.
    fetch_step ltac:(by apply fetches_liftR). rewrite Hs1 in H3. rewrite b2z_z2b, Z.mod_small, Nat2Z.id by lia.
    fetch_step ltac:(apply (read_fields_of fds fs Hfs Hwf); [fold bs; unfold small; lia|exact H3]).
    fetch_step ltac:(by apply fetches_liftR). fold bs. change (Z.of_nat (length (PutUint16BE signatureV1)) + Z.of_nat (length [_])) with 3.
    eapply fetches_eq; [|apply fetches_mret]. rewrite (u64_small (_ + _)) by (unfold is_u64, two64, maxAlloc in *; lia).
    f_equal. unfold i64. rewrite Z.mod_small by (unfold two64, maxAlloc in *; dlia). lia.
Qed.

(** ** Reading ends on every memory *)

Lemma bind_ends {A B} (m : go_res A) (f : A → go_res B) : m ≠ NoFuel → (∀ a, m = Ok a → f a ≠ NoFuel) → m ≫= f ≠ NoFuel.
Proof. destruct m; cbn; auto. Qed.

Lemma go_slice_ends {A} lo hi (l : list A) : go_slice lo hi l ≠ NoFuel.
Proof. unfold go_slice. by destruct (_ && _). Qed.

Lemma deref_ends {A} (p : option A) : deref p ≠ NoFuel.
Proof. by destruct p. Qed.

Lemma fail_if_ends b e : fail_if b e ≠ NoFuel.
Proof. by destruct b. Qed.

Lemma UintBE_ends n b : UintBE n b ≠ NoFuel.
Proof. unfold UintBE. by destruct (_ <? _)%nat. Qed.

Lemma Uint64BE_ends b : Uint64BE b ≠ NoFuel.
Proof. apply UintBE_ends. Qed.

Lemma Uint16BE_ends b : Uint16BE b ≠ NoFuel.
Proof. apply UintBE_ends. Qed.

Lemma go_index_ends {A} (l : list A) i : go_index l i ≠ NoFuel.
Proof. apply deref_ends. Qed.

Lemma propsSize_ends vp : calculatePropertiesSize vp ≠ NoFuel.
Proof.
  induction vp as [t|v IH len|v IH|k IHk v IHv]; cbn [calculatePropertiesSize].
  - by destruct (isScalar (type_Id t)), (isArray (type_Id t)), (isSlice (type_Id t)), (isMap (type_Id t)).
  - by apply bind_ends.
  - by apply bind_ends.
  - apply bind_ends; [done|]. intros a _. by apply bind_ends.
Qed.

Lemma fieldLength_ends vp : calculateFieldLength vp ≠ NoFuel.
Proof.
  induction vp as [t|v IH len|v IH|k IHk v IHv]; cbn [calculateFieldLength]; try done.
  - by destruct (isScalar (type_Id t)), (isArray (type_Id t)), (isSlice (type_Id t)), (isMap (type_Id t)).
  - by apply bind_ends.
Qed.

Create HintDb ends.
#[local] Hint Resolve go_slice_ends deref_ends fail_if_ends Uint64BE_ends Uint16BE_ends go_index_ends propsSize_ends fieldLength_ends : ends.

Ltac ends_step :=
  match goal with
  | |- mbind _ _ ≠ NoFuel => apply bind_ends; [|intros ? ?]
  | |- Ok _ ≠ NoFuel => done
  | |- _ => solve [auto with ends]
  end.

Lemma go_slice_length {A} lo hi (l l' : list A) : go_slice lo hi l = Ok l' → length l' = (hi - lo)%nat ∧ (lo ≤ hi ≤ length l)%nat.
Proof. intros [Hr ->]%go_slice_Ok. rewrite length_take, length_drop. lia. Qed.

Lemma go_index_length {A} (l : list A) i x : go_index l i = Ok x → (i < length l)%nat.
Proof. intros Hx%deref_Ok. by apply lookup_lt_Some in Hx. Qed.

Ltac lengths := repeat match goal with
  | H : go_slice _ _ _ = Ok _ |- _ => apply go_slice_length in H
  | H : go_index _ _ = Ok _ |- _ => apply go_index_length in H
  end.

Lemma unmarshal_ends fuel : ∀ kind data, (0 < length data ≤ fuel)%nat → unmarshal_props fuel kind data ≠ NoFuel.
Proof.
  induction fuel as [|fuel IH]; intros kind data Hd; [lia|].
  cbn [unmarshal_props]. destruct kind; repeat ends_step; apply IH; lengths; lia.
Qed.

Lemma fd_unmarshal_ends data : fd_UnmarshalBinary data ≠ NoFuel.
Proof. unfold fd_UnmarshalBinary. repeat ends_step. apply unmarshal_ends. lengths. lia. Qed.

(** A computation on a stream that ends. *)
Definition finishes {A} (m : stM StorageStream A) : Prop := ∀ s, (m s).1 ≠ NoFuel.

Lemma finishes_bind {A B} (m : stM StorageStream A) (f : A → stM StorageStream B) :
  finishes m → (∀ a, finishes (f a)) → finishes (m ≫= f).
Proof.
  intros Hm Hf s. unfold mbind, stM_bind. specialize (Hm s). destruct (m s) as [[a| | |] s1]; [apply Hf|done..].
Qed.

Lemma finishes_liftR {A} (r : go_res A) : r ≠ NoFuel → finishes (liftR r).
Proof. by intros H s. Qed.

(** With fuel from the state at hand. *)
Lemma finishes_fuel {A B} (m : StorageStream → stM StorageStream A) (f : StorageStream → A → stM StorageStream B) :
  (∀ s, (m s s).1 ≠ NoFuel) → (∀ s a, finishes (f s a)) → finishes (s ← getS; a ← m s; f s a).
Proof.
  intros Hm Hf s. rewrite getS_bind. unfold mbind, stM_bind. specialize (Hm s).
  destruct (m s s) as [[a| | |] s1]; [apply Hf|done..].
Qed.

Lemma finishes_mret {A} (a : A) : finishes (mret a).
Proof. done. Qed.

Lemma ReadAt_finishes b off : finishes (ReadAt b off).
Proof. intros s. apply ReadAt_ends. Qed.

Lemma make_bytes_ends n : make_bytes n ≠ NoFuel.
Proof. unfold make_bytes. by destruct (n <=? maxAlloc). Qed.

#[local] Hint Resolve make_bytes_ends fd_unmarshal_ends : ends.
#[local] Hint Resolve finishes_liftR finishes_mret ReadAt_finishes : ends.

Ltac finishes_step :=
  match goal with
  | |- finishes (mbind _ getS) => apply finishes_fuel; [intros ?|intros ? ?]
  | |- finishes (mbind _ _) => apply finishes_bind; [|intros ?]
  | |- finishes (let '(_, _) := ?x in _) => destruct x
  | |- finishes _ => solve [auto with ends]
  end.

Lemma read_field_finishes pos : finishes (read_field pos).
Proof.
  unfold read_field. repeat finishes_step. apply propsEnd_total.
Qed.

Lemma read_fields_finishes count : ∀ pos, finishes (read_fields count pos).
Proof.
  induction count as [|count IH]; intros pos; cbn [read_fields]; repeat finishes_step. apply read_field_finishes.
Qed.

(** Reading a signature ends on every memory: a contract may have any. *)
Lemma ReadFromStream_finishes : finishes ReadFromStream.
Proof. unfold ReadFromStream. repeat finishes_step; apply read_fields_finishes. Qed.

(** ** Where the fields are *)

(** The fields one after the other, from a start on. *)
Fixpoint place (start : Z) (fds : list fieldDescriptor) (ls : list Z) : list FieldInfo :=
  match fds, ls with
  | fd :: fds', l :: ls' => MkFieldInfo fd (Some start) l :: place (start + l) fds' ls'
  | _, _ => []
  end.

Definition zs_sum (ls : list Z) : Z := foldr Z.add 0 ls.

Lemma zs_sum_nonneg ls : Forall (λ l, 0 ≤ l) ls → 0 ≤ zs_sum ls.
Proof. unfold zs_sum. induction 1; cbn; lia. Qed.

(** Nothing wraps around in a memory of reasonable size. *)
Lemma offsets_place fds fs ls : 
  Forall2 (λ fd f, ∃ l, calculateFieldLength (fd_vp fd) = Ok l ∧ f = MkFieldInfo fd None l) fds fs →
  Forall2 (λ fd l, calculateFieldLength (fd_vp fd) = Ok l) fds ls → Forall (λ l, 0 ≤ l) ls →
  ∀ start, 0 ≤ start → start + zs_sum ls < 2 ^ 63 → calculateFieldsOffset start fs = place start fds ls.
Proof.
  intros Hfs. revert ls. induction Hfs as [|fd f fds fs (l & Hl & ->) Hfs IH]; intros ls Hls Hnn start Hs Hlt.
  { by apply Forall2_nil_inv_l in Hls as ->. }
  apply Forall2_cons_inv_l in Hls as (l' & ls' & Hl' & Hls & ->). assert (l' = l) as -> by congruence.
  apply Forall_cons in Hnn as [Hl0 Hnn]. pose proof (zs_sum_nonneg ls' Hnn). cbn [zs_sum foldr] in Hlt. fold (zs_sum ls') in Hlt.
  cbn [calculateFieldsOffset place fi_descriptor fi_length]. rewrite u64_small by (unfold is_u64, two64; lia).
  f_equal; [|apply IH; try done; lia]. do 2 f_equal. unfold i64. rewrite Z.mod_small by (unfold two64; dlia). lia.
Qed.

Lemma Signature_place fds ls : Forall wf_descriptor fds → (length fds ≤ 255)%nat → small (head_bytes fds) →
  Forall2 (λ fd l, calculateFieldLength (fd_vp fd) = Ok l) fds ls → Forall (λ l, 0 ≤ l) ls →
  Z.of_nat (length (head_bytes fds)) + zs_sum ls < 2 ^ 63 →
  let sig := MkSignature signatureV1 (place (Z.of_nat (length (head_bytes fds))) fds ls) in
  NewSignatureV1 fds = Ok sig ∧ sig_bytes sig = head_bytes fds ∧
  ∀ s, holds s 0 (head_bytes fds) → fetches ReadFromStream s (sig, Z.of_nat (length (head_bytes fds))).
Proof.
  intros Hwf Hlen Hsm Hls Hnn Hsum sig. destruct (Signature_of fds Hwf Hlen Hsm) as (sig' & Hnew & Hb & _ & Hread).
  enough (sig' = sig) as -> by done. unfold NewSignatureV1 in Hnew. destruct (Nat.ltb_spec 255 (length fds)); [lia|].
  destruct (new_fields_of fds Hwf (2 + 1)) as (fs & Hf & Hfs); [lia|unfold small, head_bytes in Hsm; rewrite !length_app in Hsm; cbn in Hsm; lia|].
  rewrite Hf in Hnew. cbn [mbind go_res_bind] in Hnew. injection Hnew as <-. unfold sig. f_equal.
  assert (Z.of_nat (length (head_bytes fds)) = 2 + 1 + Z.of_nat (length (concat (map fd_MarshalBinary fds)))) as Heq.
  { unfold head_bytes. rewrite !length_app. cbn. lia. }
  rewrite <- Heq. apply offsets_place; [done|done|done|lia|done].
Qed.
