(* ===== verification/TokenStorage.v ===== *)
(** * Token storages

    The fields of a token (src/token/storage/storage.go) and the maps among them
    (src/token/storage/maps.go) on top of a stream and its signature. A field of fixed length lies
    at its offset behind the signature; an entry of a map lies at the slot that is the hash of the
    name of the map and the key.

    The source passes values as [interface{}] and finds their encoding by reflection: [gval] are
    the values and [gptr] the pointers that it is used with, an encoder is the inductive type
    [codec] of the ones that [getDefaultEncoderAndDecoder] returns, and a decoder returns what the
    pointer points to afterwards. A nil slice is [None]. *)

From Stdlib Require Import ZArith Lia Strings.Byte.
From stdpp Require Import base tactics option numbers list gmap strings.
From S2P Require Import Prelude Common GoMap World Machine TokenStream TokenSig.

Definition ErrBadType : error := Error "storage.ErrBadType".
Definition ErrArrayExpected : error := Error "storage.ErrArrayExpected".
Definition ErrKeyValuePairExpected : error := Error "storage.ErrKeyValuePairExpected".
Definition ErrCannotEncodeNilValue : error := Error "storage.ErrCannotEncodeNilValue".
Definition ErrCannotDecodeNilValue : error := Error "storage.ErrCannotDecodeNilValue".
Definition ErrFieldNotFound : error := Error "storage.ErrFieldNotFound".
Definition ErrValueTooLarge : error := Error "storage.ErrValueTooLarge".
Definition ErrUnknownType : error := Error "storage.ErrUnknownType".
Definition ErrNilKey : error := Error "storage.ErrNilKey".
Definition ErrBadMapId : error := Error "storage.ErrBadMapId".
Definition ErrKeySizeIsZero : error := Error "storage.ErrKeySizeIsZero".
Definition ErrBadKeySize : error := Error "storage.ErrBadKeySize".
Definition ErrBadValueSize : error := Error "storage.ErrBadValueSize".

(** [newBadTypeErr] formats the type of the value into the text. *)
Definition newBadTypeErr : error := Error "storage: bad type".

(** ** Values *)

(** A [*uint256.Int] is [GUint256]; [GArray] is an array or a slice of scalars other than [[]byte],
    and [GOther] a value of a type without encoding. *)
Inductive gval :=
| GNil
| GBool (b : bool)
| GUint8 (z : Z)
| GUint16 (z : Z)
| GUint32 (z : Z)
| GUint64 (z : Z)
| GInt32 (z : Z)
| GInt64 (z : Z)
| GString (s : bytes)
| GUint256 (z : Z)
| GBytes (b : option bytes)
| GArray (l : list gval)
| GOther.

(** An address is an array of bytes. *)
Definition GAddress (a : Address) : gval := GArray (map (λ b, GUint8 (b2z b)) (fb a)).

(** What a pointer points to. *)
Inductive skind := SkBool | SkUint8 | SkUint16 | SkUint32 | SkUint64 | SkInt32 | SkInt64 | SkString | SkUint256.

(** A pointer to a scalar ([cur] is the value of a [bool] before the call), to a [[]byte], to a
    slice of scalars, or to something else. *)
Inductive gptr :=
| PNil
| PScalar (k : skind) (cur : bool)
| PBytes
| PSlice (k : skind) (cur : list gval)
| POther.

(** ** Encoders *)

Definition encodeUint256 (v : gval) : go_res (option bytes) :=
  match v with
  | GUint256 z => Ok (Some (fb (Bytes32 z)))
  | _ => Err newBadTypeErr
  end.

Definition encodeScalar (v : gval) : go_res (option bytes) :=
  match v with
  | GBool b => Ok (Some [if b then x01 else x00])
  | GUint8 z => Ok (Some [z2b z])
  | GUint16 z => Ok (Some (PutUint16BE z))
  | GUint32 z | GInt32 z => Ok (Some (PutUint32BE z))
  | GUint64 z | GInt64 z => Ok (Some (PutUint64BE z))
  | GString s => Ok (Some s)
  | _ => encodeUint256 v
  end.

(** The loop of [encodeArray]. *)
Fixpoint encode_elems (buf : bytes) (l : list gval) : go_res (option bytes) :=
  match l with
  | [] => Ok (Some buf)
  | v :: l' => res ← encodeScalar v; encode_elems (buf ++ default [] res) l'
  end.

Definition encodeArray (arr : gval) : go_res (option bytes) :=
  match arr with
  | GBytes b => Ok b
  | GArray l => encode_elems [] l
  | _ => Err ErrArrayExpected
  end.

(** ** Decoders *)

Definition i32 (z : Z) : Z := (z + 2 ^ 31) mod 2 ^ 32 - 2 ^ 31.

Definition decode_kind (buf : bytes) (k : skind) (cur : bool) : go_res gval :=
  match k with
  | SkBool => Ok (GBool (bool_decide (buf = [x01]) || cur))
  | SkUint8 => b ← go_index buf 0; Ok (GUint8 (b2z b))
  | SkUint16 => z ← Uint16BE buf; Ok (GUint16 z)
  | SkUint32 => z ← Uint32BE buf; Ok (GUint32 z)
  | SkUint64 => z ← Uint64BE buf; Ok (GUint64 z)
  | SkInt32 => z ← Uint32BE buf; Ok (GInt32 (i32 z))
  | SkInt64 => z ← Uint64BE buf; Ok (GInt64 (i64 z))
  | SkString => Ok (GString buf)
  | SkUint256 => Ok (GUint256 (SetBytes buf))
  end.

Definition decodeUint256 (buf : bytes) (toPtr : gptr) : go_res gval :=
  match toPtr with
  | PScalar SkUint256 cur => decode_kind buf SkUint256 cur
  | _ => Err newBadTypeErr
  end.

Definition decodeScalar (buf : bytes) (vPtr : gptr) : go_res gval :=
  match vPtr with
  | PScalar k cur => decode_kind buf k cur
  | _ => decodeUint256 buf vPtr
  end.

(** The size of an element in memory; a string has a pointer and a length. *)
Definition elemSize (k : skind) : nat :=
  match k with
  | SkBool | SkUint8 => 1
  | SkUint16 => 2
  | SkUint32 | SkInt32 => 4
  | SkUint64 | SkInt64 => 8
  | SkString => 16
  | SkUint256 => 32
  end.

Fixpoint decode_elems (fuel : nat) (k : skind) (value : list gval) (buf : bytes) : go_res gval :=
  match buf with
  | [] => Ok (GArray value)
  | _ =>
      match fuel with
      | O => NoFuel
      | S fuel' =>
          elem ← go_slice 0 (elemSize k) buf;
          v ← decode_kind elem k false;
          buf ← go_slice (elemSize k) (length buf) buf;
          decode_elems fuel' k (value ++ [v]) buf
      end
  end.

Definition decodeArray (buf : bytes) (arrPtr : gptr) : go_res gval :=
  match arrPtr with
  | PBytes => Ok (GBytes (Some buf))
  | PSlice k cur =>
      if negb (Nat.eqb (length buf mod elemSize k) 0) then Err ErrBadType
      else decode_elems (length buf) k cur buf
  | PNil => Err newBadTypeErr
  | PScalar _ _ | POther => Err ErrArrayExpected
  end.

(** The default encoder and decoder of a type. *)
Inductive codec := Uint256Codec | ScalarCodec | ArrayCodec.

Definition getDefaultEncoderAndDecoder (tp : SType) : go_res codec :=
  if bool_decide (Uint256Type = tp) then Ok Uint256Codec
  else if isScalar (type_Id tp) then Ok ScalarCodec
  else if isArray (type_Id tp) || isSlice (type_Id tp) then Ok ArrayCodec
  else Err ErrUnknownType.

Definition encode (c : codec) (v : gval) : go_res (option bytes) :=
  match v with
  | GNil => Err ErrCannotEncodeNilValue
  | _ =>
      match c with
      | Uint256Codec => encodeUint256 v
      | ScalarCodec => encodeScalar v
      | ArrayCodec => encodeArray v
      end
  end.

Definition decode (c : codec) (buf : bytes) (ptr : gptr) : go_res gval :=
  match ptr with
  | PNil => Err ErrCannotDecodeNilValue
  | _ =>
      match c with
      | Uint256Codec => decodeUint256 buf ptr
      | ScalarCodec => decodeScalar buf ptr
      | ArrayCodec => decodeArray buf ptr
      end
  end.

(** ** Maps *)

Record ByteMap := MkByteMap {
  uniqPrefix : bytes;
  keySize : Z;
  valueSize : Z
}.

Definition newByteMap (mapId : bytes) (keySize valueSize : Z) : go_res ByteMap :=
  if Nat.eqb (length mapId) 0 then Err ErrBadMapId
  else if keySize =? 0 then Err ErrKeySizeIsZero
  else Ok (MkByteMap mapId keySize valueSize).

Section storage.
Context {HC : Crypto}.

Definition calculateOffset (uniqPrefix key : bytes) : Z := be_val (fb (keccak256 (uniqPrefix ++ key))) * 32.

Definition Put (m : ByteMap) (key : option bytes) (value : bytes) : stM StorageStream unit :=
  match key with
  | None => liftR (Err ErrNilKey)
  | Some key =>
      _ ← liftR (fail_if (keySize m <? Z.of_nat (length key)) ErrBadKeySize);
      _ ← liftR (fail_if (negb (valueSize m =? 0) && (valueSize m <? Z.of_nat (length value))) ErrBadValueSize);
      let value := if valueSize m =? 0 then PutUint64BE (Z.of_nat (length value)) ++ value else value in
      _ ← WriteAt value (calculateOffset (uniqPrefix m) key);
      mret tt
  end.

Definition Get (m : ByteMap) (key : bytes) : stM StorageStream bytes :=
  _ ← liftR (fail_if (keySize m <? Z.of_nat (length key)) ErrBadKeySize);
  let off := calculateOffset (uniqPrefix m) key in
  '(size, off) ←
    (if valueSize m =? 0 then
       '(_, buf) ← ReadAt (replicate 8 x00) off;
       size ← liftR (Uint64BE buf);
       mret (size, off + 8)
     else mret (valueSize m, off));
  buf ← liftR (make_bytes size);
  '(_, buf) ← ReadAt buf off;
  mret buf.

(** ** Fields *)

Inductive FieldEntry :=
| fieldEntry (info : FieldInfo) (c : codec)
| mapEntry (m : ByteMap) (keyCodec valueCodec : codec).

Definition NewFieldEntry (fieldInfo : FieldInfo) : go_res FieldEntry :=
  let vp := fd_vp (fi_descriptor fieldInfo) in
  if isMap (type_Id (vp_Type vp)) then
    kp ← vp_KeyProperties vp;
    keySize ← calculateFieldLength kp;
    vp ← vp_ValueProperties vp;
    valueSize ← calculateFieldLength vp;
    keyCodec ← getDefaultEncoderAndDecoder (vp_Type kp);
    valueCodec ← getDefaultEncoderAndDecoder (vp_Type vp);
    byteMap ← newByteMap (fd_name (fi_descriptor fieldInfo)) keySize valueSize;
    Ok (mapEntry byteMap keyCodec valueCodec)
  else
    c ← getDefaultEncoderAndDecoder (vp_Type vp);
    Ok (fieldEntry fieldInfo c).

(** What is written to a field, and what a field is read into: a value, or a pair of a key and a
    value for a map. *)
Inductive source := SVal (v : gval) | SPair (key value : gval).
Inductive target := TPtr (p : gptr) | TPair (key : gval) (p : gptr).

Definition entry_Read (f : FieldEntry) (to : target) : stM StorageStream gval :=
  match f with
  | fieldEntry info c =>
      buf ← liftR (make_bytes (fi_length info));
      off ← liftR (deref (fi_offset info));
      '(_, buf) ← ReadAt buf off;
      liftR (decode c buf (match to with TPtr p => p | TPair _ _ => POther end))
  | mapEntry m keyCodec valueCodec =>
      match to with
      | TPtr _ => liftR (Err ErrKeyValuePairExpected)
      | TPair key p =>
          keyB ← liftR (encode keyCodec key);
          res ← Get m (default [] keyB);
          liftR (decode valueCodec res p)
      end
  end.

Definition entry_Write (f : FieldEntry) (val : source) : stM StorageStream unit :=
  match f with
  | fieldEntry info c =>
      buf ← liftR (encode c (match val with SVal v => v | SPair _ _ => GOther end));
      let buf := default [] buf in
      let id := type_Id (vp_Type (fd_vp (fi_descriptor info))) in
      _ ← liftR (fail_if (negb (isSlice id) && (fi_length info <? Z.of_nat (length buf))) ErrValueTooLarge);
      off ← liftR (deref (fi_offset info));
      _ ← WriteAt buf off;
      mret tt
  | mapEntry m keyCodec valueCodec =>
      match val with
      | SVal _ => liftR (Err ErrKeyValuePairExpected)
      | SPair key value =>
          keyB ← liftR (encode keyCodec key);
          valueB ← liftR (encode valueCodec value);
          Put m keyB (default [] valueB)
      end
  end.

(** ** Storages *)

(** [storage]; its stream is the state of the computation. *)
Record storage := MkStorage {
  signature : SignatureV1;
  fields : gmap bytes FieldEntry
}.

Fixpoint fill_fields (fs : gmap bytes FieldEntry) (infos : list FieldInfo) : go_res (gmap bytes FieldEntry) :=
  match infos with
  | [] => Ok fs
  | info :: infos' =>
      e ← NewFieldEntry info;
      fill_fields (<[fd_name (fi_descriptor info) := e]> fs) infos'
  end.

Definition fillFields (sign : SignatureV1) : go_res (gmap bytes FieldEntry) := fill_fields ∅ (sig_fields sign).

Definition NewStorage (descriptors : list fieldDescriptor) : stM StorageStream storage :=
  sign ← liftR (NewSignatureV1 descriptors);
  _ ← WriteToStream sign;
  fs ← liftR (fillFields sign);
  mret (MkStorage sign fs).

Definition ReadStorage : stM StorageStream storage :=
  '(sign, _) ← ReadFromStream;
  fs ← liftR (fillFields sign);
  mret (MkStorage sign fs).

Definition ReadField (s : storage) (fieldName : bytes) (to : target) : stM StorageStream gval :=
  match fields s !! fieldName with
  | None => liftR (Err ErrFieldNotFound)
  | Some f => entry_Read f to
  end.

Definition WriteField (s : storage) (fieldName : bytes) (val : source) : stM StorageStream unit :=
  match fields s !! fieldName with
  | None => liftR (Err ErrFieldNotFound)
  | Some f => entry_Write f val
  end.
End storage.
