(* ===== verification/Token.v ===== *)
(** * The token processor

    The processor of src/token/processor.go: tokens of the standards WRC-20 (balances, allowances,
    a price) and WRC-721 (owners, approvals, metadata, prices by identifier), which live in the
    storage of the account of the token. [TokenProcessor_Call] is the entry point of a transaction;
    the queries are those of the RPC interface.

    The state of an operation is the stream of the token's storage, whose field [stateDb] is the
    world state that the processor shares with it: a payment and a log change [stateDb], and
    [Flush] writes the fields to it. A deferred event comes after the flush; nothing between the
    [defer] statement and the return can fail, apart from the conversion of the returned value,
    which would fail in the event as well.

    [FromBig], the conversion of a big integer to 256 bits, is third-party code ([BigConv]). *)

From Stdlib Require Import ZArith Lia Strings.Byte.
From stdpp Require Import base tactics option numbers list gmap strings pretty.
From S2P Require Import Prelude Common GoMap World ValProcessor Evm Machine TokenOps TokenStream TokenSig TokenStorage.

Definition ErrAddressAlreadyExists : error := Error "token.ErrAddressAlreadyExists".
Definition ErrTokenNotExists : error := Error "token.ErrTokenNotExists".
Definition ErrTokenOpStandardNotValid : error := Error "token.ErrTokenOpStandardNotValid".
Definition ErrNotEnoughBalance : error := Error "token.ErrNotEnoughBalance".
Definition ErrInsufficientAllowance : error := Error "token.ErrInsufficientAllowance".
Definition ErrAlreadyMinted : error := Error "token.ErrAlreadyMinted".
Definition ErrNotMinted : error := Error "token.ErrNotMinted".
Definition ErrIncorrectOwner : error := Error "token.ErrIncorrectOwner".
Definition ErrIncorrectTo : error := Error "token.ErrIncorrectTo".
Definition ErrIncorrectTransferFrom : error := Error "token.ErrIncorrectTransferFrom".
Definition ErrWrongCaller : error := Error "token.ErrWrongCaller".
Definition ErrWrongMinter : error := Error "token.ErrWrongMinter".
Definition ErrNotNilTo : error := Error "token.ErrNotNilTo".
Definition ErrTokenIsNotForSale : error := Error "token.ErrTokenIsNotForSale".
Definition ErrTooSmallTxValue : error := Error "token.ErrTooSmallTxValue".
Definition ErrTokenIdIsNotSet : error := Error "token.ErrTokenIdIsNotSet".
Definition ErrNewValueIsNotSet : error := Error "token.ErrNewValueIsNotSet".
Definition ErrUint256Overflow : error := Error "token.ErrUint256Overflow".
Definition ErrTokenAddressCollision : error := Error "token.ErrTokenAddressCollision".
Definition ErrMetadataExceedsMaxSize : error := Error "token.ErrMetadataExceedsMaxSize".

Definition MetadataMaxSize : nat := 1024.

Definition NameField : bytes := str "Name".
Definition StandardField : bytes := str "Standard".
Definition SymbolField : bytes := str "Symbol".
Definition BalancesField : bytes := str "Balances".
Definition CreatorField : bytes := str "Creator".
Definition TotalSupplyField : bytes := str "TotalSupply".
Definition DecimalsField : bytes := str "Decimals".
Definition AllowancesField : bytes := str "Allowances".
Definition CostField : bytes := str "Cost".
Definition MinterField : bytes := str "Minter".
Definition BaseUriField : bytes := str "BaseUri".
Definition OwnersField : bytes := str "Owners".
Definition MetadataField : bytes := str "Metadata".
Definition OperatorApprovalsField : bytes := str "OperatorApprovals".
Definition TokenApprovalsField : bytes := str "TokenApprovals".
Definition CostMapField : bytes := str "CostMap".
Definition PercentFeeField : bytes := str "PercentFee".

(** ** Descriptors of the fields *)

Definition newByteArrayDescriptor (name : bytes) (l : Z) : go_res fieldDescriptor :=
  sc ← NewScalarProperties Uint8Type;
  NewFieldDescriptor name (ArrayProperties sc l).

Definition newByteArrayByteArrayMapDescriptor (name : bytes) (keySize valueSize : Z) : go_res fieldDescriptor :=
  keyScalar ← NewScalarProperties Uint8Type;
  valueScalar ← NewScalarProperties Uint8Type;
  mp ← NewMapProperties (ArrayProperties keyScalar keySize) (ArrayProperties valueScalar valueSize);
  NewFieldDescriptor name mp.

Definition newByteArrayByteSliceMapDescriptor (name : bytes) (keySize : Z) : go_res fieldDescriptor :=
  keyScalar ← NewScalarProperties Uint8Type;
  valueScalar ← NewScalarProperties Uint8Type;
  mp ← NewMapProperties (ArrayProperties keyScalar keySize) (SliceProperties valueScalar);
  NewFieldDescriptor name mp.

Definition newByteArrayScalarMapDescriptor (name : bytes) (keySize : Z) (valType : SType) : go_res fieldDescriptor :=
  keyScalar ← NewScalarProperties Uint8Type;
  valueScalar ← NewScalarProperties valType;
  mp ← NewMapProperties (ArrayProperties keyScalar keySize) valueScalar;
  NewFieldDescriptor name mp.

Definition newScalarScalarMapDescriptor (name : bytes) (keyType valType : SType) : go_res fieldDescriptor :=
  keyScalar ← NewScalarProperties keyType;
  valueScalar ← NewScalarProperties valType;
  mp ← NewMapProperties keyScalar valueScalar;
  NewFieldDescriptor name mp.

Definition newScalarField (name : bytes) (tp : SType) : go_res fieldDescriptor :=
  sc ← NewScalarProperties tp;
  NewFieldDescriptor name sc.

Definition newFieldsDescriptors (op : createOperation) : go_res (list fieldDescriptor) :=
  stdFd ← newByteArrayDescriptor StandardField 2;
  nameFd ← newByteArrayDescriptor NameField (Z.of_nat (length (c_name op)));
  symbolFd ← newByteArrayDescriptor SymbolField (Z.of_nat (length (c_symbol op)));
  balancesFd ← newByteArrayScalarMapDescriptor BalancesField 20 Uint256Type;
  let fieldDescriptors := [stdFd; nameFd; symbolFd; balancesFd] in
  if c_Std op =? StdWRC20 then
    creatorFd ← newByteArrayDescriptor CreatorField 20;
    decimalsFd ← newScalarField DecimalsField Uint8Type;
    totalSupplyFd ← newScalarField TotalSupplyField Uint256Type;
    allowancesFd ← newByteArrayScalarMapDescriptor AllowancesField 32 Uint256Type;
    costFd ← newScalarField CostField Uint256Type;
    Ok (fieldDescriptors ++ [creatorFd; decimalsFd; totalSupplyFd; allowancesFd; costFd])
  else if c_Std op =? StdWRC721 then
    minterFd ← newByteArrayDescriptor MinterField 20;
    baseUriFd ← newByteArrayDescriptor BaseUriField (Z.of_nat (length (default [] (c_baseURI op))));
    ownersFd ← newByteArrayByteArrayMapDescriptor OwnersField 20 20;
    metadataFd ← newByteArrayByteSliceMapDescriptor MetadataField 20;
    tokenApprovalsFd ← newByteArrayByteArrayMapDescriptor TokenApprovalsField 20 20;
    operatorApprovalsFd ← newByteArrayScalarMapDescriptor OperatorApprovalsField 32 Uint8Type;
    percentFeeFd ← newScalarField PercentFeeField Uint8Type;
    costFd ← newScalarScalarMapDescriptor CostMapField Uint256Type Uint256Type;
    Ok (fieldDescriptors ++ [minterFd; baseUriFd; ownersFd; metadataFd; tokenApprovalsFd; operatorApprovalsFd;
                             percentFeeFd; costFd])
  else Ok fieldDescriptors.

(** ** Conversions *)

(** [uint256.FromBig]: the 256 low bits and whether the integer did not fit. *)
Class BigConv := { FromBig256 : Z → Z * bool }.

(** What the pointer handed to a read was set to; a decoder sets a value of the pointer's type. *)
Definition as_uint256 (v : gval) : go_res Z := match v with GUint256 z => Ok z | _ => Panic end.
Definition as_uint8 (v : gval) : go_res Z := match v with GUint8 z => Ok z | _ => Panic end.
Definition as_bool (v : gval) : go_res bool := match v with GBool b => Ok b | _ => Panic end.
Definition as_bytes (v : gval) : go_res bytes := match v with GBytes b => Ok (default [] b) | _ => Panic end.

Section token.
Context {HC : Crypto} {HR : MapRange} {HB : BigConv}.

(** [uint256.FromBig] with the error that the processor makes of an overflow. *)
Definition toUint256 (z : Z) : go_res Z :=
  let '(v, overflow) := FromBig256 z in
  if overflow : bool then Err ErrUint256Overflow else Ok v.

(** ** Events *)

(** [logEntry]; the name and the type are not part of the log. *)
Record logEntry := MkLogEntry { le_indexed : bool; le_data : bytes }.

Definition newIndexedAddressLogEntry (data : bytes) : logEntry := MkLogEntry true data.
Definition newUint256LogEntry (data : bytes) : logEntry := MkLogEntry false data.
Definition newBoolLogEntry (data : bytes) : logEntry := MkLogEntry false data.

Definition createWRC721EventSignature : Hash := keccak256 (str "Create(address,address,uint256)").
Definition transferEventSignature : Hash := keccak256 (str "Transfer(address,address,uint256)").
Definition approvalEventSignature : Hash := keccak256 (str "Approval(address,address,uint256)").
Definition approvalForAllEventSignature : Hash := keccak256 (str "ApprovalForAll(address,address,bool)").

Fixpoint collect_entries (topics : list Hash) (data : bytes) (entries : list logEntry) : list Hash * bytes :=
  match entries with
  | [] => (topics, data)
  | e :: entries' =>
      if le_indexed e then collect_entries (topics ++ [BytesToHash (le_data e)]) data entries'
      else collect_entries topics (data ++ le_data e) entries'
  end.

Definition addLog (tokenAddr : Address) (sig : Hash) (logsEntries : list logEntry) : stM StorageStream unit :=
  let '(topics, data) := collect_entries [sig] [] logsEntries in
  modify (λ s, set_stateDb (AddLog (MkLog tokenAddr topics data) (stateDb s)) s).

Definition CreateWrc721 (tokenAddr from : Address) (baseUri : bytes) : stM StorageStream unit :=
  addLog tokenAddr createWRC721EventSignature
    [newIndexedAddressLogEntry (fb from); newUint256LogEntry baseUri].

Definition TransferWrc20 (tokenAddr from to : Address) (value : Z) : stM StorageStream unit :=
  data ← liftR (FillBytes 32 value);
  addLog tokenAddr transferEventSignature
    [newIndexedAddressLogEntry (fb from); newIndexedAddressLogEntry (fb to); newUint256LogEntry data].

Definition TransferWrc721 (tokenAddr from to : Address) (tokenId : Z) : stM StorageStream unit :=
  data ← liftR (FillBytes 32 tokenId);
  addLog tokenAddr transferEventSignature
    [newIndexedAddressLogEntry (fb from); newIndexedAddressLogEntry (fb to); newUint256LogEntry data].

Definition ApprovalWrc20 (tokenAddr owner spender : Address) (value : Z) : stM StorageStream unit :=
  data ← liftR (FillBytes 32 value);
  addLog tokenAddr approvalEventSignature
    [newIndexedAddressLogEntry (fb owner); newIndexedAddressLogEntry (fb spender); newUint256LogEntry data].

Definition ApprovalWrc721 (tokenAddr owner approved : Address) (tokenId : Z) : stM StorageStream unit :=
  data ← liftR (FillBytes 32 tokenId);
  addLog tokenAddr approvalEventSignature
    [newIndexedAddressLogEntry (fb owner); newIndexedAddressLogEntry (fb approved); newUint256LogEntry data].

Definition ApprovalForAllWrc721 (tokenAddr owner operator : Address) (approved : bool) : stM StorageStream unit :=
  addLog tokenAddr approvalForAllEventSignature
    [newIndexedAddressLogEntry (fb owner); newIndexedAddressLogEntry (fb operator);
     newBoolLogEntry [if approved then x01 else x00]].

(** ** Access to the fields *)

Definition uint256_ptr : gptr := PScalar SkUint256 false.

Definition writeToMap (st : storage) (name : bytes) (key value : gval) : stM StorageStream unit :=
  WriteField st name (SPair key value).

Definition readFromMap (st : storage) (name : bytes) (key : gval) (refToRes : gptr) : stM StorageStream gval :=
  ReadField st name (TPair key refToRes).

Definition read_uint256 (st : storage) (name : bytes) (key : gval) : stM StorageStream Z :=
  v ← readFromMap st name key uint256_ptr; liftR (as_uint256 v).

Definition readAddressFromMap (st : storage) (name : bytes) (key : gval) : stM StorageStream Address :=
  v ← readFromMap st name key PBytes;
  addrB ← liftR (as_bytes v);
  mret (BytesToAddress addrB).

Definition readAddress (st : storage) (field : bytes) : stM StorageStream Address :=
  v ← ReadField st field (TPtr PBytes);
  addr ← liftR (as_bytes v);
  mret (BytesToAddress addr).

(** The keys of the maps: an address, an identifier ([tokenId.Bytes()]), a pair of addresses. *)
Definition addr_key (a : Address) : gval := GBytes (Some (fb a)).
Definition id_key (tokenId : Z) : gval := GBytes (Some (big_bytes tokenId)).
Definition pair_key (a b : Address) : gval := GBytes (Some (fb (keccak256 (fb a ++ fb b)))).

(** [transfer]: moves a part of the balance of one address to another. *)
Definition move (st : storage) (from to : Address) (swapValue : Z) : stM StorageStream unit :=
  fromBalance ← read_uint256 st BalancesField (addr_key from);
  _ ← guard (fromBalance <? swapValue) ErrNotEnoughBalance;
  newFromBalance ← liftR (toUint256 (fromBalance - swapValue));
  _ ← writeToMap st BalancesField (addr_key from) (GUint256 newFromBalance);
  toBalance ← read_uint256 st BalancesField (addr_key to);
  newToBalance ← liftR (toUint256 (toBalance + swapValue));
  writeToMap st BalancesField (addr_key to) (GUint256 newToBalance).

(** ** Opening a token *)

Definition newStorageWithoutStdCheck (token : Address) : stM StorageStream (storage * Z) :=
  s ← getS;
  _ ← guard (negb (Exist (stateDb s) token)) ErrTokenNotExists;
  st ← ReadStorage;
  v ← ReadField st StandardField (TPtr PBytes);
  stdB ← liftR (as_bytes v);
  std ← liftR (std_UnmarshalBinary stdB);
  _ ← guard (std =? 0) ErrTokenNotExists;
  mret (st, std).

Definition newStorage (token : Address) (opStd : Z) : stM StorageStream storage :=
  '(st, standard) ← newStorageWithoutStdCheck token;
  _ ← guard (negb (standard =? opStd)) ErrTokenOpStandardNotValid;
  mret st.

(** An operation on a new stream of the token's storage. *)
Definition on_stream {A} (token : Address) (m : stM StorageStream A) : stM World A := λ w,
  let '(r, s) := m (NewStorageStream token w) in (r, stateDb s).

Definition no_token (token : Address) : stM StorageStream unit := guard (no_address token) ErrNoAddress.

(** ** Creation *)

Definition create20 (caller tokenAddr : Address) (op : createOperation) (st : storage) :
    stM StorageStream (stM StorageStream unit) :=
  _ ← WriteField st CreatorField (SVal (GAddress caller));
  _ ← WriteField st DecimalsField (SVal (GUint8 (c_decimals op)));
  v ← liftR (deref (c_totalSupply op));
  val ← liftR (toUint256 v);
  _ ← WriteField st TotalSupplyField (SVal (GUint256 val));
  _ ← writeToMap st BalancesField (addr_key caller) (GUint256 val);
  mret (TransferWrc20 tokenAddr (zero_fixed 20) caller val).

Definition create721 (caller tokenAddr : Address) (op : createOperation) (st : storage) :
    stM StorageStream (stM StorageStream unit) :=
  _ ← WriteField st MinterField (SVal (GAddress caller));
  let v := default [] (c_baseURI op) in
  _ ← WriteField st BaseUriField (SVal (GBytes (Some v)));
  _ ← WriteField st PercentFeeField (SVal (GUint8 (c_percentFee op)));
  mret (CreateWrc721 tokenAddr caller v).

Definition tokenCreate (caller tokenAddr : Address) (op : createOperation) : stM World bytes :=
  w ← getS;
  _ ← guard (negb (GetNonce w tokenAddr =? 0)) ErrTokenAddressCollision;
  _ ← modify (CreateAccount tokenAddr);
  _ ← modify (SetNonce tokenAddr 1);
  fieldsDescriptors ← liftR (newFieldsDescriptors op);
  on_stream tokenAddr (
    st ← NewStorage fieldsDescriptors;
    _ ← WriteField st StandardField (SVal (GBytes (Some (std_MarshalBinary (c_Std op)))));
    _ ← WriteField st NameField (SVal (GBytes (Some (c_name op))));
    _ ← WriteField st SymbolField (SVal (GBytes (Some (c_symbol op))));
    event ← (if c_Std op =? StdWRC20 then create20 caller tokenAddr op st
             else if c_Std op =? StdWRC721 then create721 caller tokenAddr op st
             else liftR (Err ErrStandardNotValid));
    _ ← modify Flush;
    _ ← event;
    mret (fb tokenAddr)).

(** ** Transfers *)

Definition transfer (caller token : Address) (opStd : Z) (to : Address) (value : Z) : stM World bytes :=
  on_stream token (
    _ ← no_token token;
    st ← newStorage token opStd;
    if opStd =? StdWRC20 then
      _ ← move st caller to value;
      _ ← modify Flush;
      ret ← liftR (FillBytes 32 value);
      _ ← TransferWrc20 token caller to value;
      mret ret
    else
      _ ← modify Flush;
      liftR (FillBytes 32 value)).

Definition wrc20SpendAllowance (st : storage) (owner spender : Address) (amount : Z) : stM StorageStream unit :=
  ca ← read_uint256 st AllowancesField (pair_key owner spender);
  _ ← guard (ca <? amount) ErrInsufficientAllowance;
  writeToMap st AllowancesField (pair_key owner spender) (GUint256 (FromBig256 (ca - amount)).1).

Definition read_approved (st : storage) (owner operator : Address) : stM StorageStream bool :=
  v ← readFromMap st OperatorApprovalsField (pair_key owner operator) (PScalar SkBool false);
  liftR (as_bool v).

Definition wrc721TransferFrom (st : storage) (caller from to : Address) (tokenId : Z) : stM StorageStream unit :=
  owner ← readAddressFromMap st OwnersField (id_key tokenId);
  _ ← guard (no_address owner) ErrNotMinted;
  tokenApprovals ← readAddressFromMap st TokenApprovalsField (id_key tokenId);
  isApprovedForAll ← read_approved st owner caller;
  _ ← guard (bool_decide (owner ≠ caller) && bool_decide (tokenApprovals ≠ caller) && negb isApprovedForAll)
        ErrWrongCaller;
  _ ← guard (no_address to) ErrIncorrectTo;
  _ ← guard (bool_decide (from ≠ owner)) ErrIncorrectTransferFrom;
  _ ← writeToMap st TokenApprovalsField (id_key tokenId) (GAddress (zero_fixed 20));
  _ ← move st from to 1;
  writeToMap st OwnersField (id_key tokenId) (GAddress to).

Definition transferFrom (caller token : Address) (opStd : Z) (from to : Address) (value : Z) : stM World bytes :=
  on_stream token (
    _ ← no_token token;
    st ← newStorage token opStd;
    event ← (if opStd =? StdWRC20 then
               _ ← wrc20SpendAllowance st from caller value;
               _ ← move st from to value;
               mret (TransferWrc20 token from to value)
             else if opStd =? StdWRC721 then
               _ ← wrc721TransferFrom st caller from to value;
               mret (TransferWrc721 token from to value)
             else mret (mret tt));
    _ ← modify Flush;
    ret ← liftR (FillBytes 32 value);
    _ ← event;
    mret ret).

(** ** Approvals *)

Definition wrc721Approve (st : storage) (caller spender : Address) (tokenId : Z) : stM StorageStream unit :=
  owner ← readAddressFromMap st OwnersField (id_key tokenId);
  _ ← guard (no_address owner) ErrNotMinted;
  approvedForAll ← read_approved st owner caller;
  _ ← guard (bool_decide (owner ≠ caller) && negb approvedForAll) ErrWrongCaller;
  writeToMap st TokenApprovalsField (id_key tokenId) (GAddress spender).

Definition approve (caller token : Address) (opStd : Z) (spender : Address) (value : Z) : stM World bytes :=
  on_stream token (
    _ ← no_token token;
    st ← newStorage token opStd;
    event ← (if opStd =? StdWRC20 then
               v ← liftR (toUint256 value);
               _ ← writeToMap st AllowancesField (pair_key caller spender) (GUint256 v);
               mret (ApprovalWrc20 token caller spender value)
             else if opStd =? StdWRC721 then
               _ ← wrc721Approve st caller spender value;
               mret (ApprovalWrc721 token caller spender value)
             else mret (mret tt));
    _ ← modify Flush;
    ret ← liftR (FillBytes 32 value);
    _ ← event;
    mret ret).

Definition setApprovalForAll (caller token : Address) (opStd : Z) (operator : Address) (isApproved : bool) : stM World bytes :=
  on_stream token (
    st ← newStorage token opStd;
    _ ← writeToMap st OperatorApprovalsField (pair_key caller operator) (GBool isApproved);
    _ ← modify Flush;
    _ ← ApprovalForAllWrc721 token caller operator isApproved;
    mret (fb operator)).

(** ** Minting and burning *)

Definition mint (caller token : Address) (opStd : Z) (to : Address) (tokenId : Z) (metadata : bytes) : stM World bytes :=
  on_stream token (
    st ← newStorage token opStd;
    minter ← readAddress st MinterField;
    _ ← guard (bool_decide (caller ≠ minter)) ErrWrongMinter;
    owner ← readAddressFromMap st OwnersField (id_key tokenId);
    _ ← guard (negb (no_address owner)) ErrAlreadyMinted;
    balance ← read_uint256 st BalancesField (addr_key to);
    newBalance ← liftR (toUint256 (balance + 1));
    _ ← writeToMap st BalancesField (addr_key to) (GUint256 newBalance);
    _ ← writeToMap st OwnersField (id_key tokenId) (GBytes (Some (fb to)));
    _ ← (if Nat.eqb (length metadata) 0 then mret tt else
         _ ← guard (Nat.ltb MetadataMaxSize (length metadata)) ErrMetadataExceedsMaxSize;
         writeToMap st MetadataField (id_key tokenId) (GBytes (Some metadata)));
    _ ← modify Flush;
    _ ← TransferWrc721 token (zero_fixed 20) to tokenId;
    mret (big_bytes tokenId)).

Definition burn (caller token : Address) (opStd tokenId : Z) : stM World bytes :=
  on_stream token (
    st ← newStorage token opStd;
    minter ← readAddress st MinterField;
    _ ← guard (bool_decide (caller ≠ minter)) ErrWrongMinter;
    owner ← readAddressFromMap st OwnersField (id_key tokenId);
    _ ← guard (bool_decide (owner ≠ caller)) ErrIncorrectOwner;
    balance ← read_uint256 st BalancesField (addr_key owner);
    newBalance ← liftR (toUint256 (balance - 1));
    _ ← writeToMap st BalancesField (addr_key owner) (GUint256 newBalance);
    _ ← writeToMap st OwnersField (id_key tokenId) (GBytes (Some []));
    _ ← writeToMap st MetadataField (id_key tokenId) (GBytes (Some []));
    _ ← modify Flush;
    _ ← TransferWrc721 token owner (zero_fixed 20) tokenId;
    mret (big_bytes tokenId)).

(** ** Trading *)

Definition setPrice (caller token : Address) (tokenId : option Z) (value : Z) : stM World bytes :=
  on_stream token (
    '(st, std) ← newStorageWithoutStdCheck token;
    newCost ← liftR (toUint256 value);
    _ ← (if std =? StdWRC20 then
           creator ← readAddress st CreatorField;
           _ ← guard (bool_decide (caller ≠ creator)) ErrIncorrectOwner;
           WriteField st CostField (SVal (GUint256 newCost))
         else if std =? StdWRC721 then
           match tokenId with
           | None => liftR (Err ErrTokenIdIsNotSet)
           | Some tokenId =>
               owner ← readAddressFromMap st OwnersField (id_key tokenId);
               _ ← guard (no_address owner) ErrNotMinted;
               _ ← guard (bool_decide (owner ≠ caller)) ErrIncorrectOwner;
               id ← liftR (toUint256 tokenId);
               writeToMap st CostMapField (GUint256 id) (GUint256 newCost)
           end
         else liftR (Err ErrTokenOpStandardNotValid));
    _ ← modify Flush;
    mret (fb token)).

Definition change_state (f : World → World) : stM StorageStream unit := modify (λ s, set_stateDb (f (stateDb s)) s).

Definition makePayment (st : storage) (caller owner : Address) (value percentFee : Z) : stM StorageStream unit :=
  s ← getS;
  _ ← guard (GetBalance (stateDb s) caller <? value) ErrNotEnoughBalance;
  if value =? 0 then mret tt else
  value ← (if 0 <? percentFee then
             minter ← readAddress st MinterField;
             if bool_decide (owner ≠ minter) then
               let fee := percentFee * value / 100 in
               _ ← change_state (SubBalance caller fee);
               _ ← change_state (AddBalance minter fee);
               mret (value - fee)
             else mret value
           else mret value);
  _ ← change_state (SubBalance caller value);
  change_state (AddBalance owner value).

(** The part of [buy] for WRC-20: the seller, the amount and the price. *)
Definition buy20 (st : storage) (value : Z) : stM StorageStream (Address * Z * Z) :=
  transferFrom ← readAddress st CreatorField;
  v ← ReadField st CostField (TPtr uint256_ptr);
  cost ← liftR (as_uint256 v);
  _ ← guard (cost =? 0) ErrTokenIsNotForSale;
  _ ← guard (value <? cost) ErrTooSmallTxValue;
  let reminder := value mod cost in
  let paymentValue := value - reminder in
  mret (transferFrom, paymentValue / cost, paymentValue).

(** The part for WRC-721: the seller, the price and the fee. *)
Definition buy721 (st : storage) (caller : Address) (value : Z) (tokenId newCost : option Z) :
    stM StorageStream (Address * Z * Z) :=
  match tokenId with
  | None => liftR (Err ErrTokenIdIsNotSet)
  | Some tokenId =>
      id ← liftR (toUint256 tokenId);
      match newCost with
      | None => liftR (Err ErrNewValueIsNotSet)
      | Some newCost =>
          transferFrom ← readAddressFromMap st OwnersField (id_key tokenId);
          _ ← guard (no_address transferFrom) ErrNotMinted;
          cost ← read_uint256 st CostMapField (GUint256 id);
          _ ← guard (cost =? 0) ErrTokenIsNotForSale;
          _ ← guard (value <? cost) ErrTooSmallTxValue;
          _ ← writeToMap st OwnersField (id_key tokenId) (GAddress caller);
          _ ← writeToMap st TokenApprovalsField (id_key tokenId) (GAddress (zero_fixed 20));
          newCostUint ← liftR (toUint256 newCost);
          _ ← writeToMap st CostMapField (GUint256 id) (GUint256 newCostUint);
          v ← ReadField st PercentFeeField (TPtr (PScalar SkUint8 false));
          percentFee ← liftR (as_uint8 v);
          mret (transferFrom, cost, percentFee)
      end
  end.

Definition buy (caller : Address) (value : Z) (token : Address) (tokenId newCost : option Z) : stM World bytes :=
  on_stream token (
    '(st, std) ← newStorageWithoutStdCheck token;
    '(transferFrom, transferValue, paymentValue, percentFee) ←
      (if std =? StdWRC20 then
         '(transferFrom, transferValue, paymentValue) ← buy20 st value;
         mret (transferFrom, transferValue, paymentValue, 0)
       else if std =? StdWRC721 then
         '(transferFrom, cost, percentFee) ← buy721 st caller value tokenId newCost;
         mret (transferFrom, 1, cost, percentFee)
       else liftR (Err ErrTokenOpStandardNotValid));
    _ ← move st transferFrom caller transferValue;
    _ ← makePayment st caller transferFrom paymentValue percentFee;
    _ ← modify Flush;
    _ ← (if std =? StdWRC20 then TransferWrc20 token transferFrom caller transferValue
         else TransferWrc721 token transferFrom caller transferValue);
    mret (fb token)).

(** ** The processor *)

Definition token_handle (caller token : Address) (value : Z) (op : TokenOp) : stM World bytes :=
  match op with
  | OpCreate v => tokenCreate caller token v
  | OpTransferFrom std from to v | OpSafeTransferFrom std from to v _ => transferFrom caller token std from to v
  | OpTransfer std to v => transfer caller token std to v
  | OpApprove std spender v => approve caller token std spender v
  | OpMint std to id metadata => mint caller token std to id metadata
  | OpBuy id newCost => buy caller value token id newCost
  | OpSetPrice id v => setPrice caller token id v
  | OpBurn std id => burn caller token std id
  | OpSetApprovalForAll std operator approved => setApprovalForAll caller token std operator approved
  | _ => mret []
  end.

(** [Call] *)
Definition TokenProcessor_Call (caller token : Address) (value : Z) (op : TokenOp) : stM World bytes :=
  w ← getS;
  token ← match op with
          | OpCreate _ =>
              _ ← guard (negb (no_address token)) ErrNotNilTo;
              let token := CreateAddress caller (GetNonce w caller) in
              _ ← guard (Exist w token) ErrAddressAlreadyExists;
              mret token
          | _ => mret token
          end;
  _ ← modify (SetNonce caller (u64 (GetNonce w caller + 1)));
  revertOnError (token_handle caller token value op).

(** ** Queries *)

(** The fields of [WRC721PropertiesResult] that are set when the operation names an item. *)
Record ItemResult := MkItem {
  TokenURI : bytes;
  OwnerOf : Address;
  GetApproved : Address;
  Metadata : bytes;
  item_Cost : Z
}.

Inductive PropertiesResult :=
| WRC20PropertiesResult (Name Symbol : bytes) (Decimals TotalSupply Cost : Z)
| WRC721PropertiesResult (Name Symbol BaseURI : bytes) (PercentFee : Z) (item : option ItemResult).

Definition concatTokenURI (baseURI : bytes) (tokenId : Z) : bytes := baseURI ++ [x2f] ++ str (pretty tokenId).

Definition read_bytes (st : storage) (name : bytes) : stM StorageStream bytes :=
  v ← ReadField st name (TPtr PBytes); liftR (as_bytes v).
Definition read_word (st : storage) (name : bytes) : stM StorageStream Z :=
  v ← ReadField st name (TPtr uint256_ptr); liftR (as_uint256 v).
Definition read_byte (st : storage) (name : bytes) : stM StorageStream Z :=
  v ← ReadField st name (TPtr (PScalar SkUint8 false)); liftR (as_uint8 v).

Definition item_properties (st : storage) (baseURI : bytes) (id : Z) : stM StorageStream ItemResult :=
  owner ← readAddressFromMap st OwnersField (id_key id);
  _ ← guard (no_address owner) ErrNotMinted;
  v ← readFromMap st MetadataField (id_key id) PBytes;
  metadata ← liftR (as_bytes v);
  approved ← readAddressFromMap st TokenApprovalsField (id_key id);
  uint256Id ← liftR (toUint256 id);
  cost ← read_uint256 st CostMapField (GUint256 uint256Id);
  mret (MkItem (concatTokenURI baseURI id) owner approved metadata cost).

Definition Properties (token : Address) (id : option Z) : stM World PropertiesResult :=
  on_stream token (
    '(st, standard) ← newStorageWithoutStdCheck token;
    name ← read_bytes st NameField;
    symbol ← read_bytes st SymbolField;
    if standard =? StdWRC20 then
      decimals ← read_byte st DecimalsField;
      totalSupply ← read_word st TotalSupplyField;
      cost ← read_word st CostField;
      mret (WRC20PropertiesResult name symbol decimals totalSupply cost)
    else if standard =? StdWRC721 then
      baseURI ← read_bytes st BaseUriField;
      percentFee ← read_byte st PercentFeeField;
      match id with
      | None => mret (WRC721PropertiesResult name symbol baseURI percentFee None)
      | Some id =>
          item ← item_properties st baseURI id;
          mret (WRC721PropertiesResult name symbol baseURI percentFee (Some item))
      end
    else liftR (Err ErrStandardNotValid)).

Definition BalanceOf (token owner : Address) : stM World Z :=
  on_stream token (
    '(st, standard) ← newStorageWithoutStdCheck token;
    if (standard =? StdWRC20) || (standard =? StdWRC721) then read_uint256 st BalancesField (addr_key owner)
    else liftR (Err ErrTokenOpStandardNotValid)).

Definition Allowance (token : Address) (opStd : Z) (owner spender : Address) : stM World Z :=
  on_stream token (
    st ← newStorage token opStd;
    if opStd =? StdWRC20 then read_uint256 st AllowancesField (pair_key owner spender)
    else liftR (Err ErrTokenOpStandardNotValid)).

Definition Cost (token : Address) (tokenId : option Z) : stM World Z :=
  on_stream token (
    '(st, standard) ← newStorageWithoutStdCheck token;
    cost ← (if standard =? StdWRC20 then read_word st CostField
            else if standard =? StdWRC721 then
              match tokenId with
              | None => liftR (Err ErrTokenIdIsNotSet)
              | Some tokenId =>
                  owner ← readAddressFromMap st OwnersField (id_key tokenId);
                  _ ← guard (no_address owner) ErrNotMinted;
                  id ← liftR (toUint256 tokenId);
                  read_uint256 st CostMapField (GUint256 id)
              end
            else liftR (Err ErrTokenOpStandardNotValid));
    _ ← guard (cost =? 0) ErrTokenIsNotForSale;
    mret cost).

(** The language leaves open whether the flag that is returned is read before or after the call that
    sets it; the compiler calls first. *)
Definition IsApprovedForAll (token : Address) (opStd : Z) (owner operator : Address) : stM World bool :=
  on_stream token (
    st ← newStorage token opStd;
    read_approved st owner operator).

(** [IsToken]; a panic is not an error. *)
Definition Processor_IsToken (w : World) (token : Address) : go_res bool :=
  if negb (Exist w token) then Ok false
  else if no_address token then Ok false
  else
    match (Properties token None w).1 with
    | Ok _ => Ok true
    | Err _ => Ok false
    | Panic => Panic
    | NoFuel => NoFuel
    end.
End token.
