(* ===== verification/TokenFacts.v ===== *)
(** * What the token processor does to the world

    Whatever the virtual machine keeps, an operation on a token keeps: its changes are a new nonce,
    a new account, slots of the account of the token, logs and payments. *)

From Stdlib Require Import ZArith Lia Strings.Byte.
From stdpp Require Import base tactics option numbers list gmap strings pretty.
From S2P Require Import Prelude Common GoMap World ValProcessor Evm Machine TokenOps TokenStream TokenSig TokenStorage Token.

(** ** Streams keep the state *)

#[export] Instance same_but_mem_refl : Reflexive same_but_mem.
Proof. by intros s. Qed.
#[export] Instance same_but_mem_trans : Transitive same_but_mem.
Proof. intros s1 s2 s3 [Hw1 Ht1] [Hw2 Ht2]. split; congruence. Qed.

Lemma frame_weaken {S A} (R R' : S → S → Prop) (m : stM S A) : (∀ s s', R s s' → R' s s') → frame R m → frame R' m.
Proof. intros H Hm s r s' Hr. apply H. by eapply Hm. Qed.

Lemma frame_do_loop fuel action : ∀ b off res p, frame same_but_mem (do_loop fuel action b off res p).
Proof.
  induction fuel as [|fuel IH]; intros b off res p; cbn [do_loop]; destruct (Nat.ltb res (length b));
    auto using frame_liftR, frame_mret with typeclass_instances.
  unfold getSlot. repeat frame_step; try done.
Qed.

Lemma frame_WriteAt b off : frame same_but_mem (WriteAt b off).
Proof. unfold WriteAt, do_at. repeat frame_step; apply frame_do_loop. Qed.

Lemma frame_Read b off : frame same_but_mem (ReadAt b off).
Proof. unfold ReadAt, do_at. repeat frame_step; apply frame_do_loop. Qed.

#[export] Hint Resolve frame_WriteAt frame_Read : frame.

Section frames.
Context {HC : Crypto} {HR : MapRange} {HB : BigConv}.

Lemma frame_Get m key : frame same_but_mem (Get m key).
Proof. unfold Get. repeat frame_step. Qed.
Lemma frame_Put m key value : frame same_but_mem (Put m key value).
Proof. unfold Put. repeat frame_step. Qed.
Hint Resolve frame_Get frame_Put : frame.

Lemma frame_ReadField st name to : frame same_but_mem (ReadField st name to).
Proof. unfold ReadField, entry_Read. repeat frame_step. Qed.
Lemma frame_WriteField st name val : frame same_but_mem (WriteField st name val).
Proof. unfold WriteField, entry_Write. repeat frame_step. Qed.
Hint Resolve frame_ReadField frame_WriteField : frame.

Lemma frame_ReadStorage : frame same_but_mem ReadStorage.
Proof.
  unfold ReadStorage. frame_step; [|repeat frame_step].
  eapply frame_weaken; [|apply frame_ReadFromStream]. by intros s s' [H _].
Qed.
Lemma frame_NewStorage fds : frame same_but_mem (NewStorage fds).
Proof. unfold NewStorage, WriteToStream. repeat frame_step. Qed.
Hint Resolve frame_ReadStorage frame_NewStorage : frame.

Lemma frame_open token : frame same_but_mem (newStorageWithoutStdCheck token).
Proof. unfold newStorageWithoutStdCheck, guard. repeat frame_step. Qed.
Hint Resolve frame_open : frame.

(** ** Relations that the virtual machine keeps *)

Context (R : World → World → Prop) (HVM : vm_rel false R).

(** The state of an operation on a token, before and after. *)
Definition on_db (s s' : StorageStream) : Prop := R (stateDb s) (stateDb s') ∧ tokenAddress s' = tokenAddress s.

#[local] Instance on_db_refl : Reflexive on_db.
Proof. intros s. split; [apply (vr_refl false R HVM)|done]. Qed.
#[local] Instance on_db_trans : Transitive on_db.
Proof. intros s1 s2 s3 [Hw1 Ht1] [Hw2 Ht2]. split; [by eapply (vr_trans false R HVM)|congruence]. Qed.

Lemma frame_same {A} (m : stM StorageStream A) : frame same_but_mem m → frame on_db m.
Proof.
  apply frame_weaken. intros s s' [Hw Ht]. split; [|done]. rewrite Hw. apply (vr_refl false R HVM).
Qed.

Lemma on_db_ReadField st name to : frame on_db (ReadField st name to).
Proof. apply frame_same, frame_ReadField. Qed.
Lemma on_db_WriteField st name val : frame on_db (WriteField st name val).
Proof. apply frame_same, frame_WriteField. Qed.
Lemma on_db_open token : frame on_db (newStorageWithoutStdCheck token).
Proof. apply frame_same, frame_open. Qed.
Lemma on_db_NewStorage fds : frame on_db (NewStorage fds).
Proof. apply frame_same, frame_NewStorage. Qed.

Lemma on_db_Flush : frame on_db (modify Flush).
Proof.
  apply frame_modify. intros s. split; [|done]. cbn [stateDb Flush set_stateDb].
  generalize (range (bufferedSlots s)). intros l. generalize (stateDb s).
  induction l as [|[k v] l IH]; intros w; cbn [foldl]; [apply (vr_refl false R HVM)|].
  eapply (vr_trans false R HVM); [by apply (vr_state false R HVM)|apply IH].
Qed.

Lemma on_db_addLog a sig l : frame on_db (addLog a sig l).
Proof.
  unfold addLog. destruct (collect_entries [sig] [] l) as [topics data]. apply frame_modify. intros s.
  split; [|done]. by apply (vr_log false R HVM).
Qed.

(** Money that is taken is given. *)
Lemma on_db_pay {A} a b v (k : stM StorageStream A) : frame on_db k →
  frame on_db (_ ← change_state (SubBalance a v); _ ← change_state (AddBalance b v); k).
Proof.
  intros Hk s r s' Hr. etrans; [|exact (Hk _ _ _ Hr)]. split; [|done]. by apply (vr_transfer false R HVM a b v); left.
Qed.

Lemma on_db_pay_last a b v : frame on_db (_ ← change_state (SubBalance a v); change_state (AddBalance b v)).
Proof. intros s r s' [= <- <-]. split; [|done]. by apply (vr_transfer false R HVM a b v); left. Qed.

Hint Resolve on_db_ReadField on_db_WriteField on_db_open on_db_NewStorage on_db_Flush on_db_addLog : frame.
Hint Extern 1 (frame on_db (liftR _)) => apply frame_liftR, on_db_refl : frame.

Lemma on_db_newStorage token std : frame on_db (newStorage token std).
Proof. unfold newStorage, guard. repeat frame_step. Qed.
Lemma on_db_move st from to v : frame on_db (move st from to v).
Proof. unfold move, read_uint256, readFromMap, writeToMap, guard. repeat frame_step. Qed.
Lemma on_db_readAddress st name : frame on_db (readAddress st name).
Proof. unfold readAddress. repeat frame_step. Qed.
Hint Resolve on_db_newStorage on_db_move on_db_readAddress : frame.

Lemma on_db_makePayment st a b v fee : frame on_db (makePayment st a b v fee).
Proof.
  unfold makePayment, guard.
  apply frame_bind; [apply _|apply frame_getS, _|intros s]. apply frame_bind; [apply _|apply frame_liftR, _|intros _].
  destruct (v =? 0); [apply frame_mret, _|]. apply frame_bind; [apply _| |intros v'; apply on_db_pay_last].
  destruct (0 <? fee); [|apply frame_mret, _]. apply frame_bind; [apply _|auto with frame|intros minter].
  destruct (bool_decide (b ≠ minter)); [apply on_db_pay, frame_mret, _|apply frame_mret, _].
Qed.
Hint Resolve on_db_makePayment : frame.

(** ** The operations *)

Ltac tok_unfold :=
  unfold no_token, read_approved, read_uint256, readAddressFromMap, readFromMap, writeToMap, TransferWrc20, TransferWrc721,
    ApprovalWrc20, ApprovalWrc721, ApprovalForAllWrc721, CreateWrc721, guard.

Lemma on_stream_rel {A} token (m : stM StorageStream A) w : frame on_db m → R w (on_stream token m w).2.
Proof.
  intros Hm. unfold on_stream. destruct (m (NewStorageStream token w)) as [r s] eqn:Hr. by apply Hm in Hr as [H _].
Qed.

(** An event is a computation that is returned and run later. *)
Lemma frame_assoc {A B C} (m : stM StorageStream A) (f : A → stM StorageStream B) (k : B → stM StorageStream C) :
  frame on_db (m ≫= λ a, f a ≫= k) → frame on_db ((m ≫= f) ≫= k).
Proof.
  intros H s r s' Hr. apply (H s r s'). rewrite <- Hr. unfold mbind, stM_bind. by destruct (m s) as [[] s1].
Qed.

Lemma frame_mret_bind {A B} (a : A) (k : A → stM StorageStream B) : frame on_db (k a) → frame on_db (mret a ≫= k).
Proof. done. Qed.

Lemma frame_err {A B} e (k : A → stM StorageStream B) : frame on_db (liftR (Err e) ≫= k).
Proof. intros s r s' [= <- <-]. apply on_db_refl. Qed.

Ltac tok_step :=
  lazymatch goal with
  | |- frame _ (mbind _ (liftR (Err _))) => apply frame_err
  | |- frame _ (mbind _ (mbind _ _)) => apply frame_assoc
  | |- frame _ (mbind _ (mret _)) => apply frame_mret_bind
  | |- frame _ (mbind _ (if ?b then _ else _)) => destruct b
  | |- frame _ (mbind _ (match ?x with _ => _ end)) => destruct x
  | |- frame _ ((λ _, _) _) => cbv beta
  | |- _ => frame_step
  end.

Ltac tok_frame := apply on_stream_rel; tok_unfold; repeat tok_step.

Lemma transfer_rel caller token std to v w : R w (transfer caller token std to v w).2.
Proof. tok_frame. Qed.

Lemma transferFrom_rel caller token std from to v w : R w (transferFrom caller token std from to v w).2.
Proof. unfold transferFrom, wrc20SpendAllowance, wrc721TransferFrom. tok_frame. Qed.

Lemma approve_rel caller token std spender v w : R w (approve caller token std spender v w).2.
Proof. unfold approve, wrc721Approve. tok_frame. Qed.

Lemma setApprovalForAll_rel caller token std operator b w : R w (setApprovalForAll caller token std operator b w).2.
Proof. unfold setApprovalForAll. tok_frame. Qed.

Lemma mint_rel caller token std to id md w : R w (mint caller token std to id md w).2.
Proof. unfold mint. tok_frame. Qed.

Lemma burn_rel caller token std id w : R w (burn caller token std id w).2.
Proof. unfold burn. tok_frame. Qed.

Lemma setPrice_rel caller token id v w : R w (setPrice caller token id v w).2.
Proof. unfold setPrice. tok_frame. Qed.

Lemma buy_rel caller value token id cost w : R w (buy caller value token id cost w).2.
Proof. unfold buy, buy20, buy721. tok_frame. Qed.

(** The account of a new token does not replace a contract. *)
Lemma tokenCreate_rel caller token op w : (GetNonce w token = 0 → vacant w token = true) →
  R w (tokenCreate caller token op w).2.
Proof.
  intros Hv. unfold tokenCreate, guard. st_step. destruct (Z.eqb_spec (GetNonce w token) 0) as [Hn|Hn]; cbn [negb fail_if].
  2:{ apply (vr_refl false R HVM). }
  do 3 st_step. set (w1 := SetNonce token 1 (CreateAccount token w)).
  assert (R w w1) as Hw1 by (by apply (vr_create false R HVM); auto).
  destruct (newFieldsDescriptors op) as [fds| | |]; [|exact Hw1..]. rewrite liftR_Ok_bind.
  eapply (vr_trans false R HVM); [exact Hw1|]. unfold create20, create721. tok_frame.
Qed.

Lemma token_handle_rel caller token value op w :
  (∀ c, op = OpCreate c → GetNonce w token = 0 → vacant w token = true) → R w (token_handle caller token value op w).2.
Proof.
  intros Hv. destruct op; cbn [token_handle]; try apply (vr_refl false R HVM);
    auto using transfer_rel, transferFrom_rel, approve_rel, setApprovalForAll_rel, mint_rel, burn_rel, setPrice_rel, buy_rel.
  apply tokenCreate_rel. by apply (Hv op).
Qed.

Lemma revert_rel {A} (m : stM World A) w : R w (m w).2 → R w (revertOnError m w).2.
Proof.
  unfold revertOnError. destruct (m w) as [[a|e| |] w']; cbn [snd]; try done. intros _. apply (vr_refl false R HVM).
Qed.

Lemma vacant_missing w a : Exist w a = false → vacant w a = true.
Proof.
  intros Hx. unfold vacant, GetCodeHash. rewrite Hx, bool_decide_true by (by left). rewrite andb_true_r.
  unfold Exist in Hx. apply bool_decide_eq_false, eq_None_not_Some in Hx.
  Transparent GetNonce. unfold GetNonce, account. Opaque GetNonce. by rewrite Hx.
Qed.

(** A caller that does not exist has a nonce once it is counted. *)
Lemma counted_vacant w a b : Exist w b = false → let w1 := SetNonce a (u64 (GetNonce w a + 1)) w in
  GetNonce w1 b = 0 → vacant w1 b = true.
Proof.
  intros Hx w1 Hn. pose proof (vacant_missing w b Hx) as Hv. destruct (decide (a = b)) as [->|Hab].
  - exfalso. unfold w1 in Hn. rewrite GetNonce_SetNonce, decide_True in Hn by done.
    unfold vacant in Hv. destruct (Z.eqb_spec (GetNonce w b) 0) as [H0|]; [|done]. by rewrite H0 in Hn.
  - apply vacant_missing. unfold Exist in *. Transparent SetNonce. unfold w1, SetNonce, update_account. Opaque SetNonce.
    cbn [accounts set_accounts]. by rewrite lookup_insert_ne.
Qed.

Lemma Call_keeps caller token value op w : R w (TokenProcessor_Call caller token value op w).2.
Proof.
  pose proof (vr_refl false R HVM) as Hrefl. pose proof (vr_trans false R HVM) as Htrans.
  assert (∀ token w, (∀ c, op = OpCreate c → Exist w token = false) →
    R w (revertOnError (token_handle caller token value op) (SetNonce caller (u64 (GetNonce w caller + 1)) w)).2) as Hh.
  { intros t w0 Hx. etrans; [by apply (vr_nonce false R HVM)|]. apply revert_rel, token_handle_rel.
    intros c Hc. by eapply counted_vacant, Hx. }
  unfold TokenProcessor_Call, guard. st_step.
  destruct op; try (by apply (Hh token w)); [].
  unfold mbind, stM_bind, liftR, modify.
  destruct (negb (no_address token)); [apply Hrefl|]. cbn [fail_if].
  destruct (Exist w (CreateAddress caller (GetNonce w caller))) eqn:Hx; [apply Hrefl|]. cbn [fail_if mret stM_ret].
  by apply Hh.
Qed.
End frames.
