(* ===== verification/TokenMem.v ===== *)
(** * Fields of a token as ranges of its memory

    What the operations on fields and maps (TokenStorage.v) do to the memory of a stream: a field
    is a range of bytes at its offset, an entry of a map a range at the slot of its key. *)

From Stdlib Require Import ZArith Lia Strings.Byte.
From stdpp Require Import base tactics option numbers list gmap strings.
From S2P Require Import Prelude Common GoMap World Machine TokenStream TokenSig TokenStorage Token.

(** ** Memories *)

Lemma bytes_at_write_eq m off b : bytes_at (write_mem off b m) off (length b) = b.
Proof.
  apply list_eq. intros j. destruct (decide (j < length b)%nat) as [Hj|Hj].
  - rewrite lookup_bytes_at by done. unfold write_mem.
    destruct (Z.leb_spec off (off + Z.of_nat j)), (Z.ltb_spec (off + Z.of_nat j) (off + Z.of_nat (length b))); try lia.
    cbn. replace (Z.to_nat (off + Z.of_nat j - off)) with j by lia.
    destruct (lookup_lt_is_Some_2 b j Hj) as [x Hx]. by rewrite Hx.
  - rewrite !lookup_ge_None_2; [done|lia|rewrite length_bytes_at; lia].
Qed.

Lemma bytes_at_write_ne m off b off' n : off' + Z.of_nat n ≤ off ∨ off + Z.of_nat (length b) ≤ off' →
  bytes_at (write_mem off b m) off' n = bytes_at m off' n.
Proof.
  intros Hd. apply bytes_at_ext. intros i Hi. unfold write_mem.
  by destruct (Z.leb_spec off i), (Z.ltb_spec i (off + Z.of_nat (length b))); [lia|..].
Qed.

Lemma has_mem_bytes s M off n : has_mem s M → in_mem off n → bytes_at (mem s) off n = bytes_at M off n.
Proof. intros Hm [H0 H1]. apply bytes_at_ext. intros i Hi. apply Hm. lia. Qed.

Lemma holds_any s off n : in_mem off n → holds s off (bytes_at (mem s) off n).
Proof. intros Hin. unfold holds. by rewrite length_bytes_at. Qed.

(** The bytes [b] are in a memory at an offset. *)
Definition at_mem (m : Z → byte) (off : Z) (b : bytes) : Prop := bytes_at m off (length b) = b.

Lemma at_mem_app m off a b : at_mem m off (a ++ b) ↔ at_mem m off a ∧ at_mem m (off + Z.of_nat (length a)) b.
Proof.
  unfold at_mem. rewrite length_app, bytes_at_app. split.
  - intros H. by apply app_inj_1 in H as [Ha Hb]; [|by rewrite length_bytes_at].
  - by intros [-> ->].
Qed.

Lemma at_mem_write m off b : at_mem (write_mem off b m) off b.
Proof. apply bytes_at_write_eq. Qed.

Lemma at_mem_apart m off b off' c : off' + Z.of_nat (length c) ≤ off ∨ off + Z.of_nat (length b) ≤ off' →
  at_mem m off' c → at_mem (write_mem off b m) off' c.
Proof. intros Hd H. unfold at_mem. by rewrite bytes_at_write_ne. Qed.

Lemma has_mem_at s M off b : has_mem s M → in_mem off (length b) → at_mem M off b → at_mem (mem s) off b.
Proof. intros Hm Hin H. unfold at_mem. by rewrite (has_mem_bytes s M). Qed.

(** ** Computations on a memory *)

(** The computation returns [a] and leaves the memory [M]. *)
Definition stores {A} (m : stM StorageStream A) (s : StorageStream) (a : A) (M : Z → byte) : Prop :=
  ∃ s', m s = (Ok a, s') ∧ same_but_mem s s' ∧ has_mem s' M.

Lemma in_mem_slot h n : 0 ≤ h < slots_number → (n ≤ 32)%nat → in_mem (h * 32) n.
Proof. unfold in_mem, mem_size. lia. Qed.

Lemma FillBytes_Ok z : 0 ≤ z < two256 → FillBytes 32 z = Ok (be_bytes 32 z).
Proof.
  intros Hz. unfold FillBytes. rewrite Z.abs_eq by lia. by destruct (Z.ltb_spec z (256 ^ Z.of_nat 32)) as [|H]; [|change (256 ^ Z.of_nat 32) with two256 in H; lia].
Qed.

Section storage.
Context {HC : Crypto}.

Lemma offset_range pre key : 0 ≤ be_val (fb (keccak256 (pre ++ key))) < slots_number.
Proof.
  pose proof (be_val_range (fb (keccak256 (pre ++ key)))) as H. rewrite length_fb in H. exact H.
Qed.

Lemma offset_in_mem pre key n : (n ≤ 32)%nat → in_mem (calculateOffset pre key) n.
Proof. apply in_mem_slot, offset_range. Qed.

Context (st : storage).

(** ** Fields *)

Lemma read_at_field name info c p s v off : fields st !! name = Some (fieldEntry info c) → fi_offset info = Some off →
  0 ≤ fi_length info ≤ maxAlloc → in_mem off (Z.to_nat (fi_length info)) →
  decode c (bytes_at (mem s) off (Z.to_nat (fi_length info))) p = Ok v → fetches (ReadField st name (TPtr p)) s v.
Proof.
  intros Hf Ho Hl Hin Hd. unfold ReadField. rewrite Hf. cbn [entry_Read]. unfold make_bytes.
  destruct (Z.leb_spec (fi_length info) maxAlloc); [|lia]. fetch_step ltac:(by apply fetches_liftR).
  rewrite Ho. fetch_step ltac:(by apply fetches_liftR).
  pose proof (holds_any s off _ Hin) as Hh. rewrite Hs, Hs0 in Hh at 1.
  fetch_step ltac:(eapply fetch_bytes; [|exact Hh]; by rewrite length_replicate, length_bytes_at). by apply fetches_liftR.
Qed.

Lemma write_at_field name info c v b s off : fields st !! name = Some (fieldEntry info c) → fi_offset info = Some off →
  encode c v = Ok (Some b) → Z.of_nat (length b) ≤ fi_length info → in_mem off (length b) →
  stores (WriteField st name (SVal v)) s tt (write_mem off b (mem s)).
Proof.
  intros Hf Ho He Hl Hin. destruct (WriteAt_Ok b off s Hin) as (s' & Hw & Hs & Hm). exists s'. split; [|done].
  unfold WriteField. rewrite Hf. cbn [entry_Write]. rewrite He, liftR_Ok_bind. cbn [default]. unfold id.
  destruct (Z.ltb_spec (fi_length info) (Z.of_nat (length b))); [lia|]. rewrite andb_false_r. cbn [fail_if].
  rewrite liftR_Ok_bind, Ho. cbn [deref]. rewrite liftR_Ok_bind. by rewrite (stM_Ok_bind _ _ _ _ _ Hw).
Qed.

(** ** Entries of maps *)

Record map_field (name : bytes) (ksize vsize : Z) (kc vc : codec) : Prop := {
  mf_field : fields st !! name = Some (mapEntry (MkByteMap name ksize vsize) kc vc);
  mf_size : 0 < vsize ≤ 32
}.

Lemma read_at_map name ksize vsize kc vc key kb p s v : map_field name ksize vsize kc vc →
  encode kc key = Ok (Some kb) → Z.of_nat (length kb) ≤ ksize →
  decode vc (bytes_at (mem s) (calculateOffset name kb) (Z.to_nat vsize)) p = Ok v →
  fetches (ReadField st name (TPair key p)) s v.
Proof.
  intros [Hf Hv] He Hk Hd. unfold ReadField. rewrite Hf. cbn [entry_Read].
  pose proof (holds_any s (calculateOffset name kb) (Z.to_nat vsize) ltac:(apply offset_in_mem; lia)) as Hh.
  set (b := bytes_at (mem s) (calculateOffset name kb) (Z.to_nat vsize)) in *.
  fetch_step ltac:(by apply fetches_liftR). cbn [default]. unfold id. rewrite Hs in Hh.
  eapply (fetches_bind _ _ _ b); [|intros s1 _; by apply fetches_liftR].
  unfold Get. cbn [keySize valueSize uniqPrefix]. destruct (Z.ltb_spec ksize (Z.of_nat (length kb))); [lia|]. cbn [fail_if].
  fetch_step ltac:(by apply fetches_liftR). destruct (Z.eqb_spec vsize 0); [lia|].
  fetch_step ltac:(apply fetches_mret). unfold make_bytes. destruct (Z.leb_spec vsize maxAlloc); [|unfold maxAlloc in *; lia].
  fetch_step ltac:(by apply fetches_liftR). rewrite Hs0, Hs1, Hs2 in Hh.
  fetch_step ltac:(eapply fetch_bytes; [|exact Hh]; unfold b; by rewrite length_replicate, length_bytes_at).
  apply fetches_mret.
Qed.

Lemma write_at_map name ksize vsize kc vc key kb value b s : map_field name ksize vsize kc vc →
  encode kc key = Ok (Some kb) → Z.of_nat (length kb) ≤ ksize →
  encode vc value = Ok (Some b) → Z.of_nat (length b) ≤ vsize →
  stores (WriteField st name (SPair key value)) s tt (write_mem (calculateOffset name kb) b (mem s)).
Proof.
  intros [Hf Hv] He Hk Heb Hb.
  destruct (WriteAt_Ok b (calculateOffset name kb) s) as (s' & Hw & Hs & Hm); [apply offset_in_mem; lia|].
  exists s'. split; [|done]. unfold WriteField. rewrite Hf. cbn [entry_Write]. rewrite He, liftR_Ok_bind, Heb, liftR_Ok_bind.
  cbn [default]. unfold id, Put. cbn [keySize valueSize uniqPrefix].
  destruct (Z.ltb_spec ksize (Z.of_nat (length kb))), (Z.ltb_spec vsize (Z.of_nat (length b))), (Z.eqb_spec vsize 0); try lia.
  cbn [negb andb fail_if]. do 2 rewrite liftR_Ok_bind. by rewrite (stM_Ok_bind _ _ _ _ _ Hw).
Qed.

(** ** Numbers and addresses *)

Lemma decode_word z : 0 ≤ z < two256 → decode Uint256Codec (be_bytes 32 z) uint256_ptr = Ok (GUint256 z).
Proof.
  intros Hz. cbn [decode decodeUint256 decode_kind uint256_ptr]. unfold SetBytes. rewrite be_val_be_bytes_small by exact Hz. by rewrite Z.mod_small.
Qed.

Lemma encode_word z : encode Uint256Codec (GUint256 z) = Ok (Some (be_bytes 32 z)).
Proof. cbn [encode encodeUint256]. unfold Bytes32. by rewrite fb_BytesToFixed, fit_id by apply length_be_bytes. Qed.

Lemma encode_address a : encode ArrayCodec (GAddress a) = Ok (Some (fb a)).
Proof.
  cbn [encode encodeArray GAddress]. change (fb a) with ([] ++ fb a) at 2. generalize (@nil byte) (fb a).
  intros acc l. revert acc. induction l as [|b l IH]; intros acc; cbn; [by rewrite app_nil_r|].
  rewrite z2b_b2z. cbn. rewrite IH. by rewrite <- app_assoc.
Qed.
End storage.
