(* ===== verification/Wrc20.v ===== *)
(** * Fungible tokens

    What a WRC-20 token promises, as an abstract machine ([Token20], [step20]), and that the processor
    of Token.v implements it on the slots of an account.

    The abstract token has balances and allowances for all addresses. The maps of the storage are
    addressed by hashes, so the two agree on a finite list of addresses for which the entries of the
    maps and the fields do not overlap ([apart]); the list has to contain the addresses that take part
    in an operation. *)

From Stdlib Require Import ZArith Lia Strings.Byte.
From stdpp Require Import base tactics option numbers list gmap strings.
From S2P Require Import Prelude Common GoMap World ValProcessor Evm Machine TokenOps TokenStream TokenSig TokenStorage Token TokenFacts TokenMem.

(** ** The abstract token *)

Record Token20 := MkToken20 {
  t_name : bytes;
  t_symbol : bytes;
  t_creator : Address;
  t_decimals : Z;
  t_supply : Z;
  t_cost : Z;
  t_bal : Address → Z;
  t_allow : Address → Address → Z
}.

Definition set_bal (a : Address) (v : Z) (T : Token20) : Token20 :=
  MkToken20 (t_name T) (t_symbol T) (t_creator T) (t_decimals T) (t_supply T) (t_cost T)
    (λ x, if decide (x = a) then v else t_bal T x) (t_allow T).
Definition set_allow (a b : Address) (v : Z) (T : Token20) : Token20 :=
  MkToken20 (t_name T) (t_symbol T) (t_creator T) (t_decimals T) (t_supply T) (t_cost T)
    (t_bal T) (λ x y, if decide (x = a ∧ y = b) then v else t_allow T x y).
Definition set_cost (v : Z) (T : Token20) : Token20 :=
  MkToken20 (t_name T) (t_symbol T) (t_creator T) (t_decimals T) (t_supply T) v (t_bal T) (t_allow T).

(** Moves a part of a balance. *)
Definition move20 (from to : Address) (v : Z) (T : Token20) : go_res Token20 :=
  if t_bal T from <? v then Err ErrNotEnoughBalance else
  let T := set_bal from (t_bal T from - v) T in
  if two256 <=? t_bal T to + v then Err ErrUint256Overflow else Ok (set_bal to (t_bal T to + v) T).

Definition spend20 (owner spender : Address) (v : Z) (T : Token20) : go_res Token20 :=
  if t_allow T owner spender <? v then Err ErrInsufficientAllowance
  else Ok (set_allow owner spender (t_allow T owner spender - v) T).

(** What a buyer pays to the creator. *)
Definition pay20 (caller creator : Address) (price : Z) (w : World) : World :=
  AddBalance creator price (SubBalance caller price w).

Definition only20 {X} (std : Z) (r : go_res X) : go_res X :=
  if std =? StdWRC20 then r else Err ErrTokenOpStandardNotValid.

Definition transfer_log `{!Crypto} (token from to : Address) (v : Z) : Log :=
  MkLog token [transferEventSignature; BytesToHash (fb from); BytesToHash (fb to)] (be_bytes 32 v).
Definition approval_log `{!Crypto} (token owner spender : Address) (v : Z) : Log :=
  MkLog token [approvalEventSignature; BytesToHash (fb owner); BytesToHash (fb spender)] (be_bytes 32 v).

(** The operations: what is returned, the world with the payment, the token and the events. The
    operations of the other standard fail, queries do nothing. *)
Definition step20 `{!Crypto} (token caller : Address) (value : Z) (op : TokenOp) (w : World) (T : Token20) :
    go_res (bytes * World * Token20 * list Log) :=
  match op with
  | OpTransfer std to v =>
      only20 std (T' ← move20 caller to v T; Ok (be_bytes 32 v, w, T', [transfer_log token caller to v]))
  | OpTransferFrom std from to v | OpSafeTransferFrom std from to v _ =>
      only20 std (
        T1 ← spend20 from caller v T;
        T' ← move20 from to v T1;
        Ok (be_bytes 32 v, w, T', [transfer_log token from to v]))
  | OpApprove std spender v =>
      only20 std (
        if two256 <=? v then Err ErrUint256Overflow
        else Ok (be_bytes 32 v, w, set_allow caller spender v T, [approval_log token caller spender v]))
  | OpSetPrice _ v =>
      if two256 <=? v then Err ErrUint256Overflow
      else if bool_decide (caller ≠ t_creator T) then Err ErrIncorrectOwner
      else Ok (fb token, w, set_cost v T, [])
  | OpBuy _ _ =>
      if t_cost T =? 0 then Err ErrTokenIsNotForSale
      else if value <? t_cost T then Err ErrTooSmallTxValue
      else
        let amount := value / t_cost T in
        let price := amount * t_cost T in
        T' ← move20 (t_creator T) caller amount T;
        if GetBalance w caller <? price then Err ErrNotEnoughBalance
        else Ok (fb token, pay20 caller (t_creator T) price w, T', [transfer_log token (t_creator T) caller amount])
  | OpMint std _ _ _ | OpBurn std _ | OpSetApprovalForAll std _ _ => only20 std (Err ErrFieldNotFound)
  | _ => Ok ([], w, T, [])
  end.

(** ** The layout *)

Definition bytes_props (l : Z) : ValueProperties := ArrayProperties (ScalarProperties Uint8Type) l.
Definition word_props : ValueProperties := ScalarProperties Uint256Type.
Definition fds20 (n m : Z) : list fieldDescriptor :=
  [MkDescriptor StandardField (bytes_props 2); MkDescriptor NameField (bytes_props n);
   MkDescriptor SymbolField (bytes_props m); MkDescriptor BalancesField (MapProperties (bytes_props 20) word_props);
   MkDescriptor CreatorField (bytes_props 20); MkDescriptor DecimalsField (ScalarProperties Uint8Type);
   MkDescriptor TotalSupplyField word_props;
   MkDescriptor AllowancesField (MapProperties (bytes_props 32) word_props); MkDescriptor CostField word_props].

Definition head_size : nat := Eval vm_compute in length (head_bytes (fds20 0 0)).

Lemma length_head20 n m : length (head_bytes (fds20 n m)) = head_size.
Proof. reflexivity. Qed.

(** The fields, with their places. *)
Definition infos20 (n m : Z) : list FieldInfo :=
  place (Z.of_nat head_size) (fds20 n m) [2; n; m; 0; 20; 1; 32; 0; 32].

Lemma descriptors20 op : c_Std op = StdWRC20 →
  newFieldsDescriptors op = Ok (fds20 (Z.of_nat (length (c_name op))) (Z.of_nat (length (c_symbol op)))).
Proof. intros H. unfold newFieldsDescriptors. by rewrite H. Qed.

(** A length that a transaction can have. *)
Definition short (n : Z) : Prop := 0 ≤ n < 2 ^ 32.

Lemma bytes_length n : short n → calculateFieldLength (bytes_props n) = Ok n.
Proof.
  intros Hn. cbn [bytes_props calculateFieldLength]. change (b2z (type_Size Uint8Type)) with 1. cbn.
  rewrite Z.mul_1_r, u64_small; [done|unfold is_u64, two64, short in *; lia].
Qed.

Lemma signature20 n m : short n → short m → let sig := MkSignature signatureV1 (infos20 n m) in
  NewSignatureV1 (fds20 n m) = Ok sig ∧ sig_bytes sig = head_bytes (fds20 n m) ∧
  ∀ s, holds s 0 (head_bytes (fds20 n m)) → fetches ReadFromStream s (sig, Z.of_nat head_size).
Proof.
  intros Hn Hm. apply (Signature_place (fds20 n m) [2; n; m; 0; 20; 1; 32; 0; 32]).
  - unfold short in *. repeat constructor; cbn; unfold is_u64, two64; try lia; done.
  - cbn. lia.
  - unfold small. rewrite length_head20. done.
  - repeat constructor; by apply bytes_length.
  - unfold short in *. repeat constructor; lia.
  - rewrite length_head20. unfold short, zs_sum, head_size in *. cbn [foldr]. lia.
Qed.

(** The offsets of the fields. *)
Definition o_std : Z := Z.of_nat head_size.
Definition o_name : Z := o_std + 2.
Definition o_symbol (n : Z) : Z := o_name + n.
Definition o_balances (n m : Z) : Z := o_symbol n + m.
Definition o_creator (n m : Z) : Z := o_balances n m + 0.
Definition o_decimals (n m : Z) : Z := o_creator n m + 20.
Definition o_supply (n m : Z) : Z := o_decimals n m + 1.
Definition o_allowances (n m : Z) : Z := o_supply n m + 32.
Definition o_cost (n m : Z) : Z := o_allowances n m + 0.

(** The storage that an operation sees, with the offsets as variables. *)
Definition placed20 (n m o1 o2 o3 o4 o5 o6 o7 o8 o9 : Z) : list FieldInfo :=
  zip_with (λ fd '(o, l), MkFieldInfo fd (Some o) l) (fds20 n m)
    [(o1, 2); (o2, n); (o3, m); (o4, 0); (o5, 20); (o6, 1); (o7, 32); (o8, 0); (o9, 32)].

Definition fields_of (infos : list FieldInfo) : gmap bytes FieldEntry :=
  match fillFields (MkSignature signatureV1 infos) with Ok fs => fs | _ => ∅ end.

Definition storage20 (n m : Z) : storage :=
  MkStorage (MkSignature signatureV1 (infos20 n m)) (fields_of (infos20 n m)).

Definition field_at (name : bytes) (vp : ValueProperties) (off l : Z) (c : codec) : FieldEntry :=
  fieldEntry (MkFieldInfo (MkDescriptor name vp) (Some off) l) c.

Lemma infos_placed n m : infos20 n m = placed20 n m o_std o_name (o_symbol n) (o_balances n m) (o_creator n m)
  (o_decimals n m) (o_supply n m) (o_allowances n m) (o_cost n m).
Proof. reflexivity. Qed.

(** The fields at their offsets. *)
Record laid_out (n m o1 o2 o3 o5 o6 o7 o9 : Z) (infos : list FieldInfo) (fs : gmap bytes FieldEntry) : Prop := {
  f_fill : fillFields (MkSignature signatureV1 infos) = Ok fs;
  f_std : fs !! StandardField = Some (field_at StandardField (bytes_props 2) o1 2 ArrayCodec);
  f_name : fs !! NameField = Some (field_at NameField (bytes_props n) o2 n ArrayCodec);
  f_symbol : fs !! SymbolField = Some (field_at SymbolField (bytes_props m) o3 m ArrayCodec);
  f_balances : fs !! BalancesField = Some (mapEntry (MkByteMap BalancesField 20 32) ArrayCodec Uint256Codec);
  f_creator : fs !! CreatorField = Some (field_at CreatorField (bytes_props 20) o5 20 ArrayCodec);
  f_decimals : fs !! DecimalsField = Some (field_at DecimalsField (ScalarProperties Uint8Type) o6 1 ScalarCodec);
  f_supply : fs !! TotalSupplyField = Some (field_at TotalSupplyField word_props o7 32 Uint256Codec);
  f_allowances : fs !! AllowancesField = Some (mapEntry (MkByteMap AllowancesField 32 32) ArrayCodec Uint256Codec);
  f_cost : fs !! CostField = Some (field_at CostField word_props o9 32 Uint256Codec);
  f_minter : fs !! MinterField = None;
  f_operators : fs !! OperatorApprovalsField = None
}.

Lemma placed_fields n m o1 o2 o3 o4 o5 o6 o7 o8 o9 : let infos := placed20 n m o1 o2 o3 o4 o5 o6 o7 o8 o9 in
  laid_out n m o1 o2 o3 o5 o6 o7 o9 infos (fields_of infos).
Proof.
  intros infos. split; [|vm_compute; reflexivity..].
  assert (match fillFields (MkSignature signatureV1 infos) with Ok _ => true | _ => false end = true)
    as H by (vm_compute; reflexivity).
  unfold fields_of. by destruct (fillFields _).
Qed.

(** ** A token in a memory *)

(** The fields of the token in front of the price, in one piece. *)
Definition name_len (T : Token20) : Z := Z.of_nat (length (t_name T)).
Definition symbol_len (T : Token20) : Z := Z.of_nat (length (t_symbol T)).
Definition record20 (T : Token20) : bytes :=
  head_bytes (fds20 (name_len T) (symbol_len T)) ++ std_MarshalBinary StdWRC20 ++ t_name T ++ t_symbol T ++
  fb (t_creator T) ++ [z2b (t_decimals T)] ++ be_bytes 32 (t_supply T).

Definition cost_at (T : Token20) : Z := o_cost (name_len T) (symbol_len T).

Lemma length_record20 T : Z.of_nat (length (record20 T)) = cost_at T.
Proof.
  unfold record20. rewrite !length_app, length_head20, length_fb, length_be_bytes.
  unfold cost_at, o_cost, o_allowances, o_supply, o_decimals, o_creator, o_balances, o_symbol, o_name, o_std, name_len, symbol_len.
  change (length (std_MarshalBinary StdWRC20)) with 2%nat. cbn [length]. lia.
Qed.

Record typed20 (T : Token20) : Prop := {
  ty_name : short (name_len T);
  ty_symbol : short (symbol_len T);
  ty_decimals : 0 ≤ t_decimals T < 256;
  ty_supply : is_word (t_supply T);
  ty_cost : is_word (t_cost T);
  ty_bal : ∀ a, is_word (t_bal T a);
  ty_allow : ∀ a b, is_word (t_allow T a b)
}.

Section wrc20.
Context {HC : Crypto}.

Definition bal_off (a : Address) : Z := calculateOffset BalancesField (fb a).
Definition allow_off (a b : Address) : Z := calculateOffset AllowancesField (fb (keccak256 (fb a ++ fb b))).

(** The entries of the maps for the addresses of a list. *)
Definition entries (A : list Address) : list Z :=
  map bal_off A ++ map (λ '(a, b), allow_off a b) (list_prod A A).

(** The entries do not overlap, and lie behind the fields. *)
Definition apart (A : list Address) (T : Token20) : Prop :=
  NoDup (entries A) ∧ Forall (λ o, cost_at T + 32 ≤ o) (entries A).

Record rep20 (A : list Address) (T : Token20) (m : Z → byte) : Prop := {
  r_record : at_mem m 0 (record20 T);
  r_cost : at_mem m (cost_at T) (be_bytes 32 (t_cost T));
  r_bal : ∀ a, a ∈ A → at_mem m (bal_off a) (be_bytes 32 (t_bal T a));
  r_allow : ∀ a b, a ∈ A → b ∈ A → at_mem m (allow_off a b) (be_bytes 32 (t_allow T a b))
}.

Lemma map_key_inj {X Y} (f : X → Y) l a b : NoDup (map f l) → a ∈ l → b ∈ l → f a = f b → a = b.
Proof.
  intros Hnd (i & Hi)%list_elem_of_lookup (j & Hj)%list_elem_of_lookup He.
  assert (i = j) as <-; [|congruence]. eapply (NoDup_lookup (map f l)); [done|rewrite list_lookup_fmap, Hi; done|].
  rewrite list_lookup_fmap, Hj. cbn. by rewrite He.
Qed.

Lemma pair_in (A : list Address) a b : a ∈ A → b ∈ A → (a, b) ∈ list_prod A A.
Proof. rewrite !list_elem_of_In. intros Ha Hb. by apply in_prod. Qed.

Section apart.
Context (A : list Address) (T : Token20) (HA : apart A T).

Lemma bal_entry a : a ∈ A → bal_off a ∈ entries A.
Proof. intros Ha. apply elem_of_app. left. apply list_elem_of_fmap. eauto. Qed.

Lemma allow_entry a b : a ∈ A → b ∈ A → allow_off a b ∈ entries A.
Proof. intros Ha Hb. apply elem_of_app. right. apply list_elem_of_fmap. exists (a, b). auto using pair_in. Qed.

Lemma entry_behind o : o ∈ entries A → cost_at T + 32 ≤ o.
Proof. destruct HA as [_ Hf]. rewrite Forall_forall in Hf. apply Hf. Qed.

Lemma bal_inj a b : a ∈ A → b ∈ A → bal_off a = bal_off b → a = b.
Proof. destruct HA as [(Hnd & _ & _)%NoDup_app _]. by apply map_key_inj. Qed.

Lemma allow_inj a b c d : a ∈ A → b ∈ A → c ∈ A → d ∈ A → allow_off a b = allow_off c d → a = c ∧ b = d.
Proof.
  destruct HA as [(_ & _ & Hnd)%NoDup_app _]. intros Ha Hb Hc Hd He.
  enough ((a, b) = (c, d)) as [= -> ->] by done.
  eapply (map_key_inj (λ '(a, b), allow_off a b)); [exact Hnd|by apply pair_in..|exact He].
Qed.

Lemma bal_allow a b c : a ∈ A → b ∈ A → c ∈ A → bal_off a ≠ allow_off b c.
Proof.
  destruct HA as [(_ & Hd & _)%NoDup_app _]. intros Ha Hb Hc He. apply (Hd (bal_off a)).
  - apply list_elem_of_fmap. eauto.
  - rewrite He. apply list_elem_of_fmap. exists (b, c). auto using pair_in.
Qed.

Lemma entry_aligned o : o ∈ entries A → ∃ h, o = h * 32 ∧ 0 ≤ h < slots_number.
Proof.
  unfold entries. rewrite elem_of_app, !list_elem_of_fmap.
  intros [(a & -> & _)|([a b] & -> & _)]; eexists; (split; [reflexivity|apply offset_range]).
Qed.

Lemma entry_in o : o ∈ entries A → in_mem o 32.
Proof. intros (h & -> & Hh)%entry_aligned. by apply in_mem_slot. Qed.

(** A word written to an entry leaves the other entries alone. *)
Lemma entry_apart m o o' v b : o ∈ entries A → o' ∈ entries A → o ≠ o' → length b = 32%nat →
  at_mem m o' b → at_mem (write_mem o (be_bytes 32 v) m) o' b.
Proof.
  intros (h & -> & _)%entry_aligned (h' & -> & _)%entry_aligned Hne Hb. apply at_mem_apart.
  rewrite Hb, length_be_bytes. assert (h ≠ h') by congruence. lia.
Qed.

Lemma record_apart m o v : o ∈ entries A → at_mem m 0 (record20 T) → at_mem (write_mem o (be_bytes 32 v) m) 0 (record20 T).
Proof. intros Ho%entry_behind. apply at_mem_apart. rewrite length_record20. lia. Qed.

Lemma cost_apart m o v : o ∈ entries A → at_mem m (cost_at T) (be_bytes 32 (t_cost T)) →
  at_mem (write_mem o (be_bytes 32 v) m) (cost_at T) (be_bytes 32 (t_cost T)).
Proof. intros Ho%entry_behind. apply at_mem_apart. rewrite length_be_bytes. lia. Qed.

Lemma rep_set_bal a v m : a ∈ A → rep20 A T m → rep20 A (set_bal a v T) (write_mem (bal_off a) (be_bytes 32 v) m).
Proof.
  intros Ha [Hr Hc Hb Hl]. split; cbn [t_bal t_allow set_bal].
  - apply record_apart; auto using bal_entry.
  - apply cost_apart; auto using bal_entry.
  - intros b Hb'. case_decide as He; [subst; apply at_mem_write|].
    apply entry_apart; auto using bal_entry, length_be_bytes. intros Hoff. by apply He, bal_inj.
  - intros b c Hb' Hc'. apply entry_apart; auto using bal_entry, allow_entry, length_be_bytes, bal_allow.
Qed.

Lemma rep_set_allow a b v m : a ∈ A → b ∈ A → rep20 A T m →
  rep20 A (set_allow a b v T) (write_mem (allow_off a b) (be_bytes 32 v) m).
Proof.
  intros Ha Hb [Hr Hc Hbal Hl]. split; cbn [t_bal t_allow set_allow].
  - apply record_apart; auto using allow_entry.
  - apply cost_apart; auto using allow_entry.
  - intros c Hc'. apply entry_apart; auto using bal_entry, allow_entry, length_be_bytes. by apply not_eq_sym, bal_allow.
  - intros c d Hc' Hd. case_decide as He; [destruct He; subst; apply at_mem_write|].
    apply entry_apart; auto using allow_entry, length_be_bytes. intros [-> ->]%allow_inj; auto.
Qed.

Lemma rep_set_cost v m : rep20 A T m → rep20 A (set_cost v T) (write_mem (cost_at T) (be_bytes 32 v) m).
Proof.
  intros [Hr Hc Hb Hl]. split; cbn [t_bal t_allow t_cost set_cost].
  - apply at_mem_apart; [|done]. pose proof (length_record20 T). change (record20 (set_cost v T)) with (record20 T). lia.
  - apply at_mem_write.
  - intros a Ha. pose proof (entry_behind _ (bal_entry a Ha)). apply at_mem_apart; [rewrite !length_be_bytes; lia|auto].
  - intros a b Ha Hb'. pose proof (entry_behind _ (allow_entry a b Ha Hb')). apply at_mem_apart; [rewrite !length_be_bytes; lia|auto].
Qed.

Lemma cost_bound : typed20 T → 0 ≤ cost_at T < 2 ^ 40.
Proof.
  intros [Hn Hm]. unfold short, cost_at, o_cost, o_allowances, o_supply, o_decimals, o_creator, o_balances, o_symbol, o_name, o_std, head_size in *. lia.
Qed.

Lemma rep_has_mem s M : typed20 T → has_mem s M → rep20 A T M → rep20 A T (mem s).
Proof.
  intros Hty Hm [Hr Hc Hb Hl]. pose proof (cost_bound Hty). pose proof (length_record20 T).
  split; [| |intros a Ha|intros a b Ha Hb']; eapply has_mem_at; eauto; rewrite ?length_be_bytes.
  - unfold in_mem, mem_size, slots_number. lia.
  - unfold in_mem, mem_size, slots_number. lia.
  - auto using entry_in, bal_entry.
  - auto using entry_in, allow_entry.
Qed.
End apart.

(** ** Computations on the storage of a token *)

(** [uint256.FromBig] converts what fits, and reports what does not. *)
Class BigConvLaws {HB : BigConv} : Prop := {
  FromBig_fits z : 0 ≤ z < two256 → FromBig256 z = (z, false);
  FromBig_overflow z : two256 ≤ z → (FromBig256 z).2 = true
}.

Context {HB : BigConv} {HL : BigConvLaws}.

Lemma toUint256_fits z : is_word z → toUint256 z = Ok z.
Proof. intros Hz. unfold toUint256. by rewrite FromBig_fits. Qed.

Lemma toUint256_overflow z : two256 ≤ z → toUint256 z = Err ErrUint256Overflow.
Proof. intros Hz. unfold toUint256. pose proof (FromBig_overflow z Hz). destruct (FromBig256 z) as [v o]. cbn in *. by subst. Qed.

Context (A : list Address) (token : Address).

Record in20 (w : World) (T : Token20) (s : StorageStream) : Prop := {
  in_world : stateDb s = w;
  in_address : tokenAddress s = token;
  in_typed : typed20 T;
  in_apart : apart A T;
  in_rep : rep20 A T (mem s)
}.

(** What a computation does, seen from the abstract token. *)
Definition does {X} (m : stM StorageStream X) (w : World) (T : Token20) (r : go_res (X * World * Token20)) : Prop :=
  ∀ s, in20 w T s →
  match r with
  | Ok (a, w', T') => ∃ s', m s = (Ok a, s') ∧ in20 w' T' s'
  | Err e => (m s).1 = Err e
  | Panic => (m s).1 = Panic
  | NoFuel => (m s).1 = NoFuel
  end.

Lemma does_bind {X Y} (m : stM StorageStream X) (f : X → stM StorageStream Y) w T a w' T' r :
  does m w T (Ok (a, w', T')) → does (f a) w' T' r → does (m ≫= f) w T r.
Proof.
  intros Hm Hf s Hs. destruct (Hm s Hs) as (s1 & Hm1 & Hs1). specialize (Hf s1 Hs1).
  unfold mbind, stM_bind. rewrite Hm1. exact Hf.
Qed.

Lemma does_stop {X Y} (m : stM StorageStream X) (f : X → stM StorageStream Y) w T e :
  does m w T (Err e) → does (m ≫= f) w T (Err e).
Proof.
  intros Hm s Hs. specialize (Hm s Hs). unfold mbind, stM_bind. destruct (m s) as [r s1]. cbn in Hm. by subst r.
Qed.

Lemma does_mret {X} (a : X) w T : does (mret a) w T (Ok (a, w, T)).
Proof. intros s Hs. by exists s. Qed.

Lemma does_liftR {X} (r : go_res X) w T : does (liftR r) w T (a ← r; Ok (a, w, T)).
Proof. intros s Hs. destruct r; cbn; eauto. Qed.

Lemma does_guard b e w T : does (guard b e) w T (if b : bool then Err e else Ok (tt, w, T)).
Proof. intros s Hs. destruct b; cbn; eauto. Qed.

Lemma does_pass e w T : does (guard false e) w T (Ok (tt, w, T)).
Proof. apply (does_guard false). Qed.

Lemma does_fetch {X} (m : stM StorageStream X) a w T : (∀ s, in20 w T s → fetches m s a) → does m w T (Ok (a, w, T)).
Proof.
  intros Hm s Hs. destruct (Hm s Hs) as (s' & Hr & [Hw Ht] & Hmem). exists s'. split; [done|].
  destruct Hs. split; try congruence; try done. by eapply rep_has_mem.
Qed.

Lemma does_store {X} (m : stM StorageStream X) a w T T' : (∀ s, in20 w T s → ∃ M, stores m s a M ∧ rep20 A T' M) →
  (typed20 T → typed20 T') → (apart A T → apart A T') → does m w T (Ok (a, w, T')).
Proof.
  intros Hm Hty Hap s Hs. destruct (Hm s Hs) as (M & (s' & Hr & [Hw Ht] & Hmem) & Hrep). exists s'. split; [done|].
  destruct Hs. split; try congruence; auto. eapply rep_has_mem; eauto.
Qed.

(** *** The entries and fields *)

Definition st20 (T : Token20) : storage := storage20 (name_len T) (symbol_len T).

Lemma fields20 T : let n := name_len T in let m := symbol_len T in
  laid_out n m o_std o_name (o_symbol n) (o_creator n m) (o_decimals n m) (o_supply n m) (cost_at T)
    (infos20 n m) (fields (st20 T)).
Proof. cbn zeta. unfold st20, storage20, cost_at. cbn [fields]. rewrite infos_placed. apply placed_fields. Qed.

Lemma balances20 T : map_field (st20 T) BalancesField 20 32 ArrayCodec Uint256Codec.
Proof. split; [eapply f_balances, fields20|lia]. Qed.

Lemma allowances20 T : map_field (st20 T) AllowancesField 32 32 ArrayCodec Uint256Codec.
Proof. split; [eapply f_allowances, fields20|lia]. Qed.

Lemma encode_bytes b : encode ArrayCodec (GBytes (Some b)) = Ok (Some b).
Proof. done. Qed.

(** A word of a map is read. *)
Lemma fetch_word st name ksize kb s v : map_field st name ksize 32 ArrayCodec Uint256Codec → Z.of_nat (length kb) ≤ ksize →
  is_word v → at_mem (mem s) (calculateOffset name kb) (be_bytes 32 v) →
  fetches (read_uint256 st name (GBytes (Some kb))) s v.
Proof.
  intros Hf Hk Hv Hat. unfold at_mem in Hat. rewrite length_be_bytes in Hat.
  eapply (fetches_bind _ _ _ (GUint256 v)); [|intros s' _; by apply fetches_liftR].
  eapply read_at_map; [done|apply encode_bytes|done|]. change (Z.to_nat 32) with 32%nat. rewrite Hat. by apply decode_word.
Qed.

Lemma does_read_bal a w T : a ∈ A → does (read_uint256 (st20 T) BalancesField (addr_key a)) w T (Ok (t_bal T a, w, T)).
Proof.
  intros Ha. apply does_fetch. intros s [_ _ Hty _ Hr].
  eapply fetch_word; [apply balances20|rewrite length_fb; lia|apply Hty|by apply (r_bal _ _ _ Hr)].
Qed.

Lemma does_read_allow a b w T : a ∈ A → b ∈ A →
  does (read_uint256 (st20 T) AllowancesField (pair_key a b)) w T (Ok (t_allow T a b, w, T)).
Proof.
  intros Ha Hb. apply does_fetch. intros s [_ _ Hty _ Hr].
  eapply fetch_word; [apply allowances20|rewrite length_fb; lia|apply Hty|by apply (r_allow _ _ _ Hr)].
Qed.

Lemma typed_set_bal a v T : is_word v → typed20 T → typed20 (set_bal a v T).
Proof. intros Hv []. split; cbn; auto. intros b. by case_decide. Qed.

Lemma typed_set_allow a b v T : is_word v → typed20 T → typed20 (set_allow a b v T).
Proof. intros Hv []. split; cbn; auto. intros c d. by case_decide. Qed.

Lemma typed_set_cost v T : is_word v → typed20 T → typed20 (set_cost v T).
Proof. intros Hv []. split; cbn; auto. Qed.

Lemma does_write_bal a v w T : a ∈ A → is_word v →
  does (writeToMap (st20 T) BalancesField (addr_key a) (GUint256 v)) w T (Ok (tt, w, set_bal a v T)).
Proof.
  intros Ha Hv. apply does_store; [|by apply typed_set_bal|done]. intros s [_ _ Hty Hap Hr]. eexists. split.
  - eapply write_at_map; [apply balances20|apply encode_bytes|rewrite length_fb; lia|apply encode_word|rewrite length_be_bytes; lia].
  - by apply (rep_set_bal A T Hap).
Qed.

Lemma does_write_allow a b v w T : a ∈ A → b ∈ A → is_word v →
  does (writeToMap (st20 T) AllowancesField (pair_key a b) (GUint256 v)) w T (Ok (tt, w, set_allow a b v T)).
Proof.
  intros Ha Hb Hv. apply does_store; [|by apply typed_set_allow|done]. intros s [_ _ Hty Hap Hr]. eexists. split.
  - eapply write_at_map; [apply allowances20|apply encode_bytes|rewrite length_fb; lia|apply encode_word|rewrite length_be_bytes; lia].
  - by apply (rep_set_allow A T Hap).
Qed.

Lemma cost_in_mem T : typed20 T → in_mem (cost_at T) 32.
Proof. intros Hty. pose proof (cost_bound T Hty). unfold in_mem, mem_size, slots_number. lia. Qed.

Lemma does_write_cost v w T : is_word v →
  does (WriteField (st20 T) CostField (SVal (GUint256 v))) w T (Ok (tt, w, set_cost v T)).
Proof.
  intros Hv. apply does_store; [|by apply typed_set_cost|done]. intros s [_ _ Hty Hap Hr]. eexists. split.
  - eapply write_at_field; [eapply f_cost, fields20|reflexivity|apply encode_word|by rewrite length_be_bytes|].
    rewrite length_be_bytes. by apply cost_in_mem.
  - by apply (rep_set_cost A T Hap).
Qed.

Lemma does_cost_field w T : does (ReadField (st20 T) CostField (TPtr uint256_ptr)) w T (Ok (GUint256 (t_cost T), w, T)).
Proof.
  apply does_fetch. intros s [_ _ Hty Hap Hr].
  eapply read_at_field; [eapply f_cost, fields20|reflexivity|done|by apply cost_in_mem|].
  pose proof (r_cost _ _ _ Hr) as Hc. unfold at_mem in Hc. rewrite length_be_bytes in Hc. cbn [fi_length].
  change (Z.to_nat 32) with 32%nat. rewrite Hc. apply decode_word, Hty.
Qed.

(** The record as its fields. *)
Lemma record_fields T m : at_mem m 0 (record20 T) ↔
  at_mem m 0 (head_bytes (fds20 (name_len T) (symbol_len T))) ∧ at_mem m o_std (std_MarshalBinary StdWRC20) ∧
  at_mem m o_name (t_name T) ∧ at_mem m (o_symbol (name_len T)) (t_symbol T) ∧
  at_mem m (o_creator (name_len T) (symbol_len T)) (fb (t_creator T)) ∧
  at_mem m (o_decimals (name_len T) (symbol_len T)) [z2b (t_decimals T)] ∧
  at_mem m (o_supply (name_len T) (symbol_len T)) (be_bytes 32 (t_supply T)).
Proof.
  unfold record20. rewrite !at_mem_app, length_head20, length_fb.
  change (length (std_MarshalBinary StdWRC20)) with 2%nat. change (length [z2b (t_decimals T)]) with 1%nat.
  unfold o_supply, o_decimals, o_creator, o_balances, o_symbol, o_name, o_std, name_len, symbol_len.
  rewrite Z.add_0_l, !Z.add_0_r. done.
Qed.

(** A field of bytes is read. *)
Lemma fetch_field st name vp off l b s : fields st !! name = Some (field_at name vp off l ArrayCodec) →
  l = Z.of_nat (length b) → short l → 0 ≤ off < 2 ^ 40 → at_mem (mem s) off b →
  fetches (ReadField st name (TPtr PBytes)) s (GBytes (Some b)).
Proof.
  intros Hf -> Hl Ho Hat. unfold short in Hl.
  eapply read_at_field; [exact Hf|reflexivity|cbn; unfold maxAlloc; lia|cbn; unfold in_mem, mem_size, slots_number; lia|].
  cbn [fi_length]. rewrite Nat2Z.id. unfold at_mem in Hat. by rewrite Hat.
Qed.

Lemma offsets_bound T : typed20 T → 0 ≤ o_std < 2 ^ 40 ∧ 0 ≤ o_creator (name_len T) (symbol_len T) < 2 ^ 40.
Proof.
  intros [Hn Hm]. unfold short, o_creator, o_balances, o_symbol, o_name, o_std, head_size in *. lia.
Qed.

Lemma does_read_creator w T : does (readAddress (st20 T) CreatorField) w T (Ok (t_creator T, w, T)).
Proof.
  apply does_fetch. intros s [_ _ Hty _ Hr]. apply r_record, record_fields in Hr as (_ & _ & _ & _ & Hc & _).
  fetch_step ltac:(eapply (fetch_field _ _ _ _ _ (fb (t_creator T)));
    [eapply f_creator, fields20|by rewrite length_fb|done|by apply offsets_bound|done]).
  fetch_step ltac:(by apply fetches_liftR). eapply fetches_eq; [apply BytesToFixed_fb|apply fetches_mret].
Qed.

Lemma std_in_mem : in_mem o_std 2.
Proof. split; vm_compute; congruence. Qed.

Lemma does_open w T : Exist w token = true → does (newStorageWithoutStdCheck token) w T (Ok ((st20 T, StdWRC20), w, T)).
Proof.
  intros Hex. apply does_fetch. intros s [Hw Ht Hty _ Hr].
  apply r_record, record_fields in Hr as (Hh & Hstd & _). unfold newStorageWithoutStdCheck. apply fetches_getS.
  rewrite Hw, Hex. fetch_step ltac:(by apply fetches_liftR).
  destruct (signature20 (name_len T) (symbol_len T) (ty_name _ Hty) (ty_symbol _ Hty)) as (_ & _ & Hread).
  assert (holds s 0 (head_bytes (fds20 (name_len T) (symbol_len T)))) as Hhold.
  { split; [|done]. rewrite length_head20. unfold in_mem, mem_size, slots_number, head_size. lia. }
  rewrite Hs in Hhold. assert (at_mem (mem s0) o_std (std_MarshalBinary StdWRC20)) as Hstd0.
  { eapply has_mem_at; [apply Hs|exact std_in_mem|done]. }
  fetch_step ltac:(unfold ReadStorage; fetch_step ltac:(by apply Hread);
    fetch_step ltac:(apply fetches_liftR; eapply f_fill, (fields20 T)); apply fetches_mret).
  fold (st20 T).
  fetch_step ltac:(eapply (fetch_field _ _ _ _ _ (std_MarshalBinary StdWRC20));
    [eapply f_std, fields20|done|done|by eapply offsets_bound|eapply has_mem_at; [apply Hs0|exact std_in_mem|done]]).
  fetch_step ltac:(by apply fetches_liftR). fetch_step ltac:(by apply fetches_liftR).
  fetch_step ltac:(by apply fetches_liftR). apply fetches_mret.
Qed.

(** *** Moving and spending *)

Ltac does_step tac := eapply does_bind; [tac|]; cbv beta iota.

Lemma does_uint256 z w T : 0 ≤ z →
  does (liftR (toUint256 z)) w T (if two256 <=? z then Err ErrUint256Overflow else Ok (z, w, T)).
Proof.
  intros Hz s Hs. destruct (Z.leb_spec two256 z); [by rewrite toUint256_overflow|]. rewrite toUint256_fits by done. by exists s.
Qed.

Lemma does_move from to v w T : from ∈ A → to ∈ A → 0 ≤ v → typed20 T →
  does (move (st20 T) from to v) w T (T' ← move20 from to v T; Ok (tt, w, T')).
Proof.
  intros Hf Ht Hv Hty. unfold move, move20. does_step ltac:(by apply does_read_bal).
  pose proof (ty_bal T Hty from) as Hb. unfold is_word in Hb. pose proof (does_guard (t_bal T from <? v) ErrNotEnoughBalance w T) as Hg.
  destruct (Z.ltb_spec (t_bal T from) v); [by apply does_stop|]. does_step ltac:(exact Hg). clear Hg.
  pose proof (does_uint256 (t_bal T from - v) w T ltac:(lia)) as Hu. destruct (Z.leb_spec two256 (t_bal T from - v)); [lia|].
  assert (is_word (t_bal T from - v)) as Hw by (unfold is_word; lia).
  does_step ltac:(exact Hu). clear Hu. does_step ltac:(by apply does_write_bal).
  set (T1 := set_bal from (t_bal T from - v) T). assert (typed20 T1) as Hty1 by (by apply typed_set_bal).
  change (st20 T) with (st20 T1). does_step ltac:(by apply does_read_bal).
  pose proof (ty_bal T1 Hty1 to) as Hb1. unfold is_word in Hb1. pose proof (does_uint256 (t_bal T1 to + v) w T1 ltac:(lia)) as Hu.
  destruct (Z.leb_spec two256 (t_bal T1 to + v)); [by apply does_stop|]. does_step ltac:(exact Hu).
  apply does_write_bal; [done|unfold is_word; lia].
Qed.

Lemma does_spend owner spender v w T : owner ∈ A → spender ∈ A → 0 ≤ v → typed20 T →
  does (wrc20SpendAllowance (st20 T) owner spender v) w T (T' ← spend20 owner spender v T; Ok (tt, w, T')).
Proof.
  intros Ho Hs Hv Hty. unfold wrc20SpendAllowance, spend20. does_step ltac:(by apply does_read_allow).
  pose proof (ty_allow T Hty owner spender) as Hb. unfold is_word in Hb.
  pose proof (does_guard (t_allow T owner spender <? v) ErrInsufficientAllowance w T) as Hg.
  destruct (Z.ltb_spec (t_allow T owner spender) v); [by apply does_stop|]. does_step ltac:(exact Hg).
  rewrite FromBig_fits by lia. cbn [fst]. apply does_write_allow; [done|done|unfold is_word; lia].
Qed.

(** ** Operations *)

Context {HR : MapRange}.

Definition add_logs (ls : list Log) (w : World) : World := foldl (λ w l, AddLog l w) w ls.

(** What an operation does, once it has flushed the stream. *)
Definition concludes (m : stM StorageStream bytes) (w : World) (T : Token20)
    (r : go_res (bytes * World * Token20 * list Log)) : Prop :=
  ∀ s, in20 w T s →
  match r with
  | Ok (ret, w', T', ls) => ∃ s' slots, m s = (Ok ret, s') ∧ stateDb s' = add_logs ls (store_slots token slots w') ∧
      in20 (stateDb s') T' (NewStorageStream token (stateDb s'))
  | Err e => (m s).1 = Err e
  | Panic => (m s).1 = Panic
  | NoFuel => (m s).1 = NoFuel
  end.

Lemma concludes_bind {X} (m : stM StorageStream X) (f : X → stM StorageStream bytes) w T a w' T' r :
  does m w T (Ok (a, w', T')) → concludes (f a) w' T' r → concludes (m ≫= f) w T r.
Proof.
  intros Hm Hf s Hs. destruct (Hm s Hs) as (s1 & Hm1 & Hs1). specialize (Hf s1 Hs1).
  unfold mbind, stM_bind. rewrite Hm1. exact Hf.
Qed.

Lemma concludes_stop {X} (m : stM StorageStream X) (f : X → stM StorageStream bytes) w T e :
  does m w T (Err e) → concludes (m ≫= f) w T (Err e).
Proof. apply does_stop. Qed.

Lemma GetState_add_logs ls w a k : GetState (add_logs ls w) a k = GetState w a k.
Proof. unfold add_logs. revert w. induction ls as [|l ls IH]; intros w; cbn; [done|]. by rewrite IH. Qed.

Lemma mem_world w w' a i : (∀ k, GetState w' a k = GetState w a k) →
  mem (NewStorageStream a w') i = mem (NewStorageStream a w) i.
Proof. intros H. unfold mem, slot_at, NewStorageStream. cbn. by rewrite H. Qed.

Lemma concludes_flush (k : stM StorageStream bytes) ret ls w T :
  (∀ s, k s = (Ok ret, set_stateDb (add_logs ls (stateDb s)) s)) →
  concludes (modify Flush ≫= λ _, k) w T (Ok (ret, w, T, ls)).
Proof.
  intros Hk s [Hw Ht Hty Hap Hr]. eexists _, (range (bufferedSlots s)). rewrite modify_bind, Hk. split; [done|].
  cbn [stateDb set_stateDb]. split; [by rewrite <- Hw, <- Ht|]. split; [done|done|done|done|].
  apply (rep_has_mem A T _ (mem s)); [done| |done]. intros i Hi. 
  rewrite (mem_world (stateDb (Flush s))) by (intros; apply GetState_add_logs). rewrite <- Ht. apply mem_Flush.
Qed.

(** The events. *)
Lemma TransferWrc20_log {X} from to v (a : X) s : is_word v →
  (TransferWrc20 token from to v ≫= λ _, mret a) s = (Ok a, set_stateDb (add_logs [transfer_log token from to v] (stateDb s)) s).
Proof. intros Hv. unfold TransferWrc20. by rewrite FillBytes_Ok. Qed.

Lemma ApprovalWrc20_log {X} owner spender v (a : X) s : is_word v →
  (ApprovalWrc20 token owner spender v ≫= λ _, mret a) s = (Ok a, set_stateDb (add_logs [approval_log token owner spender v] (stateDb s)) s).
Proof. intros Hv. unfold ApprovalWrc20. by rewrite FillBytes_Ok. Qed.

Lemma does_newStorage std w T : Exist w token = true → does (newStorage token std) w T
  (if std =? StdWRC20 then Ok (st20 T, w, T) else Err ErrTokenOpStandardNotValid).
Proof.
  intros Hex. unfold newStorage. eapply does_bind; [by apply does_open|]. cbv beta iota.
  pose proof (does_guard (negb (StdWRC20 =? std)) ErrTokenOpStandardNotValid w T) as Hg. rewrite (Z.eqb_sym std).
  destruct (StdWRC20 =? std); cbn [negb] in Hg; [|by apply does_stop]. eapply does_bind; [exact Hg|apply does_mret].
Qed.

(** What an operation does to the world. *)
Definition handles (m : stM World bytes) (w : World) (r : go_res (bytes * World * Token20 * list Log)) : Prop :=
  match r with
  | Ok (ret, w', T', ls) => ∃ slots, let w2 := add_logs ls (store_slots token slots w') in
      m w = (Ok ret, w2) ∧ in20 w2 T' (NewStorageStream token w2)
  | Err e => (m w).1 = Err e
  | Panic => (m w).1 = Panic
  | NoFuel => (m w).1 = NoFuel
  end.

Lemma handles_stream m w T r : in20 w T (NewStorageStream token w) → concludes m w T r → handles (on_stream token m) w r.
Proof.
  intros Hin Hm. specialize (Hm _ Hin). unfold handles, on_stream. 
  destruct r as [[[[ret w'] T'] ls]|e| |]; [|by destruct (m (NewStorageStream token w)); cbn in *; subst..].
  destruct Hm as (s' & slots & -> & Hw & Hs). exists slots. cbv zeta. rewrite <- Hw. done.
Qed.

Section operations.
Context (caller : Address) (w : World) (T : Token20).
Hypotheses (Hin : in20 w T (NewStorageStream token w)) (Hex : Exist w token = true) (Hno : no_address token = false)
  (Hcaller : caller ∈ A).

Ltac conc_step tac := eapply concludes_bind; [tac|]; cbv beta iota.
Ltac opened std := apply (handles_stream _ _ T); [done|];
  try (unfold no_token; rewrite Hno; conc_step ltac:(apply does_pass));
  pose proof (does_newStorage std w T Hex) as Hopen; unfold only20;
  destruct (Z.eqb_spec std StdWRC20) as [->|]; [conc_step ltac:(exact Hopen); clear Hopen|by apply concludes_stop].

Let Hty : typed20 T := in_typed _ _ _ Hin.

Lemma move20_word from to v T' T1 : typed20 T1 → 0 ≤ v → move20 from to v T1 = Ok T' → is_word v ∧ typed20 T'.
Proof.
  intros Hty1 Hv. pose proof (ty_bal T1 Hty1 from) as Hb. unfold move20, is_word in *.
  destruct (Z.ltb_spec (t_bal T1 from) v); [done|]. set (T2 := set_bal from _ T1).
  assert (typed20 T2) as Hty2 by (apply typed_set_bal; [unfold is_word; lia|done]). pose proof (ty_bal T2 Hty2 to) as Hb2.
  destruct (Z.leb_spec two256 (t_bal T2 to + v)); [done|].
  intros HT. assert (T' = set_bal to (t_bal T2 to + v) T2) as -> by congruence. split; [lia|].
  apply typed_set_bal; [unfold is_word in *; lia|done].
Qed.

Lemma move20_result from to v T1 : (∃ T', move20 from to v T1 = Ok T') ∨ ∃ e, move20 from to v T1 = Err e.
Proof. unfold move20. repeat case_match; eauto. Qed.

Lemma transfer_handles std to v value : to ∈ A → 0 ≤ v →
  handles (transfer caller token std to v) w (step20 token caller value (OpTransfer std to v) w T).
Proof.
  intros Hto Hv. cbn [step20]. opened std. change (StdWRC20 =? StdWRC20) with true. cbv iota.
  pose proof (does_move caller to v w T Hcaller Hto Hv Hty) as Hm.
  destruct (move20_result caller to v T) as [(T' & HT)|(e & HT)]; rewrite HT in Hm |- *; [|by apply concludes_stop].
  destruct (move20_word _ _ _ _ _ Hty Hv HT) as [Hw _]. conc_step ltac:(exact Hm).
  apply concludes_flush. intros s. rewrite FillBytes_Ok, liftR_Ok_bind by done. by apply TransferWrc20_log.
Qed.

Lemma spend20_result owner spender v T1 : typed20 T1 → 0 ≤ v →
  (∃ T', spend20 owner spender v T1 = Ok T' ∧ typed20 T') ∨ ∃ e, spend20 owner spender v T1 = Err e.
Proof.
  intros Hty1 Hv. pose proof (ty_allow T1 Hty1 owner spender) as Ha. unfold spend20, is_word in *.
  destruct (Z.ltb_spec (t_allow T1 owner spender) v); [eauto|]. left. eexists. split; [done|].
  apply typed_set_allow; [unfold is_word; lia|done].
Qed.

Lemma transferFrom_handles std from to v value : from ∈ A → to ∈ A → 0 ≤ v →
  handles (transferFrom caller token std from to v) w (step20 token caller value (OpTransferFrom std from to v) w T).
Proof.
  intros Hfrom Hto Hv. cbn [step20]. opened std. change (StdWRC20 =? StdWRC20) with true. cbv iota.
  pose proof (does_spend from caller v w T Hfrom Hcaller Hv Hty) as Hs.
  destruct (spend20_result from caller v T Hty Hv) as [(T1 & HT1 & Hty1)|(e & HT)];
    [rewrite HT1 in Hs |- *|rewrite HT in Hs |- *; by apply concludes_stop, does_stop].
  assert (st20 T1 = st20 T) as Hst by (revert HT1; unfold spend20; case_match; [done|by intros [= <-]]).
  pose proof (does_move from to v w T1 Hfrom Hto Hv Hty1) as Hm. rewrite Hst in Hm.
  change (T1 ← Ok T1; T' ← move20 from to v T1; Ok (be_bytes 32 v, w, T', [transfer_log token from to v]))
    with (T' ← move20 from to v T1; Ok (be_bytes 32 v, w, T', [transfer_log token from to v])).
  destruct (move20_result from to v T1) as [(T' & HT)|(e & HT)]; rewrite HT in Hm |- *.
  - destruct (move20_word _ _ _ _ _ Hty1 Hv HT) as [Hw _].
    conc_step ltac:(eapply does_bind; [exact Hs|]; eapply does_bind; [exact Hm|apply does_mret]).
    apply concludes_flush. intros s. rewrite FillBytes_Ok, liftR_Ok_bind by done. by apply TransferWrc20_log.
  - apply concludes_stop. eapply does_bind; [exact Hs|]. by apply does_stop.
Qed.

Lemma approve_handles std spender v value : spender ∈ A → 0 ≤ v →
  handles (approve caller token std spender v) w (step20 token caller value (OpApprove std spender v) w T).
Proof.
  intros Hsp Hv. cbn [step20]. opened std. change (StdWRC20 =? StdWRC20) with true. cbv iota.
  pose proof (does_uint256 v w T Hv) as Hu. destruct (Z.leb_spec two256 v); [by apply concludes_stop, does_stop|].
  assert (is_word v) as Hw by done.
  conc_step ltac:(eapply does_bind; [exact Hu|]; eapply does_bind; [by apply does_write_allow|apply does_mret]).
  apply concludes_flush. intros s. rewrite FillBytes_Ok, liftR_Ok_bind by done. by apply ApprovalWrc20_log.
Qed.

(** The fields of the other standard are not there. *)
Lemma does_missing {X} (m : stM StorageStream X) : (∀ s, (m s).1 = Err ErrFieldNotFound) → does m w T (Err ErrFieldNotFound).
Proof. intros H s _. apply H. Qed.

Lemma minter_missing s : (readAddress (st20 T) MinterField s).1 = Err ErrFieldNotFound.
Proof. unfold readAddress, ReadField. by rewrite (f_minter _ _ _ _ _ _ _ _ _ _ _ (fields20 T)). Qed.

Lemma mint_handles std to id metadata value :
  handles (mint caller token std to id metadata) w (step20 token caller value (OpMint std to id metadata) w T).
Proof. cbn [step20]. opened std. apply concludes_stop, does_missing, minter_missing. Qed.

Lemma burn_handles std id value : handles (burn caller token std id) w (step20 token caller value (OpBurn std id) w T).
Proof. cbn [step20]. opened std. apply concludes_stop, does_missing, minter_missing. Qed.

Lemma approval_handles std operator b value :
  handles (setApprovalForAll caller token std operator b) w (step20 token caller value (OpSetApprovalForAll std operator b) w T).
Proof.
  cbn [step20]. opened std. apply concludes_stop, does_missing. intros s. unfold writeToMap, WriteField.
  by rewrite (f_operators _ _ _ _ _ _ _ _ _ _ _ (fields20 T)).
Qed.

Lemma setPrice_handles id v value : 0 ≤ v →
  handles (setPrice caller token id v) w (step20 token caller value (OpSetPrice id v) w T).
Proof.
  intros Hv. cbn [step20]. apply (handles_stream _ _ T); [done|]. conc_step ltac:(by apply does_open).
  pose proof (does_uint256 v w T Hv) as Hu. destruct (Z.leb_spec two256 v); [by apply concludes_stop|].
  conc_step ltac:(exact Hu). change (StdWRC20 =? StdWRC20) with true. cbv iota. assert (is_word v) as Hw by done.
  pose proof (does_guard (bool_decide (caller ≠ t_creator T)) ErrIncorrectOwner w T) as Hg.
  destruct (bool_decide (caller ≠ t_creator T)) eqn:Hb.
  - apply concludes_stop. eapply does_bind; [apply does_read_creator|]. rewrite Hb. by apply does_stop.
  - conc_step ltac:(eapply does_bind; [apply does_read_creator|]; rewrite Hb; eapply does_bind; [exact Hg|by apply does_write_cost]).
    apply concludes_flush. by intros [].
Qed.

Lemma does_getS {X} (f : StorageStream → stM StorageStream X) w1 T1 r :
  (∀ s, stateDb s = w1 → does (f s) w1 T1 r) → does (getS ≫= f) w1 T1 r.
Proof. intros Hf s Hs. by apply (Hf s (in_world _ _ _ Hs)). Qed.

Lemma does_change f w1 T1 : (∀ k, GetState (f w1) token k = GetState w1 token k) →
  does (change_state f) w1 T1 (Ok (tt, f w1, T1)).
Proof.
  intros Hf s [Hw Ht Hty1 Hap Hr]. eexists. split; [reflexivity|]. split; cbn; [by rewrite Hw|done|done|done|].
  apply (rep_has_mem A T1 _ (mem s)); [done| |done]. intros i _. unfold mem, slot_at. cbn. by rewrite Ht, Hw, Hf.
Qed.

Lemma does_payment seller price w1 T1 : 0 < price →
  does (makePayment (st20 T) caller seller price 0) w1 T1
    (if GetBalance w1 caller <? price then Err ErrNotEnoughBalance else Ok (tt, pay20 caller seller price w1, T1)).
Proof.
  intros Hp. apply does_getS. intros s ->.
  pose proof (does_guard (GetBalance w1 caller <? price) ErrNotEnoughBalance w1 T1) as Hg.
  destruct (GetBalance w1 caller <? price); [by apply does_stop|]. does_step ltac:(exact Hg).
  destruct (Z.eqb_spec price 0); [lia|]. change (0 <? 0) with false. cbv iota. does_step ltac:(apply does_mret).
  Transparent AddBalance SubBalance.
  assert (∀ g w2 k, (∀ x, acc_storage (g x) = acc_storage x) → ∀ a, GetState (update_account g a w2) token k = GetState w2 token k) as Hst.
  { intros g w2 k Hg' a. unfold GetState. rewrite account_update. case_decide; [subst; by rewrite Hg'|done]. }
  unfold pay20. does_step ltac:(apply does_change; intros k; by apply Hst).
  apply (does_change (AddBalance seller price)). intros k. by apply Hst.
  Opaque AddBalance SubBalance.
Qed.

Lemma buy_handles id newCost value : t_creator T ∈ A →
  handles (buy caller value token id newCost) w (step20 token caller value (OpBuy id newCost) w T).
Proof.
  intros Hcr. cbn [step20]. apply (handles_stream _ _ T); [done|]. conc_step ltac:(by apply does_open).
  change (StdWRC20 =? StdWRC20) with true. cbv iota. pose proof (ty_cost T Hty) as Hc. unfold is_word in Hc.
  assert (∀ r, does (_ ← guard (t_cost T =? 0) ErrTokenIsNotForSale; _ ← guard (value <? t_cost T) ErrTooSmallTxValue;
      mret (t_creator T, (value - value mod t_cost T) / t_cost T, value - value mod t_cost T)) w T r →
    does (buy20 (st20 T) value) w T r) as Hbuy.
  { intros r Hr. eapply does_bind; [apply does_read_creator|]. eapply does_bind; [apply does_cost_field|].
    eapply does_bind; [apply (does_liftR (Ok (t_cost T)))|exact Hr]. }
  destruct (Z.eqb_spec (t_cost T) 0) as [He|He].
  { apply concludes_stop, does_stop, Hbuy, does_stop. apply (does_guard true). }
  destruct (Z.ltb_spec value (t_cost T)) as [Hl|Hl].
  { apply concludes_stop, does_stop, Hbuy. eapply does_bind; [apply does_pass|]. apply does_stop, (does_guard true). }
  set (amount := value / t_cost T). pose proof (Z.div_mod value (t_cost T) He) as Hdm. fold amount in Hdm.
  assert (value - value mod t_cost T = amount * t_cost T) as Hprice by lia.
  rewrite Hprice, Z.div_mul in Hbuy by done.
  conc_step ltac:(eapply does_bind; [apply Hbuy; do 2 (eapply does_bind; [apply does_pass|]); apply does_mret|apply does_mret]).
  assert (0 < amount) as Ha by (apply Z.div_str_pos; lia).
  pose proof (does_move (t_creator T) caller amount w T Hcr Hcaller ltac:(lia) Hty) as Hm.
  destruct (move20_result (t_creator T) caller amount T) as [(T' & HT)|(e & HT)]; rewrite HT in Hm |- *; [|by apply concludes_stop].
  assert (0 ≤ amount) as Ha0 by lia. destruct (move20_word _ _ _ _ _ Hty Ha0 HT) as [Hw _]. conc_step ltac:(exact Hm).
  pose proof (does_payment (t_creator T) (amount * t_cost T) w T' ltac:(nia)) as Hpay.
  rewrite Ok_bind.
  destruct (GetBalance w caller <? amount * t_cost T); [by apply concludes_stop|]. conc_step ltac:(exact Hpay).
  apply concludes_flush. intros s. by apply TransferWrc20_log.
Qed.
End operations.

(** ** The processor implements the abstract token *)

Definition participants (op : TokenOp) : list Address :=
  match op with
  | OpTransfer _ to _ => [to]
  | OpTransferFrom _ from to _ | OpSafeTransferFrom _ from to _ _ => [from; to]
  | OpApprove _ spender _ => [spender]
  | _ => []
  end.

Definition op_amount (op : TokenOp) : Z :=
  match op with
  | OpTransfer _ _ v | OpTransferFrom _ _ _ v | OpSafeTransferFrom _ _ _ v _ | OpApprove _ _ v | OpSetPrice _ v => v
  | _ => 0
  end.

Definition creates (op : TokenOp) : bool := match op with OpCreate _ => true | _ => false end.

(** A call among the addresses of the list; amounts are decoded from RLP and not negative. *)
Definition use20 (creator caller : Address) (op : TokenOp) : Prop :=
  creates op = false ∧ Forall (λ a, a ∈ A) (caller :: creator :: participants op) ∧ 0 ≤ op_amount op.

(** The account holds the token. *)
Record token20 (w : World) (T : Token20) : Prop := {
  tk_exist : Exist w token = true;
  tk_address : no_address token = false;
  tk_in : in20 w T (NewStorageStream token w)
}.

Lemma step20_handles caller value op w T : token20 w T → use20 (t_creator T) caller op →
  handles (token_handle caller token value op) w (step20 token caller value op w T).
Proof.
  intros [Hex Hno Hin] (Hcr & Hall & Hv). rewrite !Forall_cons in Hall. destruct Hall as (Hc & Hcr' & Hp).
  destruct op; cbn [token_handle participants op_amount] in *; rewrite ?Forall_cons in Hp; try done;
    try (exists []; split; [done|exact Hin]).
  - apply approve_handles; naive_solver.
  - apply transfer_handles; naive_solver.
  - apply transferFrom_handles; naive_solver.
  - apply transferFrom_handles; naive_solver.
  - by apply approval_handles.
  - by apply mint_handles.
  - by apply burn_handles.
  - by apply setPrice_handles.
  - by apply buy_handles.
Qed.

Lemma step20_result caller value op w T : (∃ x, step20 token caller value op w T = Ok x) ∨ ∃ e, step20 token caller value op w T = Err e.
Proof.
  assert (∀ from to v T, (∃ T', move20 from to v T = Ok T') ∨ ∃ e, move20 from to v T = Err e) as Hm by apply move20_result.
  assert (∀ o c v T, (∃ T', spend20 o c v T = Ok T') ∨ ∃ e, spend20 o c v T = Err e) as Hs.
  { intros o c v T1. unfold spend20. case_match; eauto. }
  destruct op; cbn [step20]; unfold only20; repeat match goal with
    | |- context [move20 ?a ?b ?c ?d ≫= _] => destruct (Hm a b c d) as [[? ->]|[? ->]]; cbn [mbind go_res_bind]
    | |- context [spend20 ?a ?b ?c ?d ≫= _] => destruct (Hs a b c d) as [[? ->]|[? ->]]; cbn [mbind go_res_bind]
    | |- context [if ?b then _ else _] => destruct b
    end; eauto.
Qed.

Lemma Exist_update f a b w : Exist w a = true → Exist (update_account f b w) a = true.
Proof.
  unfold Exist. rewrite !bool_decide_eq_true. intros Hx. cbn [update_account accounts set_accounts].
  destruct (decide (b = a)) as [->|]; [rewrite lookup_insert_eq; eauto|by rewrite lookup_insert_ne].
Qed.

Lemma Exist_store_slots a b slots w : Exist w a = true → Exist (store_slots b slots w) a = true.
Proof.
  unfold store_slots. revert w. induction slots as [|[k v] l IH]; intros w Hx; cbn [foldl]; [done|]. by apply IH, Exist_update.
Qed.

Lemma Exist_add_logs ls w a : Exist (add_logs ls w) a = Exist w a.
Proof. unfold add_logs. revert w. induction ls as [|l ls IH]; intros w; cbn; [done|]. by rewrite IH. Qed.

Lemma step20_exist caller value op w T ret w' T' ls : Exist w token = true →
  step20 token caller value op w T = Ok (ret, w', T', ls) → Exist w' token = true.
Proof.
  intros Hx Hstep. destruct op; cbn [step20] in Hstep; unfold only20 in Hstep; repeat case_match; try done;
    go_inv; try done; simplify_eq; try done.
  Transparent AddBalance SubBalance. by do 2 apply Exist_update. Opaque AddBalance SubBalance.
Qed.

Lemma token20_nonce a n w T : token20 w T → token20 (SetNonce a n w) T.
Proof.
  intros [Hx Hno [_ _ Hty Hap Hr]]. Transparent SetNonce. split; [by apply Exist_update|done|]. split; [done|done|done|done|].
  apply (rep_has_mem A T _ (mem (NewStorageStream token w))); [done| |done]. intros i _. apply mem_world. intros k.
  unfold SetNonce, GetState. rewrite account_update. case_decide; [by subst|done]. Opaque SetNonce.
Qed.

Definition counted (caller : Address) (w : World) : World := SetNonce caller (u64 (GetNonce w caller + 1)) w.

Lemma call_handle caller value op w : creates op = false →
  TokenProcessor_Call caller token value op w = revertOnError (token_handle caller token value op) (counted caller w).
Proof. by destruct op. Qed.

Lemma call20 caller value op w T : token20 w T → use20 (t_creator T) caller op →
  match step20 token caller value op (counted caller w) T with
  | Ok (ret, w2, T', ls) => ∃ slots, let w' := add_logs ls (store_slots token slots w2) in
      TokenProcessor_Call caller token value op w = (Ok ret, w') ∧ token20 w' T'
  | Err e => TokenProcessor_Call caller token value op w = (Err e, counted caller w)
  | _ => False
  end.
Proof.
  intros Htk Huse. rewrite call_handle by apply Huse. unfold revertOnError. set (w1 := counted caller w).
  assert (token20 w1 T) as Htk1 by (by apply token20_nonce). pose proof (step20_handles caller value op w1 T Htk1 Huse) as Hh.
  unfold handles in Hh. destruct (step20_result caller value op w1 T) as [([[[ret w2] T'] ls] & Hstep)|(e & Hstep)]; rewrite Hstep in Hh |- *.
  - destruct Hh as (slots & Hm & Hin). exists slots. cbv zeta in *. rewrite Hm. split; [done|]. split; [|apply Htk|done].
    rewrite Exist_add_logs. eapply Exist_store_slots, step20_exist; [apply Htk1|exact Hstep].
  - destruct (token_handle caller token value op w1) as [r w']. cbn in Hh. by subst r.
Qed.

(** ** The supply *)

Definition total20 (T : Token20) : Z := zs_sum (map (t_bal T) A).

Lemma zs_sum_set (f : Address → Z) a v l : NoDup l → a ∈ l →
  zs_sum (map (λ x, if decide (x = a) then v else f x) l) = zs_sum (map f l) - f a + v.
Proof.
  unfold zs_sum. induction 1 as [|x l Hx Hnd IH]; intros Ha; [by apply elem_of_nil in Ha|]. cbn [map foldr].
  case_decide as He.
  - subst x. rewrite (map_ext_in _ f l); [lia|]. intros y Hy. rewrite decide_False; [done|].
    intros ->. by apply Hx, list_elem_of_In.
  - apply elem_of_cons in Ha as [->|Ha]; [done|]. rewrite IH by done. lia.
Qed.

Lemma apart_NoDup T : apart A T → NoDup A.
Proof. intros [(H & _)%NoDup_app _]. by apply NoDup_fmap_1 in H. Qed.

(** What all operations keep. *)
Definition kept20 (T T' : Token20) : Prop :=
  total20 T' = total20 T ∧ t_name T' = t_name T ∧ t_symbol T' = t_symbol T ∧ t_creator T' = t_creator T ∧
  t_decimals T' = t_decimals T ∧ t_supply T' = t_supply T.

Lemma move20_kept from to v T T' : NoDup A → from ∈ A → to ∈ A → move20 from to v T = Ok T' → kept20 T T'.
Proof.
  intros Hnd Hf Ht. unfold move20. case_match; [done|]. set (T1 := set_bal from (t_bal T from - v) T). case_match; [done|].
  intros HT. assert (T' = set_bal to (t_bal T1 to + v) T1) as -> by congruence. split; [|done].
  unfold total20. cbn [t_bal set_bal]. rewrite zs_sum_set by done.
  unfold T1. cbn [t_bal set_bal]. rewrite zs_sum_set by done. lia.
Qed.

Lemma spend20_kept owner spender v T T' : spend20 owner spender v T = Ok T' → kept20 T T'.
Proof. unfold spend20. case_match; [done|]. by intros [= <-]. Qed.

#[local] Instance kept20_trans : Transitive kept20.
Proof. intros T1 T2 T3. unfold kept20. naive_solver congruence. Qed.

Lemma step20_kept caller value op w T ret w' T' ls : NoDup A → use20 (t_creator T) caller op →
  step20 token caller value op w T = Ok (ret, w', T', ls) → kept20 T T'.
Proof.
  intros Hnd (_ & Hall & _) Hstep. rewrite !Forall_cons in Hall. destruct Hall as (Hc & Hcr & Hp).
  destruct op; cbn [step20 participants op_amount] in *; unfold only20 in Hstep; rewrite ?Forall_cons in Hp;
    repeat case_match; try done; go_inv; simplify_eq; try done;
    repeat match goal with H : spend20 _ _ _ _ = Ok _ |- _ => apply spend20_kept in H end;
    repeat match goal with H : move20 _ _ _ _ = Ok _ |- _ => apply move20_kept in H; [|naive_solver..] end; by try etrans.
Qed.

(** A call, and what it leaves. *)
Lemma call20_kept caller value op w T : token20 w T → use20 (t_creator T) caller op →
  ∃ T', token20 (TokenProcessor_Call caller token value op w).2 T' ∧ kept20 T T'.
Proof.
  intros Htk Huse. pose proof (call20 caller value op w T Htk Huse) as Hc. pose proof (apart_NoDup T (in_apart _ _ _ (tk_in _ _ Htk))) as Hnd.
  destruct (step20 token caller value op (counted caller w) T) as [[[[ret w2] T'] ls]|e| |] eqn:Hstep; [| |done..].
  - destruct Hc as (slots & -> & Htk'). exists T'. split; [done|]. by eapply step20_kept.
  - rewrite Hc. exists T. split; [by apply token20_nonce|done].
Qed.

Definition run_calls (calls : list (Address * Z * TokenOp)) (w : World) : World :=
  foldl (λ w '(caller, value, op), (TokenProcessor_Call caller token value op w).2) w calls.

Lemma run_kept calls w T : token20 w T → Forall (λ '(caller, _, op), use20 (t_creator T) caller op) calls →
  ∃ T', token20 (run_calls calls w) T' ∧ kept20 T T'.
Proof.
  intros Htk Hall. revert w T Htk Hall. induction calls as [|[[caller value] op] calls IH]; intros w T Htk Hall; [by exists T|].
  apply Forall_cons in Hall as [Huse Hall]. destruct (call20_kept caller value op w T Htk Huse) as (T1 & Htk1 & Hk1).
  assert (t_creator T1 = t_creator T) as Hcr by apply Hk1.
  destruct (IH _ T1 Htk1) as (T2 & Htk2 & Hk2); [by rewrite Hcr|]. exists T2. split; [exact Htk2|by etrans].
Qed.

(** What the query of a balance answers. *)
Lemma balance_query a w T : token20 w T → a ∈ A → (BalanceOf token a w).1 = Ok (t_bal T a).
Proof.
  intros [Hx _ Hin] Ha. unfold BalanceOf, on_stream.
  assert (does ('(st, standard) ← newStorageWithoutStdCheck token;
    if (standard =? StdWRC20) || (standard =? StdWRC721) then read_uint256 st BalancesField (addr_key a)
    else liftR (Err ErrTokenOpStandardNotValid)) w T (Ok (t_bal T a, w, T))) as Hd.
  { eapply does_bind; [by apply does_open|]. by apply does_read_bal. }
  destruct (Hd _ Hin) as (s' & -> & _). done.
Qed.

End wrc20.
