(* ===== verification/Wrc20Life.v ===== *)
(** * The life of a fungible token

    A WRC-20 token from its creation on: what the creation leaves in the account, and that the
    balances add up to the supply whatever calls follow. *)

From Stdlib Require Import ZArith Lia Strings.Byte.
From stdpp Require Import base tactics option numbers list gmap strings.
From S2P Require Import Prelude Common GoMap World ValProcessor Evm Machine TokenOps TokenStream TokenSig TokenStorage Token TokenFacts TokenMem Wrc20.

(** ** Writing to a memory *)

Definition write_all (l : list (Z * bytes)) (m : Z → byte) : Z → byte := foldl (λ m '(o, b), write_mem o b m) m l.

(** The computation returns [a] and makes the writes, on every stream. *)
Definition puts {X} (m : stM StorageStream X) (a : X) (l : list (Z * bytes)) : Prop :=
  ∀ s, stores m s a (write_all l (mem s)).

Lemma write_all_ext l m m' i : m i = m' i → write_all l m i = write_all l m' i.
Proof.
  unfold write_all. revert m m'. induction l as [|[o b] l IH]; intros m m' Hm; cbn [foldl]; [done|].
  by apply IH, write_mem_ext.
Qed.

Lemma puts_bind {X Y} (m : stM StorageStream X) (f : X → stM StorageStream Y) a b l1 l2 :
  puts m a l1 → puts (f a) b l2 → puts (m ≫= f) b (l1 ++ l2).
Proof.
  intros Hm Hf s. destruct (Hm s) as (s1 & Hm1 & [Hw1 Ht1] & Hmem1). destruct (Hf s1) as (s2 & Hm2 & [Hw2 Ht2] & Hmem2).
  exists s2. unfold mbind, stM_bind. rewrite Hm1. split; [done|]. split; [split; congruence|].
  intros i Hi. rewrite Hmem2 by done. unfold write_all. rewrite foldl_app. by apply write_all_ext, Hmem1.
Qed.

Lemma puts_mret {X} (a : X) : puts (mret a) a [].
Proof. intros s. by exists s. Qed.

Lemma puts_liftR {X} (r : go_res X) a : r = Ok a → puts (liftR r) a [].
Proof. intros -> s. by exists s. Qed.

(** The computation makes the writes and goes on as [k]. *)
Definition reaches {X} (m : stM StorageStream X) (l : list (Z * bytes)) (k : stM StorageStream X) : Prop :=
  ∀ s, ∃ s1, m s = k s1 ∧ same_but_mem s s1 ∧ has_mem s1 (write_all l (mem s)).

Lemma reaches_refl {X} (m : stM StorageStream X) : reaches m [] m.
Proof. intros s. by exists s. Qed.

Lemma reaches_bind {X Y} (m : stM StorageStream X) (f : X → stM StorageStream Y) a l1 l2 k :
  puts m a l1 → reaches (f a) l2 k → reaches (m ≫= f) (l1 ++ l2) k.
Proof.
  intros Hm Hf s. destruct (Hm s) as (s1 & Hm1 & [Hw1 Ht1] & Hmem1). destruct (Hf s1) as (s2 & Hm2 & [Hw2 Ht2] & Hmem2).
  exists s2. unfold mbind, stM_bind. rewrite Hm1. split; [done|]. split; [split; congruence|].
  intros i Hi. rewrite Hmem2 by done. unfold write_all. rewrite foldl_app. by apply write_all_ext, Hmem1.
Qed.

(** Writes one after the other. *)
Lemma write_all_app off b c l m i : write_all ((off, b) :: (off + Z.of_nat (length b), c) :: l) m i = write_all ((off, b ++ c) :: l) m i.
Proof. unfold write_all. cbn [foldl]. symmetry. apply (write_all_ext l), write_mem_app. Qed.

Lemma at_mem_zero m off n : (∀ i, off ≤ i < off + Z.of_nat n → m i = x00) → bytes_at m off n = replicate n x00.
Proof.
  intros H. apply list_eq. intros j. destruct (decide (j < n)%nat) as [Hj|Hj].
  - rewrite lookup_bytes_at, lookup_replicate_2 by done. rewrite H by lia. done.
  - rewrite !lookup_ge_None_2; [done|rewrite length_replicate; lia|rewrite length_bytes_at; lia].
Qed.

(** ** The creation *)

(** The parameters that the processor makes a WRC-20 token from. *)
Definition makes20 (c : createOperation) : Prop :=
  c_Std c = StdWRC20 ∧ short (Z.of_nat (length (c_name c))) ∧ short (Z.of_nat (length (c_symbol c))) ∧
  0 ≤ c_decimals c < 256 ∧ ∃ v, c_totalSupply c = Some v ∧ is_word v.

(** The token without balances, and with the supply given to the creator. *)
Definition blank20 (caller : Address) (c : createOperation) : Token20 :=
  MkToken20 (c_name c) (c_symbol c) caller (c_decimals c) (default 0 (c_totalSupply c)) 0 (λ _, 0) (λ _ _, 0).
Definition new20 (caller : Address) (c : createOperation) : Token20 :=
  set_bal caller (default 0 (c_totalSupply c)) (blank20 caller c).

Section creation.
Context {HC : Crypto} {HR : MapRange} {HB : BigConv} {HL : BigConvLaws}.
Context (A : list Address) (token caller : Address) (c : createOperation).
Hypotheses (Hc : makes20 c) (Hap : apart A (blank20 caller c)) (Hin : caller ∈ A).

Notation T0 := (blank20 caller c).
Notation supply := (default 0 (c_totalSupply c)).

Lemma blank_typed : typed20 T0.
Proof.
  destruct Hc as (_ & Hn & Hm & Hd & v & Hv & Hw). split; cbn; rewrite ?Hv; try done; intros; unfold is_word; vm_compute; intuition congruence.
Qed.

Lemma supply_word : is_word supply.
Proof. apply (ty_supply _ blank_typed). Qed.

Lemma puts_field name vp off l cd v b : fields (st20 T0) !! name = Some (field_at name vp off l cd) →
  encode cd v = Ok (Some b) → l = Z.of_nat (length b) → 0 ≤ off → off + l ≤ cost_at T0 →
  puts (WriteField (st20 T0) name (SVal v)) tt [(off, b)].
Proof.
  intros Hf He Hl Ho Hend s. pose proof (cost_bound T0 blank_typed). unfold write_all. cbn [foldl].
  eapply write_at_field; [exact Hf|reflexivity|exact He|cbn; lia|unfold in_mem, mem_size, slots_number; lia].
Qed.

Lemma puts_storage : puts (NewStorage (fds20 (name_len T0) (symbol_len T0))) (st20 T0)
  [(0, head_bytes (fds20 (name_len T0) (symbol_len T0)))].
Proof.
  pose proof blank_typed as Hty. destruct (signature20 _ _ (ty_name _ Hty) (ty_symbol _ Hty)) as (Hnew & Hb & _).
  unfold NewStorage. eapply (puts_bind _ _ _ _ []); [by apply puts_liftR|]. 
  eapply (puts_bind _ _ _ _ [_] []).
  - intros s. unfold WriteToStream. rewrite Hb. apply WriteAt_Ok. rewrite length_head20.
    unfold in_mem, mem_size, slots_number, head_size. lia.
  - eapply (puts_bind _ _ _ _ [] []); [apply puts_liftR; eapply f_fill, (fields20 T0)|apply puts_mret].
Qed.

(** The fields in the order of their writing. *)
Definition writes20 : list (Z * bytes) :=
  let n := name_len T0 in let m := symbol_len T0 in
  [(0, head_bytes (fds20 n m)); (o_std, std_MarshalBinary StdWRC20); (o_name, c_name c); (o_symbol n, c_symbol c);
   (o_creator n m, fb caller); (o_decimals n m, [z2b (c_decimals c)]); (o_supply n m, be_bytes 32 supply)].

Lemma writes20_record m i : write_all writes20 m i = write_mem 0 (record20 T0) m i.
Proof.
  assert (∀ l off b o' c', o' = off + Z.of_nat (length b) →
    write_all ((off, b) :: (o', c') :: l) m i = write_all ((off, b ++ c') :: l) m i) as Hone.
  { intros l off b o' c' ->. apply write_all_app. }
  unfold writes20. cbv zeta. rewrite Hone; [|by rewrite length_head20].
  do 5 (rewrite Hone; [|rewrite ?length_app, length_head20, ?length_fb;
    unfold o_supply, o_decimals, o_creator, o_balances, o_symbol, o_name, o_std, name_len, symbol_len;
    change (length (std_MarshalBinary StdWRC20)) with 2%nat; cbn [length t_name t_symbol blank20]; lia]).
  unfold write_all, record20. cbn [foldl]. by rewrite <- !app_assoc.
Qed.

(** The part of [tokenCreate] that works on the stream. *)
Definition creation_program : stM StorageStream bytes :=
    st ← NewStorage (fds20 (name_len T0) (symbol_len T0));
    _ ← WriteField st StandardField (SVal (GBytes (Some (std_MarshalBinary (c_Std c)))));
    _ ← WriteField st NameField (SVal (GBytes (Some (c_name c))));
    _ ← WriteField st SymbolField (SVal (GBytes (Some (c_symbol c))));
    event ← (if c_Std c =? StdWRC20 then create20 caller token c st
             else if c_Std c =? StdWRC721 then create721 caller token c st
             else liftR (Err ErrStandardNotValid));
    _ ← modify Flush;
    _ ← event;
    mret (fb token).

Ltac place_lia := unfold o_supply, o_decimals, o_creator, o_balances, o_symbol, o_name in *; lia.

Lemma creation_body : reaches creation_program (writes20 ++ [(bal_off caller, be_bytes 32 supply)])
  (_ ← modify Flush; _ ← TransferWrc20 token (zero_fixed 20) caller supply; mret (fb token)).
Proof.
  unfold creation_program. destruct Hc as (Hstd & Hn & Hm & Hd & v & Hv & Hw). pose proof (fields20 T0) as HF.
  assert (0 ≤ name_len T0 ∧ 0 ≤ symbol_len T0) as [Hn0 Hm0] by (unfold name_len, symbol_len; lia).
  assert (∀ x, x = cost_at T0 → x = o_std + 2 + name_len T0 + symbol_len T0 + 20 + 1 + 32) as Hcost.
  { intros x ->. unfold cost_at, o_cost, o_allowances, o_supply, o_decimals, o_creator, o_balances, o_symbol, o_name. lia. }
  specialize (Hcost _ eq_refl). assert (0 ≤ o_std) as Hstd0 by done. rewrite Hstd. change (StdWRC20 =? StdWRC20) with true. cbv iota.
  unfold writes20. cbv zeta. cbn [app].
  eapply (reaches_bind _ _ _ [_] (_ :: _)); [apply puts_storage|].
  eapply (reaches_bind _ _ _ [_] (_ :: _)); [eapply puts_field; [eapply f_std, HF|done|done|lia|lia]|].
  eapply (reaches_bind _ _ _ [_] (_ :: _)); [eapply puts_field; [eapply f_name, HF|done|done|place_lia..]|].
  eapply (reaches_bind _ _ _ [_] (_ :: _)); [eapply puts_field; [eapply f_symbol, HF|done|done|place_lia..]|].
  eapply (reaches_bind _ _ _ [_; _; _; _] []); [|apply reaches_refl]. unfold create20.
  eapply (puts_bind _ _ _ _ [_] (_ :: _)); [eapply puts_field; [eapply f_creator, HF|apply encode_address|by rewrite length_fb|place_lia..]|].
  eapply (puts_bind _ _ _ _ [_] (_ :: _)); [eapply puts_field; [eapply f_decimals, HF|done|done|place_lia..]|].
  rewrite Hv. eapply (puts_bind _ _ _ _ [] _); [by apply puts_liftR|].
  eapply (puts_bind _ _ _ _ [] _); [apply puts_liftR; by apply toUint256_fits|].
  eapply (puts_bind _ _ _ _ [_] (_ :: _)); [eapply puts_field; [eapply f_supply, HF|apply encode_word|by rewrite length_be_bytes|place_lia..]|].
  eapply (puts_bind _ _ _ _ [_] []); [|apply puts_mret]. intros s.
  eapply write_at_map; [apply balances20|apply encode_bytes|rewrite length_fb; lia|apply encode_word|rewrite length_be_bytes; lia].
Qed.

Lemma zero_word m off : (∀ i, m i = x00) → at_mem m off (be_bytes 32 0).
Proof. intros Hz. unfold at_mem. rewrite length_be_bytes, at_mem_zero by done. reflexivity. Qed.

Lemma blank_rep m : (∀ i, m i = x00) → rep20 A T0 (write_mem 0 (record20 T0) m).
Proof.
  intros Hz. pose proof (length_record20 T0) as Hl.
  assert (∀ o, o ∈ entries A → at_mem (write_mem 0 (record20 T0) m) o (be_bytes 32 0)) as He.
  { intros o Ho%(entry_behind A T0 Hap). apply at_mem_apart; [lia|by apply zero_word]. }
  split; cbn [t_bal t_allow t_cost blank20].
  - apply at_mem_write.
  - apply at_mem_apart; [lia|by apply zero_word].
  - intros a Ha. by apply He, bal_entry.
  - intros a b Ha Hb. by apply He, allow_entry.
Qed.

Lemma mem_fresh w i : (∀ k, GetState w token k = zero_fixed 32) → mem (NewStorageStream token w) i = x00.
Proof.
  intros Hz. unfold mem, slot_at, NewStorageStream. cbn [stateDb tokenAddress bufferedSlots]. rewrite lookup_empty. cbn [default].
  rewrite Hz. change (fb (zero_fixed 32)) with (replicate 32 x00). destruct (replicate 32 x00 !! _) eqn:Hl; [|done]. by apply lookup_replicate in Hl as [-> _].
Qed.

(** What the creation leaves. *)
Lemma creation_stream w : (∀ k, GetState w token k = zero_fixed 32) → ∃ slots,
  let w' := add_logs [transfer_log token (zero_fixed 20) caller supply] (store_slots token slots w) in
  on_stream token creation_program w = (Ok (fb token), w') ∧ in20 A token w' (new20 caller c) (NewStorageStream token w').
Proof.
  intros Hz. destruct (creation_body (NewStorageStream token w)) as (s1 & Hrun & [Hw Ht] & Hmem).
  assert (in20 A token w (new20 caller c) s1) as Hs1.
  { split; [done|done|apply typed_set_bal; [apply supply_word|apply blank_typed]|done|].
    eapply rep_has_mem; [apply typed_set_bal; [apply supply_word|apply blank_typed]| |
      apply (rep_set_bal A T0 Hap caller supply (write_mem 0 (record20 T0) (mem (NewStorageStream token w))) Hin), blank_rep; intros i; by apply mem_fresh].
    intros i Hi. rewrite Hmem by done. unfold write_all. rewrite foldl_app. cbn [foldl]. apply write_mem_ext, writes20_record. }
  pose proof (concludes_flush A token (_ ← TransferWrc20 token (zero_fixed 20) caller supply; mret (fb token)) (fb token)
    [transfer_log token (zero_fixed 20) caller supply] w (new20 caller c)) as Hfl.
  destruct (Hfl (λ s, TransferWrc20_log token (zero_fixed 20) caller supply (fb token) s supply_word) s1 Hs1) as (s2 & slots & Hk & Hw2 & Hin2).
  exists slots. unfold on_stream. rewrite Hrun, Hk. cbv zeta. rewrite <- Hw2. done.
Qed.

(** An account that was not there. *)
Lemma missing_account w : Exist w token = false → GetNonce w token = 0 ∧ GetBalance w token = 0.
Proof.
  unfold Exist. rewrite bool_decide_eq_false, <- eq_None_not_Some. intros Hx. Transparent GetNonce GetBalance.
  unfold GetNonce, GetBalance, account. by rewrite Hx. Opaque GetNonce GetBalance.
Qed.

Lemma created w value : token = CreateAddress caller (GetNonce w caller) → caller ≠ token → Exist w token = false →
  no_address token = false → ∃ slots,
  let w' := add_logs [transfer_log token (zero_fixed 20) caller supply]
    (store_slots token slots (SetNonce token 1 (CreateAccount token (counted caller w)))) in
  TokenProcessor_Call caller (zero_fixed 20) value (OpCreate c) w = (Ok (fb token), w') ∧ token20 A token w' (new20 caller c).
Proof.
  intros Htok Hne Hx Hno. set (w1 := SetNonce token 1 (CreateAccount token (counted caller w))).
  assert (∀ k, GetState w1 token k = zero_fixed 32) as Hz.
  { intros k. Transparent SetNonce. unfold w1, SetNonce, GetState. rewrite account_update, decide_True by done. Opaque SetNonce.
    unfold CreateAccount, account. cbn. by rewrite lookup_insert_eq. }
  destruct (creation_stream w1 Hz) as (slots & Hrun & Hin').
  exists slots. cbv zeta in *. split.
  - unfold TokenProcessor_Call. rewrite getS_bind. change (no_address (zero_fixed 20)) with true. cbn [negb].
    rewrite <- Htok, Hx.
    enough (tokenCreate caller token c (counted caller w) = (Ok (fb token),
      add_logs [transfer_log token (zero_fixed 20) caller supply] (store_slots token slots w1))) as Hcr.
    { change (revertOnError (tokenCreate caller token c) (counted caller w) = (Ok (fb token),
      add_logs [transfer_log token (zero_fixed 20) caller supply] (store_slots token slots w1))). unfold revertOnError. by rewrite Hcr. }
    unfold tokenCreate. rewrite getS_bind. unfold counted at 1. rewrite GetNonce_SetNonce, decide_False by done.
    rewrite (proj1 (missing_account w Hx)). unfold guard. cbn [Z.eqb negb fail_if]. rewrite liftR_Ok_bind, !modify_bind.
    rewrite descriptors20 by apply Hc. rewrite liftR_Ok_bind. exact Hrun.
  - split; [|done|exact Hin']. rewrite Exist_add_logs. apply Exist_store_slots. Transparent SetNonce. unfold w1, SetNonce.
    unfold Exist, update_account. cbn [accounts set_accounts]. rewrite lookup_insert_eq. by apply bool_decide_eq_true. Opaque SetNonce.
Qed.
End creation.

(** ** Theorems *)

Section theorems.
Context {HC : Crypto} {HR : MapRange} {HB : BigConv} {HL : BigConvLaws}.

(** C6: a call of the processor does to the storage of a WRC-20 token what the abstract token does: it
    returns what [step20] returns, and leaves the account with the new abstract token; the rest of the
    world sees the counted nonce, the payment of [OpBuy] and the events of [step20]. When [step20] is
    an error the call is that error, and only the nonce is counted. *)
Theorem wrc20_refines A token caller value op w T : token20 A token w T → use20 A (t_creator T) caller op →
  match step20 token caller value op (counted caller w) T with
  | Ok (ret, w2, T', ls) => ∃ slots, let w' := add_logs ls (store_slots token slots w2) in
      TokenProcessor_Call caller token value op w = (Ok ret, w') ∧ token20 A token w' T'
  | Err e => TokenProcessor_Call caller token value op w = (Err e, counted caller w)
  | _ => False
  end.
Proof. apply call20. Qed.

(** C11: from the creation of a WRC-20 token on, whatever calls follow among a list of addresses whose
    entries do not collide: the query for a balance answers for each of them, and the balances add up
    to the supply that the token was created with. *)
Theorem wrc20_supply A caller value c w calls : let token := CreateAddress caller (GetNonce w caller) in
  makes20 c → apart A (blank20 caller c) → caller ∈ A → caller ≠ token → Exist w token = false → no_address token = false →
  Forall (λ '(from, _, op), use20 A caller from op) calls →
  let w' := run_calls token calls (TokenProcessor_Call caller (zero_fixed 20) value (OpCreate c) w).2 in
  ∃ bal, (∀ a, a ∈ A → (BalanceOf token a w').1 = Ok (bal a)) ∧ Some (zs_sum (map bal A)) = c_totalSupply c.
Proof.
  intros token Hc Hap Hin Hne Hx Hno Hall. destruct (created A token caller c Hc Hap Hin w value eq_refl Hne Hx Hno) as (slots & -> & Htk).
  destruct (run_kept A token calls _ _ Htk Hall) as (T' & Htk' & Hk). exists (t_bal T'). split; [intros a; by apply balance_query|].
  fold (total20 A T'). destruct Hk as [-> _], Hc as (_ & _ & _ & _ & v & Hv & _). unfold total20, new20. cbn [t_bal set_bal blank20].
  rewrite zs_sum_set, Hv; [|by eapply apart_NoDup|done]. cbn [default]. f_equal. unfold id.
  assert (∀ l : list Address, zs_sum (map (λ _, 0) l) = 0) as -> by (intros l; unfold zs_sum; induction l; cbn; lia). lia.
Qed.
End theorems.

(** ** Witnesses *)

Definition plain_hash : Crypto := {| keccak256 := λ b, BytesToHash b |}.
Definition plain_conv : BigConv := {| FromBig256 := λ z, (z mod two256, two256 <=? Z.abs z) |}.
#[local] Existing Instances plain_hash plain_conv list_range.

#[local] Instance plain_conv_laws : BigConvLaws.
Proof.
  split.
  - intros z Hz. cbn. rewrite Z.mod_small, Z.abs_eq by lia. f_equal. apply Z.leb_gt. lia.
  - intros z Hz. cbn. apply Z.leb_le. unfold two256 in *. lia.
Qed.

Definition maker : Address := BytesToAddress [x11].
Definition holder : Address := BytesToAddress [x22].
Definition sample_token : Address := CreateAddress maker 0.

Lemma sample_apart : apart [maker; holder] (blank20 maker sample_create).
Proof. split; apply (bool_decide_unpack _); vm_compute; exact I. Qed.

Lemma sample_makes : makes20 sample_create.
Proof.
  split; [done|]. split; [by apply (bool_decide_unpack _)|]. split; [by apply (bool_decide_unpack _)|]. split; [done|].
  exists 1000000. by split.
Qed.

Definition sample_made : World := (TokenProcessor_Call maker (zero_fixed 20) 0 (OpCreate sample_create) empty_world).2.

Lemma wrc20_refines_witness :
  ∃ w', TokenProcessor_Call maker sample_token 0 (OpTransfer StdWRC20 holder 5) sample_made = (Ok (be_bytes 32 5), w') ∧
    (BalanceOf sample_token holder w').1 = Ok 5.
Proof.
  assert (holder ∈ [maker; holder]) as Hh by set_solver. assert (maker ∈ [maker; holder]) as Hm by set_solver.
  destruct (created [maker; holder] sample_token maker sample_create sample_makes sample_apart Hm empty_world 0)
    as (slots & Hcr & Htk); [reflexivity|vm_compute; congruence|reflexivity|reflexivity|].
  assert (token20 [maker; holder] sample_token sample_made (new20 maker sample_create)) as Htk' by (unfold sample_made; by rewrite Hcr).
  destruct (wrc20_refines [maker; holder] sample_token maker 0 (OpTransfer StdWRC20 holder 5) sample_made (new20 maker sample_create) Htk')
    as (slots' & Hcall & Htk2).
  - split_and!; [done|by repeat constructor|done].
  - refine (ex_intro _ _ (conj Hcall (eq_trans (balance_query [maker; holder] _ holder _ _ Htk2 Hh) _))). vm_compute. reflexivity.
Defined.

(** The maker approves and sends, the holder spends more than it may, and buys what is not for sale. *)
Definition sample_calls : list (Address * Z * TokenOp) :=
  [(maker, 0, OpTransfer StdWRC20 holder 5); (maker, 0, OpApprove StdWRC20 holder 7);
   (holder, 0, OpTransferFrom StdWRC20 maker holder 9); (holder, 100, OpBuy None None)].

Lemma wrc20_supply_witness :
  ∃ bal, (∀ a, a ∈ [maker; holder] →
      (BalanceOf sample_token a (run_calls sample_token sample_calls sample_made)).1 = Ok (bal a)) ∧
    Some (zs_sum (map bal [maker; holder])) = Some 1000000.
Proof.
  apply (wrc20_supply [maker; holder] maker 0 sample_create empty_world sample_calls).
  - exact sample_makes.
  - exact sample_apart.
  - apply list_elem_of_In. by left.
  - vm_compute. congruence.
  - reflexivity.
  - reflexivity.
  - apply (bool_decide_unpack _). vm_compute. exact I.
Defined.
