(* ===== verification/TokenEnds.v ===== *)
(** * Calls on tokens return

    The loops of the token storage have fuel in the model; here it is enough for every operation on
    every storage, also on those that are not the storage of a token. *)

From Stdlib Require Import ZArith Lia Strings.Byte.
From stdpp Require Import base tactics option numbers list gmap strings.
From S2P Require Import Prelude Common GoMap World ValProcessor Evm Machine TokenOps TokenStream TokenSig TokenStorage Token.

(** The computation ends, and what it returns satisfies [P]. *)
Definition returns {S A} (P : A → Prop) (m : stM S A) : Prop :=
  ∀ s, match (m s).1 with Ok a => P a | NoFuel => False | _ => True end.

Definition any {A} (_ : A) : Prop := True.

Lemma returns_bind {S A B} (Q : A → Prop) (P : B → Prop) (m : stM S A) (f : A → stM S B) :
  returns Q m → (∀ a, Q a → returns P (f a)) → returns P (m ≫= f).
Proof.
  intros Hm Hf s. specialize (Hm s). unfold mbind, stM_bind. destruct (m s) as [[a| | |] s1]; [by apply Hf|done..].
Qed.

Lemma returns_bind_any {S A B} (P : B → Prop) (m : stM S A) (f : A → stM S B) :
  returns any m → (∀ a, returns P (f a)) → returns P (m ≫= f).
Proof. intros Hm Hf. apply (returns_bind any); auto. Qed.

Lemma returns_mret {S A} (P : A → Prop) (a : A) : P a → returns P (mret (M := stM S) a).
Proof. by intros H s. Qed.

Lemma returns_liftR {S A} (r : go_res A) : r ≠ NoFuel → returns any (liftR (S := S) r).
Proof. intros H s. by destruct r. Qed.

Lemma returns_modify {S} (f : S → S) : returns any (modify f).
Proof. by intros s. Qed.

Lemma returns_getS {S} : returns any (getS (S := S)).
Proof. by intros s. Qed.

Lemma returns_guard {S} b e : returns any (guard (S := S) b e).
Proof. intros s. by destruct b. Qed.

Lemma returns_ends {S A} (m : stM S A) s : returns any m → (m s).1 ≠ NoFuel.
Proof. intros H Hn. specialize (H s). by rewrite Hn in H. Qed.

Lemma finishes_returns {A} (m : stM StorageStream A) : finishes m → returns any m.
Proof. intros H s. specialize (H s). by destruct (m s) as [[]]. Qed.

Lemma any_I {A} (a : A) : any a.
Proof. exact I. Qed.

Create HintDb ending.
#[local] Hint Resolve returns_mret returns_modify returns_getS returns_guard any_I : ending.
#[local] Hint Resolve go_slice_ends deref_ends fail_if_ends Uint64BE_ends Uint16BE_ends go_index_ends propsSize_ends fieldLength_ends make_bytes_ends : ending.

(** One step of a proof that a computation ends. *)
Ltac returns_step :=
  match goal with
  | |- returns _ (mbind _ _) => apply returns_bind_any; [|intros ?]
  | |- returns _ (let '(_, _) := ?x in _) => destruct x
  | |- returns _ (if ?b then _ else _) => destruct b
  | |- returns _ (match ?x with _ => _ end) => destruct x
  | |- returns _ (liftR _) => apply returns_liftR
  | |- returns _ _ => solve [auto with ending]
  | |- mbind _ _ ≠ NoFuel => apply bind_ends; [|intros ? _]
  | |- (match ?x with _ => _ end) ≠ NoFuel => destruct x
  | |- Ok _ ≠ NoFuel => done
  | |- Err _ ≠ NoFuel => done
  | |- Panic ≠ NoFuel => done
  | |- _ ≠ NoFuel => solve [auto with ending]
  end.

(** ** Streams *)

Lemma FillBytes_ends n z : FillBytes n z ≠ NoFuel.
Proof. unfold FillBytes. by destruct (_ <? _). Qed.
#[local] Hint Resolve FillBytes_ends : ending.

Lemma slot_ends off : slot off ≠ NoFuel.
Proof. unfold slot. repeat returns_step. Qed.
#[local] Hint Resolve slot_ends : ending.

Lemma getSlot_returns off : returns any (getSlot off).
Proof. unfold getSlot. repeat returns_step. Qed.

Lemma write_loop_returns fuel : ∀ b off res pos, (pos < 32)%nat → (length b - res ≤ fuel)%nat →
  returns any (do_loop fuel copy_in b off res pos).
Proof.
  induction fuel as [|fuel IH]; intros b off res pos Hp Hf; cbn [do_loop]; destruct (Nat.ltb_spec res (length b)) as [Hl|];
    [lia|auto with ending| |auto with ending].
  apply returns_bind_any; [apply getSlot_returns|]. intros key. apply returns_bind_any; [auto with ending|]. intros s.
  unfold copy_in. cbv beta iota. apply returns_bind_any; [auto with ending|]. intros _. rewrite take_drop. apply IH; [lia|].
  rewrite !length_drop, length_fb. lia.
Qed.

Lemma WriteAt_returns b off : returns any (WriteAt b off).
Proof.
  unfold WriteAt, do_at. apply returns_bind_any; [|intros [n l]; auto with ending]. destruct (Z.ltb_spec off 0); [by apply returns_liftR|].
  rewrite position_Ok by done. apply (returns_bind (λ p, p < 32)%nat).
  - intros s. cbn. pose proof (Z.mod_pos_bound off 32 ltac:(lia)). lia.
  - intros p Hp. apply write_loop_returns; lia.
Qed.

Lemma ReadAt_returns b off : returns any (ReadAt b off).
Proof. apply finishes_returns, ReadAt_finishes. Qed.

Lemma ReadFromStream_returns : returns any ReadFromStream.
Proof. apply finishes_returns, ReadFromStream_finishes. Qed.
#[local] Hint Resolve WriteAt_returns ReadAt_returns ReadFromStream_returns : ending.

(** ** Storages *)

Lemma codec_ends tp : getDefaultEncoderAndDecoder tp ≠ NoFuel.
Proof. unfold getDefaultEncoderAndDecoder. repeat returns_step. Qed.
#[local] Hint Resolve codec_ends : ending.

Lemma new_fields_ends fds : ∀ total, new_fields total fds ≠ NoFuel.
Proof. induction fds as [|fd fds IH]; intros total; cbn [new_fields]; repeat returns_step; auto. Qed.
#[local] Hint Resolve new_fields_ends : ending.

Lemma NewSignatureV1_ends fds : NewSignatureV1 fds ≠ NoFuel.
Proof. unfold NewSignatureV1. repeat returns_step. Qed.

Lemma vp_ends vp : vp_KeyProperties vp ≠ NoFuel ∧ vp_ValueProperties vp ≠ NoFuel.
Proof. by destruct vp. Qed.

Lemma NewFieldEntry_ends info : NewFieldEntry info ≠ NoFuel.
Proof.
  destruct (vp_ends (fd_vp (fi_descriptor info))). unfold NewFieldEntry, newByteMap. repeat returns_step; done.
Qed.

Lemma fillFields_ends sign : fillFields sign ≠ NoFuel.
Proof.
  unfold fillFields. generalize (∅ : gmap bytes FieldEntry). induction (sig_fields sign) as [|info l IH]; intros fs; cbn [fill_fields]; [done|].
  apply bind_ends; [apply NewFieldEntry_ends|]. intros e _. apply IH.
Qed.
#[local] Hint Resolve NewSignatureV1_ends fillFields_ends : ending.

Lemma encodeScalar_ends v : encodeScalar v ≠ NoFuel.
Proof. by destruct v. Qed.

Lemma encode_ends c v : encode c v ≠ NoFuel.
Proof.
  assert (∀ l buf, encode_elems buf l ≠ NoFuel) as He.
  { induction l as [|x l IH]; intros buf; cbn [encode_elems]; [done|]. apply bind_ends; [apply encodeScalar_ends|auto]. }
  destruct v, c; cbn; auto; done.
Qed.

Lemma decode_kind_ends buf k cur : decode_kind buf k cur ≠ NoFuel.
Proof. destruct k; cbn [decode_kind]; unfold Uint32BE; repeat returns_step; apply UintBE_ends. Qed.

(** An element has at least a byte. *)
Lemma elems_ends k fuel : ∀ value buf, (length buf ≤ fuel)%nat → decode_elems fuel k value buf ≠ NoFuel.
Proof.
  induction fuel as [|fuel IH]; intros value [|b buf] Hl; cbn [decode_elems]; try done; [cbn in Hl; lia|].
  apply bind_ends; [apply go_slice_ends|]. intros e _. apply bind_ends; [apply decode_kind_ends|]. intros v _.
  apply bind_ends; [apply go_slice_ends|]. intros rest [Hr _]%go_slice_length. apply IH.
  cbn [length] in *. assert (1 ≤ elemSize k)%nat by (destruct k; cbn; lia). lia.
Qed.

Lemma decode_ends c buf p : decode c buf p ≠ NoFuel.
Proof.
  destruct p as [|k cur| |k cur|]; [done| |by destruct c| |by destruct c].
  - destruct c; cbn; try done; [destruct k; cbn; try done|]; apply decode_kind_ends.
  - destruct c; cbn; try done. destruct (negb _); [done|]. by apply elems_ends.
Qed.
#[local] Hint Resolve encode_ends decode_ends : ending.

Section token.
Context {HC : Crypto} {HR : MapRange} {HB : BigConv}.

Lemma ReadField_returns st name to : returns any (ReadField st name to).
Proof. unfold ReadField, entry_Read, Get. repeat returns_step. Qed.

Lemma WriteField_returns st name v : returns any (WriteField st name v).
Proof. unfold WriteField, entry_Write, Put. repeat returns_step. Qed.

Lemma NewStorage_returns fds : returns any (NewStorage fds).
Proof. unfold NewStorage, WriteToStream. repeat returns_step. Qed.

Lemma ReadStorage_returns : returns any ReadStorage.
Proof. unfold ReadStorage. repeat returns_step. Qed.
#[local] Hint Resolve ReadField_returns WriteField_returns NewStorage_returns ReadStorage_returns : ending.

(** ** Operations *)

Lemma as_uint256_ends v : as_uint256 v ≠ NoFuel.
Proof. by destruct v. Qed.

Lemma as_uint8_ends v : as_uint8 v ≠ NoFuel.
Proof. by destruct v. Qed.

Lemma as_bool_ends v : as_bool v ≠ NoFuel.
Proof. by destruct v. Qed.

Lemma as_bytes_ends v : as_bytes v ≠ NoFuel.
Proof. by destruct v. Qed.

Lemma toUint256_ends z : toUint256 z ≠ NoFuel.
Proof. unfold toUint256. by destruct (FromBig256 z) as [? []]. Qed.
#[local] Hint Resolve as_uint256_ends as_uint8_ends as_bool_ends as_bytes_ends toUint256_ends : ending.

Lemma descriptors_ends op : newFieldsDescriptors op ≠ NoFuel.
Proof.
  unfold newFieldsDescriptors, newByteArrayDescriptor, newByteArrayScalarMapDescriptor, newByteArrayByteArrayMapDescriptor,
    newByteArrayByteSliceMapDescriptor, newScalarScalarMapDescriptor, newScalarField, NewFieldDescriptor, NewMapProperties, NewScalarProperties.
  repeat returns_step.
Qed.
#[local] Hint Resolve descriptors_ends : ending.

Lemma on_stream_returns {A} token (m : stM StorageStream A) : returns any m → returns any (on_stream token m).
Proof. intros H w. specialize (H (NewStorageStream token w)). unfold on_stream. by destruct (m (NewStorageStream token w)). Qed.

Lemma addLog_returns token sig es : returns any (addLog token sig es).
Proof. unfold addLog. destruct (collect_entries [sig] [] es). auto with ending. Qed.
#[local] Hint Resolve addLog_returns : ending.

Lemma revertOnError_returns {A} (m : stM World A) : returns any m → returns any (revertOnError m).
Proof. intros H w. specialize (H w). unfold revertOnError. by destruct (m w) as [[]]. Qed.

(** Computations that return the event to be emitted. *)
Ltac event_step := apply (returns_bind (returns any)); [|intros ? ?].

Lemma event20_returns token from to v : returns any (TransferWrc20 token from to v).
Proof. unfold TransferWrc20. repeat returns_step. Qed.

Lemma event721_returns token from to v : returns any (TransferWrc721 token from to v).
Proof. unfold TransferWrc721. repeat returns_step. Qed.

Lemma approval20_returns token from to v : returns any (ApprovalWrc20 token from to v).
Proof. unfold ApprovalWrc20. repeat returns_step. Qed.

Lemma approval721_returns token from to v : returns any (ApprovalWrc721 token from to v).
Proof. unfold ApprovalWrc721. repeat returns_step. Qed.
#[local] Hint Resolve event20_returns event721_returns approval20_returns approval721_returns : ending.

Lemma move_returns st from to v : returns any (move st from to v).
Proof. unfold move, read_uint256, writeToMap, readFromMap. repeat returns_step. Qed.

Lemma open_returns token : returns any (newStorageWithoutStdCheck token).
Proof. unfold newStorageWithoutStdCheck, std_UnmarshalBinary. repeat returns_step. Qed.
#[local] Hint Resolve move_returns open_returns : ending.

Lemma newStorage_returns token std : returns any (newStorage token std).
Proof. unfold newStorage. repeat returns_step. Qed.
#[local] Hint Resolve newStorage_returns : ending.

#[local] Hint Unfold no_token read_approved readAddressFromMap readAddress read_uint256 readFromMap writeToMap
  wrc20SpendAllowance wrc721TransferFrom wrc721Approve change_state makePayment buy20 buy721 : calls.

Ltac call_step := first [returns_step | progress autounfold with calls].

(** The event itself, or an error. *)
Ltac event_done := match goal with
  | |- returns _ (mret _) => apply returns_mret; repeat call_step
  | |- returns _ (liftR (Err _)) => intros ?; exact I
  end.

Lemma create_returns caller token op : returns any (tokenCreate caller token op).
Proof.
  unfold tokenCreate. do 5 (apply returns_bind_any; [repeat call_step|intros ?]). apply on_stream_returns.
  do 4 (apply returns_bind_any; [repeat call_step|intros ?]). event_step; [|repeat call_step; done].
  unfold create20, create721, CreateWrc721. repeat call_step; event_done.
Qed.

Lemma transfers_return caller token std from to v :
  returns any (transferFrom caller token std from to v) ∧ returns any (transfer caller token std to v) ∧
  returns any (approve caller token std to v).
Proof.
  split_and!; apply on_stream_returns; (apply returns_bind_any; [repeat call_step|intros _]);
    (apply returns_bind_any; [repeat call_step|intros st]); [event_step|repeat call_step|event_step]; try (repeat call_step; done).
  all: repeat call_step; event_done.
Qed.

Lemma token_handle_returns caller token value op : returns any (token_handle caller token value op).
Proof.
  destruct op; cbn [token_handle]; match goal with
    | |- returns _ (mret _) => by apply returns_mret
    | |- returns _ (tokenCreate _ _ _) => apply create_returns
    | |- returns _ (transferFrom _ _ _ _ _ _) => apply transfers_return
    | |- returns _ (transfer _ _ _ _ _) => apply (transfers_return _ _ _ caller)
    | |- returns _ (approve _ _ _ _ _) => apply (transfers_return _ _ _ caller)
    | _ => apply on_stream_returns; unfold ApprovalForAllWrc721; repeat call_step
    end.
Qed.

Lemma call_returns caller token value op : returns any (TokenProcessor_Call caller token value op).
Proof.
  unfold TokenProcessor_Call. apply returns_bind_any; [auto with ending|]. intros w. apply returns_bind_any; [repeat call_step|]. intros t.
  apply returns_bind_any; [repeat call_step|]. intros _. apply revertOnError_returns, token_handle_returns.
Qed.

Lemma Properties_returns token id : returns any (Properties token id).
Proof. apply on_stream_returns. unfold read_bytes, read_byte, read_word, item_properties. repeat call_step. Qed.

(** C25: every call of the token processor returns or panics, for every operation and every state, also
    when the storage of the account is not one of a token, and so does the check whether an address is a
    token. *)
Theorem token_calls_return caller token value op w :
  (TokenProcessor_Call caller token value op w).1 ≠ NoFuel ∧ Processor_IsToken w token ≠ NoFuel.
Proof.
  split; [apply returns_ends, call_returns|]. unfold Processor_IsToken. pose proof (returns_ends _ w (Properties_returns token None)) as H.
  destruct (negb _), (no_address token); try done. by destruct (Properties token None w).1.
Qed.
End token.
