(* ===== verification/TokenTx.v ===== *)
(** * Transactions on tokens

    The token processor of Token.v in the transitions of Transition.v, and storages on which the check
    for a token panics. *)

From Stdlib Require Import ZArith Lia Strings.Byte.
From stdpp Require Import base tactics option numbers list gmap strings.
From S2P Require Import Prelude Common Chain GoMap DelegRules ValOps World TxLog ValStorage DepositSig ValProcessor ValCache ValLife Fees Evm Machine Transition TransFacts.
From S2P Require Import TokenOps TokenStream TokenSig TokenStorage Token TokenFacts Wrc20.

Section processor.
Context {HC : Crypto} {HR : MapRange} {HB : BigConv}.

#[export] Instance tokens : TokenProcessor := {|
  TokenOperation := TokenOp;
  IsTokenCreate := λ data, match tok_GetOpCode data with Ok code => bool_decide (code = CreateCode) | _ => false end;
  TokenDecodeBytes := tok_DecodeBytes;
  IsToken := Processor_IsToken;
  TokenCall := TokenProcessor_Call
|}.

#[export] Instance token_laws : TokenLaws.
Proof. split. intros R from to value op w HVM. exact (Call_keeps R HVM from to value op w). Qed.

(** ** A storage that is empty *)

Lemma empty_signature s : holds s 0 [x00; x00; x00] → fetches ReadFromStream s (MkSignature 0 [], 3).
Proof.
  intros Hh. apply (holds_app s 0 [x00; x00] [x00]) in Hh as [H1 H2]. unfold ReadFromStream.
  fetch_step ltac:(eapply fetch_bytes; [|exact H1]; done). rewrite Hs in H2.
  fetch_step ltac:(eapply fetch_bytes; [|exact H2]; done). rewrite go_index_head. fetch_step ltac:(by apply fetches_liftR).
  fetch_step ltac:(apply fetches_mret). fetch_step ltac:(by apply fetches_liftR). apply fetches_mret.
Qed.

Lemma error_bind {S X Y} (m : stM S X) (f : X → stM S Y) s e : (m s).1 = Err e → ((m ≫= f) s).1 = Err e.
Proof. unfold mbind, stM_bind. destruct (m s) as [r s']. cbn. by intros ->. Qed.

Lemma empty_open s token : Exist (stateDb s) token = true → holds s 0 [x00; x00; x00] →
  (newStorageWithoutStdCheck token s).1 = Err ErrFieldNotFound.
Proof.
  intros Hx Hh. destruct (empty_signature s Hh) as (s' & Hr & _). unfold newStorageWithoutStdCheck. rewrite getS_bind, Hx. cbn [negb].
  unfold guard. cbn [fail_if]. rewrite liftR_Ok_bind.
  assert (ReadStorage s = (Ok (MkStorage (MkSignature 0 []) ∅), s')) as Hrs.
  { unfold ReadStorage. rewrite (stM_Ok_bind _ _ _ _ _ Hr). done. }
  rewrite (stM_Ok_bind _ _ _ _ _ Hrs). by apply error_bind.
Qed.

(** An address whose first slot is empty is not one of a token. *)
Lemma empty_not_token w token : GetState w token (slot_key 0) = zero_fixed 32 → Processor_IsToken w token = Ok false.
Proof.
  intros Hslot. unfold Processor_IsToken. destruct (Exist w token) eqn:Hx; [|done]. destruct (no_address token); [done|]. cbn [negb].
  assert (holds (NewStorageStream token w) 0 [x00; x00; x00]) as Hh.
  { split; [split; vm_compute; congruence|]. rewrite <- slot_bytes; [|done|by apply (bool_decide_unpack _)].
    change (Z.to_nat (0 mod 32)) with 0%nat. change (0 / 32) with 0. rewrite drop_0.
    unfold slot_at, NewStorageStream. cbn [bufferedSlots stateDb tokenAddress]. rewrite lookup_empty. cbn [default]. unfold id. by rewrite Hslot. }
  assert ((Properties token None w).1 = Err ErrFieldNotFound) as ->; [|done]. unfold Properties, on_stream.
  match goal with |- context [let '(_, _) := ?m (NewStorageStream token w) in _] => set (body := m) end.
  assert ((body (NewStorageStream token w)).1 = Err ErrFieldNotFound) as Hb by (by apply error_bind, empty_open).
  destruct (body (NewStorageStream token w)). exact Hb.
Qed.

(** ** A storage that is not one of a token *)

(** The signature of a field with the standard, which is 2^63 bytes long. *)
Definition huge_field : list fieldDescriptor := [MkDescriptor StandardField (bytes_props (2 ^ 63))].
Definition huge_slot : Hash := BytesToHash (head_bytes huge_field ++ replicate 9 x00).

Definition huge_info : FieldInfo := MkFieldInfo (MkDescriptor StandardField (bytes_props (2 ^ 63))) (Some 23) (2 ^ 63).

Lemma huge_signature : NewSignatureV1 huge_field = Ok (MkSignature signatureV1 [huge_info]).
Proof. vm_compute. reflexivity. Qed.

Lemma huge_fill : fillFields (MkSignature signatureV1 [huge_info]) = Ok {[StandardField := fieldEntry huge_info ArrayCodec]}.
Proof. reflexivity. Qed.

Lemma huge_read st s : fields st = {[StandardField := fieldEntry huge_info ArrayCodec]} →
  (ReadField st StandardField (TPtr PBytes) s).1 = Panic.
Proof. intros Hst. unfold ReadField. rewrite Hst, lookup_singleton_eq. reflexivity. Qed.

Lemma panic_bind {S X Y} (m : stM S X) (f : X → stM S Y) s : (m s).1 = Panic → ((m ≫= f) s).1 = Panic.
Proof. unfold mbind, stM_bind. destruct (m s) as [r s']. cbn. by intros ->. Qed.

Lemma huge_open s token : Exist (stateDb s) token = true → holds s 0 (head_bytes huge_field) →
  (newStorageWithoutStdCheck token s).1 = Panic.
Proof.
  intros Hx Hh. destruct (Signature_of huge_field) as (sig & Hnew & _ & _ & Hread).
  { repeat constructor; cbn; unfold is_u64, two64; try lia; done. }
  { cbn. lia. }
  { done. }
  assert (sig = MkSignature signatureV1 [huge_info]) as -> by (rewrite huge_signature in Hnew; congruence).
  destruct (Hread s Hh) as (s' & Hr & _). unfold newStorageWithoutStdCheck. rewrite getS_bind, Hx. cbn [negb].
  unfold guard. cbn [fail_if]. rewrite liftR_Ok_bind.
  assert (ReadStorage s = (Ok (MkStorage (MkSignature signatureV1 [huge_info]) {[StandardField := fieldEntry huge_info ArrayCodec]}), s')) as Hrs.
  { unfold ReadStorage. rewrite (stM_Ok_bind _ _ _ _ _ Hr). cbv beta iota. rewrite huge_fill. by rewrite liftR_Ok_bind. }
  rewrite (stM_Ok_bind _ _ _ _ _ Hrs). by apply panic_bind, huge_read.
Qed.

Lemma huge_holds w token : GetState w token (slot_key 0) = huge_slot → holds (NewStorageStream token w) 0 (head_bytes huge_field).
Proof.
  intros Hslot. split; [split; vm_compute; congruence|]. rewrite <- slot_bytes; [|done|by apply (bool_decide_unpack _)].
  change (Z.to_nat (0 mod 32)) with 0%nat. change (0 / 32) with 0. rewrite drop_0.
  unfold slot_at, NewStorageStream. cbn [bufferedSlots stateDb tokenAddress]. rewrite lookup_empty. cbn [default]. unfold id. rewrite Hslot.
  vm_compute. reflexivity.
Qed.

Lemma huge_panics w token : Exist w token = true → no_address token = false → GetState w token (slot_key 0) = huge_slot →
  Processor_IsToken w token = Panic.
Proof.
  intros Hx Hno Hslot. unfold Processor_IsToken. rewrite Hx, Hno. cbn [negb].
  assert ((Properties token None w).1 = Panic) as ->; [|done]. unfold Properties, on_stream.
  match goal with |- context [let '(_, _) := ?m (NewStorageStream token w) in _] => set (body := m) end.
  assert ((body (NewStorageStream token w)).1 = Panic) as Hb.
  { apply panic_bind, huge_open; [done|by apply huge_holds]. }
  destruct (body (NewStorageStream token w)). exact Hb.
Qed.
End processor.

(** ** Transactions *)

Section transactions.
Context {HBL : Bitlist} {HM : MapRange} {HS : SortSlice} {HC : Crypto} {HG : SigScheme} {HP : Precompiles}
  {HI : Interpreter} {HB : BigConv}.
Context (bc : Blockchain) (ctx : TxContext) (msg : Message).

Lemma kept_SubBalance a v w b k : GetState (SubBalance a v w) b k = GetState w b k ∧ (Exist w b = true → Exist (SubBalance a v w) b = true).
Proof.
  Transparent SubBalance. split; [|apply Exist_update]. unfold SubBalance, GetState. rewrite account_update.
  case_decide; [by subst|done]. Opaque SubBalance.
Qed.

(** C39: a contract can write any bytes to its storage, also the signature of a token with a field that
    is longer than a slice can be. The check whether an address is a token then panics, and so does
    every transaction with data to that contract that its sender can pay for. *)
Theorem crafted_storage_panics w gp t baseFee cap tips : affordable bc ctx msg w gp t baseFee cap tips → m_Data msg ≠ [] →
  Exist w t = true → no_address t = false → GetState w t (slot_key 0) = huge_slot →
  (ApplyMessage (H6 := tokens) bc ctx msg w gp).1 = Panic.
Proof.
  intros Ha Hd Hx Hno Hslot. unfold ApplyMessage.
  enough ((TransitionDb (H6 := tokens) bc ctx msg (MkTxState w gp 0 0)).1 = Panic) as Hp by (by destruct (TransitionDb _ _ _ _)).
  unfold TransitionDb. rewrite (stM_Ok_bind _ _ _ _ _ (preCheck_affordable _ _ _ _ _ _ _ _ _ Ha)), getS_bind. cbn [ts_world].
  apply panic_bind. unfold GetTxType. destruct (m_Data msg) as [|b l]; [done|]. cbn [length Nat.eqb].
  rewrite (af_to _ _ _ _ _ _ _ _ _ Ha). destruct (kept_SubBalance (m_From msg) (m_Gas msg * price msg baseFee tips) w t (slot_key 0)) as [Hs He].
  cbn [IsToken tokens]. rewrite huge_panics; [done|by apply He|done|by rewrite Hs].
Qed.
End transactions.

(** ** Witness *)

#[local] Existing Instances ssz_bitlist list_range merge_slice toy_sig.

Definition poisoned : World := SetState (toy_addr x44) (slot_key 0) huge_slot toy_rich.

Lemma crafted_storage_panics_witness :
  (@ApplyMessage _ _ _ _ _ _ _ (@tokens _ _ {| FromBig256 := λ z, (z mod two256, two256 <=? Z.abs z) |})
    toy_bc toy_txctx (toy_message (toy_addr x44) 100000 5 [x01]) poisoned 1000000).1 = Panic.
Proof.
  apply (crafted_storage_panics toy_bc toy_txctx (toy_message (toy_addr x44) 100000 5 [x01]) poisoned 1000000 (toy_addr x44) 100 300 20).
  - destruct (toy_affordable 100000 ltac:(lia)). split; try done.
  - done.
  - reflexivity.
  - reflexivity.
  - unfold poisoned. rewrite GetState_SetState, decide_True by done. reflexivity.
Defined.
