(* ===== verification/ValTx.v ===== *)
(** * Validator transactions

    The operations of validators from the message to the record: a message to the address of the
    validators is checked, charged and dispatched by Transition.v, and executed by ValProcessor.v.
    The theorems of ValLife.v about calls become theorems about transactions, with the token
    processor of Token.v, which is asked first whether the address is a token. *)

From Stdlib Require Import ZArith Lia Strings.Byte.
From stdpp Require Import base tactics option numbers list gmap strings.
From S2P Require Import Prelude Common Chain GoMap DelegRules ValOps World TxLog DepositSig Validator ValStorage.
From S2P Require Import ValCache ValProcessor ValProcFacts ValInv ValLife ValPay Fees Evm Transition TransFacts.
From S2P Require Import TokenStream Token Wrc20Life TokenTx.

#[local] Existing Instance tokens | 0.
#[local] Existing Instance token_laws | 0.

Lemma credited a v w b : GetBalance (AddBalance a v w) b = GetBalance w b + if decide (b = a) then v else 0.
Proof. rewrite GetBalance_AddBalance. repeat case_decide; subst; done || lia. Qed.

Lemma debited a v w b : GetBalance (SubBalance a v w) b = GetBalance w b - if decide (b = a) then v else 0.
Proof. rewrite GetBalance_SubBalance. repeat case_decide; subst; done || lia. Qed.

Section transactions.
Context {HB : Bitlist} {HM : MapRange} {HS : SortSlice} {HC : Crypto} {HG : SigScheme} {HP : Precompiles} {HI : Interpreter}
  {HBC : BigConv} {HL : InterpreterLaws}.
Context (bc : Blockchain) (ctx : TxContext) (msg : Message) (sa : Address).

(** The call that the message makes. *)
Definition call_of : Tx := MkTx (m_From msg) (to msg) (Some (m_Value msg)) (m_Data msg) (m_TxHash msg).

(** A message with an operation to the address of the validators, whose storage has no signature of a
    token. *)
Record operation_message (w : World) (op : Operation) : Prop := {
  om_config : ValidatorsStateAddress (config bc) = Some sa;
  om_to : m_To msg = Some sa;
  om_token : GetState w sa (slot_key 0) = zero_fixed 32;
  om_decode : DecodeOperation (m_Data msg) = Ok op;
  om_gas : is_u64 (m_Gas msg);
  om_priced : priced ctx msg
}.

Definition is_sync (op : Operation) : bool := match op with OpSync _ => true | _ => false end.

Lemma operation_type op w fee : operation_message w op →
  GetTxType bc (SubBalance (m_From msg) fee w) msg = Ok (if is_sync op then ValidatorSyncTxType else ValidatorMethodTxType).
Proof.
  intros []. unfold GetTxType. destruct (m_Data msg) as [|b d] eqn:Hd; [done|]. cbn [length Nat.eqb].
  rewrite om_to0. cbn [IsToken tokens]. rewrite empty_not_token by (by rewrite (proj1 (kept_SubBalance _ _ _ _ _))).
  cbn [mbind go_res_bind]. rewrite om_decode0. unfold IsValidatorOp, GetValidatorsStateAddress. rewrite om_config0.
  rewrite bool_decide_eq_true_2 by done. by destruct op.
Qed.

(** What the transaction of an operation does: the call, in a world where the gas is paid, and
    then the refund and the reward. *)
Record operated (w : World) (gp : Z) (res : ExecutionResult) (w' : World) (baseFee tips reward : Z)
    (w1 : World) (r : go_res bytes) (w2 : World) : Prop := {
  op_call : exec bc (tc_block ctx) call_of w1 = (r, w2);
  op_result : r = match res_Err res with None => Ok (ReturnData res) | Some e => Err e end;
  op_before a : GetCode w1 a = GetCode w a;
  op_before_balance a :
    GetBalance w1 a = GetBalance w a - if decide (a = m_From msg) then m_Gas msg * price msg baseFee tips else 0;
  op_before_logs : logs w1 = logs w;
  op_after a : GetCode w' a = GetCode w2 a;
  op_after_balance a :
    GetBalance w' a = GetBalance w2 a +
      (if decide (a = m_From msg) then (m_Gas msg - UsedGas res) * price msg baseFee tips else 0) +
      (if decide (a = tc_Coinbase ctx) then reward else 0);
  op_after_logs : logs w' = logs w2
}.

Lemma operation_operated op w gp res w' gp' : operation_message w op → is_u64 (refund w) →
  ApplyMessage bc ctx msg w gp = (Ok res, (w', gp')) → ∃ baseFee cap tips reward w1 r w2,
  bought ctx msg w gp baseFee cap tips ∧ creatorReward ctx msg = Ok reward ∧
  operated w gp res w' baseFee tips reward w1 r w2.
Proof.
  intros Hop Hrf Ha. destruct (ApplyMessage_Ok bc ctx msg w gp res w' gp' (om_gas _ _ Hop) Hrf Ha)
    as (baseFee & cap & tips & ty & gas & reward & s2 & Htr). destruct Htr.
  rewrite (operation_type op _ _ Hop) in tr_type. injection tr_type as <-.
  pose proof (priced_price _ _ _ _ _ _ _ tr_bought (om_priced _ _ Hop)) as Hpr.
  set (s1 := charged msg w gp (m_Gas msg * price msg baseFee tips) (m_Gas msg - gas)) in *.
  assert (callW (exec bc (tc_block ctx) call_of) s1 = (Ok (ReturnData res, res_Err res), s2)) as Hc
    by (destruct op; exact tr_execute).
  unfold callW in Hc. destruct (exec bc (tc_block ctx) call_of (ts_world s1)) as [r w2] eqn:He.
  assert (∀ a, account (ts_world s1) a = account (SubBalance (m_From msg) (m_Gas msg * price msg baseFee tips) w) a) as Hacc.
  { intros a. apply charged_account. }
  exists baseFee, cap, tips, reward, (ts_world s1), r, w2. split; [done|]. split; [done|].
  assert (w2 = ts_world s2 ∧ r = match res_Err res with None => Ok (ReturnData res) | Some e => Err e end) as [-> Hr].
  { destruct r; simplify_eq; rewrite <- ?H, <- ?H0; done. }
  split; [done|done|..].
  - intros a. transitivity (GetCode (SubBalance (m_From msg) (m_Gas msg * price msg baseFee tips) w) a); [|by world_simpl].
    by apply GetCode_account.
  - intros a. transitivity (GetBalance (SubBalance (m_From msg) (m_Gas msg * price msg baseFee tips) w) a);
      [by apply GetBalance_account|apply debited].
  - cbn. by rewrite (proj1 (proj2 (PrepareAccessList_same msg _))).
  - intros a. subst w'. by world_simpl.
  - intros a. subst w'. rewrite !credited, tr_used, Hpr, (Z.sub_sub_distr (m_Gas msg)), Z.sub_diag, Z.add_0_l. done.
  - by subst w'.
Qed.



(** C17: When the operation of a validator transaction fails, the transaction is still a transaction
    that pays for its gas: no code, record or log changes, and no balance but those of the sender and
    of the creator of the block. The storage of the address of the validators is empty, so that the
    message is not one to a token. *)
Theorem failed_operation op w gp res w' gp' e :
  operation_message w op → is_u64 (refund w) →
  ApplyMessage bc ctx msg w gp = (Ok res, (w', gp')) → res_Err res = Some e →
  ∃ baseFee cap tips reward, bought ctx msg w gp baseFee cap tips ∧ creatorReward ctx msg = Ok reward ∧
    (∀ a, GetCode w' a = GetCode w a) ∧ logs w' = logs w ∧
    (∀ a, GetBalance w' a = GetBalance w a -
       (if decide (a = m_From msg) then UsedGas res * price msg baseFee tips else 0) +
       (if decide (a = tc_Coinbase ctx) then reward else 0)).
Proof.
  intros Hop Hrf Ha Hres.
  destruct (operation_operated _ _ _ _ _ _ Hop Hrf Ha) as (baseFee & cap & tips & reward & w1 & r & w2 & Hb & Hrw & []).
  rewrite Hres in op_result0. subst r. rewrite exec_cases in op_call0. cbn [tx_data call_of] in op_call0.
  rewrite (om_decode _ _ Hop) in op_call0. destruct (handle _ _ _ _ _ _ _ _) as [[] ?]; simplify_eq.
  exists baseFee, cap, tips, reward. split; [done|]. split; [done|]. unfold bump in *. split_and!.
  - intros a. rewrite op_after0, GetCode_SetNonce. done.
  - by rewrite op_after_logs0, logs_SetNonce.
  - intros a. rewrite op_after_balance0, GetBalance_SetNonce, op_before_balance0. repeat case_decide; try done; lia.
Qed.

(** The fee cap of a validator's operation may be below the base fee. Then the tips are negative,
    and when the cap is at most half of the base fee the creator of the block pays for a request to
    exit or to withdraw instead of being paid. *)
Theorem low_cap_charges_creator op w gp res w' gp' baseFee cap :
  operation_message w op → (∃ x, op = OpExit x) ∨ (∃ x, op = OpWithdrawal x) → is_u64 (refund w) →
  ApplyMessage bc ctx msg w gp = (Ok res, (w', gp')) → res_Err res = None →
  tc_BaseFee ctx = Some baseFee → m_GasFeeCap msg = Some cap → 2 * cap ≤ baseFee → 0 < m_Gas msg * baseFee →
  m_GasTipCap msg = Some 0 → tc_Coinbase ctx ≠ m_From msg →
  GetBalance w' (tc_Coinbase ctx) < GetBalance w (tc_Coinbase ctx).
Proof.
  intros Hop Hreq Hrf Ha Hres Hbf Hcap Hlow Hpos Htip Hne.
  destruct (operation_operated _ _ _ _ _ _ Hop Hrf Ha) as (baseFee' & cap' & tips & reward & w1 & r & w2 & Hb & Hrw & []).
  rewrite Hres in op_result0. subst r.
  assert (same_balances w1 w2) as Hsame.
  { eapply exec_request_balances; [exact op_call0|]. cbn [tx_data call_of]. rewrite (om_decode _ _ Hop). naive_solver. }
  rewrite op_after_balance0, (Hsame _), op_before_balance0.
  rewrite !(decide_False (P := tc_Coinbase ctx = m_From msg)) by done. rewrite decide_True by done.
  destruct (creator_reward_spec (m_Gas msg) baseFee) as (r & Hr & _ & _ & Hup); [lia|].
  unfold creatorReward in Hrw. rewrite Hbf in Hrw. cbn [deref mbind go_res_bind] in Hrw. rewrite Hr in Hrw.
  cbn [mbind go_res_bind] in Hrw. rewrite Htip in Hrw. injection Hrw as <-.
  pose proof (om_gas _ _ Hop) as Hg. unfold is_u64 in Hg. unfold cappedTips. rewrite Hcap, (proj2 (Z.ltb_lt cap (baseFee + 0))) by nia.
  assert (r * 2 < m_Gas msg * baseFee) by lia. nia.
Qed.
End transactions.

(** ** Witnesses *)

#[local] Existing Instances ssz_bitlist list_range merge_slice toy_sig plain_conv.

Definition toy_deposit_message (value : Z) : Message := toy_message toy_vsa 200000 value (tx_data toy_tx).

Lemma toy_deposit_operation value : operation_message toy_bc toy_txctx (toy_deposit_message value) toy_vsa toy_rich (OpDeposit toy_deposit).
Proof. split; try done; try apply toy_priced; vm_compute; split; congruence. Qed.



Lemma failed_operation_witness :
  let r := ApplyMessage toy_bc toy_txctx (toy_deposit_message 7) toy_rich 1000000 in
  ∃ res, r.1 = Ok res ∧ res_Err res = Some ErrTooLowDepositValue ∧ logs r.2.1 = [].
Proof.
  intros r. pose (res := match r.1 with Ok res => res | _ => MkResult 0 None [] end). exists res.
  split; [vm_compute; reflexivity|]. split; [vm_compute; reflexivity|].
  destruct (failed_operation toy_bc toy_txctx (toy_deposit_message 7) toy_vsa (OpDeposit toy_deposit) toy_rich 1000000
    res r.2.1 r.2.2 ErrTooLowDepositValue) as (_ & _ & _ & _ & _ & _ & _ & Hl & _).
  - apply toy_deposit_operation.
  - split; vm_compute; congruence.
  - apply result_eq. vm_compute. reflexivity.
  - vm_compute. reflexivity.
  - rewrite Hl. reflexivity.
Defined.
